(* ===== verification/_CoqProject ===== *)
-Q . S2P
Prelude.v
Names.v
RestartPolicy.v
Config.v
InterfaceEq.v
Validation.v
Graphs.v
Cycle.v
PairingRegistry.v
Supervision.v
Instance.v
Entity.v
Lifecycle.v
Stack.v
StackPairing.v
StackInv.v
StackSteps.v
StackSafety.v
StackGraph.v
Deptree.v
LaunchTypes.v
Bindings.v
PairPlan.v
ObservePlan.v
Clocks.v
LinkPlan.v
LaunchOrder.v
LaunchPlan.v
Compose.v
ComposeSelect.v
ComposeExpand.v
ComposeCopy.v
ComposeMint.v
ComposeJoin.v
ComposeLaunch.v
ComposeRuns.v
Gate.v
Ownership.v
StackHolds.v
HoldsSafety.v
SubscriptionBuffer.v
ActionWire.v
ActionEngine.v
ActionSafety.v
ActionCancel.v
ActionEndings.v
ActionPolls.v
ActionResults.v
ActionBounds.v
CancelLinks.v
ActionRuns.v
ServiceCall.v
ActionClient.v
GoalFollow.v
