(* ===== verification/Prelude.v ===== *)
(** * Peppy: a verification development

    Peppy runs a robot's software as nodes. A daemon on each machine keeps a
    stack of node entities; each node declares what it depends on, what it
    offers and how it is restarted, and runs as any number of instances. A
    launcher file says which instances run where and how their slots are
    linked; the daemon plans it, starts the instances in order, supervises
    their processes and pairs them. Nodes talk over a messaging layer.

    ** What is modelled, and where

    Documents and names.
    - [Names]: [peppy-config-model/src/runtime.rs] and its submodules: names,
      producer references, copy tags, clock bindings.
    - [RestartPolicy]: [node/restart.rs], [launcher/restart.rs], and the wire
      form of a restart request.
    - [Config]: [node/types.rs] and its neighbours: cardinalities, the
      [depends_on] lists, interfaces, message formats, mount rules.
    - [InterfaceEq]: the derived [PartialEq] of interfaces.
    - [Validation]: [node/validation.rs], the dependencies of one node.

    The node stack of a daemon ([node-stack-internal]).
    - [Graphs]: the operations of [petgraph] the stack calls, as classes with
      laws ([StableGraph], [Tarjan], [Toposort]), and reference instances.
    - [Cycle]: [service_action_cycle.rs]. [Deptree]: [virtual_deptree.rs].
    - [PairingRegistry]: [node_stack/pairing.rs]. [Supervision]:
      [node_stack/supervision.rs].
    - [Instance], [Entity]: [node_stack/entity.rs], one function per critical
      section of an entity's lock. [Lifecycle]: these as the steps of a
      transition system over one entity.
    - [Stack], [StackPairing], [StackGraph]: [node_stack.rs], one function per
      operation under the stack's lock, over a heap of entity handles.
      [StackInv]: the invariant of its tables. [StackSteps]: the stack as a
      transition system. [StackSafety]: what every reachable stack keeps.

    The planning of a launch ([daemon-config-internal/src/launcher] and
    [core-node-internal/src/services/stack/launch]).
    - [LaunchTypes]: link values, targets, placements and copies of
      [types.rs] and [compose/copy.rs], and the errors of planning.
    - [Bindings]: [bindings.rs]. [PairPlan]: [pairings.rs]. [ObservePlan]:
      [observations.rs]. [Clocks]: [clocks.rs]. [LinkPlan]: [links.rs], the
      pipeline over the four.
    - [LaunchOrder]: [topological_sort] of [orchestrate.rs]. [LaunchPlan]:
      [validate_and_order_dependencies] of the same file, which composes
      [Validation], [LinkPlan] and [LaunchOrder].

    The composition of a launcher from fragments
    ([daemon-config-internal/src/launcher], [composition.rs] and [compose]).
    - [Compose]: the documents of [composition.rs] and [types.rs]: axes,
      options, fragments, adjustments, deployments.
    - [ComposeSelect]: [select.rs], [constraints.rs] and the loaded options of
      [load.rs]. [ComposeExpand]: [expand.rs] and [adjustments.rs], one unit.
    - [ComposeCopy]: [copy.rs] and the checks of a flat document. [ComposeMint]
      and [ComposeJoin]: facts on the copies made, and on attach and detach.
    - [ComposeLaunch]: [prepared.rs] and the report, that is launch, join and
      removal. [ComposeRuns]: every sequence of them.

    Admission onto a daemon's stack ([core-node-internal/src/services]).
    - [Gate]: the [ConcurrencyGate] of [node/gate.rs], with the accept loop and
      the tasks of an action.
    - [Ownership]: the [StackState] of [node/gate.rs] and the [SliceOwnership] of
      [federation.rs], one operation a function.
    - [StackHolds]: the tasks that share them (node goals, stack changes,
      coordinator requests, restarts, resets) as a transition system.
      [HoldsSafety]: what every run keeps.

    Messaging.
    - [SubscriptionBuffer]: [subscription_buffer.rs] of
      [peppy-messaging-interface].
    - [ActionWire]: the envelopes of [peppylib-rs/src/messaging/actions.rs] and
      the failures of [failure.rs].
    - [ActionEngine]: the concurrent engine of an action provider, of the same
      [actions.rs]: its tables, and its tasks one critical section at a time.
      [ActionSafety]: what one step does, and references. [ActionCancel],
      [ActionEndings], [ActionPolls], [ActionResults], [ActionBounds]: what
      every run keeps. [ActionRuns]: runs at which the theorems apply.
    - [CancelLinks]: the tokens linked to a goal's cancel signal, at the grain
      of the operations of [signal_cancel] and [link].
    - [ServiceCall]: a call of a service from both sides: [poll_service] of
      [messaging.rs], [discovery.rs], [services.rs] and the senders of [wire.rs].
    - [ActionClient]: the client half of [actions.rs] up to the handle of a
      goal. [GoalFollow]: what a client does with it: the watch on the producer,
      the reads of the feedback, the cancel after an overflow, the result.

    ** How it is modelled

    A value that several tasks share through an [Arc] is an address in a heap,
    or a cell of a [World], wherever a theorem depends on the sharing. A task
    that releases a lock between two critical sections is split there, and what
    other tasks do in between is arbitrary: the systems of [Lifecycle],
    [StackSteps], [Clocks] (the two atomic operations of a mint),
    [SubscriptionBuffer] (the channel operations of transport and reader),
    [Gate], [StackHolds], [GoalFollow], [ActionEngine] and [CancelLinks] take
    every interleaving; the last two also drop a future where it awaits. A call
    of [ServiceCall] or [ActionClient] runs on what it will read from the
    transport and the clock, and gives what it sent and what it returned. Errors
    are values of [result]; a panic, a lock taken twice by one thread, and a loop
    cut short by its fuel are [None], and the theorems say when they do not
    happen. Integers are [Z] with their width
    written out where it matters, else [nat]; the counters a daemon draws
    generations and incarnations from (64 bits in the code) do not wrap. A [BTreeMap] is a [gmap], listed
    in key order where the code iterates it; the iteration order of a hash map
    is a parameter ([HashOrder]).

    What is not in this repository is a parameter with its documented laws:
    [petgraph] (above), [flume]'s channels ([Flume]), Cap'n Proto
    ([Capnp]), [tokio]'s [RwLock] ([RwLock]), [serde_json5] ([Serde], under which a document
    reads back as [ComposeCopy.as_document] of it), the build
    command, the fork and the clocks the daemon reads.
    Each class has an instance, so that the theorems are not vacuous and the
    examples run.

    Fuel: the start order takes one turn more than there are nodes, since each
    turn places one; a push on a keep-latest queue takes four operations, since
    a full queue has room after one drop and only the reader runs beside it.

    ** What is proved

    - Of an entity, over every interleaving of starts, exits, stops, health
      checks and removals: its slots stay well formed, restarts follow the
      policy and the cap, of the paths that stop a process one wins, a failed
      start leaves no trace or waits again, a build publishes only its own
      artifact ([Lifecycle], [Entity], [Instance], [Supervision]).
    - Of a stack, over every sequence of operations and of steps by tasks that
      hold a handle: keys, edges, pending requirements and root agree with the
      entities, and no two slots are paired twice; what others depend on is kept; no call cycle closes,
      except in the case of [StackSafety.readd_can_close_cycle]; a push returns,
      except in the case of [StackSafety.push_blocks_exactly]; a removed node
      that comes back is wired as before; pairs are exclusive ([StackSafety],
      [StackPairing], [Cycle], [Deptree], [StackGraph], [PairingRegistry]).
    - Of a launch: each validator reports nothing exactly when the plan is
      right, or plans exactly what was declared ([Bindings], [PairPlan],
      [ObservePlan], [Clocks], [Validation]); the start order is deterministic,
      complete and after dependencies ([LaunchOrder]); and together an accepted
      plan fulfils every slot, keeps to one clock per connection and starts the
      producers of node slots before their consumers, not those of contract
      slots ([LaunchPlan]).
    - Of a composed launcher: a selection fills each axis in reach once
      ([ComposeSelect]); a unit keeps every instance of its documents, with the
      adjustments that apply to it and no other ([ComposeExpand]); a copy runs
      its fragments' instances under fresh ids and writes elsewhere only on the
      stack ([ComposeMint]); a copy that is attached and detached gives back the
      plan, where it joined sets that were there ([ComposeJoin]); and every sequence of launch, joins and removals keeps
      instances apart and axes above their floor ([ComposeRuns], which also shows
      where a removal gives away a slot in use and a copy conflicts with itself).
    - Of a daemon's stack, over every interleaving of the work asked of it: one
      goal of an action runs uncancelled, and a guard never frees the slot of a
      later goal ([Gate]); one change holds the stack alone, admitted work but a
      slice begin runs beside no foreign reservation, and a reset cancels all work
      in flight but the requests of a coordinator, for which it waits
      ([HoldsSafety], which also shows a slice begun for a launch that ended).
    - Of messages: a keep-latest queue never waits, stays in order and within
      its capacity; a feedback stream has no gap up to its end or overflows
      openly ([SubscriptionBuffer]).
    - Of an action, over every interleaving of its provider's tasks: requests
      are answered once, a waiting poll gets the outcome its goal ends with, the
      first ending wins, no poll is lost to the race with the accept of its goal,
      nor a cancel that is remembered, only its caller or its absence cancels a
      goal, results stay fetchable for their retention unless another goal takes
      the id, every task runs to its end and memory is bounded
      ([ActionPolls], [ActionEndings], [ActionCancel], [ActionResults],
      [ActionBounds], [ActionSafety]). What is put on the wire is read back
      ([ActionWire]). Where an answer is missed:
      [ActionResults.dropped_ending_strands_polls],
      [ActionRuns.poll_in_a_sweep_is_dropped], [ActionRuns.expired_cancel_is_lost],
      [ActionRuns.second_goal_hides_the_result],
      [CancelLinks.answered_before_the_linked_token].
    - Of a call: it is repeated only while nobody was reached, returns in
      bounded time what its last attempt read, its request goes to one producer,
      and a handler sees only requests the session's check accepts
      ([ServiceCall]). Of a client: its goal is one the engine admits, it
      cancels a goal it has no handle of, unless all it read of its request was
      nothing or a failure ([ActionClient]), it
      reads the feedback without a gap, cancels once when it falls behind, takes
      its producer for gone only on probes that all found no token, and its
      result is what the provider wrapped ([GoalFollow]).
    - Of documents: restart declarations and requests survive their file and
      wire forms, and blocked mounts are refused however they are written
      ([RestartPolicy], [Config]).

    ** What is not modelled

    Processes, files, containers and sockets: the build, add and run steps,
    the caches, what the daemon's request handlers do between the admission of a
    request and its end, the transport adapters. The parsing of launcher and
    fragment files and the checks of their documents ([composition.rs], [load.rs],
    [check.rs]), daemon scopes, the robot leases, the repository index and the run
    service of core-node-internal: large, independent of what is modelled, and for
    the most part I/O. Error and log texts, beyond what the code compares. Of
    actions, the drop of a whole engine; of calls, their signatures and key
    expressions. The command line, the code generators, the language bindings and
    the MCP server, which are glue.

    ** This file

    Notations in [peppy_scope], the [result] monad, machine integers, lists
    edited in place, loops as folds, a stable sort, and the tactics and hints
    the other files share. *)

From stdpp Require Export base gmap strings numbers list.


(** ** Scopes and notations *)

Declare Scope peppy_scope.
Delimit Scope peppy_scope with peppy.

(** ** Results

    Rust's [Result<A, E>], with the error type first so that [result E] is a
    monad and [x ← e; k] is the [?] operator. *)
Inductive result (E A : Type) : Type :=
| Ok (a : A)
| Err (e : E).
Arguments Ok {E A} a.
Arguments Err {E A} e.

#[export] Instance result_ret (E : Type) : MRet (result E) := λ A a, Ok a.
#[export] Instance result_bind (E : Type) : MBind (result E) := λ A B k m,
  match m with Ok a => k a | Err e => Err e end.
#[export] Instance result_fmap (E : Type) : FMap (result E) := λ A B f m,
  match m with Ok a => Ok (f a) | Err e => Err e end.

Definition is_ok {E A : Type} (r : result E A) : bool :=
  match r with Ok _ => true | Err _ => false end.

(** [Option::ok_or]. *)
Definition ok_or {E A : Type} (o : option A) (e : E) : result E A :=
  match o with Some a => Ok a | None => Err e end.

(** [Result::map_err]. *)
Definition map_err {E F A : Type} (f : E → F) (r : result E A) : result F A :=
  match r with Ok a => Ok a | Err e => Err (f e) end.

(** [Option<Result<A, E>>::transpose]. *)
Definition transpose {E A : Type} (o : option (result E A)) : result E (option A) :=
  match o with
  | None => Ok None
  | Some (Ok a) => Ok (Some a)
  | Some (Err e) => Err e
  end.

(** [Option::or], [Option::filter] on a boolean test, [Option::is_some]. *)
Definition option_or {A : Type} (o p : option A) : option A :=
  match o with Some _ => o | None => p end.

Definition option_filter {A : Type} (p : A → bool) (o : option A) : option A :=
  match o with Some a => if p a then Some a else None | None => None end.

Definition opt_is_some {A : Type} (o : option A) : bool :=
  match o with Some _ => true | None => false end.

Infix "<|>" := option_or (at level 50, left associativity) : peppy_scope.

(** The values and the errors of a list of results, each in order. *)
Definition oks {E A : Type} (l : list (result E A)) : list A :=
  omap (λ r, match r with Ok a => Some a | Err _ => None end) l.
Definition errs {E A : Type} (l : list (result E A)) : list E :=
  omap (λ r, match r with Ok _ => None | Err e => Some e end) l.

Lemma errs_nil {E A B : Type} (f : B → result E A) (l : list B) :
  errs (map f l) = [] ↔ ∀ x, x ∈ l → ∃ a, f x = Ok a.
Proof.
  unfold errs. induction l as [|x l IH]; [set_solver|]. cbn [map omap list_omap].
  destruct (f x) as [a|e] eqn:Ef.
  - rewrite IH. set_solver.
  - split; [done|]. intros H. destruct (H x) as [a Ha]; [set_solver|congruence].
Qed.

Lemma oks_map {E A B : Type} (f : B → result E A) (g : B → A) (l : list B) :
  (∀ x, x ∈ l → f x = Ok (g x)) → oks (map f l) = map g l.
Proof.
  unfold oks. induction l as [|x l IH]; intros H; [done|]. cbn [map omap list_omap].
  rewrite (H x) by set_solver. f_equal. apply IH. set_solver.
Qed.

(** Without an error, the values correspond to the elements one to one. *)
Lemma oks_Forall2 {E A B : Type} (f : B → result E A) (l : list B) :
  errs (map f l) = [] → Forall2 (λ x a, f x = Ok a) l (oks (map f l)).
Proof.
  unfold errs, oks. induction l as [|x l IH]; [constructor|]. cbn [map omap list_omap].
  destruct (f x) as [a|e] eqn:Ef; [|done]. constructor; [done|]. by apply IH.
Qed.

Lemma result_bind_ok {E A B : Type} (m : result E A) (k : A → result E B) (b : B) :
  (m ≫= k) = Ok b ↔ ∃ a, m = Ok a ∧ k a = Ok b.
Proof.
  destruct m; simpl; split; [eauto | | done |]; intros (? & ? & ?); by simplify_eq.
Qed.

Lemma ok_or_ok {E A : Type} (o : option A) (e : E) (a : A) :
  ok_or o e = Ok a ↔ o = Some a.
Proof. destruct o; simpl; split; congruence. Qed.

Lemma option_filter_some {A : Type} (p : A → bool) (o : option A) (a : A) :
  option_filter p o = Some a ↔ o = Some a ∧ p a = true.
Proof.
  destruct o as [x|]; simpl; [destruct (p x) eqn:Hp|]; split; intros;
    destruct_and?; simplify_eq; auto; congruence.
Qed.

(** ** Machine integers

    A [u32] or [u64] is a [Z] kept in range by the operations that produce
    it. *)
Definition U32_MAX : Z := 2 ^ 32 - 1.
Definition U64_MAX : Z := 2 ^ 64 - 1.

Definition in_u32 (n : Z) : Prop := (0 ≤ n ≤ U32_MAX)%Z.

Definition u32_saturating_add (a b : Z) : Z := Z.min U32_MAX (a + b).
Definition u32_saturating_sub (a b : Z) : Z := Z.max 0 (a - b).

(** [as u64], and [u64] addition in a release build. *)
Definition wrap64 (z : Z) : Z := (z mod 2 ^ 64)%Z.

(** [u32 += 1] in a release build, which wraps. *)
Definition u32_wrapping_add (a b : Z) : Z := ((a + b) mod 2 ^ 32)%Z.

(** [u32::checked_pow] of two. *)
Definition two_checked_pow (e : Z) : option Z :=
  if (e <? 32)%Z then Some (2 ^ e)%Z else None.

Lemma u32_saturating_add_range (a b : Z) :
  in_u32 a → (0 ≤ b)%Z → in_u32 (u32_saturating_add a b).
Proof. unfold in_u32, u32_saturating_add, U32_MAX. lia. Qed.

(** ** Durations and instants

    A [std::time::Duration] is its number of nanoseconds, between 0 and
    [DURATION_MAX] (u64 seconds and 999999999 nanoseconds). An [Instant] and
    a [SystemTime] are numbers of nanoseconds since their epoch. *)
Definition NANOS_PER_SEC : Z := 1000000000.
Definition DURATION_MAX : Z := 2 ^ 64 * NANOS_PER_SEC - 1.

Definition in_duration (d : Z) : Prop := (0 ≤ d ≤ DURATION_MAX)%Z.

(** [Duration::saturating_mul] by a [u32]. *)
Definition duration_saturating_mul (d n : Z) : Z := Z.min DURATION_MAX (d * n).

(** [Duration::as_secs]. *)
Definition duration_as_secs (d : Z) : Z := (d / NANOS_PER_SEC)%Z.

(** [Instant::saturating_duration_since]. *)
Definition saturating_duration_since (later earlier : Z) : Z := Z.max 0 (later - earlier).

(** [SystemTime::checked_add] on Unix, whose seconds are an [i64]. *)
Definition SYSTEM_TIME_MAX : Z := 2 ^ 63 * NANOS_PER_SEC - 1.

Definition system_time_checked_add (t d : Z) : option Z :=
  if (t + d <=? SYSTEM_TIME_MAX)%Z then Some (t + d)%Z else None.

(** ** Lists searched and edited in place

    The slots of an entity, the pairs of a registry and the entries of a
    manifest are Rust [Vec]s: [iter().find], [iter_mut().find] followed by an
    edit, [position] followed by [remove], [retain] and [partition]. *)
Section list_edit.
Context {A : Type}.
Implicit Types (p q : A → bool) (f : A → A) (l : list A) (x y : A).

(** [iter_mut().find(p)], then [f] on the element found. *)
Fixpoint update_first p f l : list A :=
  match l with
  | [] => []
  | x :: l => if p x then f x :: l else x :: update_first p f l
  end.

(** [position(p)], then [remove] of that position. *)
Fixpoint remove_first p l : option (A * list A) :=
  match l with
  | [] => None
  | x :: l =>
      if p x then Some (x, l)
      else '(y, l') ← remove_first p l; Some (y, x :: l')
  end.

Lemma find_elem_of p l x : List.find p l = Some x → x ∈ l ∧ p x = true.
Proof. intros [? ?]%find_some. by rewrite list_elem_of_In. Qed.

Lemma find_None_forall p l : List.find p l = None ↔ ∀ x, x ∈ l → p x = false.
Proof.
  split.
  - intros H x Hx. apply (find_none _ _ H). by apply list_elem_of_In.
  - intros H. destruct (List.find p l) as [x|] eqn:E; [|done].
    apply find_elem_of in E as [? ?]. rewrite H in * by done. congruence.
Qed.

Lemma find_Some_exists p l x : x ∈ l → p x = true → ∃ y, List.find p l = Some y.
Proof.
  intros Hx Hp. destruct (List.find p l) as [y|] eqn:E; [eauto|].
  rewrite find_None_forall in E. rewrite E in Hp by done. done.
Qed.

Lemma find_ext p q l :
  (∀ x, x ∈ l → p x = q x) → List.find p l = List.find q l.
Proof.
  induction l as [|x l IH]; intros H; simpl; [done|].
  rewrite (H x) by set_solver. rewrite IH; [done|]. set_solver.
Qed.

(** An edit that keeps the projection [g] keeps it elementwise. *)
Lemma map_update_first {B} (g : A → B) p f l :
  (∀ x, p x = true → g (f x) = g x) → map g (update_first p f l) = map g l.
Proof.
  intros Hg. induction l as [|x l IH]; simpl; [done|].
  destruct (p x) eqn:E; simpl; [by rewrite Hg | by rewrite IH].
Qed.

Lemma length_update_first p f l : length (update_first p f l) = length l.
Proof. induction l as [|x l IH]; simpl; [done|]. destruct (p x); simpl; congruence. Qed.

Lemma elem_of_update_first p f l y :
  y ∈ update_first p f l → y ∈ l ∨ ∃ x, List.find p l = Some x ∧ y = f x.
Proof.
  induction l as [|x l IH]; simpl; [by left|].
  destruct (p x) eqn:E; rewrite elem_of_cons; intros [->|H].
  - right; eauto.
  - left; set_solver.
  - left; set_solver.
  - destruct (IH H) as [?|(z & ? & ?)]; [left; set_solver | right; eauto].
Qed.

Lemma Forall_update_first (P : A → Prop) p f l :
  Forall P l → (∀ x, List.find p l = Some x → P x → P (f x)) →
  Forall P (update_first p f l).
Proof.
  intros Hl Hf. induction Hl as [|x l Hx Hl IH]; simpl in *; [constructor|].
  destruct (p x) eqn:E; constructor; auto.
Qed.

(** The element found, after an edit that keeps what the search reads. *)
Lemma find_update_first p f l :
  (∀ x, p x = true → p (f x) = true) →
  List.find p (update_first p f l) = f <$> List.find p l.
Proof.
  intros Hf. induction l as [|x l IH]; simpl; [done|].
  destruct (p x) eqn:E; simpl; [by rewrite Hf | by rewrite E].
Qed.

(** A search for something else does not see the edit. *)
Lemma find_update_first_ne p q f l :
  (∀ x, p x = true → q x = false) → (∀ x, p x = true → q (f x) = false) →
  List.find q (update_first p f l) = List.find q l.
Proof.
  intros H1 H2. induction l as [|x l IH]; simpl; [done|].
  destruct (p x) eqn:E; simpl; [by rewrite (H1 x), (H2 x) | by rewrite IH].
Qed.

Lemma update_first_not_found p f l : List.find p l = None → update_first p f l = l.
Proof.
  induction l as [|x l IH]; simpl; [done|]. destruct (p x); [done|].
  intros H. by rewrite IH.
Qed.

Lemma update_first_id p f l :
  (∀ x, List.find p l = Some x → f x = x) → update_first p f l = l.
Proof.
  induction l as [|x l IH]; simpl; [done|]. destruct (p x); intros H.
  - by rewrite H.
  - by rewrite IH.
Qed.

(** A guard the element found satisfies changes neither search nor edit. *)
Lemma find_guard p q l x :
  List.find p l = Some x → q x = true → List.find (λ y, p y && q y) l = Some x.
Proof.
  induction l as [|y l IH]; simpl; [done|]. destruct (p y); simpl; [|done].
  intros ? Hq. simplify_eq. by rewrite Hq.
Qed.

Lemma update_first_guard p q f l x :
  List.find p l = Some x → q x = true →
  update_first (λ y, p y && q y) f l = update_first p f l.
Proof.
  induction l as [|y l IH]; simpl; [done|]. destruct (p y); simpl.
  - intros ? Hq. simplify_eq. by rewrite Hq.
  - intros. f_equal. auto.
Qed.

Lemma update_first_twice p f g l :
  (∀ x, List.find p l = Some x → p (g x) = true) →
  update_first p f (update_first p g l) = update_first p (λ x, f (g x)) l.
Proof.
  induction l as [|y l IH]; simpl; intros H; [done|]. destruct (p y) eqn:E; simpl.
  - by rewrite H.
  - rewrite E. by rewrite IH.
Qed.

Lemma update_first_ext p f g l :
  (∀ x, List.find p l = Some x → f x = g x) → update_first p f l = update_first p g l.
Proof.
  induction l as [|y l IH]; simpl; intros H; [done|]. destruct (p y).
  - by rewrite H.
  - by rewrite IH.
Qed.

(** The search for the edited element. *)
Lemma find_update_first_eq p f l x :
  List.find p l = Some x → p (f x) = true → List.find p (update_first p f l) = Some (f x).
Proof.
  induction l as [|y l IH]; simpl; [done|]. destruct (p y) eqn:E; simpl.
  - intros ? H. simplify_eq. by rewrite H.
  - rewrite E. auto.
Qed.

Lemma remove_first_Some p l x l' :
  remove_first p l = Some (x, l') →
  ∃ l1 l2, l = l1 ++ x :: l2 ∧ l' = l1 ++ l2 ∧ p x = true ∧
    Forall (λ y, p y = false) l1.
Proof.
  revert l'. induction l as [|y l IH]; simpl; [done|]. intros l'.
  destruct (p y) eqn:E; intros H; simplify_eq/=.
  - by exists [], l'.
  - destruct (remove_first p l) as [[z l'']|] eqn:R; simplify_eq/=.
    destruct (IH _ eq_refl) as (l1 & l2 & -> & -> & ? & ?).
    exists (y :: l1), l2. auto.
Qed.

Lemma remove_first_None p l : remove_first p l = None ↔ List.find p l = None.
Proof.
  induction l as [|y l IH]; simpl; [done|]. destruct (p y); [done|].
  rewrite <-IH. destruct (remove_first p l) as [[]|]; simpl; naive_solver.
Qed.

Lemma remove_first_find p l x l' :
  remove_first p l = Some (x, l') → List.find p l = Some x.
Proof.
  revert l'. induction l as [|y l IH]; simpl; [done|]. intros l'.
  destruct (p y); [naive_solver|].
  destruct (remove_first p l) as [[z l'']|] eqn:R; intros; simplify_eq/=; eauto.
Qed.

Lemma elem_of_remove_first p l x l' y :
  remove_first p l = Some (x, l') → y ∈ l' → y ∈ l.
Proof.
  intros (l1 & l2 & -> & -> & _)%remove_first_Some. set_solver.
Qed.

Lemma remove_first_perm p l x l' :
  remove_first p l = Some (x, l') → l ≡ₚ x :: l'.
Proof.
  intros (l1 & l2 & -> & -> & _)%remove_first_Some.
  by rewrite Permutation_middle.
Qed.

Lemma NoDup_map_remove_first {B} (g : A → B) p l x l' :
  remove_first p l = Some (x, l') → NoDup (map g l) →
  NoDup (map g l') ∧ g x ∉ map g l'.
Proof.
  intros ->%remove_first_perm H. simpl in H.
  apply NoDup_cons in H as [? ?]. done.
Qed.

Lemma elem_of_map {B} (g : A → B) l (y : B) : y ∈ map g l ↔ ∃ x, y = g x ∧ x ∈ l.
Proof. rewrite list_elem_of_In, in_map_iff. setoid_rewrite <-list_elem_of_In. naive_solver. Qed.

Lemma NoDup_map_inj {B} (g : A → B) l x y :
  NoDup (map g l) → x ∈ l → y ∈ l → g x = g y → x = y.
Proof.
  induction l as [|z l IH]; simpl; [by intros _ ?%elem_of_nil|].
  intros [Hz H]%NoDup_cons Hx Hy E. rewrite elem_of_map in Hz.
  apply elem_of_cons in Hx as [->|Hx], Hy as [->|Hy]; naive_solver.
Qed.

Lemma Forall_remove_first (P : A → Prop) p l x l' :
  remove_first p l = Some (x, l') → Forall P l → P x ∧ Forall P l'.
Proof. intros ->%remove_first_perm H. by apply Forall_cons in H. Qed.

(** [Vec::retain] and the halves of [Iterator::partition]. *)
Definition retain p l : list A := List.filter p l.

Definition partition_list p l : list A * list A :=
  (List.filter p l, List.filter (λ x, negb (p x)) l).

Lemma elem_of_retain p l x : x ∈ retain p l ↔ x ∈ l ∧ p x = true.
Proof. unfold retain. by rewrite !list_elem_of_In, filter_In. Qed.

Lemma Forall_retain (P : A → Prop) p l : Forall P l → Forall P (retain p l).
Proof. rewrite !Forall_forall. intros H x [? ?]%elem_of_retain. auto. Qed.

Lemma NoDup_retain p l : NoDup l → NoDup (retain p l).
Proof. unfold retain. rewrite !NoDup_ListNoDup. apply List.NoDup_filter. Qed.

Lemma retain_all p l : (∀ x, x ∈ l → p x = true) → retain p l = l.
Proof.
  unfold retain. induction l as [|x l IH]; intros H; simpl; [done|].
  rewrite H by set_solver. rewrite IH; [done|]. set_solver.
Qed.

Lemma partition_list_perm p l :
  l ≡ₚ (partition_list p l).1 ++ (partition_list p l).2.
Proof.
  simpl. induction l as [|x l IH]; simpl; [done|].
  destruct (p x); simpl; [by rewrite <-IH|].
  rewrite <-Permutation_middle. by rewrite <-IH.
Qed.
End list_edit.

Lemma fold_left_ext {A B : Type} (f g : A → B → A) (l : list B) (a : A) :
  (∀ a b, f a b = g a b) → fold_left f l a = fold_left g l a.
Proof.
  intros Hfg. revert a. induction l as [|b l IH]; intros a; cbn [fold_left]; [done|].
  by rewrite Hfg, IH.
Qed.

(** A loop that only pushes on a vector of errors. *)
Lemma fold_left_pushes {E A : Type} (f : list E → A → list E) (l : list A) (es : list E) :
  (∀ es x, f es x = es ++ f [] x) → fold_left f l es = es ++ flat_map (f []) l.
Proof.
  intros Hf. revert es. induction l as [|x l IH]; intros es; simpl; [by rewrite app_nil_r|].
  by rewrite IH, Hf, app_assoc.
Qed.

Lemma flat_map_nil {A B : Type} (f : A → list B) (l : list A) :
  flat_map f l = [] ↔ ∀ x, x ∈ l → f x = [].
Proof.
  induction l as [|x l IH]; simpl; [set_solver|].
  rewrite app_nil, IH. setoid_rewrite elem_of_cons. naive_solver.
Qed.

Lemma elem_of_flat_map {A B : Type} (f : A → list B) (l : list A) (y : B) :
  y ∈ flat_map f l ↔ ∃ x, x ∈ l ∧ y ∈ f x.
Proof.
  rewrite list_elem_of_In, in_flat_map. by setoid_rewrite list_elem_of_In.
Qed.

(** [Iterator::find_map]. *)
Fixpoint first_some {A B} (f : A → option B) (l : list A) : option B :=
  match l with
  | [] => None
  | x :: l => match f x with Some y => Some y | None => first_some f l end
  end.

Lemma first_some_None {A B} (f : A → option B) l :
  first_some f l = None ↔ ∀ x, x ∈ l → f x = None.
Proof.
  induction l as [|x l IH]; simpl; [set_solver|]. setoid_rewrite elem_of_cons.
  destruct (f x) eqn:E; naive_solver.
Qed.

Lemma first_some_Some {A B} (f : A → option B) l y :
  first_some f l = Some y → ∃ x, x ∈ l ∧ f x = Some y.
Proof.
  induction l as [|x l IH]; simpl; [done|]. setoid_rewrite elem_of_cons.
  destruct (f x) eqn:E; naive_solver.
Qed.

(** Where an [omap] put one of its elements. *)
Lemma omap_split {A B} (f : A → option B) (l : list A) l1 x l2 :
  omap f l = l1 ++ x :: l2 →
  ∃ o1 i o2, l = o1 ++ i :: o2 ∧ omap f o1 = l1 ∧ f i = Some x.
Proof.
  revert l1. induction l as [|i l IH]; intros l1 Hl; [by destruct l1|].
  cbn [omap list_omap] in Hl. destruct (f i) as [y|] eqn:E.
  - destruct l1 as [|y' l1]; injection Hl as -> Hl.
    + by exists [], i, l.
    + destruct (IH _ Hl) as (o1 & j & o2 & -> & <- & Hj). exists (i :: o1), j, o2.
      cbn [omap list_omap]. by rewrite E.
  - destruct (IH _ Hl) as (o1 & j & o2 & -> & <- & Hj). exists (i :: o1), j, o2.
    cbn [omap list_omap]. by rewrite E.
Qed.

(** An element without duplicates is at one place. *)
Lemma NoDup_middle_unique {A} (l1 l2 l3 l4 : list A) x :
  NoDup (l1 ++ x :: l2) → l1 ++ x :: l2 = l3 ++ x :: l4 → l1 = l3 ∧ l2 = l4.
Proof.
  revert l3. induction l1 as [|y l1 IH]; intros [|z l3] Hnd Heq; cbn in *;
    apply NoDup_cons in Hnd as [Hx Hnd].
  - by injection Heq as ->.
  - injection Heq as -> ->. set_solver.
  - injection Heq as -> <-. set_solver.
  - injection Heq as -> Heq. by destruct (IH _ Hnd Heq) as [-> ->].
Qed.

(** A loop whose body may panic. *)
Fixpoint fold_option {A B} (f : B → A → option B) (l : list A) (b : B) : option B :=
  match l with [] => Some b | x :: l => b ← f b x; fold_option f l b end.

Lemma fold_option_total {A B} (f : B → A → option B) (g : B → A → B) l b :
  (∀ b x, x ∈ l → f b x = Some (g b x)) → fold_option f l b = Some (fold_left g l b).
Proof.
  revert b. induction l as [|x l IH]; intros b Hf; cbn [fold_option fold_left]; [done|].
  rewrite Hf by set_solver. cbn. apply IH. set_solver.
Qed.

(** A loop that inserts what each element gives, on a map. *)
Lemma fold_inserts_lookup {K A V} `{Countable K} (key : A → K) (val : A → V) l (m : gmap K V) k x :
  NoDup (map key l) →
  fold_left (λ m a, <[key a := val a]> m) l m !! k = Some x ↔
  (∃ a, a ∈ l ∧ key a = k ∧ val a = x) ∨ (k ∉ map key l ∧ m !! k = Some x).
Proof.
  revert m. induction l as [|a l IH]; intros m; cbn [fold_left map]; [set_solver|].
  intros [Ha Hnd]%NoDup_cons. rewrite IH by done. rewrite lookup_insert_Some, !not_elem_of_cons. split.
  - intros [(b & ? & ? & ?)|[? [[? ?]|[? ?]]]]; [left; exists b; set_solver|left; exists a; set_solver|].
    right. naive_solver.
  - intros [(b & Hb & Hk & Hx)|[[? ?] ?]].
    + apply elem_of_cons in Hb as [->|Hb]; [right; subst; auto|left; eauto].
    + right. split; [done|]. right. split; [congruence|done].
Qed.

(** Collecting into a map by distinct keys. *)
Lemma fold_insert_lookup {K A} `{Countable K} (key : A → K) (l : list A) :
  NoDup (map key l) →
  ∀ k x, fold_left (λ m x, <[key x := x]> m) l (∅ : gmap K A) !! k = Some x ↔ x ∈ l ∧ key x = k.
Proof.
  intros Hnd k x. rewrite (fold_inserts_lookup key (λ x, x)), lookup_empty by done. naive_solver.
Qed.

(** A loop that keeps the first entry of each key. *)
Lemma fold_keep_first {K A V} `{Countable K} (key : A → K) (val : A → V) step l (m : gmap K V) k v :
  (∀ m a, step m a = match m !! key a with Some _ => m | None => <[key a := val a]> m end) →
  fold_left step l m !! k = Some v → m !! k = Some v ∨ ∃ a, a ∈ l ∧ key a = k ∧ val a = v.
Proof.
  intros Hstep. revert m. induction l as [|a l IH]; intros m Hm; cbn [fold_left] in Hm; [by left|].
  apply IH in Hm as [Hm|(b & ? & ? & ?)]; [|right; exists b; set_solver].
  rewrite Hstep in Hm. destruct (m !! key a); [by left|].
  apply lookup_insert_Some in Hm as [[? ?]|[_ ?]]; [|by left]. right. exists a. set_solver.
Qed.

Lemma filter_pair_key {B K L} `{EqDecision K, EqDecision L} (f : B → K) (g : B → L) l x y :
  List.filter (λ o, bool_decide ((f o, g o) = (x, y))) l =
  List.filter (λ o, bool_decide (g o = y)) (List.filter (λ o, bool_decide (f o = x)) l).
Proof.
  induction l as [|o l IH]; cbn [List.filter]; [done|].
  destruct (bool_decide_reflect (f o = x)) as [<-|Hf]; cbn [List.filter].
  - destruct (bool_decide_reflect (g o = y)) as [<-|Hg].
    + rewrite bool_decide_true by done. by f_equal.
    + by rewrite bool_decide_false by congruence.
  - by rewrite bool_decide_false by congruence.
Qed.

(** What one element of a list contributed, told by its key. *)
Lemma filter_flat_map_key {A B K} `{EqDecision K} (g : A → K) (key : B → K) (f : A → list B) l x :
  NoDup (map g l) → x ∈ l → (∀ y o, y ∈ l → o ∈ f y → key o = g y) →
  List.filter (λ o, bool_decide (key o = g x)) (flat_map f l) = f x.
Proof.
  intros Hnd Hx Hkey.
  assert (Hall : ∀ y, y ∈ l → List.filter (λ o, bool_decide (key o = g x)) (f y) =
    if decide (g y = g x) then f y else []).
  { intros y Hy. case_decide as E.
    - apply retain_all. intros o Ho. apply bool_decide_eq_true. by rewrite (Hkey y o).
    - assert (Hno : ∀ o, o ∈ f y → bool_decide (key o = g x) = false)
        by (intros o Ho; apply bool_decide_eq_false; by rewrite (Hkey y o)).
      induction (f y) as [|o os IH]; cbn; [done|]. rewrite Hno by set_solver. apply IH. set_solver. }
  clear Hkey. induction l as [|y l IH]; [by apply elem_of_nil in Hx|].
  cbn [map] in Hnd. apply NoDup_cons in Hnd as [Hy Hnd]. cbn [flat_map].
  rewrite List.filter_app, Hall by set_solver.
  apply elem_of_cons in Hx as [->|Hx].
  - rewrite decide_True by done.
    assert (Hrest : List.filter (λ o, bool_decide (key o = g y)) (flat_map f l) = []).
    { clear IH. assert (Hl : ∀ z, z ∈ l → List.filter (λ o, bool_decide (key o = g y)) (f z) = []).
      { intros z Hz. rewrite Hall by set_solver. rewrite decide_False; [done|]. intros Hg. apply Hy.
        rewrite <-Hg. apply elem_of_map. eauto. }
      clear -Hl. induction l as [|z l IH]; cbn; [done|].
      rewrite List.filter_app, Hl, IH by set_solver. done. }
    by rewrite Hrest, app_nil_r.
  - rewrite decide_False; [|intros Hg; apply Hy; rewrite Hg; apply elem_of_map; eauto].
    apply IH; [done..|]. set_solver.
Qed.

(** ** Sorting

    Rust compares a pair of strings lexicographically, and its [sort_by] keeps
    equal elements in order. *)

Definition pair_lt (p q : string * string) : bool :=
  match String.compare p.1 q.1 with
  | Lt => true
  | Gt => false
  | Eq => String.ltb p.2 q.2
  end.

Section stable_sort.
Context {A : Type} (lt : A → A → bool).

Fixpoint sorted_insert (x : A) (l : list A) : list A :=
  match l with
  | [] => [x]
  | y :: l' => if lt y x then y :: sorted_insert x l' else x :: l
  end.

Definition stable_sort (l : list A) : list A := foldr sorted_insert [] l.

Lemma sorted_insert_perm x l : sorted_insert x l ≡ₚ x :: l.
Proof.
  induction l as [|y l IH]; cbn; [done|]. destruct (lt y x); [|done].
  rewrite IH. constructor.
Qed.

Lemma stable_sort_perm l : stable_sort l ≡ₚ l.
Proof. induction l as [|x l IH]; cbn; [done|]. by rewrite sorted_insert_perm, IH. Qed.
End stable_sort.

(** ** Boolean conditions as propositions *)

Create HintDb peppy_bool.
#[export] Hint Rewrite andb_true_iff orb_true_iff negb_true_iff andb_false_iff orb_false_iff
  negb_false_iff bool_decide_eq_true bool_decide_eq_false Nat.eqb_eq Z.eqb_eq Z.ltb_lt Z.leb_le :
  peppy_bool.

(** Turn the boolean hypotheses of a branch into what they mean. *)
Ltac to_prop := autorewrite with peppy_bool in *.
