(* ===== verification/Names.v ===== *)
(** * Names and texts

    [peppy-shared/peppy-config-model/src/runtime.rs] and its submodules: the
    validated [Name], the core node name, target and copy name built on the
    same grammar, producer references and bound producer sets, copy tags and
    clock bindings; [word_name.rs], the rule of mark and failure kind names;
    and the identifier check of [node/types.rs].

    A Rust [String] is its UTF-8 bytes. [str::trim] removes the characters
    with the Unicode [White_Space] property, written here by their encoding. *)

From S2P Require Import Prelude.
#[local] Open Scope Z_scope.

(** ** Bytes and texts *)

Definition byte_val (c : Ascii.ascii) : Z := Z.of_nat (Ascii.nat_of_ascii c).

Definition is_ascii_lowercase (c : Ascii.ascii) : bool :=
  (97 <=? byte_val c) && (byte_val c <=? 122).
Definition is_ascii_uppercase (c : Ascii.ascii) : bool :=
  (65 <=? byte_val c) && (byte_val c <=? 90).
Definition is_ascii_digit (c : Ascii.ascii) : bool :=
  (48 <=? byte_val c) && (byte_val c <=? 57).
Definition is_ascii_alphanumeric (c : Ascii.ascii) : bool :=
  is_ascii_lowercase c || is_ascii_uppercase c || is_ascii_digit c.
Definition is_underscore (c : Ascii.ascii) : bool := byte_val c =? 95.
Definition is_dash (c : Ascii.ascii) : bool := byte_val c =? 45.

Notation chars := String.list_ascii_of_string.

(** White space of one, two and three bytes: U+0009 to U+000D and U+0020;
    U+0085 and U+00A0; U+1680, U+2000 to U+200A, U+2028, U+2029, U+202F,
    U+205F and U+3000. *)
Definition ws1 (a : Z) : bool := ((9 <=? a) && (a <=? 13)) || (a =? 32).
Definition ws2 (a b : Z) : bool := (a =? 194) && ((b =? 133) || (b =? 160)).
Definition ws3 (a b c : Z) : bool :=
  ((a =? 225) && (b =? 154) && (c =? 128))
  || ((a =? 226) && (b =? 128)
      && (((128 <=? c) && (c <=? 138)) || (c =? 168) || (c =? 169) || (c =? 175)))
  || ((a =? 226) && (b =? 129) && (c =? 159))
  || ((a =? 227) && (b =? 128) && (c =? 128)).

(** Whether the bytes start with a white space character, and how many bytes
    that character has; [rev] reads the bytes from the end of the text. *)
Definition ws_prefix (rev : bool) (l : list Ascii.ascii) : nat :=
  let two a b := if rev then ws2 b a else ws2 a b in
  let three a b c := if rev then ws3 c b a else ws3 a b c in
  match byte_val <$> take 3 l with
  | [a] => if ws1 a then 1 else 0
  | [a; b] => if ws1 a then 1 else if two a b then 2 else 0
  | [a; b; c] => if ws1 a then 1 else if two a b then 2 else if three a b c then 3 else 0
  | _ => 0
  end%nat.

Fixpoint drop_ws (rev : bool) (fuel : nat) (l : list Ascii.ascii) : list Ascii.ascii :=
  match fuel with
  | O => l
  | S fuel =>
      match ws_prefix rev l with
      | O => l
      | n => drop_ws rev fuel (drop n l)
      end
  end.

(** [str::trim_start], [str::trim_end] and [str::trim]: every round removes at
    least one byte, so the length is enough fuel. *)
Definition trim_start (l : list Ascii.ascii) : list Ascii.ascii := drop_ws false (length l) l.
Definition trim_end (l : list Ascii.ascii) : list Ascii.ascii :=
  reverse (drop_ws true (length l) (reverse l)).
Definition trim (s : string) : string :=
  String.string_of_list_ascii (trim_end (trim_start (chars s))).

(** ** Names *)

Inductive NameError : Type :=
| EmptyName
| InvalidName (value : string)
| HalfCopyTag (copy instance_id : string)
| DuplicateBoundProducer (core_node instance_id : string).

(** [Name::is_valid_char]: membership in [ALLOWED_CONFIG_CHARS]. A character
    of more than one byte is not in it, nor is any of its bytes. *)
Definition is_valid_char (c : Ascii.ascii) : bool :=
  is_ascii_alphanumeric c || is_underscore c || is_dash c.

Definition Name_try_from (value : string) : result NameError string :=
  if decide (value = "") then Err EmptyName
  else if forallb is_valid_char (chars value) then Ok value
  else Err (InvalidName value).

(** What a [Name] holds. *)
Definition valid_name (s : string) : bool :=
  negb (bool_decide (s = "")) && forallb is_valid_char (chars s).

(** [validate_non_empty_identifier]: the trimmed text, which is not empty and
    has a letter or a digit. *)
Inductive IdentifierError : Type :=
| CannotBeEmpty (label : string)
| NeedsAlphanumeric (label : string).

Definition validate_non_empty_identifier (raw label : string) :
    result IdentifierError string :=
  let trimmed := trim raw in
  if decide (trimmed = "") then Err (CannotBeEmpty label)
  else if existsb is_ascii_alphanumeric (chars trimmed) then Ok trimmed
  else Err (NeedsAlphanumeric label).

(** [word_name_problem]: why a mark or a failure kind may not have a name. *)
Definition MAX_WORD_NAME_LEN : nat := 64.

(** [str::split('_')]: the texts between the underscores. *)
Fixpoint split_underscore (l : list Ascii.ascii) : list (list Ascii.ascii) :=
  match l with
  | [] => [[]]
  | c :: l =>
      match split_underscore l with
      | [] => [[]]
      | w :: ws => if is_underscore c then [] :: w :: ws else (c :: w) :: ws
      end
  end.

Inductive WordNameProblem : Type :=
| ItIsEmpty | ItIsTooLong | ItHasOtherCharacters | ItHasBadWords.

Definition word_name_problem (name : string) : option WordNameProblem :=
  if decide (name = "") then Some ItIsEmpty
  else if (MAX_WORD_NAME_LEN <? length (chars name))%nat then Some ItIsTooLong
  else if negb (forallb (λ b, is_ascii_lowercase b || is_ascii_digit b || is_underscore b)
                  (chars name))
  then Some ItHasOtherCharacters
  else if negb (forallb
                  (λ w, match w with c :: _ => is_ascii_lowercase c | [] => false end)
                  (split_underscore (chars name)))
  then Some ItHasBadWords
  else None.

(** [EndpointLabel::is_valid]. *)
Definition endpoint_label_is_valid (label : string) : bool :=
  match chars label with
  | [] => false
  | first :: rest =>
      is_ascii_lowercase first
      && forallb (λ c, is_ascii_lowercase c || is_ascii_digit c || is_underscore c) rest
  end.

(** ** Core node names, targets and copy names *)

Definition MAX_CORE_NODE_NAME_LEN : nat := 63.
Definition SELF_CORE_NODE : string := "self".

Inductive CoreNodeNameError : Type := Reserved | Malformed.

Definition CoreNodeName_validate (value : string) : result CoreNodeNameError unit :=
  if decide (value = SELF_CORE_NODE) then Err Reserved
  else if bool_decide (value = "")
          || (MAX_CORE_NODE_NAME_LEN <? length (chars value))%nat
          || negb (forallb is_valid_char (chars value))
  then Err Malformed
  else Ok tt.

Definition CoreNodeName_new (value : string) : result CoreNodeNameError string :=
  _ ← CoreNodeName_validate value; Ok value.

Inductive CoreNodeTarget : Type := Coordinator | Named (name : string).

Definition CoreNodeTarget_parse (raw : string) : result CoreNodeNameError CoreNodeTarget :=
  if decide (raw = SELF_CORE_NODE) then Ok Coordinator
  else Named <$> CoreNodeName_new raw.

Definition CoreNodeTarget_resolve (t : CoreNodeTarget) (coordinator : string) : string :=
  match t with Coordinator => coordinator | Named name => name end.

Definition CoreNodeTarget_to_string (t : CoreNodeTarget) : string :=
  match t with Coordinator => SELF_CORE_NODE | Named name => name end.

Inductive CopyNameError : Type :=
| CopyReserved
| CopyMalformed (e : CoreNodeNameError)
| CopyPanics (e : NameError).

(** [CopyName::new]; [CopyPanics] is its [expect]. *)
Definition CopyName_new (value : string) : result CopyNameError string :=
  placement ← map_err
    (λ e, match e with Reserved => CopyReserved | Malformed => CopyMalformed e end)
    (CoreNodeName_new value);
  map_err CopyPanics (Name_try_from placement).

(** ** Producers *)

Record ProducerRef : Type := mkProducerRef {
  core_node : string;
  instance_id : string;
}.

#[export] Instance ProducerRef_eq_dec : EqDecision ProducerRef.
Proof. solve_decision. Defined.

(** [first_duplicate]: the set of the items passed so far, and the first item
    already in it. *)
Section first_duplicate.
Context {A : Type} `{EqDecision A}.

Fixpoint first_duplicate_loop (seen items : list A) : option A :=
  match items with
  | [] => None
  | x :: items =>
      if decide (x ∈ seen) then Some x else first_duplicate_loop (x :: seen) items
  end.

Definition first_duplicate (items : list A) : option A := first_duplicate_loop [] items.

Lemma first_duplicate_loop_None seen items :
  first_duplicate_loop seen items = None ↔ NoDup items ∧ ∀ x, x ∈ items → x ∉ seen.
Proof.
  revert seen. induction items as [|x items IH]; intros seen; simpl.
  - split; [intros _; split; [constructor | set_solver] | done].
  - case_decide as Hx.
    + split; [done|]. intros [_ H]. exfalso. apply (H x); set_solver.
    + rewrite IH, NoDup_cons. set_solver.
Qed.

Lemma first_duplicate_None items : first_duplicate items = None ↔ NoDup items.
Proof. unfold first_duplicate. rewrite first_duplicate_loop_None. set_solver. Qed.
End first_duplicate.

Record CopyTag : Type := mkCopyTag {
  copy_name : string;
  copy_instance_id : string;
}.

#[export] Instance CopyTag_eq_dec : EqDecision CopyTag.
Proof. solve_decision. Defined.

Definition CopyTag_from_wire (copy instance_id : string) :
    result NameError (option CopyTag) :=
  match bool_decide (copy = ""), bool_decide (instance_id = "") with
  | true, true => Ok None
  | false, false =>
      name ← Name_try_from copy;
      id ← Name_try_from instance_id;
      Ok (Some (mkCopyTag name id))
  | _, _ => Err (HalfCopyTag copy instance_id)
  end.

Definition CopyTag_to_wire (tag : option CopyTag) : string * string :=
  match tag with
  | None => ("", "")
  | Some tag => (copy_name tag, copy_instance_id tag)
  end.

Record BoundMember : Type := mkBoundMember {
  producer : ProducerRef;
  member_copy : option CopyTag;
}.

#[export] Instance BoundMember_eq_dec : EqDecision BoundMember.
Proof. solve_decision. Defined.

(** [BoundProducers] is the member list its one gate lets through. *)
Definition BoundProducers : Type := list BoundMember.

Definition BoundProducers_try_from (members : list BoundMember) :
    result NameError BoundProducers :=
  match first_duplicate (map producer members) with
  | Some d => Err (DuplicateBoundProducer (core_node d) (instance_id d))
  | None => Ok members
  end.

(** [format!("{copy}_{id}")], held to the grammar of a name. *)
Definition instance_id_in_copy (copy id : string) : result NameError string :=
  Name_try_from (copy +:+ ("_" +:+ id)).

(** ** Clocks *)

Definition CLOCK_INCARNATION_MAX : Z := 2 ^ 53.

Inductive InvalidIncarnation : Type := IncarnationZero | TooLarge (value : Z).

Definition ClockIncarnation_try_from (value : Z) : result InvalidIncarnation Z :=
  if CLOCK_INCARNATION_MAX <? value then Err (TooLarge value)
  else if value =? 0 then Err IncarnationZero
  else Ok value.

Record ClockDomainId : Type := mkClockDomainId {
  domain_name : string;
  domain_core_node : string;
  incarnation : Z;
}.

#[export] Instance ClockDomainId_eq_dec : EqDecision ClockDomainId.
Proof. solve_decision. Defined.

Inductive ClockRole : Type := Publisher | Consumer (publisher : ProducerRef).

#[export] Instance ClockRole_eq_dec : EqDecision ClockRole.
Proof. solve_decision. Defined.

Inductive ClockBinding : Type := Wall | Sim (domain : ClockDomainId) (role : ClockRole).

#[export] Instance ClockBinding_eq_dec : EqDecision ClockBinding.
Proof. solve_decision. Defined.

Definition ClockBinding_domain (b : ClockBinding) : option ClockDomainId :=
  match b with Wall => None | Sim d _ => Some d end.

Definition is_publisher (b : ClockBinding) : bool :=
  match b with Sim _ Publisher => true | _ => false end.

Definition published_domain (b : ClockBinding) : option ClockDomainId :=
  option_filter (λ _, is_publisher b) (ClockBinding_domain b).

Definition publisher_ref (b : ClockBinding) : option ProducerRef :=
  match b with
  | Sim _ (Consumer publisher) => Some publisher
  | Wall | Sim _ Publisher => None
  end.

Definition is_compatible_with (a b : ClockBinding) : bool :=
  match a, b with
  | Wall, Wall => true
  | Sim d _, Sim e _ => bool_decide (d = e)
  | Wall, Sim _ _ | Sim _ _, Wall => false
  end.

(** [{:016x}]: sixteen hexadecimal digits, zeros first. *)
Definition hex_digit (d : Z) : Ascii.ascii :=
  Ascii.ascii_of_nat (Z.to_nat (if d <? 10 then d + 48 else d + 87)).

Fixpoint hex_digits (width : nat) (n : Z) : list Ascii.ascii :=
  match width with
  | O => []
  | S width => hex_digits width (n / 16) ++ [hex_digit (n mod 16)]
  end.

Definition hex016 (n : Z) : string := String.string_of_list_ascii (hex_digits 16 n).

Definition ClockDomainId_link_id (d : ClockDomainId) : string :=
  domain_name d +:+ ("_" +:+ hex016 (incarnation d)).

(** ** Trimming *)

Lemma chars_of_list l : chars (String.string_of_list_ascii l) = l.
Proof. apply String.list_ascii_of_string_of_list_ascii. Qed.

Lemma of_chars s : String.string_of_list_ascii (chars s) = s.
Proof. apply String.string_of_list_ascii_of_string. Qed.

Lemma chars_inj s t : chars s = chars t → s = t.
Proof. intros H. by rewrite <-(of_chars s), <-(of_chars t), H. Qed.

Lemma chars_app s t : chars (s +:+ t) = chars s ++ chars t.
Proof. induction s as [|c s IH]; [done|]. simpl. by rewrite IH. Qed.

Lemma ws_prefix_le rev l : (ws_prefix rev l ≤ length l)%nat.
Proof.
  unfold ws_prefix. destruct l as [|a [|b [|c l]]]; cbn;
    repeat case_match; simpl; lia.
Qed.

(** Enough fuel leaves no white space in front. *)
Lemma drop_ws_none rev fuel l :
  (length l ≤ fuel)%nat → ws_prefix rev (drop_ws rev fuel l) = O.
Proof.
  revert l. induction fuel as [|fuel IH]; intros l Hl; simpl.
  - by destruct l; [|simpl in Hl; lia].
  - destruct (ws_prefix rev l) as [|n] eqn:E; [done|].
    apply IH. rewrite length_drop. lia.
Qed.

Lemma drop_ws_stop rev fuel l : ws_prefix rev l = O → drop_ws rev fuel l = l.
Proof. destruct fuel; simpl; [done|]. by intros ->. Qed.

Lemma drop_ws_suffix rev fuel l : ∃ k, l = k ++ drop_ws rev fuel l.
Proof.
  revert l. induction fuel as [|fuel IH]; intros l; simpl; [by exists []|].
  destruct (ws_prefix rev l) as [|n]; [by exists []|].
  destruct (IH (drop (S n) l)) as [k Hk]. exists (take (S n) l ++ k).
  rewrite <-app_assoc, <-Hk. by rewrite take_drop.
Qed.

Lemma trim_end_prefix l : ∃ k, l = trim_end l ++ k.
Proof.
  unfold trim_end. destruct (drop_ws_suffix true (length l) (reverse l)) as [k Hk].
  exists (reverse k). rewrite <-reverse_app, <-Hk. by rewrite reverse_involutive.
Qed.

Lemma ws_prefix_app l k : ws_prefix false (l ++ k) = O → ws_prefix false l = O.
Proof.
  unfold ws_prefix. destruct l as [|a [|b [|c l]]]; [done| | |done];
    destruct k as [|x [|y k]]; cbn; try done;
    destruct (ws1 _); try done; destruct (ws2 _ _); try done.
Qed.

Lemma trim_end_idem l : trim_end (trim_end l) = trim_end l.
Proof.
  unfold trim_end at 1. rewrite (drop_ws_stop true); [by rewrite reverse_involutive|].
  unfold trim_end. rewrite reverse_involutive. apply drop_ws_none.
  by rewrite length_reverse.
Qed.

Lemma trim_idem s : trim (trim s) = trim s.
Proof.
  unfold trim. rewrite !chars_of_list. f_equal.
  set (l := trim_start (chars s)).
  assert (trim_start (trim_end l) = trim_end l) as ->; [|apply trim_end_idem].
  apply drop_ws_stop. destruct (trim_end_prefix l) as [k Hk].
  apply (ws_prefix_app _ k). rewrite <-Hk. by apply drop_ws_none.
Qed.

(** ** The grammar of names *)

Lemma Name_try_from_ok s t : Name_try_from s = Ok t ↔ t = s ∧ valid_name s = true.
Proof.
  unfold Name_try_from, valid_name. case_decide as Hs.
  - subst. split; [done|]. by intros [_ ?].
  - rewrite bool_decide_false by done. simpl. destruct (forallb _ _); split; intros; destruct_and?; simplify_eq; done.
Qed.

Lemma valid_name_chars s : valid_name s = true → Forall (λ c, is_valid_char c = true) (chars s).
Proof.
  unfold valid_name. rewrite andb_true_iff, forallb_forall, Forall_forall.
  intros [_ H] c Hc. apply H. by apply list_elem_of_In.
Qed.

Lemma is_valid_char_not_ws c : is_valid_char c = true → ws1 (byte_val c) = false ∧ byte_val c < 128.
Proof.
  unfold is_valid_char, is_ascii_alphanumeric, is_ascii_lowercase, is_ascii_uppercase,
    is_ascii_digit, is_underscore, is_dash, ws1.
  generalize (byte_val c) as b. intros b H. split.
  - rewrite orb_false_iff, andb_false_iff, !Z.leb_gt, Z.eqb_neq. lia.
  - lia.
Qed.

Lemma ws_prefix_valid rev l :
  Forall (λ c, is_valid_char c = true) l → ws_prefix rev l = O.
Proof.
  intros H. destruct l as [|a l]; [done|].
  apply Forall_cons in H as [[Ha Ha']%is_valid_char_not_ws H].
  unfold ws_prefix, ws2, ws3. destruct l as [|b l]; cbn; rewrite Ha; [done|].
  apply Forall_cons in H as [[Hb Hb']%is_valid_char_not_ws H].
  assert (∀ x n, x < 128 → 128 ≤ n → (x =? n) = false) as Hne.
  { intros x n ? ?. apply Z.eqb_neq. lia. }
  destruct l as [|c l]; cbn; rewrite !(Hne (byte_val a)), !(Hne (byte_val b)) by lia;
    simpl; [by destruct rev|].
  apply Forall_cons in H as [[Hc Hc']%is_valid_char_not_ws H].
  rewrite !(Hne (byte_val c)) by lia. by destruct rev.
Qed.

(** A name has nothing to trim. *)
Lemma trim_valid_name s : valid_name s = true → trim s = s.
Proof.
  intros H%valid_name_chars. unfold trim, trim_start, trim_end.
  rewrite (drop_ws_stop false), (drop_ws_stop true), reverse_involutive, of_chars; auto using ws_prefix_valid.
  - apply ws_prefix_valid. by apply Forall_reverse.
Qed.

(** ** Wire and text round trips *)

Definition wf_copy_tag (tag : option CopyTag) : Prop :=
  match tag with
  | None => True
  | Some t => valid_name (copy_name t) = true ∧ valid_name (copy_instance_id t) = true
  end.

Lemma valid_name_nonempty s : valid_name s = true → s ≠ "".
Proof. unfold valid_name. intros [H _]%andb_true_iff ->. done. Qed.

(** The pair of texts that carries an instance's copy on the wire decodes
    to a tag exactly when it is the pair that tag is written as and both
    halves of the tag are names; half a tag never decodes. *)
Lemma copy_tag_wire_exact (copy id : string) (tag : option CopyTag) :
  CopyTag_from_wire copy id = Ok tag ↔
  wf_copy_tag tag ∧ CopyTag_to_wire tag = (copy, id).
Proof.
  unfold CopyTag_from_wire.
  destruct (decide (copy = "")) as [->|Hc], (decide (id = "")) as [->|Hi];
    repeat first [rewrite bool_decide_true by done | rewrite bool_decide_false by done].
  - destruct tag as [[n i]|]; simpl; split; try done.
    intros [[Hn%valid_name_nonempty _] ?]. simplify_eq.
  - split; [done|]. destruct tag as [[n i]|]; simpl; [|by intros [_ ?]; simplify_eq].
    intros [[Hn%valid_name_nonempty _] ?]. simplify_eq.
  - split; [done|]. destruct tag as [[n i]|]; simpl; [|by intros [_ ?]; simplify_eq].
    intros [[_ Hn%valid_name_nonempty] ?]. simplify_eq.
  - rewrite result_bind_ok. setoid_rewrite result_bind_ok. setoid_rewrite Name_try_from_ok.
    split.
    + intros (? & [-> ?] & ? & [-> ?] & ?). by simplify_eq/=.
    + destruct tag as [[n i]|]; simpl; intros [? ?]; destruct_and?; simplify_eq. eauto 10.
Qed.

Definition valid_core_node_name (s : string) : Prop :=
  s ≠ SELF_CORE_NODE ∧ valid_name s = true ∧ (length (chars s) ≤ MAX_CORE_NODE_NAME_LEN)%nat.

Definition wf_target (t : CoreNodeTarget) : Prop :=
  match t with Coordinator => True | Named n => valid_core_node_name n end.

Lemma CoreNodeName_new_ok s n :
  CoreNodeName_new s = Ok n ↔ n = s ∧ valid_core_node_name s.
Proof.
  unfold CoreNodeName_new, CoreNodeName_validate, valid_core_node_name, valid_name.
  case_decide as Hs; simpl; [split; [done | naive_solver]|].
  destruct (bool_decide (s = "")) eqn:He; simpl; [split; [done | naive_solver]|].
  destruct (forallb _ _); rewrite ?orb_false_r, ?orb_true_r; simpl; [|split; [done | naive_solver]].
  destruct (MAX_CORE_NODE_NAME_LEN <? length (chars s))%nat eqn:Hl; simpl.
  - apply Nat.ltb_lt in Hl. split; [done|]. intros (_ & _ & _ & ?). lia.
  - apply Nat.ltb_ge in Hl. split; intros; destruct_and?; simplify_eq; auto.
Qed.

(** The text of a placement target parses back to it, and a text parses
    only when it is [self] or a machine name: at most 63 bytes of the allowed
    characters, never [self] itself, so the coordinator and a machine are
    never confused. *)
Lemma core_node_target_text_exact (raw : string) (t : CoreNodeTarget) :
  CoreNodeTarget_parse raw = Ok t ↔ wf_target t ∧ CoreNodeTarget_to_string t = raw.
Proof.
  unfold CoreNodeTarget_parse. case_decide as Hr.
  - subst. destruct t as [|n]; simpl; [done|]. split; [done|].
    intros [(Hn & _) ->]. done.
  - destruct (CoreNodeName_new raw) as [n|e] eqn:E; simpl.
    + apply CoreNodeName_new_ok in E as [-> Hv]. destruct t as [|m]; simpl; split; intros;
        destruct_and?; simplify_eq; auto.
    + split; [done|]. destruct t as [|m]; simpl; [naive_solver|]. intros [Hv ->].
      assert (CoreNodeName_new raw = Ok raw) by (by apply CoreNodeName_new_ok).
      congruence.
Qed.

Lemma valid_name_join s t :
  Forall (λ c, is_valid_char c = true) (chars t) → valid_name s = true →
  valid_name (s +:+ ("_" +:+ t)) = true.
Proof.
  intros Ht Hs. pose proof (valid_name_nonempty s Hs) as Hne.
  unfold valid_name. rewrite andb_true_iff, negb_true_iff, bool_decide_eq_false, forallb_forall.
  split; [by destruct s|]. intros c. rewrite <-list_elem_of_In, chars_app.
  apply valid_name_chars in Hs. rewrite Forall_forall in Hs, Ht.
  rewrite elem_of_app. intros [?|H]; [by apply Hs|].
  change (chars ("_" +:+ t)) with (Ascii.ascii_of_nat 95 :: chars t) in H.
  apply elem_of_cons in H as [->|?]; [done|]. by apply Ht.
Qed.

(** A copy's name is a name, and the ids minted for its instances are
    names: neither [expect] of [CopyName::new] and [instance_id_in_copy] can
    panic. *)
Lemma copy_names_never_panic (value id : string) :
  (∀ e, CopyName_new value ≠ Err (CopyPanics e)) ∧
  (is_ok (CopyName_new value) = true → valid_name id = true →
   instance_id_in_copy value id = Ok (value +:+ ("_" +:+ id))).
Proof.
  unfold CopyName_new. destruct (CoreNodeName_new value) as [n|e] eqn:E; simpl.
  - apply CoreNodeName_new_ok in E as [-> (_ & Hv & _)].
    assert (Name_try_from value = Ok value) as -> by (by apply Name_try_from_ok).
    split; [done|]. intros _ Hi. apply Name_try_from_ok. split; [done|].
    apply valid_name_join; [by apply valid_name_chars | done].
  - destruct e; split; done.
Qed.

Lemma first_duplicate_loop_Some {A} `{EqDecision A} (seen items : list A) x :
  first_duplicate_loop seen items = Some x →
  ∃ l1 l2, items = l1 ++ x :: l2 ∧ x ∈ seen ++ l1 ∧ NoDup l1 ∧ ∀ y, y ∈ l1 → y ∉ seen.
Proof.
  revert seen. induction items as [|y items IH]; intros seen; simpl; [done|].
  case_decide as Hy; intros H; simplify_eq.
  - exists [], items. rewrite app_nil_r. split_and!; [done|done|constructor|set_solver].
  - apply IH in H as (l1 & l2 & -> & Hx & Hl & Hs).
    exists (y :: l1), l2. split_and!; [done|set_solver| |set_solver].
    constructor; [|done]. intros Hyl. apply (Hs y); set_solver.
Qed.

(** A producer set is let through unchanged when no producer is named
    twice, whatever copies its members belong to; otherwise the refusal names
    the first producer, in declaration order, that repeats an earlier one. *)
Lemma bound_producers_gate (members : list BoundMember) :
  match BoundProducers_try_from members with
  | Ok bp => bp = members ∧ NoDup (map producer members)
  | Err e =>
      ∃ l1 x l2, map producer members = l1 ++ x :: l2 ∧ NoDup l1 ∧ x ∈ l1 ∧
        e = DuplicateBoundProducer (core_node x) (instance_id x)
  end.
Proof.
  unfold BoundProducers_try_from.
  destruct (first_duplicate (map producer members)) as [x|] eqn:E.
  - apply first_duplicate_loop_Some in E as (l1 & l2 & ? & ? & ? & _). eauto 10.
  - by apply first_duplicate_None in E.
Qed.

(** ** Clock streams *)

Lemma hex_digit_inj a b :
  0 ≤ a < 16 → 0 ≤ b < 16 → hex_digit a = hex_digit b → a = b.
Proof.
  intros Ha Hb H. apply (f_equal Ascii.nat_of_ascii) in H.
  unfold hex_digit in H. rewrite !Ascii.nat_ascii_embedding in H;
    destruct (a <? 10) eqn:?, (b <? 10) eqn:?; lia.
Qed.

Lemma length_hex_digits w n : length (hex_digits w n) = w.
Proof. revert n. induction w as [|w IH]; intros n; simpl; [done|]. rewrite length_app, IH. simpl. lia. Qed.

Lemma hex_digits_inj w a b :
  0 ≤ a < 16 ^ Z.of_nat w → 0 ≤ b < 16 ^ Z.of_nat w →
  hex_digits w a = hex_digits w b → a = b.
Proof.
  revert a b. induction w as [|w IH]; intros a b Ha Hb H; [simpl in *; lia|].
  simpl in H. rewrite Nat2Z.inj_succ, Z.pow_succ_r in Ha, Hb by lia.
  apply app_inj_tail in H as [H1 H2]. apply IH in H1; [|split; [apply Z.div_pos|apply Z.div_lt_upper_bound]; lia..].
  apply hex_digit_inj in H2; [|apply Z.mod_pos_bound; lia..].
  rewrite (Z.div_mod a 16), (Z.div_mod b 16) by lia. congruence.
Qed.

Lemma hex016_inj a b : 0 ≤ a ≤ U64_MAX → 0 ≤ b ≤ U64_MAX → hex016 a = hex016 b → a = b.
Proof.
  unfold hex016, U64_MAX. intros Ha Hb H. apply (f_equal chars) in H.
  rewrite !chars_of_list in H. apply hex_digits_inj in H; [done|lia..].
Qed.

Lemma chars_app_eq_length s1 s2 t1 t2 :
  length (chars t1) = length (chars t2) → s1 +:+ t1 = s2 +:+ t2 → s1 = s2 ∧ t1 = t2.
Proof.
  intros Hl H. apply (f_equal chars) in H. rewrite !chars_app in H.
  apply app_inj_2 in H as [? ?]; [|done]. auto using chars_inj.
Qed.

(** Two clock domains write their ticks to the same wire segment only when
    they have the same name and the same lifetime, whatever underscores and
    digits the names hold, so a tick of an earlier lifetime of a name never
    reaches a reader of a later one. *)
Lemma clock_link_id_injective (d e : ClockDomainId) :
  is_ok (ClockIncarnation_try_from (incarnation d)) = true → 0 ≤ incarnation d →
  is_ok (ClockIncarnation_try_from (incarnation e)) = true → 0 ≤ incarnation e →
  ClockDomainId_link_id d = ClockDomainId_link_id e →
  domain_name d = domain_name e ∧ incarnation d = incarnation e.
Proof.
  assert (∀ v, is_ok (ClockIncarnation_try_from v) = true → v ≤ U64_MAX) as Hle.
  { unfold ClockIncarnation_try_from, CLOCK_INCARNATION_MAX, U64_MAX. intros v.
    destruct (2 ^ 53 <? v) eqn:E; [done|]. lia. }
  intros Hd%Hle Hd0 He%Hle He0 H. unfold ClockDomainId_link_id in H.
  assert (∀ n, length (chars ("_" +:+ hex016 n)) = 17%nat) as Hlen.
  { intros n. rewrite chars_app. unfold hex016. by rewrite chars_of_list, length_app, length_hex_digits. }
  apply chars_app_eq_length in H as [? H]; [|by rewrite !Hlen].
  split; [done|]. apply hex016_inj; [done..|].
  apply (chars_app_eq_length "_" "_"); [|done]. unfold hex016. by rewrite !chars_of_list, !length_hex_digits.
Qed.
