(* ===== verification/RestartPolicy.v ===== *)
(** * Restart policies

    [peppy-shared/peppy-config-model/src/node/restart.rs]: the policy a level
    writes under [restart], the declaration with its cap, where a resolved
    policy came from and the say a launcher or a flag hands the daemon;
    [crates/daemon-config-internal/src/launcher/restart.rs]: the resolution of
    one instance's policy over its four levels; the wire form of a request in
    [peppy-shared/core-node-api/src/encoding/node/run.rs]. *)

From S2P Require Import Prelude.
#[local] Open Scope Z_scope.

(** ** Data *)

Inductive RestartPolicy : Type := Never | OnFailure | Always.

Inductive RestartOrigin : Type :=
| OriginInstance | OriginFlag | OriginNode | OriginLauncherRoot | OriginDefault.

(** [max_restarts] is a [NonZeroU32]. *)
Record RestartDeclaration : Type := mkRestartDeclaration {
  policy : RestartPolicy;
  max_restarts : option Z;
}.

Inductive RestartRequest : Type :=
| Unset
| RequestInstance (d : RestartDeclaration)
| RequestFlag (d : RestartDeclaration)
| RequestLauncherRoot (d : RestartDeclaration).

Record ResolvedRestart : Type := mkResolvedRestart {
  declaration : RestartDeclaration;
  origin : RestartOrigin;
}.

#[export] Instance RestartPolicy_eq_dec : EqDecision RestartPolicy.
Proof. solve_decision. Defined.
#[export] Instance RestartOrigin_eq_dec : EqDecision RestartOrigin.
Proof. solve_decision. Defined.
#[export] Instance RestartDeclaration_eq_dec : EqDecision RestartDeclaration.
Proof. solve_decision. Defined.
#[export] Instance RestartRequest_eq_dec : EqDecision RestartRequest.
Proof. solve_decision. Defined.
#[export] Instance ResolvedRestart_eq_dec : EqDecision ResolvedRestart.
Proof. solve_decision. Defined.

(** The refusals of [ParsingError] and of the wire decoder that this file
    produces, with what they quote. *)
Inductive RestartError : Type :=
| InvalidRestartPolicy (value : string)
| RestartNeedsPolicy
| InvalidMaxRestarts (key value : string)
| UnknownRestartOrigin (value : string)
| MaxRestartsWithNever
| CapWithoutPolicy (cap : Z)
| OriginNotOfARequest (o : RestartOrigin)
| UnknownField (name : string)
| DuplicateField (name : string)
| InvalidType.

(** ** The policy *)

Definition RestartPolicy_as_str (p : RestartPolicy) : string :=
  match p with
  | Never => "never"
  | OnFailure => "on_failure"
  | Always => "always"
  end.

Definition restarts_after_failure (p : RestartPolicy) : bool :=
  match p with OnFailure | Always => true | Never => false end.

Definition restarts_after_clean_exit (p : RestartPolicy) : bool :=
  match p with Always => true | _ => false end.

Definition RestartPolicy_from_str (s : string) : result RestartError RestartPolicy :=
  if decide (s = "never") then Ok Never
  else if decide (s = "on_failure") then Ok OnFailure
  else if decide (s = "always") then Ok Always
  else Err (InvalidRestartPolicy s).

(** [RestartPolicy::default()]. *)
Definition RestartPolicy_default : RestartPolicy := OnFailure.

(** ** Counts as text

    [str::parse::<u32>] reads an optional [+] and decimal digits, with every
    multiplication and addition checked; [to_string] writes the decimal
    digits of a value. *)
Definition digit_value (c : Ascii.ascii) : option Z :=
  let n := Z.of_nat (Ascii.nat_of_ascii c) in
  if (48 <=? n) && (n <=? 57) then Some (n - 48) else None.

Definition u32_push_digit (acc : option Z) (c : Ascii.ascii) : option Z :=
  n ← acc;
  d ← digit_value c;
  if n * 10 + d <=? U32_MAX then Some (n * 10 + d) else None.

Definition plus_char : Ascii.ascii := Ascii.ascii_of_nat 43.
Definition minus_char : Ascii.ascii := Ascii.ascii_of_nat 45.
Definition quote_char : Ascii.ascii := Ascii.ascii_of_nat 34.

Definition parse_u32 (s : string) : option Z :=
  let digits :=
    match String.list_ascii_of_string s with
    | c :: rest => if decide (c = plus_char) then rest else c :: rest
    | [] => []
    end in
  match digits with
  | [] => None
  | _ => foldl u32_push_digit (Some 0) digits
  end.

Definition digit_char (d : Z) : Ascii.ascii := Ascii.ascii_of_nat (Z.to_nat (d + 48)).

Fixpoint decimal_digits (fuel : nat) (n : Z) : list Ascii.ascii :=
  match fuel with
  | O => []
  | S fuel =>
      if n <? 10 then [digit_char n]
      else decimal_digits fuel (n / 10) ++ [digit_char (n mod 10)]
  end.

(** Twenty digits hold every [u64]. *)
Definition u64_to_string (n : Z) : string :=
  String.string_of_list_ascii (decimal_digits 20 n).

Definition i64_to_string (n : Z) : string :=
  if n <? 0 then String minus_char (u64_to_string (- n)) else u64_to_string n.

(** [NonZeroU32::new]. *)
Definition nonzero_u32 (n : Z) : option Z := if n =? 0 then None else Some n.

Definition parse_max_restarts (key value : string) : result RestartError Z :=
  ok_or (parse_u32 value ≫= nonzero_u32) (InvalidMaxRestarts key value).

(** ** Declarations *)

Definition RestartDeclaration_new (p : RestartPolicy) (m : option Z) :
    result RestartError RestartDeclaration :=
  if opt_is_some m && bool_decide (p = Never) then Err MaxRestartsWithNever
  else Ok (mkRestartDeclaration p m).

Definition policy_only (p : RestartPolicy) : RestartDeclaration :=
  mkRestartDeclaration p None.

Definition RestartDeclaration_default : RestartDeclaration :=
  policy_only RestartPolicy_default.

(** ** Reading and writing a declaration in a file

    A serde value, by the call its deserializer makes on a visitor. A float
    is kept as the text its [Debug] writes, a map as its entries in order. *)
Inductive serde_value : Type :=
| VNull
| VBool (b : bool)
| VI64 (n : Z)
| VU64 (n : Z)
| VF64 (debug : string)
| VStr (s : string)
| VMap (entries : list (string * serde_value)).

Definition bool_to_string (b : bool) : string := if b then "true" else "false".

(** [CountText]: the text of any scalar; a string keeps its quotes. *)
Definition count_text (v : serde_value) : result RestartError string :=
  match v with
  | VI64 n => Ok (i64_to_string n)
  | VU64 n => Ok (u64_to_string n)
  | VF64 d => Ok d
  | VStr s => Ok (String quote_char (s +:+ String quote_char ""))
  | VBool b => Ok (bool_to_string b)
  | VNull | VMap _ => Err InvalidType
  end.

(** The derived [Deserialize] of [Raw]: two optional fields, no field twice
    and no other field. A [null] is an absent value. *)
Record Raw : Type := mkRaw {
  raw_policy : option RestartPolicy;
  raw_max_restarts : option string;
}.

Definition read_optional {A} (read : serde_value → result RestartError A)
    (v : serde_value) : result RestartError (option A) :=
  match v with VNull => Ok None | _ => Some <$> read v end.

Definition read_policy (v : serde_value) : result RestartError RestartPolicy :=
  match v with VStr s => RestartPolicy_from_str s | _ => Err InvalidType end.

Fixpoint Raw_deserialize_loop (entries : list (string * serde_value))
    (p : option (option RestartPolicy)) (m : option (option string)) :
    result RestartError Raw :=
  match entries with
  | [] => Ok (mkRaw (default None p) (default None m))
  | (name, v) :: entries =>
      if decide (name = "policy") then
        match p with
        | Some _ => Err (DuplicateField "policy")
        | None => v' ← read_optional read_policy v; Raw_deserialize_loop entries (Some v') m
        end
      else if decide (name = "max_restarts") then
        match m with
        | Some _ => Err (DuplicateField "max_restarts")
        | None => v' ← read_optional count_text v; Raw_deserialize_loop entries p (Some v')
        end
      else Err (UnknownField name)
  end.

Definition Raw_deserialize (entries : list (string * serde_value)) : result RestartError Raw :=
  Raw_deserialize_loop entries None None.

Definition RestartDeclaration_deserialize (v : serde_value) :
    result RestartError RestartDeclaration :=
  match v with
  | VStr s => policy_only <$> RestartPolicy_from_str s
  | VMap entries =>
      raw ← Raw_deserialize entries;
      p ← ok_or (raw_policy raw) RestartNeedsPolicy;
      m ← transpose (parse_max_restarts "max_restarts" <$> raw_max_restarts raw);
      RestartDeclaration_new p m
  | _ => Err InvalidType
  end.

Definition RestartDeclaration_serialize (d : RestartDeclaration) : serde_value :=
  match max_restarts d with
  | None => VStr (RestartPolicy_as_str (policy d))
  | Some m =>
      VMap [("policy", VStr (RestartPolicy_as_str (policy d)));
            ("max_restarts", VU64 m)]
  end.

(** ** Origins *)

Definition RestartOrigin_as_str (o : RestartOrigin) : string :=
  match o with
  | OriginInstance => "instance"
  | OriginFlag => "flag"
  | OriginNode => "node"
  | OriginLauncherRoot => "launcher_root"
  | OriginDefault => "default"
  end.

Definition RestartOrigin_from_str (s : string) : result RestartError RestartOrigin :=
  if decide (s = "instance") then Ok OriginInstance
  else if decide (s = "flag") then Ok OriginFlag
  else if decide (s = "node") then Ok OriginNode
  else if decide (s = "launcher_root") then Ok OriginLauncherRoot
  else if decide (s = "default") then Ok OriginDefault
  else Err (UnknownRestartOrigin s).

(** ** Requests and their resolution *)

Definition written (r : RestartRequest) : option ResolvedRestart :=
  match r with
  | Unset => None
  | RequestInstance d => Some (mkResolvedRestart d OriginInstance)
  | RequestFlag d => Some (mkResolvedRestart d OriginFlag)
  | RequestLauncherRoot d => Some (mkResolvedRestart d OriginLauncherRoot)
  end.

Definition ResolvedRestart_default : ResolvedRestart :=
  mkResolvedRestart RestartDeclaration_default OriginDefault.

(** [restart_request_of], by the two declarations it reads: the launcher
    root's and the instance entry's [framework.restart]. *)
Definition restart_request_of (root instance : option RestartDeclaration) : RestartRequest :=
  default Unset
    (((RequestInstance <$> instance) <|> (RequestLauncherRoot <$> root))%peppy).

Definition instance_restart (r : RestartRequest) : option ResolvedRestart :=
  match r with
  | RequestInstance _ | RequestFlag _ => written r
  | RequestLauncherRoot _ | Unset => None
  end.

Definition resolve_restart (r : RestartRequest) (node_declaration : option RestartDeclaration) :
    ResolvedRestart :=
  let node := (λ d, mkResolvedRestart d OriginNode) <$> node_declaration in
  default ResolvedRestart_default (instance_restart r <|> node <|> written r)%peppy.

(** ** The request on the wire: the policy's text, the level that wrote it
    and its cap, 0 for none. A builder's fields start empty. *)
Record RestartRequestWire : Type := mkRestartRequestWire {
  wire_policy : string;
  wire_origin : string;
  wire_max_restarts : Z;
}.

Definition declaration_on_wire (d : RestartDeclaration) : string * Z :=
  (RestartPolicy_as_str (policy d), default 0 (max_restarts d)).

Definition write_restart_request (r : RestartRequest) : RestartRequestWire :=
  match written r with
  | None => mkRestartRequestWire "" "" 0
  | Some w =>
      let '(p, m) := declaration_on_wire (declaration w) in
      mkRestartRequestWire p (RestartOrigin_as_str (origin w)) m
  end.

Definition read_declaration (p : string) (m : Z) :
    result RestartError (option RestartDeclaration) :=
  if decide (p = "") then
    if m =? 0 then Ok None else Err (CapWithoutPolicy m)
  else
    policy ← RestartPolicy_from_str p;
    Some <$> RestartDeclaration_new policy (nonzero_u32 m).

Definition read_restart_request (w : RestartRequestWire) : result RestartError RestartRequest :=
  d ← read_declaration (wire_policy w) (wire_max_restarts w);
  match d with
  | None => Ok Unset
  | Some d =>
      o ← RestartOrigin_from_str (wire_origin w);
      match o with
      | OriginInstance => Ok (RequestInstance d)
      | OriginFlag => Ok (RequestFlag d)
      | OriginLauncherRoot => Ok (RequestLauncherRoot d)
      | OriginNode | OriginDefault => Err (OriginNotOfARequest o)
      end
  end.

(** ** Well-formed declarations: the cap is a [NonZeroU32], and no cap stands
    beside [Never]. *)
Definition wf_max_restarts (m : option Z) : Prop :=
  match m with None => True | Some n => 1 ≤ n ≤ U32_MAX end.

Definition wf_declaration (d : RestartDeclaration) : Prop :=
  wf_max_restarts (max_restarts d) ∧
  (policy d = Never → max_restarts d = None).

Definition wf_request (r : RestartRequest) : Prop :=
  match r with
  | Unset => True
  | RequestInstance d | RequestFlag d | RequestLauncherRoot d => wf_declaration d
  end.

Lemma RestartDeclaration_new_ok p m d :
  RestartDeclaration_new p m = Ok d ↔
  d = mkRestartDeclaration p m ∧ (p = Never → m = None).
Proof.
  unfold RestartDeclaration_new.
  destruct m as [m|], p; simpl; naive_solver.
Qed.

Lemma RestartDeclaration_new_wf p m d :
  wf_max_restarts m → RestartDeclaration_new p m = Ok d → wf_declaration d.
Proof. intros ? [-> ?]%RestartDeclaration_new_ok. by split. Qed.

Lemma policy_only_wf p : wf_declaration (policy_only p).
Proof. by split. Qed.

Lemma policy_str_roundtrip p : RestartPolicy_from_str (RestartPolicy_as_str p) = Ok p.
Proof. by destruct p. Qed.

Lemma policy_from_str_inv s p : RestartPolicy_from_str s = Ok p → s = RestartPolicy_as_str p.
Proof. unfold RestartPolicy_from_str. intros. repeat case_decide; by simplify_eq. Qed.

Lemma origin_str_roundtrip o : RestartOrigin_from_str (RestartOrigin_as_str o) = Ok o.
Proof. by destruct o. Qed.

(** *** Counts as text *)

Lemma digit_value_char d : 0 ≤ d < 10 → digit_value (digit_char d) = Some d.
Proof.
  intros H.
  assert (d = 0 ∨ d = 1 ∨ d = 2 ∨ d = 3 ∨ d = 4 ∨ d = 5 ∨ d = 6 ∨ d = 7 ∨ d = 8 ∨ d = 9)
    as Hd by lia.
  destruct_or!; subst; vm_compute; reflexivity.
Qed.

Lemma push_digits_app acc l1 l2 :
  foldl u32_push_digit acc (l1 ++ l2) = foldl u32_push_digit (foldl u32_push_digit acc l1) l2.
Proof. apply foldl_app. Qed.

Lemma push_digit_char n d :
  0 ≤ d < 10 → n * 10 + d ≤ U32_MAX →
  u32_push_digit (Some n) (digit_char d) = Some (n * 10 + d).
Proof.
  intros Hd Hn. unfold u32_push_digit. cbn [mbind option_bind].
  rewrite digit_value_char by done. cbn [mbind option_bind].
  by rewrite (proj2 (Z.leb_le _ _)).
Qed.

Lemma decimal_digits_parse fuel n :
  0 ≤ n ≤ U32_MAX → n < 10 ^ Z.of_nat fuel →
  foldl u32_push_digit (Some 0) (decimal_digits fuel n) = Some n.
Proof.
  revert n. induction fuel as [|fuel IH]; intros n Hn Hf; simpl.
  { simpl in Hf. f_equal. lia. }
  destruct (Z.ltb_spec n 10).
  - cbn [foldl]. rewrite push_digit_char by lia. f_equal; lia.
  - pose proof (Z.div_mod n 10 ltac:(lia)) as Hdm.
    pose proof (Z.mod_pos_bound n 10 ltac:(lia)).
    rewrite push_digits_app, IH.
    + cbn [foldl]. rewrite push_digit_char by lia. f_equal; lia.
    + pose proof (Z.div_le_upper_bound n 10 n ltac:(lia) ltac:(lia)).
      pose proof (Z.div_pos n 10 ltac:(lia) ltac:(lia)). lia.
    + apply Z.div_lt_upper_bound; [lia|].
      replace (Z.of_nat (S fuel)) with (Z.succ (Z.of_nat fuel)) in Hf by lia.
      rewrite Z.pow_succ_r in Hf by lia. lia.
Qed.

Lemma decimal_digits_head fuel n :
  0 ≤ n → decimal_digits (S fuel) n ≠ [] ∧
  ∀ c cs, decimal_digits (S fuel) n = c :: cs → c ≠ plus_char.
Proof.
  assert (∀ d, 0 ≤ d < 10 → digit_char d ≠ plus_char) as Hd.
  { intros d H E. apply (f_equal digit_value) in E.
    by rewrite digit_value_char in E by lia. }
  revert n. induction fuel as [|fuel IH]; intros n Hn.
  - simpl. destruct (Z.ltb_spec n 10).
    + split; [done|]. intros c cs [= <- <-]. apply Hd; lia.
    + split; [done|]. intros c cs [= <- <-]. apply Hd. apply Z.mod_pos_bound; lia.
  - change (decimal_digits (S (S fuel)) n) with
      (if n <? 10 then [digit_char n]
       else decimal_digits (S fuel) (n / 10) ++ [digit_char (n mod 10)]).
    destruct (Z.ltb_spec n 10).
    + split; [done|]. intros c cs [= <- <-]. apply Hd; lia.
    + destruct (IH (n / 10)) as [H1 H2]; [apply Z.div_pos; lia|].
      destruct (decimal_digits (S fuel) (n / 10)) as [|c0 cs0]; [done|].
      split; [done|]. intros c cs [= <- _]. by apply (H2 c0 cs0).
Qed.

(** A [u32] written in decimal reads back as itself. *)
Lemma parse_u32_to_string n : in_u32 n → parse_u32 (u64_to_string n) = Some n.
Proof.
  intros Hn. unfold parse_u32, u64_to_string.
  rewrite String.list_ascii_of_string_of_list_ascii.
  destruct (decimal_digits_head 19 n) as [H1 H2]; [unfold in_u32 in Hn; lia|].
  destruct (decimal_digits 20 n) as [|c cs] eqn:E; [done|].
  rewrite decide_False by (by eapply H2). rewrite <-E.
  apply decimal_digits_parse; [done|]. unfold in_u32, U32_MAX in *. simpl. lia.
Qed.

Lemma push_digit_range acc cs n :
  (∀ a, acc = Some a → in_u32 a) → foldl u32_push_digit acc cs = Some n → in_u32 n.
Proof.
  revert acc. induction cs as [|c cs IH]; intros acc Ha; simpl; [by apply Ha|].
  apply IH. intros a. unfold u32_push_digit.
  destruct acc as [b|]; simpl; [|done]. specialize (Ha b eq_refl).
  destruct (digit_value c) as [d|] eqn:Hd; simpl; [|done].
  unfold digit_value in Hd. unfold in_u32 in *.
  destruct (_ && _) eqn:Hr in Hd; simplify_eq.
  destruct (Z.leb_spec (b * 10 + (Z.of_nat (Ascii.nat_of_ascii c) - 48)) U32_MAX);
    intros; simplify_eq. lia.
Qed.

Lemma parse_u32_range s n : parse_u32 s = Some n → in_u32 n.
Proof.
  unfold parse_u32. intros H.
  destruct (match String.list_ascii_of_string s with [] => _ | _ :: _ => _ end)
    as [|c cs]; [done|].
  eapply push_digit_range; [|exact H]. intros a [= <-]. unfold in_u32, U32_MAX. lia.
Qed.

Lemma parse_max_restarts_range key s n :
  parse_max_restarts key s = Ok n → 1 ≤ n ≤ U32_MAX.
Proof.
  unfold parse_max_restarts. rewrite ok_or_ok. intros (a & Ha & Hn)%bind_Some.
  apply parse_u32_range in Ha. unfold nonzero_u32 in Hn.
  destruct (Z.eqb_spec a 0); simplify_eq. unfold in_u32 in Ha. lia.
Qed.

(** *** Round trips *)

Lemma Raw_deserialize_capped p m :
  in_u32 m →
  Raw_deserialize [("policy", VStr (RestartPolicy_as_str p)); ("max_restarts", VU64 m)]
  = Ok (mkRaw (Some p) (Some (u64_to_string m))).
Proof.
  intros. unfold Raw_deserialize. cbn -[u64_to_string RestartPolicy_from_str].
  by rewrite policy_str_roundtrip.
Qed.

Lemma parse_max_restarts_to_string key m :
  1 ≤ m ≤ U32_MAX → parse_max_restarts key (u64_to_string m) = Ok m.
Proof.
  intros. unfold parse_max_restarts. rewrite ok_or_ok.
  rewrite parse_u32_to_string by (unfold in_u32; lia). simpl.
  unfold nonzero_u32. by rewrite (proj2 (Z.eqb_neq _ _)) by lia.
Qed.

(** A declaration a level may hold survives being written to a file and
    read back: the string form without a cap, the object form with one. *)
Lemma restart_declaration_file_roundtrip (d : RestartDeclaration) :
  wf_declaration d →
  RestartDeclaration_deserialize (RestartDeclaration_serialize d) = Ok d.
Proof.
  destruct d as [p [m|]]; intros [Hm Hp]; unfold RestartDeclaration_serialize; simpl in *.
  - rewrite Raw_deserialize_capped by (unfold in_u32; lia).
    cbn -[u64_to_string parse_max_restarts]. rewrite parse_max_restarts_to_string by lia. simpl.
    apply RestartDeclaration_new_ok. split; [done|]. intros Hn. naive_solver.
  - by rewrite policy_str_roundtrip.
Qed.

Lemma restart_declaration_file_roundtrip_witness :
  RestartDeclaration_deserialize
    (RestartDeclaration_serialize (mkRestartDeclaration Always (Some 4294967295)))
  = Ok (mkRestartDeclaration Always (Some 4294967295)).
Proof.
  apply restart_declaration_file_roundtrip. split; simpl; [unfold U32_MAX; lia | done].
Defined.

(** Whatever a file writes under [restart], a declaration that parses is
    well formed: its cap is between 1 and [u32::MAX] and never beside
    [never]. *)
Lemma restart_declaration_parse_wf (v : serde_value) (d : RestartDeclaration) :
  RestartDeclaration_deserialize v = Ok d → wf_declaration d.
Proof.
  destruct v as [|b|n|n|s|s|entries]; simpl; try done.
  - destruct (RestartPolicy_from_str s) as [p|]; simpl; [|done].
    intros [= <-]. apply policy_only_wf.
  - intros (raw & _ & H)%result_bind_ok.
    apply result_bind_ok in H as (p & _ & H).
    apply result_bind_ok in H as (m & Hm & H).
    eapply RestartDeclaration_new_wf; [|exact H].
    destruct (raw_max_restarts raw) as [t|]; simpl in Hm; [|by simplify_eq].
    destruct (parse_max_restarts _ t) as [n|] eqn:E; simplify_eq/=.
    by eapply parse_max_restarts_range.
Qed.

(** [write_restart_request] and [read_restart_request] are inverse on the
    well-formed requests, and everything the reader accepts from a [u32] cap
    is a well-formed request. *)
Lemma restart_request_wire_roundtrip :
  (∀ r, wf_request r → read_restart_request (write_restart_request r) = Ok r) ∧
  (∀ w r, in_u32 (wire_max_restarts w) → read_restart_request w = Ok r → wf_request r).
Proof.
  assert (∀ d, wf_declaration d →
    read_declaration (RestartPolicy_as_str (policy d)) (default 0 (max_restarts d))
    = Ok (Some d)) as Hread.
  { intros [p m] [Hm Hp]; simpl in *. unfold read_declaration.
    rewrite decide_False by (by destruct p). rewrite policy_str_roundtrip. simpl.
    replace (nonzero_u32 (default 0 m)) with m.
    - destruct m as [m|], p; try done. naive_solver.
    - destruct m as [m|]; simpl in *; [|done]. unfold nonzero_u32.
      by rewrite (proj2 (Z.eqb_neq _ _)) by lia. }
  split.
  - intros [|d|d|d] Hd; [done| | |]; unfold read_restart_request, write_restart_request;
      simpl; rewrite Hread by done; simpl; by rewrite ?origin_str_roundtrip.
  - intros [p o m] r Hm H. simpl in Hm. unfold read_restart_request in H. simpl in H.
    apply result_bind_ok in H as (d & Hd & H).
    destruct d as [d|]; [|by simplify_eq].
    assert (wf_declaration d) as Hwf.
    { unfold read_declaration in Hd. case_decide; [by destruct (m =? 0)|].
      apply result_bind_ok in Hd as (q & _ & Hd).
      destruct (RestartDeclaration_new q (nonzero_u32 m)) as [d'|] eqn:E; simplify_eq/=.
      eapply RestartDeclaration_new_wf; [|exact E].
      unfold nonzero_u32, in_u32 in *. destruct (Z.eqb_spec m 0); simpl; lia. }
    apply result_bind_ok in H as (o' & _ & H). by destruct o'; simplify_eq.
Qed.

(** The levels a policy may be written at, in the order they are consulted,
    and the first that wrote one. *)
Definition first_written (levels : list (option RestartDeclaration * RestartOrigin)) :
    option ResolvedRestart :=
  foldr (λ '(d, o) rest, ((λ d, mkResolvedRestart d o) <$> d) <|> rest)%peppy None levels.

(** An instance's policy is the whole declaration of the first level that
    wrote one: the instance entry, the node's [peppy.json5], the launcher
    root, else the built-in [on_failure] without a cap; a flag of a single run
    stands where the instance entry does. *)
Lemma resolve_restart_first_level (root instance node : option RestartDeclaration) :
  resolve_restart (restart_request_of root instance) node
    = default ResolvedRestart_default
        (first_written [(instance, OriginInstance); (node, OriginNode);
                        (root, OriginLauncherRoot)]) ∧
  (∀ flag, resolve_restart (RequestFlag flag) node = mkResolvedRestart flag OriginFlag).
Proof. by destruct root, instance, node. Qed.
