(* ===== verification/Config.v ===== *)
(** * Node documents

    The parts of [peppy-shared/peppy-config-model/src/node/types.rs] that the
    node stack and the validators read: cardinalities, the [depends_on] lists,
    [implements], the interface sections and their projections, the message
    formats they carry, and the framework and execution blocks. *)

From S2P Require Import Prelude Names RestartPolicy.

(** ** Kinds and cardinalities *)

Inductive InterfaceKind : Type := KTopic | KService | KAction.

#[export] Instance InterfaceKind_eq_dec : EqDecision InterfaceKind.
Proof. solve_decision. Defined.

Definition InterfaceKind_label (k : InterfaceKind) : string :=
  match k with KTopic => "Topic" | KService => "Service" | KAction => "Action" end.

Definition consumed_section (k : InterfaceKind) : string :=
  match k with
  | KTopic => "topics.consumes"
  | KService => "services.consumes"
  | KAction => "actions.consumes"
  end.

Definition InterfaceKind_to_string (k : InterfaceKind) : string :=
  match k with KTopic => "topic" | KService => "service" | KAction => "action" end.

Definition InterfaceKind_from_str (s : string) : result string InterfaceKind :=
  if decide (s = "topic") then Ok KTopic
  else if decide (s = "service") then Ok KService
  else if decide (s = "action") then Ok KAction
  else Err ("unknown interface kind: " +:+ s).

Inductive Cardinality : Type := One | ZeroOrOne | OneOrMore | ZeroOrMore.

#[export] Instance Cardinality_eq_dec : EqDecision Cardinality.
Proof. solve_decision. Defined.

Definition Cardinality_default : Cardinality := One.

Definition is_one (c : Cardinality) : bool := match c with One => true | _ => false end.

Definition is_scalar (c : Cardinality) : bool :=
  match c with One | ZeroOrOne => true | _ => false end.

Definition allows_empty (c : Cardinality) : bool :=
  match c with ZeroOrMore => true | _ => false end.

Definition admits_pairs (c : Cardinality) (len : nat) : bool :=
  match c with
  | One | ZeroOrOne => (len <=? 1)%nat
  | OneOrMore | ZeroOrMore => true
  end.

Definition admits (c : Cardinality) (len : nat) : bool :=
  match c with
  | One => (len =? 1)%nat
  | ZeroOrOne => (len <=? 1)%nat
  | OneOrMore => (1 <=? len)%nat
  | ZeroOrMore => true
  end.

Definition Cardinality_as_str (c : Cardinality) : string :=
  match c with
  | One => "one"
  | ZeroOrOne => "zero_or_one"
  | OneOrMore => "one_or_more"
  | ZeroOrMore => "zero_or_more"
  end.

Definition Cardinality_from_str (spelling : string) : result string Cardinality :=
  ok_or
    (List.find (λ c, bool_decide (Cardinality_as_str c = spelling))
       [One; ZeroOrOne; OneOrMore; ZeroOrMore])
    spelling.

(** ** Message formats *)

Inductive TypeToken : Type :=
| TBool | TString | TBytes | TTime
| TU8 | TU16 | TU32 | TU64 | TI8 | TI16 | TI32 | TI64 | TF32 | TF64.

#[export] Instance TypeToken_eq_dec : EqDecision TypeToken.
Proof. solve_decision. Defined.

(** [TypeToken::is_scalar]. *)
Definition token_is_scalar (t : TypeToken) : bool :=
  match t with
  | TBool | TU8 | TU16 | TU32 | TU64 | TI8 | TI16 | TI32 | TI64 | TF32 | TF64 => true
  | TString | TBytes | TTime => false
  end.

(** A [Marks] is a list of mark names, an [EnumValues] a list of texts, an
    [IndexMap] its entries in order. *)
Record PrimitiveSchema : Type := mkPrimitiveSchema {
  prim_kind : TypeToken;
  prim_optional : bool;
  enum_values : option (list string);
  prim_marks : list string;
  prim_description : option string;
}.

Inductive SchemaType : Type :=
| SType (t : TypeToken)
| SPrimitive (p : PrimitiveSchema)
| SArray (items : SchemaType) (length : option Z) (optional : bool)
    (marks : list string) (description : option string)
| SObject (fields : list (string * SchemaType)) (optional : bool)
    (marks : list string) (description : option string).

Definition MessageFormat : Type := list (string * SchemaType).

Definition SchemaType_description (s : SchemaType) : option string :=
  match s with
  | SType _ => None
  | SPrimitive p => prim_description p
  | SArray _ _ _ _ d | SObject _ _ _ d => d
  end.

(** [collect_field_descriptions]: the descriptions of a field and below it,
    each with the path of keys that leads to it. *)
Fixpoint collect_field_descriptions (path : list string) (field : SchemaType) :
    list (list string * string) :=
  let own := match SchemaType_description field with
             | Some d => [(path, d)] | None => [] end in
  own ++
  match field with
  | SArray items _ _ _ _ => collect_field_descriptions path items
  | SObject fields _ _ _ =>
      (fix go fields :=
         match fields with
         | [] => []
         | (key, nested) :: fields =>
             collect_field_descriptions (path ++ [key]) nested ++ go fields
         end) fields
  | SType _ | SPrimitive _ => []
  end.

Definition field_descriptions (m : MessageFormat) : list (list string * string) :=
  concat (map (λ '(key, field), collect_field_descriptions [key] field) m).

(** [PrimitiveSchema::try_from]: an enum only on a string. *)
Definition PrimitiveSchema_try_from (raw : PrimitiveSchema) :
    result TypeToken PrimitiveSchema :=
  if opt_is_some (enum_values raw) && negb (bool_decide (prim_kind raw = TString))
  then Err (prim_kind raw) else Ok raw.

Inductive QoSProfile : Type := SensorData | Standard | Reliable | Critical.

Inductive TopicRetention : Type := LiveOnly | Latest (depth : Z).

Definition MAX_RETENTION_DEPTH : Z := 1024.

(** [TopicRetention::latest]. *)
Definition TopicRetention_latest (depth : Z) : result Z TopicRetention :=
  if (depth =? 0)%Z then Ok LiveOnly
  else if (depth <=? MAX_RETENTION_DEPTH)%Z then Ok (Latest depth)
  else Err depth.

Definition TopicRetention_depth (r : TopicRetention) : Z :=
  match r with LiveOnly => 0%Z | Latest d => d end.

(** ** Refinements: what a [refine] block says of a document's arrays *)

Inductive FieldRefinement : Type :=
| RLength (n : Z)
| RItems (f : list (string * FieldRefinement))
| RObject (f : list (string * FieldRefinement)).

Definition FormatRefinement : Type := list (string * FieldRefinement).

Record TopicRefinement : Type := mkTopicRefinement {
  topic_refine_format : FormatRefinement;
}.

Record ServiceRefinement : Type := mkServiceRefinement {
  refine_request : option FormatRefinement;
  refine_response : option FormatRefinement;
}.

Record ActionRefinement : Type := mkActionRefinement {
  refine_goal : option ServiceRefinement;
  refine_feedback : option TopicRefinement;
  refine_result : option FormatRefinement;
}.

(** ** Interfaces *)

Record LinkedEntry (R : Type) : Type := mkLinkedEntry {
  le_link_id : string;
  le_name : string;
  le_refine : option R;
}.
Arguments mkLinkedEntry {R}.
Arguments le_link_id {R}.
Arguments le_name {R}.
Arguments le_refine {R}.

Record NativeEmittedTopic : Type := mkNativeEmittedTopic {
  net_name : string;
  net_description : string;
  net_qos_profile : QoSProfile;
  net_retention : TopicRetention;
  net_message_format : option MessageFormat;
}.

Record NativeExposedService : Type := mkNativeExposedService {
  nes_name : string;
  nes_description : string;
  nes_request : option MessageFormat;
  nes_response : option MessageFormat;
}.

Record GoalServiceEndpoint : Type := mkGoalServiceEndpoint {
  goal_request : option MessageFormat;
  goal_response : option MessageFormat;
}.

Record ActionTopicEndpoint : Type := mkActionTopicEndpoint {
  topic_type : option string;
  feedback_qos : QoSProfile;
  feedback_format : MessageFormat;
  feedback_name : option string;
}.

Record NativeExposedAction : Type := mkNativeExposedAction {
  nea_name : string;
  nea_description : string;
  nea_goal_service : option GoalServiceEndpoint;
  nea_feedback_topic : option ActionTopicEndpoint;
  nea_result_service : option (option MessageFormat);
}.

(** One entry of [topics.emits], [services.exposes] or [actions.exposes]: the
    shape [impl_produced_entry!] gives the three enums. *)
Inductive ProducedEntry (R N : Type) : Type :=
| Linked (e : LinkedEntry R)
| Native (n : N).
Arguments Linked {R N}.
Arguments Native {R N}.

Definition EmittedTopic : Type := ProducedEntry TopicRefinement NativeEmittedTopic.
Definition ExposedService : Type := ProducedEntry ServiceRefinement NativeExposedService.
Definition ExposedAction : Type := ProducedEntry ActionRefinement NativeExposedAction.

Definition entry_name {R N} (native_name : N → string) (e : ProducedEntry R N) : string :=
  match e with Linked e => le_name e | Native n => native_name n end.

Definition entry_link_id {R N} (e : ProducedEntry R N) : option string :=
  match e with Linked e => Some (le_link_id e) | Native _ => None end.

Definition as_linked {R N} (e : ProducedEntry R N) : option (LinkedEntry R) :=
  match e with Linked e => Some e | Native _ => None end.

Definition as_native {R N} (e : ProducedEntry R N) : option N :=
  match e with Linked _ => None | Native n => Some n end.

(** A consumed topic, service or action. *)
Record ConsumedEntry (R : Type) : Type := mkConsumedEntry {
  ce_link_id : string;
  ce_name : string;
  ce_refine : option R;
}.
Arguments mkConsumedEntry {R}.
Arguments ce_link_id {R}.
Arguments ce_name {R}.
Arguments ce_refine {R}.

Record TopicInterfaces : Type := mkTopicInterfaces {
  emits : option (list EmittedTopic);
  topics_consumes : option (list (ConsumedEntry TopicRefinement));
}.

Record ServiceInterfaces : Type := mkServiceInterfaces {
  services_exposes : option (list ExposedService);
  services_consumes : option (list (ConsumedEntry ServiceRefinement));
}.

Record ActionInterfaces : Type := mkActionInterfaces {
  actions_exposes : option (list ExposedAction);
  actions_consumes : option (list (ConsumedEntry ActionRefinement));
}.

Record Interfaces : Type := mkInterfaces {
  topics : option TopicInterfaces;
  services : option ServiceInterfaces;
  actions : option ActionInterfaces;
}.

Definition Interfaces_default : Interfaces := mkInterfaces None None None.

Definition emitted_topics (i : Interfaces) : list EmittedTopic :=
  default [] (topics i ≫= emits).
Definition consumed_topics (i : Interfaces) : list (ConsumedEntry TopicRefinement) :=
  default [] (topics i ≫= topics_consumes).
Definition exposed_services (i : Interfaces) : list ExposedService :=
  default [] (services i ≫= services_exposes).
Definition consumed_services (i : Interfaces) : list (ConsumedEntry ServiceRefinement) :=
  default [] (services i ≫= services_consumes).
Definition exposed_actions (i : Interfaces) : list ExposedAction :=
  default [] (actions i ≫= actions_exposes).
Definition consumed_actions (i : Interfaces) : list (ConsumedEntry ActionRefinement) :=
  default [] (actions i ≫= actions_consumes).

(** [Interfaces::produced]: only the requested kind contributes. *)
Definition produced (i : Interfaces) (kind : InterfaceKind) : list (option string * string) :=
  match kind with
  | KTopic => map (λ e, (entry_link_id e, entry_name net_name e)) (emitted_topics i)
  | KService => map (λ e, (entry_link_id e, entry_name nes_name e)) (exposed_services i)
  | KAction => map (λ e, (entry_link_id e, entry_name nea_name e)) (exposed_actions i)
  end.

Definition consumed (i : Interfaces) (kind : InterfaceKind) : list (string * string * bool) :=
  match kind with
  | KTopic => map (λ c, (ce_link_id c, ce_name c, opt_is_some (ce_refine c))) (consumed_topics i)
  | KService => map (λ c, (ce_link_id c, ce_name c, opt_is_some (ce_refine c))) (consumed_services i)
  | KAction => map (λ c, (ce_link_id c, ce_name c, opt_is_some (ce_refine c))) (consumed_actions i)
  end.

Definition native_emits (i : Interfaces) : list NativeEmittedTopic :=
  omap as_native (emitted_topics i).
Definition native_service_exposes (i : Interfaces) : list NativeExposedService :=
  omap as_native (exposed_services i).
Definition native_action_exposes (i : Interfaces) : list NativeExposedAction :=
  omap as_native (exposed_actions i).

Inductive LinkedMember : Type :=
| LTopic (e : LinkedEntry TopicRefinement)
| LService (e : LinkedEntry ServiceRefinement)
| LAction (e : LinkedEntry ActionRefinement).

Definition LinkedMember_kind (m : LinkedMember) : InterfaceKind :=
  match m with LTopic _ => KTopic | LService _ => KService | LAction _ => KAction end.

Definition LinkedMember_link_id (m : LinkedMember) : string :=
  match m with LTopic e => le_link_id e | LService e => le_link_id e | LAction e => le_link_id e end.

Definition LinkedMember_name (m : LinkedMember) : string :=
  match m with LTopic e => le_name e | LService e => le_name e | LAction e => le_name e end.

Definition linked_entries (i : Interfaces) : list LinkedMember :=
  map LTopic (omap as_linked (emitted_topics i))
  ++ map LService (omap as_linked (exposed_services i))
  ++ map LAction (omap as_linked (exposed_actions i)).

(** ** Slots *)

Record NodeDependency : Type := mkNodeDependency {
  nd_name : string;
  nd_tag : string;
  nd_link_id : string;
  nd_cardinality : Cardinality;
}.

Record ContractDependency : Type := mkContractDependency {
  cd_name : string;
  cd_tag : string;
  cd_link_id : string;
  cd_sha256 : option string;
  cd_cardinality : Cardinality;
}.

Record ImplementsEntry : Type := mkImplementsEntry {
  ie_name : string;
  ie_tag : string;
  ie_link_id : string;
  ie_sha256 : option string;
}.

(** A participant or an observer slot: the two structs have the same fields
    and are told apart by the list they live in. *)
Record PairingSlot : Type := mkPairingSlot {
  pd_name : string;
  pd_tag : string;
  pd_role : string;
  pd_link_id : string;
  pd_sha256 : option string;
  pd_cardinality : Cardinality;
}.

Record DaemonTargetDependency : Type := mkDaemonTargetDependency {
  dt_name : string;
  dt_tag : string;
  dt_link_id : string;
}.

Definition DAEMON_TARGET_CARDINALITY : Cardinality := One.

(** What reading a slot refuses. *)
Inductive SlotError : Type :=
| PairingSlotMissingRole (link_id : string)
| BadRole (e : IdentifierError)
| OptionalOnPairingSlot (link_id section : string)
| PinnedDaemonTarget (link_id : string)
| DaemonTargetCardinality (link_id : string)
| EmptyInterfaceName (section : string)
| BadLinkId (e : IdentifierError)
| LinkedEntryWithInlineShape (section link_id name field : string)
| RefineWithoutLinkId (section name : string)
| NativeEntryWithoutDescription (section name : string).

Record RawPairingSlot : Type := mkRawPairingSlot {
  raw_name : string;
  raw_tag : string;
  raw_role : option string;
  raw_link_id : string;
  raw_sha256 : option string;
  raw_cardinality : option Cardinality;
  raw_optional : option bool;
}.

Definition validated_role (raw : RawPairingSlot) (context : string) : result SlotError string :=
  role ← ok_or (raw_role raw) (PairingSlotMissingRole (raw_link_id raw));
  map_err BadRole (validate_non_empty_identifier role context).

Definition reject_optional (raw : RawPairingSlot) (section : string) : result SlotError unit :=
  match raw_optional raw with
  | None => Ok tt
  | Some _ => Err (OptionalOnPairingSlot (raw_link_id raw) section)
  end.

Definition PairingSlot_of_raw (context section : string) (raw : RawPairingSlot) :
    result SlotError PairingSlot :=
  role ← validated_role raw context;
  _ ← reject_optional raw section;
  Ok (mkPairingSlot (raw_name raw) (raw_tag raw) role (raw_link_id raw)
        (raw_sha256 raw) (default Cardinality_default (raw_cardinality raw))).

(** The [deserialize] of the two pairing slot kinds. *)
Definition PairingParticipantDependency_of_raw : RawPairingSlot → result SlotError PairingSlot :=
  PairingSlot_of_raw "PairingParticipantDependency.role" "depends_on.pairings".

Definition PairingObserverDependency_of_raw : RawPairingSlot → result SlotError PairingSlot :=
  PairingSlot_of_raw "PairingObserverDependency.role" "depends_on.pairing_observers".

(** [DaemonTargetDependency::deserialize]: whether [sha256] and [cardinality]
    are written is all that is read of them. *)
Definition DaemonTargetDependency_of_raw (name tag link_id : string)
    (sha256_written cardinality_written : bool) :
    result SlotError DaemonTargetDependency :=
  if sha256_written then Err (PinnedDaemonTarget link_id)
  else if cardinality_written then Err (DaemonTargetCardinality link_id)
  else Ok (mkDaemonTargetDependency name tag link_id).

(** [reject_inline_shape]: the first shape field present is refused. *)
Definition reject_inline_shape (section link_id name : string) (fields : list (string * bool)) :
    result SlotError unit :=
  match List.find snd fields with
  | Some (field, _) => Err (LinkedEntryWithInlineShape section link_id name field)
  | None => Ok tt
  end.

Definition require_interface_name (name : option string) (section : string) :
    result SlotError string :=
  map_err (λ _, EmptyInterfaceName section)
    (validate_non_empty_identifier (default "" name) section).

(** The [deserialize] that [impl_produced_entry!] writes for the three entry
    types: [shape] pairs each inline field with its presence, [native] builds
    the native payload from the name and the description. *)
Definition ProducedEntry_of_raw {R N} (section link_label : string)
    (link_id name : option string) (refine : option R) (description : option string)
    (shape : list (string * bool)) (native : string → string → N) :
    result SlotError (ProducedEntry R N) :=
  name ← require_interface_name name section;
  match link_id with
  | Some link_id =>
      link_id ← map_err BadLinkId (validate_non_empty_identifier link_id link_label);
      _ ← reject_inline_shape section link_id name
            (("description", opt_is_some description) :: shape);
      Ok (Linked (mkLinkedEntry link_id name refine))
  | None =>
      if opt_is_some refine then Err (RefineWithoutLinkId section name)
      else
        d ← ok_or description (NativeEntryWithoutDescription section name);
        Ok (Native (native name d))
  end.

(** ** The lists of a manifest *)

Record DependsOn : Type := mkDependsOn {
  nodes : list NodeDependency;
  contracts : list ContractDependency;
  daemon : list DaemonTargetDependency;
  pairings : list PairingSlot;
  pairing_observers : list PairingSlot;
}.

Definition producer_slots (d : DependsOn) : list (string * Cardinality) :=
  map (λ dep, (nd_link_id dep, nd_cardinality dep)) (nodes d)
  ++ map (λ dep, (cd_link_id dep, cd_cardinality dep)) (contracts d)
  ++ map (λ dep, (dt_link_id dep, DAEMON_TARGET_CARDINALITY)) (daemon d).

Definition pairing_link_ids (d : DependsOn) : list string :=
  map pd_link_id (pairings d) ++ map pd_link_id (pairing_observers d).

Definition link_ids (d : DependsOn) : list string :=
  map fst (producer_slots d) ++ pairing_link_ids d.

Record Manifest : Type := mkManifest {
  m_name : string;
  m_tag : string;
  m_description : list string;
  m_labels : option (list string);
  implements : list ImplementsEntry;
  depends_on : option DependsOn;
}.

Inductive DocumentKind : Type := ContractDocument | PairingDocument.

Record DocumentReference : Type := mkDocumentReference {
  doc_kind : DocumentKind;
  doc_name : string;
  doc_tag : string;
  doc_sha256 : option string;
}.

Definition document_references (m : Manifest) : list DocumentReference :=
  map (λ e, mkDocumentReference ContractDocument (ie_name e) (ie_tag e) (ie_sha256 e))
    (implements m)
  ++ match depends_on m with
     | None => []
     | Some d =>
         map (λ c, mkDocumentReference ContractDocument (cd_name c) (cd_tag c) (cd_sha256 c))
           (contracts d)
         ++ map (λ p, mkDocumentReference PairingDocument (pd_name p) (pd_tag p) (pd_sha256 p))
              (pairings d)
         ++ map (λ p, mkDocumentReference PairingDocument (pd_name p) (pd_tag p) (pd_sha256 p))
              (pairing_observers d)
     end.

(** ** Containers *)

Record ContainerConfig : Type := mkContainerConfig {
  def_file : string;
  mount_paths : option (list string);
  apptainer_build_extra_args : option (list string);
  apptainer_run_extra_args : option (list string);
  lima_shell_extra_args : option (list string);
}.

Definition BLOCKED_MOUNT_PATHS : list string :=
  ["/"; "/bin"; "/dev"; "/etc"; "/home"; "/opt"; "/sbin"; "/tmp"; "/usr"; "/var"].

Definition is_slash (c : Ascii.ascii) : bool := (byte_val c =? 47)%Z.

(** Runs of slashes as one slash. *)
Fixpoint collapse_slashes (prev_slash : bool) (l : list Ascii.ascii) : list Ascii.ascii :=
  match l with
  | [] => []
  | c :: l =>
      if is_slash c && prev_slash then collapse_slashes prev_slash l
      else c :: collapse_slashes (is_slash c) l
  end.

(** [trim_end_matches('/')]. *)
Fixpoint drop_slashes (l : list Ascii.ascii) : list Ascii.ascii :=
  match l with
  | [] => []
  | c :: l => if is_slash c then drop_slashes l else c :: l
  end.

Definition normalize_mount (path : string) : string :=
  let trimmed := reverse (drop_slashes (reverse (collapse_slashes false (chars path)))) in
  match trimmed with [] => "/" | _ => String.string_of_list_ascii trimmed end.

(** [str::strip_prefix]. *)
Fixpoint strip_prefix (prefix l : list Ascii.ascii) : option (list Ascii.ascii) :=
  match prefix, l with
  | [], _ => Some l
  | p :: prefix, c :: l => if decide (p = c) then strip_prefix prefix l else None
  | _ :: _, [] => None
  end.

Definition is_blocked_mount_source (path : string) : bool :=
  let normalized := normalize_mount path in
  if bool_decide (normalized ∈ BLOCKED_MOUNT_PATHS) then true
  else
    match strip_prefix (chars "/private") (chars normalized) with
    | Some stripped => bool_decide (String.string_of_list_ascii stripped ∈ BLOCKED_MOUNT_PATHS)
    | None => false
    end.

(** [mount.split(':').next()]. *)
Fixpoint before_colon (l : list Ascii.ascii) : list Ascii.ascii :=
  match l with
  | [] => []
  | c :: l => if (byte_val c =? 58)%Z then [] else c :: before_colon l
  end.

Fixpoint contains_infix (needle l : list Ascii.ascii) : bool :=
  opt_is_some (strip_prefix needle l)
  || match l with [] => false | _ :: l => contains_infix needle l end.

Definition PARAMETERS_PREFIX : string := "${parameters:".

(** [ContainerConfig::validate]: the first mount whose host path is blocked. *)
Definition ContainerConfig_validate (c : ContainerConfig) : result string unit :=
  match mount_paths c with
  | None => Ok tt
  | Some mounts =>
      match List.find
              (λ mount,
                 let src := before_colon (chars mount) in
                 negb (contains_infix (chars PARAMETERS_PREFIX) src)
                 && is_blocked_mount_source (String.string_of_list_ascii src))
              mounts with
      | Some mount => Err mount
      | None => Ok tt
      end
  end.

(** ** The document *)

Inductive PeppygenLanguage : Type := Rust | Python.

Inductive EndpointKind : Type := Page | Mcp.

(** The parameter schema is left out: nothing modelled here reads it. *)
Record Execution : Type := mkExecution {
  language : PeppygenLanguage;
  build_cmd : option (list string);
  run_cmd : option (list string);
  container : option ContainerConfig;
  exec_endpoints : list (string * (EndpointKind * string));
  setup_timeout_secs : option Z;
  codec_api : bool;
}.

Definition SETUP_TIMEOUT_DEFAULT : Z := 15.
Definition SETUP_TIMEOUT_MIN : Z := 1.
Definition SETUP_TIMEOUT_MAX : Z := 540.

(** [SetupTimeout::from_secs]. *)
Definition SetupTimeout_from_secs (secs : Z) : result Z Z :=
  if ((SETUP_TIMEOUT_MIN <=? secs) && (secs <=? SETUP_TIMEOUT_MAX))%Z
  then Ok secs else Err secs.

Definition setup_timeout (e : Execution) : Z := default SETUP_TIMEOUT_DEFAULT (setup_timeout_secs e).

Record NodeFramework : Type := mkNodeFramework { restart : option RestartDeclaration }.

Record NodeConfig : Type := mkNodeConfig {
  manifest : Manifest;
  interfaces : Interfaces;
  execution : Execution;
  framework : NodeFramework;
}.

(** ** Cardinalities *)

(** The four spellings name the four cardinalities and nothing else; a
    scalar slot is exactly one that never admits two sources; a pairing slot's
    ceiling is the set rule with its floor lifted; and an empty set needs no
    word from the deployment only where any size is admitted. *)
Lemma cardinality_rules (c : Cardinality) (spelling : string) (n : nat) :
  (Cardinality_from_str spelling = Ok c ↔ Cardinality_as_str c = spelling) ∧
  (is_scalar c = true ↔ ∀ m, admits c m = true → m ≤ 1) ∧
  (admits_pairs c n = true ↔ n = 0 ∨ admits c n = true ∨ (is_scalar c = false)) ∧
  (allows_empty c = true ↔ ∀ m, admits c m = true).
Proof.
  split_and!.
  - unfold Cardinality_from_str. rewrite ok_or_ok. split.
    + intros [_ H]%find_elem_of. by apply bool_decide_eq_true in H.
    + intros <-. by destruct c; vm_compute.
  - destruct c; simpl; split; try done; intros H.
    + intros m ?%Nat.eqb_eq. lia.
    + intros m ?%Nat.leb_le. lia.
    + specialize (H 2). simpl in H. lia.
    + specialize (H 2). simpl in H. specialize (H eq_refl). lia.
  - destruct c; simpl; rewrite ?Nat.leb_le, ?Nat.eqb_eq; intuition (done || lia).
  - destruct c; simpl; split; try done; intros H;
      first [by specialize (H 2) | by specialize (H 0)].
Qed.

(** ** Blocked mounts

    A path as a user may write it: segments, each behind one or more slashes,
    and any number of slashes at the end. *)
Definition seg_ok (s : list Ascii.ascii) : Prop :=
  s ≠ [] ∧ Forall (λ c, is_slash c = false) s.

Definition slash : Ascii.ascii := Ascii.ascii_of_nat 47.

Definition written_path (segs : list (nat * list Ascii.ascii)) (trailing : nat) : list Ascii.ascii :=
  concat (map (λ '(extra, s), replicate (S extra) slash ++ s) segs) ++ replicate trailing slash.

Definition canonical_path (segs : list (list Ascii.ascii)) : list Ascii.ascii :=
  concat (map (λ s, slash :: s) segs).

Lemma collapse_replicate n l :
  collapse_slashes true (replicate n slash ++ l) = collapse_slashes true l.
Proof. induction n as [|n IH]; simpl; [done|]. apply IH. Qed.

Lemma collapse_seg b s l :
  seg_ok s → collapse_slashes b (s ++ l) = s ++ collapse_slashes false l.
Proof.
  intros [Hne H]. destruct H as [|c s Hc H]; [done|]. simpl. rewrite Hc. simpl. f_equal.
  clear Hne. induction H as [|c' s Hc' H IH]; simpl; [done|]. rewrite Hc'. simpl. by rewrite IH.
Qed.

Lemma collapse_written b segs trailing :
  Forall (λ p, seg_ok p.2) segs → (b = true → segs = []) →
  collapse_slashes b (written_path segs trailing) =
  canonical_path (map snd segs) ++ (if b then [] else replicate (min 1 trailing) slash).
Proof.
  intros H Hb. unfold written_path. induction H as [|[n s] segs Hs H IH] in b, Hb |- *; simpl.
  - destruct b; [rewrite <-(app_nil_r (replicate _ _)); apply collapse_replicate|].
    destruct trailing as [|t]; simpl; [done|]. f_equal.
    rewrite <-(app_nil_r (replicate t _)). apply collapse_replicate.
  - destruct b; [by specialize (Hb eq_refl)|]. simpl. f_equal.
    rewrite <-!app_assoc, collapse_replicate, collapse_seg by done. f_equal. by apply IH.
Qed.

Lemma drop_slashes_head l k :
  Forall (λ c, is_slash c = true) k → (∀ c l', l = c :: l' → is_slash c = false) →
  drop_slashes (k ++ l) = l.
Proof.
  intros Hk Hl. induction Hk as [|c k Hc Hk IH]; simpl; [|by rewrite Hc].
  destruct l as [|c l]; [done|]. simpl. by rewrite (Hl c l).
Qed.

Lemma canonical_last segs c l :
  Forall seg_ok segs → reverse (canonical_path segs) = c :: l → is_slash c = false.
Proof.
  intros H. destruct segs as [|s segs _] using rev_ind; [done|].
  apply Forall_app in H as [_ [[Hne Hs] _]%Forall_cons].
  unfold canonical_path. rewrite map_app, concat_app. simpl. rewrite app_nil_r, reverse_app, reverse_cons.
  destruct s as [|d s _] using rev_ind; [done|]. rewrite reverse_app. simpl.
  intros ?; simplify_eq. rewrite Forall_app, Forall_singleton in Hs. tauto.
Qed.

Lemma normalize_written segs trailing :
  Forall (λ p, seg_ok p.2) segs →
  normalize_mount (String.string_of_list_ascii (written_path segs trailing)) =
  match segs with
  | [] => "/"
  | _ => String.string_of_list_ascii (canonical_path (map snd segs))
  end.
Proof.
  intros H. unfold normalize_mount. rewrite chars_of_list, collapse_written by done.
  rewrite reverse_app, reverse_replicate, drop_slashes_head.
  - rewrite reverse_involutive. by destruct segs as [|[n s] segs].
  - by apply Forall_replicate.
  - intros c l. apply canonical_last. by apply Forall_map.
Qed.

Lemma strip_prefix_Some p l r : strip_prefix p l = Some r ↔ l = p ++ r.
Proof.
  revert l. induction p as [|a p IH]; intros [|c l]; simpl.
  - split; congruence.
  - split; congruence.
  - split; congruence.
  - case_decide as E; [rewrite IH; subst|]; split; congruence.
Qed.

Lemma canonical_inj segs segs' :
  Forall seg_ok segs → Forall seg_ok segs' → canonical_path segs = canonical_path segs' →
  segs = segs'.
Proof.
  assert (∀ s t l l', Forall (λ c, is_slash c = false) s → Forall (λ c, is_slash c = false) t →
    s ++ canonical_path l = t ++ canonical_path l' → s = t ∧ canonical_path l = canonical_path l') as Hseg.
  { intros s t l l' Hs. revert t. induction Hs as [|c s Hc Hs IH]; intros t Ht H.
    - destruct Ht as [|d t Hd Ht]; [done|]. unfold canonical_path in H.
      destruct l as [|? l]; simpl in H; [done|]. by simplify_eq.
    - destruct Ht as [|d t Hd Ht].
      + unfold canonical_path in H.
        destruct l' as [|? l']; simpl in H; [done|]. by simplify_eq.
      + simpl in H. injection H as -> H. apply IH in H as [-> ?]; [done|done]. }
  intros H. revert segs'. induction H as [|s segs [Hne Hs] H IH]; intros segs' H' E.
  - by destruct H' as [|s' segs' [? ?] H'].
  - destruct H' as [|s' segs' [? ?] H']; [done|]. unfold canonical_path in E. simpl in E.
    injection E as E. apply Hseg in E as [-> E]; [|done..]. f_equal. by apply IH.
Qed.

Definition blocked_names : list string :=
  ["bin"; "dev"; "etc"; "home"; "opt"; "sbin"; "tmp"; "usr"; "var"].

Definition blocked_segment (s : list Ascii.ascii) : Prop :=
  String.string_of_list_ascii s ∈ blocked_names.

Lemma blocked_canonical l :
  String.string_of_list_ascii l ∈ BLOCKED_MOUNT_PATHS ↔
  l = [slash] ∨ ∃ s, blocked_segment s ∧ l = canonical_path [s].
Proof.
  assert (BLOCKED_MOUNT_PATHS = "/" :: (String slash <$> blocked_names)) as -> by done.
  rewrite elem_of_cons, list_elem_of_fmap. unfold canonical_path, blocked_segment. simpl.
  split; (intros [H|(s & H1 & H2)]; [left|right]).
  - apply (f_equal chars) in H. by rewrite chars_of_list in H.
  - exists (chars s). rewrite of_chars, app_nil_r. split; [done|].
    apply (f_equal chars) in H1. by rewrite chars_of_list in H1.
  - by subst.
  - exists (String.string_of_list_ascii s). subst. by rewrite app_nil_r.
Qed.

Lemma blocked_segment_ok s : blocked_segment s → seg_ok s.
Proof.
  unfold blocked_segment, blocked_names. rewrite !elem_of_cons. intros H.
  assert (∃ t, s = chars t ∧ t ∈ blocked_names) as (t & -> & Ht).
  { exists (String.string_of_list_ascii s). rewrite chars_of_list. split; [done|].
    unfold blocked_names. by rewrite !elem_of_cons. }
  clear H. assert (Forall (λ t, chars t ≠ [] ∧ forallb (λ c, negb (is_slash c)) (chars t) = true)
    blocked_names) as Hall by (repeat constructor; done).
  rewrite Forall_forall in Hall. destruct (Hall t Ht) as [Hne Hf]. split; [done|].
  rewrite forallb_forall in Hf. apply Forall_forall. intros c Hc.
  apply negb_true_iff. apply Hf. by apply list_elem_of_In.
Qed.

(** However many slashes separate or end it, a path is refused as a mount
    source exactly when it is the root, one of the nine system directories, or
    the same directory under macOS's [/private]; a directory below them is
    allowed. *)
Lemma mount_blocked_exact (segs : list (nat * list Ascii.ascii)) (trailing : nat) :
  Forall (λ p, seg_ok p.2) segs →
  is_blocked_mount_source (String.string_of_list_ascii (written_path segs trailing)) = true ↔
  segs = [] ∨
  (∃ s, blocked_segment s ∧ map snd segs = [s]) ∨
  (∃ s, blocked_segment s ∧ map snd segs = [chars "private"; s]).
Proof.
  intros H. unfold is_blocked_mount_source. rewrite normalize_written by done.
  destruct segs as [|p segs]; [split; [by left | done]|].
  set (l := map snd (p :: segs)). assert (Forall seg_ok l) as Hl by (by apply Forall_map).
  assert (l ≠ []) as Hne by done. clearbody l. rewrite chars_of_list.
  assert (∀ s, blocked_segment s → canonical_path l = canonical_path [s] → l = [s]) as Hone.
  { intros s Hs. apply canonical_inj; [done|].
    constructor; [by apply blocked_segment_ok|constructor]. }
  assert (canonical_path l ≠ [slash]) as Hroot.
  { destruct l as [|s l]; [done|]. apply Forall_cons in Hl as [[Hs _] _]. destruct s; done. }
  case_bool_decide as Hb; [|rewrite blocked_canonical in Hb].
  - apply blocked_canonical in Hb as [?|(s & Hs & E)]; [done|]. split; [|done].
    intros _. right; left. eauto.
  - transitivity (∃ s, blocked_segment s ∧ l = [chars "private"; s]).
    2: { split; [eauto|]. intros [?|[(s & Hs & ->)|?]]; [done| |done]. exfalso. eauto. }
    destruct (strip_prefix _ _) as [r|] eqn:E.
    + apply strip_prefix_Some in E. rewrite bool_decide_eq_true, blocked_canonical. split.
      * intros [->|(s & Hs & ->)].
        { exfalso. assert (∃ c l', reverse (canonical_path l) = c :: l' ∧ is_slash c = true)
            as (c & l' & Hc & Hc') by (rewrite E; eauto).
          apply canonical_last in Hc; [congruence|done]. }
        exists s. split; [done|]. apply canonical_inj; [done| |done].
        constructor; [by repeat constructor|]. constructor; [by apply blocked_segment_ok|constructor].
      * intros (s & Hs & ->). right. exists s. split; [done|].
        unfold canonical_path in E. simpl in E. by simplify_eq.
    + split; [done|]. intros (s & Hs & ->). exfalso.
      assert (strip_prefix (chars "/private") (canonical_path [chars "private"; s])
              = Some (canonical_path [s])) by (by apply strip_prefix_Some).
      congruence.
Qed.

Lemma mount_blocked_exact_witness :
  is_blocked_mount_source "//private///tmp//" = true.
Proof.
  apply (mount_blocked_exact [(1, chars "private"); (2, chars "tmp")] 2).
  - repeat constructor; done.
  - right; right. exists (chars "tmp"). split; [|reflexivity].
    unfold blocked_segment, blocked_names. rewrite of_chars. set_solver.
Defined.
