(* ===== verification/InterfaceEq.v ===== *)
(** * Equality of interfaces

    The [PartialEq] the source derives on [Interfaces] and its parts
    ([peppy-config-model/src/node/types.rs], [refine.rs]), which decides
    whether a replaced node's interfaces changed. It is not Rocq's equality:
    the fields of a format live in an [IndexMap], and two index maps are equal
    when they hold the same entries in any order. *)

From S2P Require Import Prelude Names RestartPolicy Config.

(** [PartialEq]. *)
Class PartialEq (A : Type) : Type := eqb : A → A → bool.
Infix "==?" := eqb (at level 70, no associativity) : peppy_scope.
#[local] Open Scope peppy_scope.

(** Types whose derived equality is Rocq's. *)
#[export] Instance eq_dec_partial_eq `{EqDecision A} : PartialEq A | 100 := λ a b, bool_decide (a = b).

#[export] Instance option_partial_eq `{PartialEq A} : PartialEq (option A) := λ a b,
  match a, b with
  | Some a, Some b => a ==? b
  | None, None => true
  | _, _ => false
  end.

#[export] Instance list_partial_eq `{PartialEq A} : PartialEq (list A) :=
  fix list_eqb (l k : list A) : bool :=
    match l, k with
    | [], [] => true
    | x :: l, y :: k => (x ==? y) && list_eqb l k
    | _, _ => false
    end.

#[export] Instance PrimitiveSchema_eq_dec : EqDecision PrimitiveSchema.
Proof. solve_decision. Defined.
#[export] Instance QoSProfile_eq_dec : EqDecision QoSProfile.
Proof. solve_decision. Defined.
#[export] Instance TopicRetention_eq_dec : EqDecision TopicRetention.
Proof. solve_decision. Defined.

(** The value an [IndexMap] holds under a key. *)
Definition index_get {A} (k : string) (l : list (string * A)) : option A :=
  snd <$> List.find (λ p, bool_decide (p.1 = k)) l.

(** [IndexMap::eq]: as many entries, and each of the first in the second. *)
Definition index_map_eq {A} (eq : A → A → bool) (l k : list (string * A)) : bool :=
  (length l =? length k)%nat
  && forallb (λ '(key, a), match index_get key k with Some b => eq a b | None => false end) l.

(** ** Formats and refinements *)

#[export] Instance SchemaType_eq : PartialEq SchemaType :=
  fix schema_eqb (a b : SchemaType) {struct a} : bool :=
    match a, b with
    | SType t, SType u => bool_decide (t = u)
    | SPrimitive p, SPrimitive q => bool_decide (p = q)
    | SArray items len opt marks d, SArray items' len' opt' marks' d' =>
        schema_eqb items items' && bool_decide (len = len') && bool_decide (opt = opt')
        && bool_decide (marks = marks') && bool_decide (d = d')
    | SObject fields opt marks d, SObject fields' opt' marks' d' =>
        index_map_eq schema_eqb fields fields' && bool_decide (opt = opt')
        && bool_decide (marks = marks') && bool_decide (d = d')
    | _, _ => false
    end.

#[export] Instance MessageFormat_eq : PartialEq MessageFormat := index_map_eq eqb.

#[export] Instance FieldRefinement_eq : PartialEq FieldRefinement :=
  fix refinement_eqb (a b : FieldRefinement) {struct a} : bool :=
    match a, b with
    | RLength n, RLength m => (n =? m)%Z
    | RItems f, RItems g => index_map_eq refinement_eqb f g
    | RObject f, RObject g => index_map_eq refinement_eqb f g
    | _, _ => false
    end.

#[export] Instance FormatRefinement_eq : PartialEq FormatRefinement := index_map_eq eqb.

#[export] Instance TopicRefinement_eq : PartialEq TopicRefinement := λ a b,
  topic_refine_format a ==? topic_refine_format b.

#[export] Instance ServiceRefinement_eq : PartialEq ServiceRefinement := λ a b,
  (refine_request a ==? refine_request b) && (refine_response a ==? refine_response b).

#[export] Instance ActionRefinement_eq : PartialEq ActionRefinement := λ a b,
  (refine_goal a ==? refine_goal b) && (refine_feedback a ==? refine_feedback b)
  && (refine_result a ==? refine_result b).

(** ** Entries *)

#[export] Instance LinkedEntry_eq `{PartialEq R} : PartialEq (LinkedEntry R) := λ a b,
  (le_link_id a ==? le_link_id b) && (le_name a ==? le_name b) && (le_refine a ==? le_refine b).

#[export] Instance ConsumedEntry_eq `{PartialEq R} : PartialEq (ConsumedEntry R) := λ a b,
  (ce_link_id a ==? ce_link_id b) && (ce_name a ==? ce_name b) && (ce_refine a ==? ce_refine b).

#[export] Instance ProducedEntry_eq {R N : Type} `{PartialEq R, PartialEq N} : PartialEq (ProducedEntry R N) :=
  λ a b,
  match a, b with
  | Linked a, Linked b => a ==? b
  | Native a, Native b => a ==? b
  | _, _ => false
  end.

#[export] Instance NativeEmittedTopic_eq : PartialEq NativeEmittedTopic := λ a b,
  (net_name a ==? net_name b) && (net_description a ==? net_description b)
  && (net_qos_profile a ==? net_qos_profile b) && (net_retention a ==? net_retention b)
  && (net_message_format a ==? net_message_format b).

#[export] Instance NativeExposedService_eq : PartialEq NativeExposedService := λ a b,
  (nes_name a ==? nes_name b) && (nes_description a ==? nes_description b)
  && (nes_request a ==? nes_request b) && (nes_response a ==? nes_response b).

#[export] Instance GoalServiceEndpoint_eq : PartialEq GoalServiceEndpoint := λ a b,
  (goal_request a ==? goal_request b) && (goal_response a ==? goal_response b).

#[export] Instance ActionTopicEndpoint_eq : PartialEq ActionTopicEndpoint := λ a b,
  (topic_type a ==? topic_type b) && (feedback_qos a ==? feedback_qos b)
  && (feedback_format a ==? feedback_format b) && (feedback_name a ==? feedback_name b).

#[export] Instance NativeExposedAction_eq : PartialEq NativeExposedAction := λ a b,
  (nea_name a ==? nea_name b) && (nea_description a ==? nea_description b)
  && (nea_goal_service a ==? nea_goal_service b)
  && (nea_feedback_topic a ==? nea_feedback_topic b)
  && (nea_result_service a ==? nea_result_service b).

#[export] Instance EmittedTopic_eq : PartialEq EmittedTopic := ProducedEntry_eq.
#[export] Instance ExposedService_eq : PartialEq ExposedService := ProducedEntry_eq.
#[export] Instance ExposedAction_eq : PartialEq ExposedAction := ProducedEntry_eq.

(** ** Sections *)

#[export] Instance TopicInterfaces_eq : PartialEq TopicInterfaces := λ a b,
  (emits a ==? emits b) && (topics_consumes a ==? topics_consumes b).

#[export] Instance ServiceInterfaces_eq : PartialEq ServiceInterfaces := λ a b,
  (services_exposes a ==? services_exposes b) && (services_consumes a ==? services_consumes b).

#[export] Instance ActionInterfaces_eq : PartialEq ActionInterfaces := λ a b,
  (actions_exposes a ==? actions_exposes b) && (actions_consumes a ==? actions_consumes b).

#[export] Instance Interfaces_eq : PartialEq Interfaces := λ a b,
  (topics a ==? topics b) && (services a ==? services b) && (actions a ==? actions b).

(** ** What equal interfaces share *)

Lemma eqb_dec_true `{EqDecision A} (a b : A) : eq_dec_partial_eq a b = true → a = b.
Proof. apply bool_decide_eq_true. Qed.

Lemma list_eqb_map `{PartialEq A} {B} (f : A → B) (l k : list A) :
  (∀ x y, (x ==? y) = true → f x = f y) → (l ==? k) = true → map f l = map f k.
Proof.
  intros Hf. revert k. induction l as [|x l IH]; intros [|y k]; try done.
  unfold eqb, list_partial_eq. intros [Hx Hl]%andb_true_iff. simpl.
  f_equal; [by apply Hf|by apply IH].
Qed.

Lemma option_eqb_default `{PartialEq A} {B} (f : A → list B) (o p : option A) :
  (∀ x y, (x ==? y) = true → f x = f y) → (o ==? p) = true →
  from_option f [] o = from_option f [] p.
Proof. intros Hf. destruct o, p; try done. apply Hf. Qed.

Lemma produced_entry_eq {R N : Type} `{PartialEq R, PartialEq N} (native_name : N → string)
    (a b : ProducedEntry R N) :
  (∀ x y : N, (x ==? y) = true → native_name x = native_name y) → (a ==? b) = true →
  (entry_link_id a, entry_name native_name a) = (entry_link_id b, entry_name native_name b).
Proof.
  intros Hn. destruct a as [a|a], b as [b|b]; try done.
  - intros [[?%eqb_dec_true ?%eqb_dec_true]%andb_true_iff _]%andb_true_iff. simpl. congruence.
  - intros Hab%Hn. simpl. congruence.
Qed.

Lemma consumed_entry_eq `{PartialEq R} (a b : ConsumedEntry R) :
  (a ==? b) = true →
  (ce_link_id a, ce_name a, opt_is_some (ce_refine a)) =
  (ce_link_id b, ce_name b, opt_is_some (ce_refine b)).
Proof.
  intros [[?%eqb_dec_true ?%eqb_dec_true]%andb_true_iff Hr]%andb_true_iff.
  assert (opt_is_some (ce_refine a) = opt_is_some (ce_refine b)); [|congruence].
  by destruct (ce_refine a), (ce_refine b).
Qed.

(** A section's list of entries, read through its options. *)
Lemma section_map_eq {T A B : Type} `{PartialEq T, PartialEq A} (field : T → option (list A)) (f : A → B)
    (o p : option T) :
  (∀ x y : T, (x ==? y) = true → (field x ==? field y) = true) →
  (∀ x y : A, (x ==? y) = true → f x = f y) → (o ==? p) = true →
  map f (default [] (o ≫= field)) = map f (default [] (p ≫= field)).
Proof.
  intros Hs Hf. destruct o as [x|], p as [y|]; try done. intros Hxy%Hs. simpl.
  destruct (field x), (field y); try done. by apply list_eqb_map.
Qed.

Lemma native_topic_name (x y : NativeEmittedTopic) : (x ==? y) = true → net_name x = net_name y.
Proof. intros H. repeat apply andb_true_iff in H as [H _]. by apply eqb_dec_true. Qed.
Lemma native_service_name (x y : NativeExposedService) : (x ==? y) = true → nes_name x = nes_name y.
Proof. intros H. repeat apply andb_true_iff in H as [H _]. by apply eqb_dec_true. Qed.
Lemma native_action_name (x y : NativeExposedAction) : (x ==? y) = true → nea_name x = nea_name y.
Proof. intros H. repeat apply andb_true_iff in H as [H _]. by apply eqb_dec_true. Qed.

(** Interfaces the source calls equal produce and consume the same entries. *)
Lemma interfaces_eq_same (a b : Interfaces) (kind : InterfaceKind) :
  (a ==? b) = true → produced a kind = produced b kind ∧ consumed a kind = consumed b kind.
Proof.
  intros [[Ht Hs]%andb_true_iff Ha]%andb_true_iff.
  destruct kind; simpl; split;
    unfold emitted_topics, consumed_topics, exposed_services, consumed_services,
      exposed_actions, consumed_actions;
    (eapply section_map_eq; [| |eassumption]);
    try (intros x y [? ?]%andb_true_iff; done);
    intros x y; apply consumed_entry_eq || apply produced_entry_eq;
    auto using native_topic_name, native_service_name, native_action_name.
Qed.
