(* ===== verification/Validation.v ===== *)
(** * Plan-phase validation of a node's dependencies

    [peppy-config-model/src/node/validation.rs]: which [depends_on.nodes]
    entries resolve, and whether every consumed interface names a declared
    slot whose producer natively exposes it. The lookup of a [(name, tag)]
    pair is the caller's closure, here the argument [resolve]. *)

From S2P Require Import Prelude Names RestartPolicy Config.

(** ** Dependencies read off a manifest *)

Record DependencySpec : Type := mkDependencySpec {
  spec_name : string;
  spec_tag : string;
}.

#[export] Instance DependencySpec_eq_dec : EqDecision DependencySpec.
Proof. solve_decision. Defined.

Definition collect_dependency_specs (node : NodeConfig) : list DependencySpec :=
  match depends_on (manifest node) with
  | None => []
  | Some d => map (λ dep, mkDependencySpec (nd_name dep) (nd_tag dep)) (nodes d)
  end.

Definition node_implements (node : NodeConfig) (name tag : string) : bool :=
  existsb (λ item, bool_decide (ie_name item = name) && bool_decide (ie_tag item = tag))
    (implements (manifest node)).

Record ContractImplementationEdge : Type := mkContractImplementationEdge {
  consumer_name : string;
  consumer_tag : string;
  provider_name : string;
  provider_tag : string;
  contract_name : string;
  contract_tag : string;
}.

Definition collect_contract_implementation_edges (configs : list NodeConfig) :
    list ContractImplementationEdge :=
  flat_map
    (λ consumer,
       match depends_on (manifest consumer) with
       | None => []
       | Some d =>
           flat_map
             (λ dep,
                map (λ provider,
                       mkContractImplementationEdge
                         (m_name (manifest consumer)) (m_tag (manifest consumer))
                         (m_name (manifest provider)) (m_tag (manifest provider))
                         (cd_name dep) (cd_tag dep))
                  (List.filter
                     (λ provider, node_implements provider (cd_name dep) (cd_tag dep)) configs))
             (contracts d)
       end)
    configs.

(** ** Errors *)

Inductive MissingDependencyPolicy : Type :=
| RequireResolvable
| AllowAbsentWhenSlotAdmitsEmpty.

#[export] Instance MissingDependencyPolicy_eq_dec : EqDecision MissingDependencyPolicy.
Proof. solve_decision. Defined.

Record MissingInterface_payload : Type := mkMissingInterface {
  mi_dependant : string;
  mi_dependant_tag : string;
  mi_dependency : string;
  mi_dependency_tag : string;
  mi_interface_kind : string;
  mi_interface_name : string;
}.

Record OnlyContractBacked_payload : Type := mkOnlyContractBacked {
  cb_dependant : string;
  cb_dependant_tag : string;
  cb_dependency : string;
  cb_dependency_tag : string;
  cb_interface_kind : string;
  cb_interface_name : string;
  cb_link_id : string;
  cb_contract_name : string;
  cb_contract_tag : string;
}.

(** The variants of [ParsingError] this validator pushes. *)
Inductive DependencyError : Type :=
| MissingDependency (dependant dependant_tag dependency dependency_tag : string)
| UndeclaredLinkId (dependant dependant_tag link_id : string)
| ConsumedItemReferencesPairingLinkId (dependant dependant_tag link_id section : string)
| ConsumedItemReferencesImplementsLinkId (link_id : string)
| MissingInterface (payload : MissingInterface_payload)
| ConsumedInterfaceOnlyContractBacked (payload : OnlyContractBacked_payload).

(** ** Exposure *)

Record ResolvedDependency : Type := mkResolvedDependency {
  rd_name : string;
  rd_tag : string;
  rd_config : NodeConfig;
}.

Record DeclaredLinks : Type := mkDeclaredLinks {
  resolved_dependencies : gmap string ResolvedDependency;
  dependency_link_ids : gset string;
  dl_pairing_link_ids : gset string;
  implements_link_ids : gset string;
}.

Record Dependant : Type := mkDependant { dep_name : string; dep_tag : string }.

Inductive Exposure : Type :=
| ExposedNatively
| ContractBackedOnly (entry : ImplementsEntry)
| NotExposed.

(** The scan of [find_exposure]: [None] on a native match, otherwise the
    link_id of the last document-backed match so far. *)
Fixpoint scan_produced (name : string) (contract_link_id : option string)
    (l : list (option string * string)) : option (option string) :=
  match l with
  | [] => Some contract_link_id
  | (link_id, entry_name) :: l =>
      if bool_decide (trim entry_name ≠ name) then scan_produced name contract_link_id l
      else
        match link_id with
        | None => None
        | Some link_id => scan_produced name (Some link_id) l
        end
  end.

Definition find_exposure (node : NodeConfig) (kind : InterfaceKind) (name : string) : Exposure :=
  match scan_produced name None (produced (interfaces node) kind) with
  | None => ExposedNatively
  | Some None => NotExposed
  | Some (Some link_id) =>
      match List.find (λ entry, bool_decide (ie_link_id entry = link_id))
              (implements (manifest node)) with
      | Some entry => ContractBackedOnly entry
      | None => NotExposed
      end
  end.

Definition validate_consumed_interface (link_id interface_name : string) (kind : InterfaceKind)
    (dependency : ResolvedDependency) (dependant : Dependant) (errors : list DependencyError) :
    list DependencyError :=
  match find_exposure (rd_config dependency) kind (trim interface_name) with
  | ExposedNatively => errors
  | ContractBackedOnly entry =>
      errors ++
      [ConsumedInterfaceOnlyContractBacked
         (mkOnlyContractBacked (dep_name dependant) (dep_tag dependant)
            (rd_name dependency) (rd_tag dependency)
            (InterfaceKind_label kind) interface_name link_id (ie_name entry) (ie_tag entry))]
  | NotExposed =>
      errors ++
      [MissingInterface
         (mkMissingInterface (dep_name dependant) (dep_tag dependant)
            (rd_name dependency) (rd_tag dependency)
            (InterfaceKind_label kind) interface_name)]
  end.

(** One iteration of the loop of [validate_consumed_items]. *)
Definition validate_consumed_item (kind : InterfaceKind) (links : DeclaredLinks)
    (dependant : Dependant) (errors : list DependencyError) (item : string * string) :
    list DependencyError :=
  let '(link_id, name) := item in
  if decide (link_id ∈ dl_pairing_link_ids links) then
    if bool_decide (kind = KTopic) then errors
    else
      errors ++
      [ConsumedItemReferencesPairingLinkId (dep_name dependant) (dep_tag dependant)
         link_id (consumed_section kind)]
  else if decide (link_id ∈ implements_link_ids links) then
    errors ++ [ConsumedItemReferencesImplementsLinkId link_id]
  else
    match resolved_dependencies links !! link_id with
    | None =>
        if decide (link_id ∈ dependency_link_ids links) then errors
        else errors ++ [UndeclaredLinkId (dep_name dependant) (dep_tag dependant) link_id]
    | Some dependency =>
        validate_consumed_interface link_id name kind dependency dependant errors
    end.

Definition validate_consumed_items (items : list (string * string)) (kind : InterfaceKind)
    (links : DeclaredLinks) (dependant : Dependant) (errors : list DependencyError) :
    list DependencyError :=
  fold_left (validate_consumed_item kind links dependant) items errors.

(** ** The two phases *)

Section validate.
Context (policy : MissingDependencyPolicy) (resolve : string → string → option NodeConfig).

(** One iteration of phase 1: the errors so far and the entries resolved. *)
Definition resolve_dependency (dependant : Dependant)
    (acc : list DependencyError * gmap string ResolvedDependency) (dep : NodeDependency) :
    list DependencyError * gmap string ResolvedDependency :=
  let '(errors, resolved) := acc in
  match resolve (nd_name dep) (nd_tag dep) with
  | None =>
      if bool_decide (policy = AllowAbsentWhenSlotAdmitsEmpty) && admits (nd_cardinality dep) 0
      then (errors, resolved)
      else
        (errors ++ [MissingDependency (dep_name dependant) (dep_tag dependant)
                      (nd_name dep) (nd_tag dep)], resolved)
  | Some config =>
      (errors, <[nd_link_id dep := mkResolvedDependency (nd_name dep) (nd_tag dep) config]> resolved)
  end.

Definition validate_dependency_specs (m : Manifest) (i : Interfaces)
    (dependant_name dependant_tag : string) : list DependencyError :=
  let dependant := mkDependant dependant_name dependant_tag in
  let declared := match depends_on m with Some d => nodes d | None => [] end in
  let '(errors, resolved) := fold_left (resolve_dependency dependant) declared ([], ∅) in
  let links :=
    mkDeclaredLinks resolved
      (match depends_on m with
       | Some d => list_to_set (map fst (producer_slots d)) | None => ∅ end)
      (match depends_on m with
       | Some d => list_to_set (pairing_link_ids d) | None => ∅ end)
      (list_to_set (map ie_link_id (implements m))) in
  fold_left
    (λ errors kind,
       validate_consumed_items (map fst (consumed i kind)) kind links dependant errors)
    [KTopic; KService; KAction] errors.
End validate.

(** ** What a valid node is *)

(** The producer has a native entry of that kind under that name. *)
Definition natively_exposes (c : NodeConfig) (kind : InterfaceKind) (name : string) : Prop :=
  ∃ n, (None, n) ∈ produced (interfaces c) kind ∧ trim n = trim name.

Definition declared_nodes (m : Manifest) : list NodeDependency :=
  match depends_on m with Some d => nodes d | None => [] end.

Definition declared_producer_ids (m : Manifest) : list string :=
  match depends_on m with Some d => map fst (producer_slots d) | None => [] end.

Definition declared_pairing_ids (m : Manifest) : list string :=
  match depends_on m with Some d => pairing_link_ids d | None => [] end.

Record dependencies_satisfied (policy : MissingDependencyPolicy)
    (resolve : string → string → option NodeConfig) (m : Manifest) (i : Interfaces) : Prop := {
  every_node_present : ∀ dep, dep ∈ declared_nodes m →
    resolve (nd_name dep) (nd_tag dep) ≠ None ∨
    (policy = AllowAbsentWhenSlotAdmitsEmpty ∧ admits (nd_cardinality dep) 0 = true);
  pairings_carry_topics : ∀ kind link_id name refined,
    (link_id, name, refined) ∈ consumed i kind → link_id ∈ declared_pairing_ids m → kind = KTopic;
  consumed_slots_declared : ∀ kind link_id name refined,
    (link_id, name, refined) ∈ consumed i kind → link_id ∉ declared_pairing_ids m →
    link_id ∈ declared_producer_ids m ∧ link_id ∉ map ie_link_id (implements m);
  producers_expose : ∀ kind link_id name refined dep c,
    (link_id, name, refined) ∈ consumed i kind → link_id ∉ declared_pairing_ids m →
    dep ∈ declared_nodes m → nd_link_id dep = link_id →
    resolve (nd_name dep) (nd_tag dep) = Some c → natively_exposes c kind name;
}.

(** ** The scan *)

Lemma scan_produced_native name acc l :
  scan_produced name acc l = None ↔ ∃ n, (None, n) ∈ l ∧ trim n = name.
Proof.
  revert acc. induction l as [|[link n] l IH]; intros acc; simpl; [set_solver|].
  setoid_rewrite elem_of_cons. case_bool_decide as E.
  - rewrite IH. split; [naive_solver|]. intros (x & [?|?] & ?); naive_solver.
  - destruct link as [link|].
    + rewrite IH. naive_solver.
    + split; [|done]. intros _. eauto.
Qed.

Lemma find_exposure_native node kind name :
  find_exposure node kind (trim name) = ExposedNatively ↔ natively_exposes node kind name.
Proof.
  unfold find_exposure, natively_exposes. rewrite <-(scan_produced_native _ None).
  destruct (scan_produced _ _ _) as [[link|]|]; [|naive_solver..].
  destruct (List.find _ _); naive_solver.
Qed.

(** A document-backed match is one of the entries scanned. *)
Lemma scan_produced_linked name acc l link :
  scan_produced name acc l = Some (Some link) →
  acc = Some link ∨ ∃ n, (Some link, n) ∈ l ∧ trim n = name.
Proof.
  revert acc. induction l as [|[k n] l IH]; intros acc; simpl; [naive_solver|].
  setoid_rewrite elem_of_cons. case_bool_decide as E.
  - intros [?|(x & ? & ?)]%IH; naive_solver.
  - destruct k as [k|]; [|done].
    intros [?|(x & ? & ?)]%IH; naive_solver.
Qed.

(** ** The errors of one item *)

Lemma validate_consumed_item_pushes kind links dependant errors item :
  validate_consumed_item kind links dependant errors item =
  errors ++ validate_consumed_item kind links dependant [] item.
Proof.
  destruct item as [link_id name]. unfold validate_consumed_item, validate_consumed_interface.
  repeat case_decide; try case_bool_decide; rewrite ?app_nil_r; try done.
  all: destruct (_ !! _); rewrite ?app_nil_r; try done.
  all: destruct (find_exposure _ _ _); by rewrite ?app_nil_r.
Qed.

Lemma validate_consumed_item_nil kind links dependant link_id name :
  validate_consumed_item kind links dependant [] (link_id, name) = [] ↔
  (link_id ∈ dl_pairing_link_ids links → kind = KTopic) ∧
  (link_id ∉ dl_pairing_link_ids links →
   link_id ∉ implements_link_ids links ∧
   (resolved_dependencies links !! link_id = None → link_id ∈ dependency_link_ids links) ∧
   ∀ dep, resolved_dependencies links !! link_id = Some dep →
     natively_exposes (rd_config dep) kind name).
Proof.
  unfold validate_consumed_item. case_decide; [case_bool_decide; naive_solver|].
  case_decide; [naive_solver|].
  destruct (_ !! link_id) as [dep|]; [|case_decide; naive_solver].
  unfold validate_consumed_interface.
  pose proof (find_exposure_native (rd_config dep) kind name) as Hn.
  destruct (find_exposure _ _ _); naive_solver.
Qed.

Lemma validate_consumed_items_nil items kind links dependant errors :
  validate_consumed_items items kind links dependant errors = [] ↔
  errors = [] ∧
  ∀ item, item ∈ items → validate_consumed_item kind links dependant [] item = [].
Proof.
  unfold validate_consumed_items.
  rewrite fold_left_pushes by (intros; apply validate_consumed_item_pushes).
  by rewrite app_nil, flat_map_nil.
Qed.

(** ** Phase 1 *)

Section phase_one.
Context (policy : MissingDependencyPolicy) (resolve : string → string → option NodeConfig).
Context (dependant : Dependant).

Lemma resolve_dependency_errors l es r :
  (fold_left (resolve_dependency policy resolve dependant) l (es, r)).1 = [] ↔
  es = [] ∧ ∀ dep, dep ∈ l → resolve (nd_name dep) (nd_tag dep) ≠ None ∨
    (policy = AllowAbsentWhenSlotAdmitsEmpty ∧ admits (nd_cardinality dep) 0 = true).
Proof.
  revert es r. induction l as [|dep l IH]; intros es r; [simpl; set_solver|].
  cbn [fold_left]. unfold resolve_dependency at 2. setoid_rewrite elem_of_cons.
  destruct (resolve _ _) as [c|] eqn:E; [rewrite IH; naive_solver|].
  destruct (_ && _) eqn:B; rewrite IH.
  - apply andb_true_iff in B as [?%bool_decide_eq_true ?]. naive_solver.
  - rewrite app_nil. split; [naive_solver|]. intros [-> H]. exfalso.
    destruct (H dep) as [?|[-> Ha]]; [by left|done|]. by rewrite Ha in B.
Qed.

Lemma resolve_dependency_lookup l es r link_id rd :
  NoDup (map nd_link_id l) →
  (∀ dep, dep ∈ l → r !! nd_link_id dep = None) →
  (fold_left (resolve_dependency policy resolve dependant) l (es, r)).2 !! link_id = Some rd ↔
  r !! link_id = Some rd ∨
  ∃ dep c, dep ∈ l ∧ nd_link_id dep = link_id ∧
    resolve (nd_name dep) (nd_tag dep) = Some c ∧
    rd = mkResolvedDependency (nd_name dep) (nd_tag dep) c.
Proof.
  revert es r. induction l as [|dep l IH]; intros es r; [simpl; set_solver|].
  cbn [map fold_left]. intros [Hdep Hl]%NoDup_cons Hr. unfold resolve_dependency at 2.
  setoid_rewrite elem_of_cons in Hr. setoid_rewrite elem_of_cons.
  destruct (resolve _ _) as [c|] eqn:E.
  - rewrite IH; [|done|].
    + rewrite lookup_insert_Some. split; [|naive_solver].
      intros [[[??]|[??]]|(d & c' & ? & ? & ? & ?)]; [right; exists dep, c; naive_solver|naive_solver..].
    + intros d Hd. rewrite lookup_insert_ne; [naive_solver|]. intros Heq.
      apply Hdep. rewrite elem_of_map. eauto.
  - destruct (_ && _); rewrite IH by naive_solver; naive_solver.
Qed.
End phase_one.

Lemma resolved_is_declared m dep :
  dep ∈ declared_nodes m → nd_link_id dep ∈ declared_producer_ids m.
Proof.
  unfold declared_nodes, declared_producer_ids, producer_slots.
  destruct (depends_on m) as [d|]; [|set_solver]. rewrite !map_app, map_map.
  intros. apply elem_of_app. left. rewrite elem_of_map. eauto.
Qed.

(** ** The validator is exact *)

(** The slots a manifest declares, around the entries phase 1 resolved. *)
Definition links_of (m : Manifest) (resolved : gmap string ResolvedDependency) : DeclaredLinks :=
  mkDeclaredLinks resolved
    (list_to_set (declared_producer_ids m)) (list_to_set (declared_pairing_ids m))
    (list_to_set (map ie_link_id (implements m))).

Lemma validate_dependency_specs_phases policy resolve m i name tag :
  validate_dependency_specs policy resolve m i name tag = [] ↔
  let dependant := mkDependant name tag in
  let phase1 := fold_left (resolve_dependency policy resolve dependant) (declared_nodes m) ([], ∅) in
  phase1.1 = [] ∧
  ∀ kind link_id n refined, (link_id, n, refined) ∈ consumed i kind →
    validate_consumed_item kind (links_of m phase1.2) dependant [] (link_id, n) = [].
Proof.
  unfold validate_dependency_specs. fold (declared_nodes m).
  destruct (fold_left _ _ _) as [errors resolved]. cbn zeta. cbn [fold_left fst snd].
  assert (Hl : ∀ a b, a = list_to_set (declared_producer_ids m) →
      b = list_to_set (declared_pairing_ids m) →
      mkDeclaredLinks resolved a b (list_to_set (map ie_link_id (implements m)))
      = links_of m resolved) by (by intros ? ? -> ->).
  rewrite !Hl by (unfold declared_producer_ids, declared_pairing_ids; by destruct (depends_on m)).
  rewrite !validate_consumed_items_nil. setoid_rewrite elem_of_map. split.
  - intros [[[-> Ht] Hs] Ha]. split; [done|]. intros [] link_id n refined H;
      [apply Ht|apply Hs|apply Ha]; by exists (link_id, n, refined).
  - intros [-> H]. split_and!; try done; intros ? ([[??] ?] & -> & ?); cbn [fst]; by eapply H.
Qed.

(** Validation reports nothing exactly when the node is valid: every
    declared node dependency resolves (or its absence is admitted by the policy
    and by the slot's cardinality), pairing slots are consumed for topics only,
    every other consumed slot is a declared producer slot and not an implements
    slot, and the producer it resolves to natively exposes the interface. *)
Lemma validate_dependency_specs_exact policy resolve m i name tag
    (Hunique : NoDup (map nd_link_id (declared_nodes m))) :
  validate_dependency_specs policy resolve m i name tag = [] ↔
  dependencies_satisfied policy resolve m i.
Proof.
  rewrite validate_dependency_specs_phases. cbn zeta.
  set (dependant := mkDependant name tag).
  rewrite resolve_dependency_errors. setoid_rewrite validate_consumed_item_nil.
  pose proof (λ l rd, resolve_dependency_lookup policy resolve dependant (declared_nodes m) [] ∅ l rd
                Hunique (λ _ _, lookup_empty _)) as Hr.
  setoid_rewrite lookup_empty in Hr.
  destruct (fold_left _ _ _) as [errors resolved]. cbn [snd links_of resolved_dependencies
    dependency_link_ids dl_pairing_link_ids implements_link_ids] in *.
  setoid_rewrite elem_of_list_to_set. split.
  - intros [[_ Hp] H]. split; [done| | |]; intros kind link_id n refined.
    + intros Hc. by destruct (H _ _ _ _ Hc).
    + intros Hc Hnp. destruct (H _ _ _ _ Hc) as [_ (Hi & Hd & _)]; [done|]. split; [|done].
      destruct (resolved !! link_id) as [rd|] eqn:E; [|auto].
      apply Hr in E as [?|(dep & c & ? & <- & _)]; [done|]. by apply resolved_is_declared.
    + intros dep c Hc Hnp Hdep Hl Hres. destruct (H _ _ _ _ Hc) as [_ (_ & _ & Hx)]; [done|].
      refine (Hx (mkResolvedDependency (nd_name dep) (nd_tag dep) c) _). apply Hr. right. eauto 6.
  - intros [Hp Ht Hd Hx]. split; [done|]. intros kind link_id n refined Hc.
    split; [eauto|]. intros Hnp. destruct (Hd _ _ _ _ Hc Hnp) as [Hs Hi]. split; [done|].
    split; [done|]. intros rd [?|(dep & c & ? & ? & ? & ->)]%Hr; [done|]. simpl. eauto.
Qed.

(** An interface reported as only contract-backed is one the producer has
    no native entry for and does produce, under the implements slot the error
    names; and it is reported as missing only when it has no native entry. *)
Lemma exposure_reported_exactly node kind name :
  match find_exposure node kind (trim name) with
  | ExposedNatively => natively_exposes node kind name
  | ContractBackedOnly entry =>
      ¬ natively_exposes node kind name ∧ entry ∈ implements (manifest node) ∧
      ∃ n, (Some (ie_link_id entry), n) ∈ produced (interfaces node) kind ∧ trim n = trim name
  | NotExposed => ¬ natively_exposes node kind name
  end.
Proof.
  pose proof (find_exposure_native node kind name) as Hn.
  destruct (find_exposure node kind (trim name)) as [|entry|] eqn:E; [naive_solver| |naive_solver].
  split; [naive_solver|]. unfold find_exposure in E.
  destruct (scan_produced _ _ _) as [[link|]|] eqn:Es; [|done..].
  destruct (List.find _ _) as [entry'|] eqn:Ef; simplify_eq.
  apply find_elem_of in Ef as [? ?%bool_decide_eq_true]. simplify_eq.
  split; [done|]. by apply scan_produced_linked in Es as [?|?].
Qed.

(** The contract edges of a set of nodes: each pair of a node depending on a
    contract and a node declaring it. *)
Lemma contract_edges_exact configs edge :
  edge ∈ collect_contract_implementation_edges configs ↔
  ∃ consumer provider d dep item,
    consumer ∈ configs ∧ provider ∈ configs ∧
    depends_on (manifest consumer) = Some d ∧ dep ∈ contracts d ∧
    item ∈ implements (manifest provider) ∧
    ie_name item = cd_name dep ∧ ie_tag item = cd_tag dep ∧
    edge = mkContractImplementationEdge
      (m_name (manifest consumer)) (m_tag (manifest consumer))
      (m_name (manifest provider)) (m_tag (manifest provider)) (cd_name dep) (cd_tag dep).
Proof.
  unfold collect_contract_implementation_edges. rewrite elem_of_flat_map. split.
  - intros (consumer & Hc & He). destruct (depends_on (manifest consumer)) as [d|] eqn:Ed;
      [|by apply elem_of_nil in He].
    apply elem_of_flat_map in He as (dep & Hdep & (provider & -> & Hp)%elem_of_map).
    apply elem_of_retain in Hp as [Hp (item & Hi & Hn)%existsb_exists].
    apply andb_true_iff in Hn as [?%bool_decide_eq_true ?%bool_decide_eq_true].
    apply list_elem_of_In in Hi. eauto 15.
  - intros (consumer & provider & d & dep & item & ? & ? & Ed & ? & ? & ? & ? & ->).
    exists consumer. split; [done|]. rewrite Ed. apply elem_of_flat_map. exists dep. split; [done|].
    apply elem_of_map. exists provider. split; [done|]. apply elem_of_retain. split; [done|].
    apply existsb_exists. exists item. rewrite <-list_elem_of_In. split; [done|].
    by rewrite andb_true_iff, !bool_decide_eq_true.
Qed.

(** A consumer with one optional camera and a topic read from it. *)
Definition example_camera : NodeConfig :=
  mkNodeConfig
    (mkManifest "camera" "v1" [] None [] None)
    (mkInterfaces
       (Some (mkTopicInterfaces
                (Some [Native (mkNativeEmittedTopic "frames" "Frames." Standard LiveOnly None)])
                None))
       None None)
    (mkExecution Rust None None None [] None false) (mkNodeFramework None).

Definition example_viewer : Manifest :=
  mkManifest "viewer" "v1" [] None []
    (Some (mkDependsOn [mkNodeDependency "camera" "v1" "cam" One] [] [] [] [])).

Definition example_viewer_interfaces : Interfaces :=
  mkInterfaces
    (Some (mkTopicInterfaces None (Some [mkConsumedEntry "cam" "frames" None]))) None None.

Definition example_resolve (name tag : string) : option NodeConfig :=
  if bool_decide (name = "camera") && bool_decide (tag = "v1") then Some example_camera else None.

Lemma validate_dependency_specs_exact_witness :
  dependencies_satisfied RequireResolvable example_resolve example_viewer example_viewer_interfaces
  ∧ ¬ dependencies_satisfied RequireResolvable (λ _ _, None) example_viewer example_viewer_interfaces.
Proof.
  assert (H : NoDup (map nd_link_id (declared_nodes example_viewer)))
    by (apply (bool_decide_unpack _); vm_compute; exact I).
  split.
  - apply (validate_dependency_specs_exact RequireResolvable example_resolve example_viewer
             example_viewer_interfaces "viewer" "v1" H). vm_compute. reflexivity.
  - rewrite <-(validate_dependency_specs_exact RequireResolvable (λ _ _, None) example_viewer
                 example_viewer_interfaces "viewer" "v1" H). vm_compute. discriminate.
Defined.
