(* ===== verification/Graphs.v ===== *)
(** * The graph library behind the stack

    The node stack keeps its dependency graph in a [petgraph] [StableDiGraph]
    and asks [petgraph::algo] for strongly connected components and a
    topological order. That library is not part of this repository: here are
    the operations the stack calls, as classes, with the documented behaviour
    the stack relies on as laws. The clients are proved against the classes.
    The reference instances at the end, over finite maps and a transitive
    closure, satisfy the laws and make the clients executable. *)

From stdpp Require Import sorting.
From S2P Require Import Prelude.

(** ** Stable graphs *)

Class StableGraph (G W : Type) : Type := {
  g_empty : G;
  g_add_node : W → G → nat * G;
  g_remove_node : nat → G → G;
  g_node_weight : G → nat → option W;
  g_node_indices : G → list nat;
  g_add_edge : nat → nat → G → G;
  g_remove_edge : nat → G → G;
  g_edges_out : G → nat → list nat;
  g_find_edge : G → nat → nat → option nat;
  g_edge_endpoints : G → nat → option (nat * nat);
  g_edge_indices : G → list nat;
  g_neighbors_in : G → nat → list nat;
}.

(** What the stack relies on. An index stays valid until its node is removed
    and may be given out again afterwards; removing a node removes its edges;
    an edge joins two nodes of the graph. [add_edge] panics on a missing node,
    so its laws speak of two present ones. *)
Class StableGraphLaws (G W : Type) `{StableGraph G W} : Prop := {
  empty_weight i : g_node_weight (g_empty : G) i = None;
  empty_edges e : g_edge_endpoints (g_empty : G) e = None;
  edge_ends (g : G) e i j : g_edge_endpoints g e = Some (i, j) →
    is_Some (g_node_weight g i) ∧ is_Some (g_node_weight g j);
  add_node_fresh w (g : G) : g_node_weight g (g_add_node w g).1 = None;
  add_node_weight w (g : G) j :
    g_node_weight (g_add_node w g).2 j =
    if decide (j = (g_add_node w g).1) then Some w else g_node_weight g j;
  add_node_edges w (g : G) e : g_edge_endpoints (g_add_node w g).2 e = g_edge_endpoints g e;
  remove_node_weight i (g : G) j :
    g_node_weight (g_remove_node i g) j = if decide (j = i) then None else g_node_weight g j;
  remove_node_edges i (g : G) e a b :
    g_edge_endpoints (g_remove_node i g) e = Some (a, b) ↔
    g_edge_endpoints g e = Some (a, b) ∧ a ≠ i ∧ b ≠ i;
  add_edge_weight i j (g : G) k : g_node_weight (g_add_edge i j g) k = g_node_weight g k;
  add_edge_edges i j (g : G) : is_Some (g_node_weight g i) → is_Some (g_node_weight g j) →
    ∃ e, g_edge_endpoints g e = None ∧
      ∀ e', g_edge_endpoints (g_add_edge i j g) e' =
        if decide (e' = e) then Some (i, j) else g_edge_endpoints g e';
  remove_edge_weight e (g : G) k : g_node_weight (g_remove_edge e g) k = g_node_weight g k;
  remove_edge_edges e (g : G) e' :
    g_edge_endpoints (g_remove_edge e g) e' =
    if decide (e' = e) then None else g_edge_endpoints g e';
  edges_out_spec (g : G) i e :
    e ∈ g_edges_out g i ↔ ∃ j, g_edge_endpoints g e = Some (i, j);
  find_edge_Some (g : G) i j e :
    g_find_edge g i j = Some e → g_edge_endpoints g e = Some (i, j);
  find_edge_None (g : G) i j e :
    g_find_edge g i j = None → g_edge_endpoints g e ≠ Some (i, j);
  neighbors_in_spec (g : G) i a :
    a ∈ g_neighbors_in g i ↔ ∃ e, g_edge_endpoints g e = Some (a, i);
  node_indices_spec (g : G) i : i ∈ g_node_indices g ↔ is_Some (g_node_weight g i);
  node_indices_NoDup (g : G) : NoDup (g_node_indices g);
  edge_indices_spec (g : G) e : e ∈ g_edge_indices g ↔ is_Some (g_edge_endpoints g e);
}.

(** Whether some edge leads from one node to another. *)
Definition g_edge {G W} `{StableGraph G W} (g : G) (i j : nat) : Prop :=
  ∃ e, g_edge_endpoints g e = Some (i, j).

Section edges.
Context {G W : Type} `{StableGraphLaws G W}.
Implicit Types (g : G) (i j a b : nat).

Lemma empty_edge i j : ¬ g_edge (g_empty : G) i j.
Proof. intros [e He]. by rewrite empty_edges in He. Qed.

Lemma add_node_edge w g i j : g_edge (g_add_node w g).2 i j ↔ g_edge g i j.
Proof. unfold g_edge. by setoid_rewrite add_node_edges. Qed.

Lemma remove_node_edge k g i j : g_edge (g_remove_node k g) i j ↔ g_edge g i j ∧ i ≠ k ∧ j ≠ k.
Proof. unfold g_edge. setoid_rewrite remove_node_edges. naive_solver. Qed.

Lemma add_edge_edge g i j a b :
  is_Some (g_node_weight g i) → is_Some (g_node_weight g j) →
  g_edge (g_add_edge i j g) a b ↔ g_edge g a b ∨ (a = i ∧ b = j).
Proof.
  intros Hi Hj. destruct (add_edge_edges i j g Hi Hj) as (e & Hfresh & He). unfold g_edge.
  setoid_rewrite He. split.
  - intros [e' H']. case_decide; naive_solver.
  - intros [[e' H']|[-> ->]]; [|exists e; by rewrite decide_True].
    exists e'. rewrite decide_False; [done|]. intros ->. congruence.
Qed.

Lemma find_edge_spec g i j : is_Some (g_find_edge g i j) ↔ g_edge g i j.
Proof.
  split; [intros [e He%find_edge_Some]; by exists e|]. intros [e He].
  destruct (g_find_edge g i j) eqn:E; [done|]. by apply (find_edge_None _ _ _ e) in E.
Qed.

Lemma neighbors_in_edge g i a : a ∈ g_neighbors_in g i ↔ g_edge g a i.
Proof. apply neighbors_in_spec. Qed.

(** Removing the edges of a list of ids. *)
Lemma fold_remove_edge_weight (l : list nat) g k :
  g_node_weight (fold_left (λ g e, g_remove_edge e g) l g) k = g_node_weight g k.
Proof.
  revert g. induction l as [|e l IH]; intros g; simpl; [done|]. by rewrite IH, remove_edge_weight.
Qed.

Lemma fold_remove_edge_endpoints (l : list nat) g e :
  g_edge_endpoints (fold_left (λ g e, g_remove_edge e g) l g) e =
  if decide (e ∈ l) then None else g_edge_endpoints g e.
Proof.
  revert g. induction l as [|e' l IH]; intros g; cbn [fold_left]; [done|].
  rewrite IH, remove_edge_edges. repeat case_decide; set_solver.
Qed.

(** Removing every edge out of a node. *)
Lemma remove_edges_out_edge g i a b :
  g_edge (fold_left (λ g e, g_remove_edge e g) (g_edges_out g i) g) a b ↔ g_edge g a b ∧ a ≠ i.
Proof.
  unfold g_edge. setoid_rewrite fold_remove_edge_endpoints. split.
  - intros [e He]. case_decide as Hin; [done|]. split; [by exists e|]. intros ->.
    apply Hin, edges_out_spec. eauto.
  - intros [[e He] Hne]. exists e. rewrite decide_False; [done|].
    rewrite edges_out_spec. intros [? ?]. congruence.
Qed.
End edges.

(** ** Components and topological orders *)

(** The edge relation of a list of pairs. *)
Definition edge_in (es : list (nat * nat)) (a b : nat) : Prop := (a, b) ∈ es.

Definition edges_within (n : nat) (es : list (nat * nat)) : Prop :=
  ∀ a b, (a, b) ∈ es → a < n ∧ b < n.

(** [tarjan_scc] of a graph with nodes [0..n). *)
Class Tarjan : Type := tarjan_scc : nat → list (nat * nat) → list (list nat).

Class TarjanLaws `{Tarjan} : Prop := {
  scc_cover n es i : edges_within n es →
    i < n ↔ ∃ c, c ∈ tarjan_scc n es ∧ i ∈ c;
  scc_NoDup n es c : edges_within n es → c ∈ tarjan_scc n es → NoDup c;
  scc_nonempty n es c : edges_within n es → c ∈ tarjan_scc n es → c ≠ [];
  scc_mutual n es c a b : edges_within n es → c ∈ tarjan_scc n es → a ∈ c →
    b ∈ c ↔ rtc (edge_in es) a b ∧ rtc (edge_in es) b a;
}.

(** [toposort] of a graph with nodes [0..n): an order, or a node on a cycle. *)
Class Toposort : Type := toposort : nat → list (nat * nat) → result nat (list nat).

Definition before (order : list nat) (a b : nat) : Prop :=
  ∃ l1 l2 l3, order = l1 ++ a :: l2 ++ b :: l3.

Class ToposortLaws `{Toposort} : Prop := {
  toposort_order n es order : edges_within n es → toposort n es = Ok order →
    order ≡ₚ seq 0 n ∧ ∀ a b, (a, b) ∈ es → before order a b;
  toposort_cycle n es i : edges_within n es → toposort n es = Err i →
    i < n ∧ tc (edge_in es) i i;
}.

(** ** The reference stable graph *)

Record map_graph (W : Type) : Type := mkMapGraph {
  mg_nodes : gmap nat W;
  mg_edges : gmap nat (nat * nat);
}.
Arguments mkMapGraph {W}.
Arguments mg_nodes {W}.
Arguments mg_edges {W}.

Section map_graph.
Context {W : Type}.
Implicit Types g : map_graph W.

Definition mg_endpoints g (e : nat) : option (nat * nat) :=
  option_filter
    (λ p, opt_is_some (mg_nodes g !! p.1) && opt_is_some (mg_nodes g !! p.2)) (mg_edges g !! e).

(** Every edge joining two present nodes, with its id. *)
Definition mg_edge_list g : list (nat * (nat * nat)) :=
  omap (λ '(e, _), p ← mg_endpoints g e; Some (e, p)) (map_to_list (mg_edges g)).

(** An index no node has and no edge mentions. *)
Definition mg_fresh g : nat :=
  fresh (dom (mg_nodes g)
         ∪ list_to_set (map (λ p, p.2.1) (map_to_list (mg_edges g)))
         ∪ list_to_set (map (λ p, p.2.2) (map_to_list (mg_edges g))) : gset nat).

#[export] Instance map_graph_ops : StableGraph (map_graph W) W := {|
  g_empty := mkMapGraph ∅ ∅;
  g_add_node w g := (mg_fresh g, mkMapGraph (<[mg_fresh g := w]> (mg_nodes g)) (mg_edges g));
  g_remove_node i g :=
    mkMapGraph (delete i (mg_nodes g)) (filter (λ p, p.2.1 ≠ i ∧ p.2.2 ≠ i) (mg_edges g));
  g_node_weight g i := mg_nodes g !! i;
  g_node_indices g := map fst (map_to_list (mg_nodes g));
  g_add_edge i j g :=
    mkMapGraph (mg_nodes g) (<[fresh (dom (mg_edges g)) := (i, j)]> (mg_edges g));
  g_remove_edge e g := mkMapGraph (mg_nodes g) (delete e (mg_edges g));
  g_edges_out g i := map fst (List.filter (λ p, bool_decide (p.2.1 = i)) (mg_edge_list g));
  g_find_edge g i j :=
    fst <$> List.find (λ p, bool_decide (p.2 = (i, j))) (mg_edge_list g);
  g_edge_endpoints := mg_endpoints;
  g_edge_indices g := map fst (mg_edge_list g);
  g_neighbors_in g i :=
    map (λ p, p.2.1) (List.filter (λ p, bool_decide (p.2.2 = i)) (mg_edge_list g));
|}.

Lemma opt_is_some_true {A} (o : option A) : opt_is_some o = true ↔ is_Some o.
Proof. destruct o; simpl; split; [eauto|done|done|by intros [? ?]]. Qed.

Lemma mg_endpoints_Some g e a b :
  mg_endpoints g e = Some (a, b) ↔
  mg_edges g !! e = Some (a, b) ∧ is_Some (mg_nodes g !! a) ∧ is_Some (mg_nodes g !! b).
Proof.
  unfold mg_endpoints.
  by rewrite option_filter_some, andb_true_iff, !opt_is_some_true.
Qed.

Lemma mg_fresh_spec g :
  mg_nodes g !! mg_fresh g = None ∧
  ∀ e a b, mg_edges g !! e = Some (a, b) → a ≠ mg_fresh g ∧ b ≠ mg_fresh g.
Proof.
  set (X := dom (mg_nodes g)
         ∪ list_to_set (map (λ p, p.2.1) (map_to_list (mg_edges g)))
         ∪ list_to_set (map (λ p, p.2.2) (map_to_list (mg_edges g))) : gset nat).
  assert (HX : mg_fresh g ∉ X) by apply (is_fresh X). subst X.
  rewrite !not_elem_of_union, !elem_of_list_to_set, !elem_of_map in HX.
  destruct HX as [[Hn H1] H2]. split; [by apply not_elem_of_dom|].
  intros e a b He%elem_of_map_to_list. split; intros ->; [apply H1|apply H2];
    by exists (e, (a, b)) || eexists (e, (_, _)).
Qed.

Lemma elem_of_mg_edge_list g e p :
  (e, p) ∈ mg_edge_list g ↔ mg_endpoints g e = Some p.
Proof.
  unfold mg_edge_list. rewrite list_elem_of_omap. split.
  - intros ([e' q] & _ & H). destruct (mg_endpoints g e') eqn:E; simplify_eq/=. done.
  - intros H. destruct p as [a b]. assert (H' := H). apply mg_endpoints_Some in H' as (He & _).
    exists (e, (a, b)). rewrite elem_of_map_to_list. by rewrite H.
Qed.

#[export] Instance map_graph_laws : StableGraphLaws (map_graph W) W.
Proof.
  split; cbn.
  - done.
  - done.
  - intros g e i j (_ & ? & ?)%mg_endpoints_Some. done.
  - intros w g. apply mg_fresh_spec.
  - intros w g j. rewrite lookup_insert. repeat case_decide; congruence.
  - intros w g e. apply option_eq. intros [a b]. rewrite !mg_endpoints_Some. cbn.
    destruct (mg_fresh_spec g) as [_ Hf].
    split; intros (He & ? & ?); destruct (Hf _ _ _ He);
      rewrite !lookup_insert_ne in * by congruence; done.
  - intros i g j. rewrite lookup_delete. repeat case_decide; congruence.
  - intros i g e a b. rewrite !mg_endpoints_Some. cbn. rewrite map_lookup_filter_Some. cbn.
    split.
    + intros ((? & ? & ?) & Ha & Hb). rewrite !lookup_delete_ne in * by congruence. done.
    + intros ((? & ? & ?) & ? & ?). rewrite !lookup_delete_ne by congruence. done.
  - done.
  - intros i j g Hi Hj.
    assert (Hf : mg_edges g !! fresh (dom (mg_edges g)) = None)
      by (apply not_elem_of_dom, (is_fresh (dom (mg_edges g)))).
    exists (fresh (dom (mg_edges g))). split; [unfold mg_endpoints; by rewrite Hf|].
    intros e'. apply option_eq. intros [a b]. rewrite mg_endpoints_Some. cbn.
    case_decide as E; [subst; rewrite lookup_insert_eq; naive_solver|].
    rewrite lookup_insert_ne by congruence. by rewrite mg_endpoints_Some.
  - done.
  - intros e g e'. apply option_eq. intros [a b]. rewrite mg_endpoints_Some. cbn.
    case_decide as E; [subst; rewrite lookup_delete_eq; naive_solver|].
    rewrite lookup_delete_ne by congruence. by rewrite mg_endpoints_Some.
  - intros g i e. rewrite elem_of_map. split.
    + intros ([e' [a b]] & -> & [Hin ?%bool_decide_eq_true]%elem_of_retain).
      simplify_eq/=. apply elem_of_mg_edge_list in Hin. eauto.
    + intros [j Hj]. exists (e, (i, j)). split; [done|]. apply elem_of_retain.
      rewrite elem_of_mg_edge_list, bool_decide_eq_true. done.
  - intros g i j e ([e' p] & [Hin ?%bool_decide_eq_true]%find_elem_of & ->)%fmap_Some.
    simplify_eq/=. by apply elem_of_mg_edge_list in Hin.
  - intros g i j e H He. apply fmap_None in H. rewrite find_None_forall in H.
    apply elem_of_mg_edge_list, H in He. apply bool_decide_eq_false in He. done.
  - intros g i a. rewrite elem_of_map. split.
    + intros ([e' [a' b]] & -> & [Hin ?%bool_decide_eq_true]%elem_of_retain).
      simplify_eq/=. apply elem_of_mg_edge_list in Hin. eauto.
    + intros [e He]. exists (e, (a, i)). split; [done|]. apply elem_of_retain.
      rewrite elem_of_mg_edge_list, bool_decide_eq_true. done.
  - intros g i. rewrite elem_of_map. split.
    + intros ([i' w] & -> & Hin%elem_of_map_to_list). eauto.
    + intros [w Hw%elem_of_map_to_list]. by exists (i, w).
  - intros g. apply (NoDup_fst_map_to_list (mg_nodes g)).
  - intros g e. rewrite elem_of_map. split.
    + intros ([e' p] & -> & Hin%elem_of_mg_edge_list). eauto.
    + intros [p Hp%elem_of_mg_edge_list]. by exists (e, p).
Qed.
End map_graph.

(** ** Transitive closure *)

(** One round of Warshall's algorithm: the pairs joined through [k]. *)
Definition closure_step (R : gset (nat * nat)) (k : nat) : gset (nat * nat) :=
  R ∪ list_to_set
        (flat_map
           (λ p, map (λ q, (p.1, q.2)) (List.filter (λ q, bool_decide (q.1 = k)) (elements R)))
           (List.filter (λ p, bool_decide (p.2 = k)) (elements R))).

Definition closure (n : nat) (es : list (nat * nat)) : gset (nat * nat) :=
  fold_left closure_step (seq 0 n) (list_to_set es).

Lemma elem_of_closure_step R k a b :
  (a, b) ∈ closure_step R k ↔ (a, b) ∈ R ∨ ((a, k) ∈ R ∧ (k, b) ∈ R).
Proof.
  unfold closure_step. rewrite elem_of_union, elem_of_list_to_set, elem_of_flat_map.
  setoid_rewrite elem_of_map. setoid_rewrite elem_of_retain.
  setoid_rewrite elem_of_elements. setoid_rewrite bool_decide_eq_true.
  split; (intros [?|H]; [by left|right]).
  - destruct H as ([a' ?] & [? ?] & [? b'] & ? & ? & ?). by simplify_eq/=.
  - destruct H. exists (a, k). split; [done|]. by exists (k, b).
Qed.

Lemma closure_steps_sound (E : nat → nat → Prop) l R :
  (∀ a b, (a, b) ∈ R → tc E a b) →
  ∀ a b, (a, b) ∈ fold_left closure_step l R → tc E a b.
Proof.
  revert R. induction l as [|k l IH]; intros R HR; cbn [fold_left]; [done|].
  apply IH. intros a b [?|[? ?]]%elem_of_closure_step; [auto|]. etrans; eauto.
Qed.

Lemma closure_steps_grow l R p : p ∈ R → p ∈ fold_left closure_step l R.
Proof.
  revert R. induction l as [|k l IH]; intros R Hp; cbn [fold_left]; [done|].
  apply IH. destruct p. apply elem_of_closure_step. by left.
Qed.

(** Pairs join through every node a round was made for. *)
Lemma closure_steps_join l R v a b (done : nat → Prop) :
  (∀ v a b, done v → (a, v) ∈ R → (v, b) ∈ R → (a, b) ∈ R) →
  done v ∨ v ∈ l →
  let R' := fold_left closure_step l R in
  (a, v) ∈ R' → (v, b) ∈ R' → (a, b) ∈ R'.
Proof.
  revert R done. induction l as [|k l IH]; intros R done Hd Hv; cbn [fold_left].
  { cbn. destruct Hv as [?|?%elem_of_nil]; [eauto|easy]. }
  apply (IH (closure_step R k) (λ v, done v ∨ v = k)); [|set_solver].
  intros u x y Hu. rewrite !elem_of_closure_step. naive_solver.
Qed.

Lemma elem_of_closure n es a b :
  edges_within n es → (a, b) ∈ closure n es ↔ tc (edge_in es) a b.
Proof.
  intros Hes. unfold closure. split.
  - apply closure_steps_sound. intros x y Hxy%elem_of_list_to_set. by constructor.
  - assert (Hin : ∀ x y, edge_in es x y → (x, y) ∈ fold_left closure_step (seq 0 n) (list_to_set es))
      by (intros; by apply closure_steps_grow, elem_of_list_to_set).
    induction 1 as [x y Hxy|x y z Hxy Hyz IH]; [by apply Hin|].
    refine (closure_steps_join _ _ y _ _ (λ _, False) _ _ (Hin _ _ Hxy) IH); [done|].
    right. apply elem_of_seq. destruct (Hes _ _ Hxy). lia.
Qed.

(** ** The reference components *)

Definition mutually (R : gset (nat * nat)) (a b : nat) : bool :=
  bool_decide (a = b) || (bool_decide ((a, b) ∈ R) && bool_decide ((b, a) ∈ R)).

Definition class_of (n : nat) (R : gset (nat * nat)) (i : nat) : list nat :=
  List.filter (mutually R i) (seq 0 n).

#[export] Instance closure_tarjan : Tarjan := λ n es,
  let R := closure n es in
  map (class_of n R) (List.filter (λ i, bool_decide (head (class_of n R i) = Some i)) (seq 0 n)).

Lemma mutually_true n es a b :
  edges_within n es →
  mutually (closure n es) a b = true ↔ rtc (edge_in es) a b ∧ rtc (edge_in es) b a.
Proof.
  intros Hes. unfold mutually.
  rewrite orb_true_iff, andb_true_iff, !bool_decide_eq_true, !elem_of_closure by done. split.
  - intros [->|[? ?]]; split; auto using tc_rtc, rtc_refl.
  - intros [[->|Hab]%rtc_tc [Hba|Hba]%rtc_tc]; auto.
Qed.

Lemma elem_of_class n es i j :
  edges_within n es →
  j ∈ class_of n (closure n es) i ↔
  j < n ∧ rtc (edge_in es) i j ∧ rtc (edge_in es) j i.
Proof.
  intros Hes. unfold class_of. rewrite elem_of_retain, (mutually_true n es) by done.
  rewrite elem_of_seq. intuition lia.
Qed.

Lemma class_of_eq n es i j :
  edges_within n es → j ∈ class_of n (closure n es) i →
  class_of n (closure n es) j = class_of n (closure n es) i.
Proof.
  intros Hes (_ & Hij & Hji)%elem_of_class; [|done]. apply filter_ext. intros k.
  apply eq_true_iff_eq. rewrite !(mutually_true n es) by done.
  split; intros [? ?]; split; by etrans.
Qed.

Lemma reachable_within n es a b :
  edges_within n es → a < n → rtc (edge_in es) a b → b < n.
Proof.
  intros Hes Ha. induction 1 as [|x y z Hxy _ IH]; [done|]. apply IH. by destruct (Hes _ _ Hxy).
Qed.

#[export] Instance closure_tarjan_laws : TarjanLaws.
Proof.
  assert (Hc : ∀ n es c, edges_within n es → c ∈ closure_tarjan n es ↔
    ∃ i, c = class_of n (closure n es) i ∧ i < n ∧ head c = Some i).
  { intros n es c _. unfold closure_tarjan. rewrite elem_of_map.
    setoid_rewrite elem_of_retain. setoid_rewrite bool_decide_eq_true.
    setoid_rewrite elem_of_seq. split; intros (i & -> & ? & ?); exists i; naive_solver lia. }
  split; unfold tarjan_scc.
  - intros n es i Hes. setoid_rewrite Hc; [|done]. split.
    + intros Hi. assert (Hin : i ∈ class_of n (closure n es) i) by (by apply elem_of_class).
      destruct (class_of n (closure n es) i) as [|j l] eqn:E; [by apply elem_of_nil in Hin|].
      assert (Hj : j ∈ class_of n (closure n es) i) by (rewrite E; set_solver).
      exists (j :: l). split; [|done]. exists j. rewrite <-E. split.
      * symmetry. by apply class_of_eq.
      * rewrite E. split; [|done]. by apply elem_of_class in Hj as [? _].
    + intros (c & (j & -> & _) & Hi). by apply elem_of_class in Hi as [? _].
  - intros n es c Hes (i & -> & _)%Hc; [|done]. apply NoDup_retain, NoDup_seq.
  - intros n es c Hes (i & _ & _ & ?)%Hc ->; done.
  - intros n es c a b Hes (i & -> & Hi & _)%Hc Ha; [|done].
    rewrite <-(class_of_eq n es i a), elem_of_class by done.
    apply elem_of_class in Ha as (Ha & _); [|done].
    intuition eauto using reachable_within.
Qed.

(** ** The reference topological order

    The nodes by their number of ancestors: along an edge of an acyclic graph
    the number grows. *)

Definition ancestors (n : nat) (R : gset (nat * nat)) (i : nat) : nat :=
  length (List.filter (λ j, bool_decide ((j, i) ∈ R)) (seq 0 n)).

Definition fewer_ancestors (n : nat) (R : gset (nat * nat)) (a b : nat) : Prop :=
  ancestors n R a ≤ ancestors n R b.

#[export] Instance fewer_ancestors_dec n R : RelDecision (fewer_ancestors n R).
Proof. intros a b. unfold fewer_ancestors. apply _. Defined.

#[export] Instance fewer_ancestors_trans n R : Transitive (fewer_ancestors n R).
Proof. unfold fewer_ancestors. intros ???. lia. Qed.

#[export] Instance fewer_ancestors_total n R : Total (fewer_ancestors n R).
Proof. unfold fewer_ancestors. intros ??. lia. Qed.

#[export] Instance closure_toposort : Toposort := λ n es,
  let R := closure n es in
  match List.find (λ i, bool_decide ((i, i) ∈ R)) (seq 0 n) with
  | Some i => Err i
  | None => Ok (merge_sort (fewer_ancestors n R) (seq 0 n))
  end.

Lemma length_filter_le {A} (p q : A → bool) (l : list A) :
  (∀ x, x ∈ l → p x = true → q x = true) →
  length (List.filter p l) ≤ length (List.filter q l).
Proof.
  induction l as [|x l IH]; intros H; simpl; [done|]. specialize (IH ltac:(set_solver)).
  assert (Hx := H x ltac:(set_solver)). destruct (p x), (q x); simpl; lia || by specialize (Hx eq_refl).
Qed.

Lemma length_filter_lt {A} (p q : A → bool) (l : list A) x :
  (∀ x, x ∈ l → p x = true → q x = true) → x ∈ l → p x = false → q x = true →
  length (List.filter p l) < length (List.filter q l).
Proof.
  intros H Hx Hp Hq. induction l as [|y l IH]; [by apply elem_of_nil in Hx|].
  assert (Hl : ∀ z, z ∈ l → p z = true → q z = true) by set_solver.
  assert (Hy := H y ltac:(set_solver)). simpl.
  apply elem_of_cons in Hx as [->|Hx].
  - rewrite Hp, Hq. simpl. pose proof (length_filter_le p q l Hl). lia.
  - specialize (IH Hl Hx). destruct (p y), (q y); simpl; lia || by specialize (Hy eq_refl).
Qed.

Lemma ancestors_lt n es a b :
  edges_within n es → (∀ i, i < n → ¬ tc (edge_in es) i i) → edge_in es a b →
  ancestors n (closure n es) a < ancestors n (closure n es) b.
Proof.
  intros Hes Hacyclic Hab. destruct (Hes _ _ Hab) as [Ha Hb].
  apply (length_filter_lt _ _ _ a); rewrite ?bool_decide_eq_true, ?bool_decide_eq_false.
  - intros x _. rewrite !bool_decide_eq_true, !elem_of_closure by done.
    intros ?. eapply tc_r; eauto.
  - apply elem_of_seq. lia.
  - rewrite elem_of_closure by done. by apply Hacyclic.
  - rewrite elem_of_closure by done. by constructor.
Qed.

Lemma sorted_before (f : nat → nat) l a b :
  StronglySorted (λ x y, f x ≤ f y) l → a ∈ l → b ∈ l → f a < f b → before l a b.
Proof.
  intros Hs Ha Hb Hlt. apply list_elem_of_split in Ha as (l1 & l2 & ->).
  apply elem_of_app in Hb as [Hb|Hb].
  - exfalso. apply list_elem_of_split in Hb as (l3 & l4 & ->).
    assert (f b ≤ f a); [|lia].
    by apply (StronglySorted_app_1_elem_of _ _ _ b a Hs); set_solver.
  - apply elem_of_cons in Hb as [->|Hb]; [lia|].
    apply list_elem_of_split in Hb as (l3 & l4 & ->). by exists l1, l3, l4.
Qed.

#[export] Instance closure_toposort_laws : ToposortLaws.
Proof.
  split; unfold toposort, closure_toposort; intros n es x Hes;
    destruct (List.find _ _) as [k|] eqn:E; intros ?; simplify_eq.
  - assert (Hp : merge_sort (fewer_ancestors n (closure n es)) (seq 0 n) ≡ₚ seq 0 n)
      by apply merge_sort_Permutation.
    split; [done|]. intros a b Hab.
    apply (sorted_before (ancestors n (closure n es))).
    + apply (StronglySorted_merge_sort (fewer_ancestors n (closure n es))).
    + rewrite Hp, elem_of_seq. destruct (Hes _ _ Hab). lia.
    + rewrite Hp, elem_of_seq. destruct (Hes _ _ Hab). lia.
    + apply ancestors_lt; [done| |done]. intros i Hi Hc. rewrite find_None_forall in E.
      specialize (E i ltac:(apply elem_of_seq; lia)). apply bool_decide_eq_false in E.
      by rewrite elem_of_closure in E.
  - apply find_elem_of in E as [Hk%elem_of_seq Hc%bool_decide_eq_true].
    rewrite elem_of_closure in Hc by done. split; [lia|done].
Qed.
