(* ===== verification/Cycle.v ===== *)
(** * Caller-driven dependency cycles

    [node-stack-internal/src/service_action_cycle.rs]: a service or an action
    is invoked by its consumer, so two nodes that each invoke the other
    deadlock. The caller-driven edges are rebuilt from the node documents,
    contracts resolved to their implementers, and a cycle among them is
    reported. The components come from [petgraph]'s [tarjan_scc], a class
    here. *)

From stdpp Require Import sorting.
From S2P Require Import Prelude Names RestartPolicy Config Validation Graphs.

Record CycleCheckNode : Type := mkCycleCheckNode {
  cc_name : string;
  cc_tag : string;
  cc_config : NodeConfig;
}.

Record ServiceActionCycle : Type := mkServiceActionCycle {
  cycle_nodes : list string;
  closing_dependency : string;
  cycle_kind : InterfaceKind;
}.

Record Edge : Type := mkEdge {
  edge_from : nat;
  edge_to : nat;
  edge_kind : InterfaceKind;
  edge_label : string;
}.

(** [iter().enumerate()]. *)
Definition enumerate {A} (l : list A) : list (nat * A) := zip (seq 0 (length l)) l.

(** [format!("{name}:{tag}")]. *)
Definition name_tag (name tag : string) : string := (name +:+ ":" +:+ tag)%string.

(** [nodes[idx]] is in range wherever this is called (see
    [caller_driven_edges_within]). *)
Definition label_of (view : list CycleCheckNode) (idx : nat) : string :=
  match view !! idx with
  | Some node => name_tag (cc_name node) (cc_tag node)
  | None => ""
  end.

(** ** Edges *)

(** The link ids consumed as a service or an action. *)
Definition caller_driven_link_ids (i : Interfaces) : gmap string InterfaceKind :=
  let services :=
    fold_left (λ m c, <[ce_link_id c := KService]> m) (consumed_services i) (∅ : gmap string _) in
  fold_left
    (λ m c, match m !! ce_link_id c with Some _ => m | None => <[ce_link_id c := KAction]> m end)
    (consumed_actions i) services.

(** The map the finder collects: a later node of the same identity wins. *)
Definition identity_to_index (view : list CycleCheckNode) : gmap (string * string) nat :=
  fold_left (λ m '(idx, node), <[(cc_name node, cc_tag node) := idx]> m) (enumerate view) ∅.

(** The edges of one caller: contracts first, then nodes. *)
Definition caller_edges (view : list CycleCheckNode) (ids : gmap (string * string) nat)
    (caller_idx : nat) (caller : CycleCheckNode) : list Edge :=
  let caller_driven := caller_driven_link_ids (interfaces (cc_config caller)) in
  if decide (caller_driven = ∅) then []
  else
    match depends_on (manifest (cc_config caller)) with
    | None => []
    | Some d =>
        flat_map
          (λ dep,
             match caller_driven !! cd_link_id dep with
             | None => []
             | Some kind =>
                 map (λ '(provider_idx, _),
                        mkEdge caller_idx provider_idx kind (name_tag (cd_name dep) (cd_tag dep)))
                   (List.filter
                      (λ '(_, provider),
                         node_implements (cc_config provider) (cd_name dep) (cd_tag dep))
                      (enumerate view))
             end)
          (contracts d)
        ++ flat_map
             (λ dep,
                match caller_driven !! nd_link_id dep with
                | None => []
                | Some kind =>
                    match ids !! (nd_name dep, nd_tag dep) with
                    | Some provider_idx =>
                        [mkEdge caller_idx provider_idx kind (name_tag (nd_name dep) (nd_tag dep))]
                    | None => []
                    end
                end)
             (nodes d)
    end.

Definition build_caller_driven_edges (view : list CycleCheckNode)
    (ids : gmap (string * string) nat) : list Edge :=
  flat_map (λ '(caller_idx, caller), caller_edges view ids caller_idx caller) (enumerate view).

(** ** Components *)

(** [Iterator::min_by_key]: the first of the least elements. *)
Definition min_by_key {A} (key : A → string * string) (l : list A) : option A :=
  fold_left
    (λ best x,
       match best with
       | None => Some x
       | Some b => if pair_lt (key x) (key b) then Some x else best
       end)
    l None.

Definition cycle_from_component (members : list nat) (edges : list Edge)
    (view : list CycleCheckNode) : option ServiceActionCycle :=
  let self_edge :=
    match members with
    | [m] => existsb (λ e, (edge_from e =? m) && (edge_to e =? m)) edges
    | _ => true
    end in
  if negb self_edge then None
  else
    let internal :=
      List.filter
        (λ e, bool_decide (edge_from e ∈ members) && bool_decide (edge_to e ∈ members)) edges in
    match min_by_key (λ e, (label_of view (edge_from e), label_of view (edge_to e))) internal with
    | None => None
    | Some closing =>
        Some (mkServiceActionCycle
                (merge_sort String.le (map (label_of view) members))
                (edge_label closing) (edge_kind closing))
    end.

Definition find_service_action_cycle `{Tarjan} (view : list CycleCheckNode) :
    option ServiceActionCycle :=
  let edges := build_caller_driven_edges view (identity_to_index view) in
  first_some (λ members, cycle_from_component members edges view)
    (tarjan_scc (length view) (map (λ e, (edge_from e, edge_to e)) edges)).

(** ** What a call is *)

Definition caller_driven (i : Interfaces) (link_id : string) : Prop :=
  (∃ c, c ∈ consumed_services i ∧ ce_link_id c = link_id) ∨
  (∃ c, c ∈ consumed_actions i ∧ ce_link_id c = link_id).

(** One node may invoke another. *)
Definition node_calls (caller provider : CycleCheckNode) : Prop :=
  ∃ d, depends_on (manifest (cc_config caller)) = Some d ∧
    ((∃ dep, dep ∈ contracts d ∧
        caller_driven (interfaces (cc_config caller)) (cd_link_id dep) ∧
        node_implements (cc_config provider) (cd_name dep) (cd_tag dep) = true) ∨
     (∃ dep, dep ∈ nodes d ∧
        caller_driven (interfaces (cc_config caller)) (nd_link_id dep) ∧
        cc_name provider = nd_name dep ∧ cc_tag provider = nd_tag dep)).

(** The node at [i] may invoke the node at [j]. *)
Definition calls (view : list CycleCheckNode) (i j : nat) : Prop :=
  ∃ caller provider,
    view !! i = Some caller ∧ view !! j = Some provider ∧ node_calls caller provider.

(** The calls among a set of nodes. *)
Definition member_calls (view : list CycleCheckNode) (a b : CycleCheckNode) : Prop :=
  a ∈ view ∧ b ∈ view ∧ node_calls a b.

(** No identity is in the view twice. *)
Definition distinct_identities (view : list CycleCheckNode) : Prop :=
  NoDup (map (λ n, (cc_name n, cc_tag n)) view).

(** ** The edges are the calls *)

Lemma elem_of_zip_seq {A} (l : list A) k i x :
  (i, x) ∈ zip (seq k (length l)) l ↔ k ≤ i ∧ l !! (i - k) = Some x.
Proof.
  revert k. induction l as [|y l IH]; intros k; simpl.
  { rewrite elem_of_nil, lookup_nil. naive_solver. }
  rewrite elem_of_cons, IH. split.
  - intros [?|[? ?]]; simplify_eq; [by rewrite Nat.sub_diag|].
    split; [lia|]. replace (i - k) with (S (i - S k)) by lia. done.
  - intros [? Hl]. destruct (decide (i = k)) as [->|].
    + left. rewrite Nat.sub_diag in Hl. by simplify_eq/=.
    + right. split; [lia|]. by replace (i - k) with (S (i - S k)) in Hl by lia.
Qed.

Lemma elem_of_enumerate {A} (l : list A) i x : (i, x) ∈ enumerate l ↔ l !! i = Some x.
Proof.
  unfold enumerate. rewrite elem_of_zip_seq, Nat.sub_0_r. intuition lia.
Qed.

Lemma services_link_ids (l : list (ConsumedEntry ServiceRefinement)) (m : gmap string InterfaceKind) k :
  is_Some (fold_left (λ m c, <[ce_link_id c := KService]> m) l m !! k) ↔
  is_Some (m !! k) ∨ ∃ c, c ∈ l ∧ ce_link_id c = k.
Proof.
  revert m. induction l as [|c l IH]; intros m; simpl; [set_solver|].
  rewrite IH, lookup_insert_is_Some. setoid_rewrite elem_of_cons.
  destruct (decide (ce_link_id c = k)); naive_solver.
Qed.

Lemma actions_link_ids (l : list (ConsumedEntry ActionRefinement)) (m : gmap string InterfaceKind) k :
  is_Some
    (fold_left
       (λ m c, match m !! ce_link_id c with Some _ => m | None => <[ce_link_id c := KAction]> m end)
       l m !! k) ↔
  is_Some (m !! k) ∨ ∃ c, c ∈ l ∧ ce_link_id c = k.
Proof.
  revert m. induction l as [|c l IH]; intros m; cbn [fold_left]; [set_solver|].
  rewrite IH. setoid_rewrite elem_of_cons.
  destruct (m !! ce_link_id c) eqn:E; [|rewrite lookup_insert_is_Some];
    destruct (decide (ce_link_id c = k)); subst; rewrite ?E; naive_solver.
Qed.

Lemma caller_driven_link_ids_spec i link_id :
  is_Some (caller_driven_link_ids i !! link_id) ↔ caller_driven i link_id.
Proof.
  unfold caller_driven_link_ids, caller_driven. cbn zeta.
  rewrite actions_link_ids, services_link_ids, lookup_empty.
  split; [intros [[[? ?]|?]|?]; naive_solver|naive_solver].
Qed.

Lemma identity_fold_lookup (l : list (nat * CycleCheckNode)) (m : gmap (string * string) nat) key j :
  NoDup (map (λ p, (cc_name p.2, cc_tag p.2)) l) →
  fold_left (λ m '(idx, node), <[(cc_name node, cc_tag node) := idx]> m) l m !! key = Some j ↔
  (∃ node, (j, node) ∈ l ∧ (cc_name node, cc_tag node) = key) ∨
  (m !! key = Some j ∧ key ∉ map (λ p, (cc_name p.2, cc_tag p.2)) l).
Proof.
  revert m. induction l as [|[i node] l IH]; intros m; cbn [map fold_left].
  { intros _. rewrite elem_of_nil. setoid_rewrite elem_of_nil. naive_solver. }
  intros [Hn Hl]%NoDup_cons. rewrite IH by done. setoid_rewrite elem_of_cons.
  rewrite lookup_insert. cbn [snd] in *.
  assert (Hout : ∀ i' n', (i', n') ∈ l → (cc_name n', cc_tag n') ≠ (cc_name node, cc_tag node)).
  { intros i' n' Hin Heq. apply Hn. rewrite elem_of_map. exists (i', n'). by rewrite <-Heq. }
  case_decide as E.
  - subst key. split.
    + intros [(n & ? & ?)|[? _]]; [by left; exists n; auto|]. simplify_eq. left. eauto.
    + intros [(n & [?|?] & Hk)|[_ Hk]]; [simplify_eq; by right|left; by exists n|].
      destruct Hk. by left.
  - split.
    + intros [(n & ? & ?)|[? Hk]]; [by left; exists n; auto|]. right. split; [done|].
      by intros [?|?].
    + intros [(n & [?|?] & Hk)|[? Hk]]; [by simplify_eq|left; by exists n|right; auto].
Qed.

Lemma map_enumerate {A B} (f : A → B) (l : list A) : map (λ p, f p.2) (enumerate l) = map f l.
Proof.
  unfold enumerate. generalize 0. induction l as [|x l IH]; intros k; simpl; [done|].
  by rewrite IH.
Qed.

Lemma identity_to_index_spec view name tag j :
  distinct_identities view →
  identity_to_index view !! (name, tag) = Some j ↔
  ∃ node, view !! j = Some node ∧ cc_name node = name ∧ cc_tag node = tag.
Proof.
  intros Hd. unfold identity_to_index. rewrite identity_fold_lookup.
  - setoid_rewrite elem_of_enumerate. rewrite lookup_empty. naive_solver.
  - by rewrite (map_enumerate (λ n, (cc_name n, cc_tag n))).
Qed.

Lemma caller_edges_spec view i j caller :
  distinct_identities view → view !! i = Some caller →
  (∃ e, e ∈ caller_edges view (identity_to_index view) i caller ∧ edge_from e = i ∧ edge_to e = j) ↔
  calls view i j.
Proof.
  intros Hd Hi. unfold caller_edges, calls, node_calls.
  set (links := caller_driven_link_ids (interfaces (cc_config caller))).
  assert (Hlinks : ∀ k, is_Some (links !! k) ↔ caller_driven (interfaces (cc_config caller)) k)
    by apply caller_driven_link_ids_spec.
  case_decide as He.
  { split; [by intros (? & ?%elem_of_nil & _)|].
    intros (caller' & p & ? & _ & d & _ & Hc). simplify_eq.
    destruct Hc as [(dep & _ & Hk & _)|(dep & _ & Hk & _)]; apply Hlinks in Hk;
      rewrite He, lookup_empty in Hk; by destruct Hk. }
  destruct (depends_on (manifest (cc_config caller))) as [d|] eqn:Ed.
  2:{ split; [by intros (? & ?%elem_of_nil & _)|]. intros (? & ? & ? & _ & ? & ? & _). congruence. }
  split.
  - intros (e & He' & <- & <-). apply elem_of_app in He' as [He'|He'];
      apply elem_of_flat_map in He' as (dep & Hdep & He').
    + destruct (links !! cd_link_id dep) as [kind|] eqn:Ek; [|by apply elem_of_nil in He'].
      apply elem_of_map in He' as ([pi p] & -> & [Hp%elem_of_enumerate ?]%elem_of_retain).
      exists caller, p. split; [done|]. split; [done|]. exists d. split; [done|]. left. exists dep.
      split_and!; [done| |done]. apply Hlinks. eauto.
    + destruct (links !! nd_link_id dep) as [kind|] eqn:Ek; [|by apply elem_of_nil in He'].
      destruct (identity_to_index view !! _) as [pi|] eqn:Ep; [|by apply elem_of_nil in He'].
      apply elem_of_cons in He' as [->|?%elem_of_nil]; [|done].
      apply identity_to_index_spec in Ep as (p & ? & ? & ?); [|done].
      exists caller, p. split; [done|]. split; [done|]. exists d. split; [done|]. right. exists dep.
      split_and!; [done| |done..]. apply Hlinks. eauto.
  - intros (caller' & p & ? & Hj & d' & ? & Hc). simplify_eq.
    destruct Hc as [(dep & Hdep & Hk & Hp)|(dep & Hdep & Hk & Hn & Ht)]; apply Hlinks in Hk as [kind Hk].
    + exists (mkEdge i j kind (name_tag (cd_name dep) (cd_tag dep))). split; [|done].
      apply elem_of_app. left. apply elem_of_flat_map. exists dep. split; [done|].
      rewrite Hk. apply elem_of_map. exists (j, p). split; [done|].
      apply elem_of_retain. by rewrite elem_of_enumerate.
    + exists (mkEdge i j kind (name_tag (nd_name dep) (nd_tag dep))). split; [|done].
      apply elem_of_app. right. apply elem_of_flat_map. exists dep. split; [done|].
      rewrite Hk. rewrite (proj2 (identity_to_index_spec view (nd_name dep) (nd_tag dep) j Hd));
        [set_solver|eauto].
Qed.

(** The pairs handed to [tarjan_scc]. *)
Definition edge_pairs (view : list CycleCheckNode) : list (nat * nat) :=
  map (λ e, (edge_from e, edge_to e)) (build_caller_driven_edges view (identity_to_index view)).

Lemma caller_edges_from view ids i caller e :
  e ∈ caller_edges view ids i caller → edge_from e = i.
Proof.
  unfold caller_edges. case_decide; [by intros ?%elem_of_nil|].
  destruct (depends_on _) as [d|]; [|by intros ?%elem_of_nil].
  rewrite elem_of_app, !elem_of_flat_map. intros [(dep & _ & He)|(dep & _ & He)].
  - destruct (_ !! _); [|by apply elem_of_nil in He].
    by apply elem_of_map in He as ([??] & -> & _).
  - destruct (_ !! nd_link_id dep); [|by apply elem_of_nil in He].
    destruct (ids !! _); set_solver.
Qed.

Lemma edge_pairs_calls view i j :
  distinct_identities view → edge_in (edge_pairs view) i j ↔ calls view i j.
Proof.
  intros Hd. unfold edge_in, edge_pairs, build_caller_driven_edges. rewrite elem_of_map.
  setoid_rewrite elem_of_flat_map. split.
  - intros (e & He0 & p & Hk & He). destruct p as [k caller].
    apply elem_of_enumerate in Hk. simplify_eq.
    assert (Hf := caller_edges_from _ _ _ _ _ He). subst k.
    apply (caller_edges_spec _ _ _ caller); eauto.
  - intros Hc. assert (Hc' := Hc). destruct Hc' as (caller & _ & Hi & _).
    pose proof (proj2 (caller_edges_spec view i j caller Hd Hi) Hc) as (e & He & Hf & Ht).
    exists e. split; [congruence|]. exists (i, caller). by rewrite elem_of_enumerate.
Qed.

Lemma calls_within view i j : calls view i j → i < length view ∧ j < length view.
Proof. intros (? & ? & ?%lookup_lt_Some & ?%lookup_lt_Some & _). done. Qed.

Lemma caller_driven_edges_within view :
  distinct_identities view → edges_within (length view) (edge_pairs view).
Proof. intros Hd a b Hab. by apply calls_within, edge_pairs_calls. Qed.

(** ** Components with a cycle *)

Lemma min_by_key_fold {A} (key : A → string * string) l b :
  fold_left (λ best x, match best with
                       | None => Some x
                       | Some b => if pair_lt (key x) (key b) then Some x else best
                       end) l (Some b) = None → False.
Proof.
  revert b. induction l as [|x l IH]; intros b; cbn [fold_left]; [done|].
  destruct (pair_lt _ _); apply IH.
Qed.

Lemma min_by_key_None {A} (key : A → string * string) l : min_by_key key l = None ↔ l = [].
Proof.
  destruct l as [|x l]; [done|]. unfold min_by_key. cbn [fold_left].
  split; [by intros ?%min_by_key_fold|done].
Qed.

Lemma min_by_key_elem {A} (key : A → string * string) l x : min_by_key key l = Some x → x ∈ l.
Proof.
  unfold min_by_key. assert (H : ∀ best, (∀ b, best = Some b → b ∈ l) →
    ∀ l', l' ⊆ l → fold_left (λ best x, match best with
                       | None => Some x
                       | Some b => if pair_lt (key x) (key b) then Some x else best
                       end) l' best = Some x → x ∈ l); [|by apply H].
  intros best Hb l'. revert best Hb.
  induction l' as [|y l' IH]; intros best Hb Hsub; cbn [fold_left]; [by apply Hb|].
  apply IH; [|set_solver]. intros b. destruct best as [b0|]; [destruct (pair_lt _ _)|];
    intros; simplify_eq; set_solver.
Qed.

Section finder.
Context `{TarjanLaws}.
Context (view : list CycleCheckNode) (Hd : distinct_identities view).

Let edges : list Edge := build_caller_driven_edges view (identity_to_index view).

Lemma edges_elem i j :
  calls view i j ↔ ∃ e, e ∈ edges ∧ edge_from e = i ∧ edge_to e = j.
Proof.
  rewrite <-edge_pairs_calls by done. unfold edge_in, edge_pairs. rewrite elem_of_map.
  split; [intros (e & ? & ?); simplify_eq; eauto|]. intros (e & ? & <- & <-). eauto.
Qed.

Lemma rtc_calls a b : rtc (edge_in (edge_pairs view)) a b ↔ rtc (calls view) a b.
Proof.
  split; apply (rtc_congruence id); intros ??; by apply edge_pairs_calls.
Qed.

(** The members of a component are mutually reachable through calls. *)
Lemma component_mutual c a b :
  c ∈ tarjan_scc (length view) (edge_pairs view) → a ∈ c →
  b ∈ c ↔ rtc (calls view) a b ∧ rtc (calls view) b a.
Proof.
  intros Hc Ha. rewrite <-!rtc_calls.
  apply (scc_mutual (length view)); [by apply caller_driven_edges_within|done..].
Qed.

Lemma edge_internal (c : list nat) e :
  e ∈ List.filter
        (λ e, bool_decide (edge_from e ∈ c) && bool_decide (edge_to e ∈ c)) edges ↔
  e ∈ edges ∧ edge_from e ∈ c ∧ edge_to e ∈ c.
Proof. by rewrite elem_of_retain, andb_true_iff, !bool_decide_eq_true. Qed.

(** A reported component has an edge inside it that closes a cycle. *)
Lemma component_sound c cycle :
  c ∈ tarjan_scc (length view) (edge_pairs view) →
  cycle_from_component c edges view = Some cycle →
  ∃ e, e ∈ edges ∧ edge_from e ∈ c ∧ edge_to e ∈ c ∧
    cycle = mkServiceActionCycle (merge_sort String.le (map (label_of view) c))
              (edge_label e) (edge_kind e).
Proof.
  intros Hc. unfold cycle_from_component. destruct (negb _); [done|].
  destruct (min_by_key _ _) as [e|] eqn:Emin; [|done]. intros ?. simplify_eq.
  apply min_by_key_elem, edge_internal in Emin. naive_solver.
Qed.

(** A component whose members lie on a cycle is reported. *)
Lemma component_complete c a :
  c ∈ tarjan_scc (length view) (edge_pairs view) → a ∈ c → tc (calls view) a a →
  ∃ cycle, cycle_from_component c edges view = Some cycle.
Proof.
  intros Hc Ha Hcycle.
  assert (∃ b, calls view a b ∧ rtc (calls view) b a) as (b & Hab & Hba).
  { inversion Hcycle as [??|? b ?]; subst; [by exists a; auto using rtc_refl|].
    exists b. auto using tc_rtc. }
  assert (Hb : b ∈ c) by (apply (component_mutual c a); auto using rtc_once).
  destruct (proj1 (edges_elem a b) Hab) as (e & He & Hf & Ht).
  unfold cycle_from_component.
  replace (match c with [m] => existsb (λ e, (edge_from e =? m) && (edge_to e =? m)) edges
           | _ => true end) with true; cbn [negb].
  - destruct (min_by_key _ _) eqn:Emin; [eauto|].
    apply min_by_key_None in Emin. exfalso. apply (not_elem_of_nil e). rewrite <-Emin.
    apply edge_internal. by rewrite Hf, Ht.
  - destruct c as [|m [|? ?]]; [done| |done]. symmetry. apply existsb_exists. exists e.
    rewrite <-list_elem_of_In, andb_true_iff, !Nat.eqb_eq. set_solver.
Qed.

Lemma find_service_action_cycle_None :
  find_service_action_cycle view = None ↔ ∀ i, ¬ tc (calls view) i i.
Proof.
  unfold find_service_action_cycle. cbn zeta. fold edges. fold (edge_pairs view).
  rewrite first_some_None. split.
  - intros Hnone i Hi.
    assert (Hlt : i < length view).
    { inversion Hi as [?? Hc|??? Hc]; subst; by apply calls_within in Hc as [? _]. }
    apply (scc_cover _ (edge_pairs view)) in Hlt as (c & Hc & Hic);
      [|by apply caller_driven_edges_within].
    destruct (component_complete c i Hc Hic Hi) as [cycle Hcycle].
    by rewrite (Hnone c Hc) in Hcycle.
  - intros Hacyclic c Hc. destruct (cycle_from_component _ _ _) as [cycle|] eqn:E; [|done].
    destruct (component_sound c cycle Hc E) as (e & He & Hf & Ht & _).
    destruct (Hacyclic (edge_from e)). eapply tc_rtc_r.
    + constructor. apply edges_elem. eauto.
    + by apply (component_mutual c (edge_to e)).
Qed.
End finder.

(** ** Cycles without positions *)

Lemma calls_members view i j a b :
  view !! i = Some a → view !! j = Some b → tc (calls view) i j → tc (member_calls view) a b.
Proof.
  intros Hi Hj Htc. revert a Hi.
  assert (Hone : ∀ i j a b, view !! i = Some a → view !! j = Some b → calls view i j →
    member_calls view a b).
  { intros i' j' a b' Hi Hj' (x & y & ? & ? & ?). simplify_eq.
    split; [by eapply list_elem_of_lookup_2|]. split; [by eapply list_elem_of_lookup_2|done]. }
  induction Htc as [i j Hij|i k j Hik Hkj IH]; intros a Hi.
  - constructor. by eapply Hone.
  - assert (Hik' := Hik). destruct Hik' as (_ & c & _ & Hk & _).
    eapply tc_l; [by eapply Hone|]. by apply IH.
Qed.

Lemma members_calls view a b :
  tc (member_calls view) a b →
  ∀ i j, view !! i = Some a → view !! j = Some b → tc (calls view) i j.
Proof.
  induction 1 as [a b Hab|a c b Hac Hcb IH]; intros i j Hi Hj.
  - destruct Hab as (_ & _ & ?). constructor. by exists a, b.
  - destruct Hac as (_ & Hc & ?). apply list_elem_of_lookup in Hc as [k Hk].
    eapply tc_l; [by exists a, c|by apply IH].
Qed.

Lemma member_calls_in view a b : tc (member_calls view) a b → a ∈ view.
Proof. by destruct 1 as [?? (? & _)|??? (? & _)]. Qed.

Lemma acyclic_members view :
  (∀ i, ¬ tc (calls view) i i) ↔ ∀ a, ¬ tc (member_calls view) a a.
Proof.
  split.
  - intros Hi a Ha. destruct (proj1 (list_elem_of_lookup view a) (member_calls_in _ _ _ Ha)) as [i Hl].
    apply (Hi i). by eapply members_calls.
  - intros Ha i Hi.
    assert (∃ a, view !! i = Some a) as [a Hl].
    { apply lookup_lt_is_Some. inversion Hi as [?? Hc|??? Hc]; subst; by apply calls_within in Hc as [? _]. }
    apply (Ha a). by eapply calls_members.
Qed.

(** Only which nodes are in the set matters. *)
Lemma member_calls_ext view view' a b :
  (∀ n, n ∈ view → n ∈ view') → tc (member_calls view) a b → tc (member_calls view') a b.
Proof.
  intros Hsub. apply (tc_congruence id). intros x y (? & ? & ?). split; auto.
Qed.

(** C33: the finder lets a set of nodes through exactly when no node can reach
    itself through service and action calls, contracts resolved to every node
    that implements them. *)
Theorem cycle_check_exact `{TarjanLaws} (view : list CycleCheckNode)
    (Hd : distinct_identities view) :
  find_service_action_cycle view = None ↔ ∀ i, ¬ tc (calls view) i i.
Proof. by apply find_service_action_cycle_None. Qed.

(** A reported cycle names, in order, the labels of nodes that can all
    reach each other through calls, and the dependency of a call between two
    of them. *)
Lemma cycle_report_sound `{TarjanLaws} (view : list CycleCheckNode) (cycle : ServiceActionCycle)
    (Hd : distinct_identities view) (Hfind : find_service_action_cycle view = Some cycle) :
  ∃ members e,
    NoDup members ∧ cycle_nodes cycle ≡ₚ map (label_of view) members ∧
    Sorted String.le (cycle_nodes cycle) ∧
    (∀ a b, a ∈ members → b ∈ members → tc (calls view) a b) ∧
    e ∈ build_caller_driven_edges view (identity_to_index view) ∧
    edge_from e ∈ members ∧ edge_to e ∈ members ∧
    closing_dependency cycle = edge_label e ∧ cycle_kind cycle = edge_kind e.
Proof.
  apply first_some_Some in Hfind as (c & Hc & Hcycle). fold (edge_pairs view) in Hc.
  pose proof (caller_driven_edges_within view Hd) as Hw.
  destruct (component_sound view c cycle Hc Hcycle) as (e & He & Hf & Ht & ->).
  assert (Hmut := λ a b, component_mutual view Hd c a b Hc).
  exists c, e. cbn [cycle_nodes closing_dependency cycle_kind].
  split_and!; [by eapply scc_NoDup|apply merge_sort_Permutation| | |done..].
  - apply (Sorted_merge_sort String.le).
  - intros a b Ha Hb. eapply tc_rtc_l; [by apply (Hmut a (edge_from e))|].
    eapply tc_rtc_r; [constructor; apply edges_elem; eauto|].
    by apply (Hmut (edge_to e) b).
Qed.

(** A node that implements one contract and calls a service of another. *)
Definition example_caller (name implemented called : string) : CycleCheckNode :=
  mkCycleCheckNode name "v1"
    (mkNodeConfig
       (mkManifest name "v1" [] None [mkImplementsEntry implemented "v1" "own" None]
          (Some (mkDependsOn [] [mkContractDependency called "v1" "peer" None One] [] [] [])))
       (mkInterfaces None
          (Some (mkServiceInterfaces None (Some [mkConsumedEntry "peer" "ask" None]))) None)
       (mkExecution Rust None None None [] None false) (mkNodeFramework None)).

Definition example_ring : list CycleCheckNode :=
  [example_caller "beta" "b" "a"; example_caller "alpha" "a" "b"].

Lemma example_ring_distinct : distinct_identities example_ring.
Proof. apply (bool_decide_unpack _). vm_compute. exact I. Qed.

Lemma cycle_check_exact_witness :
  ¬ (∀ i, ¬ tc (calls example_ring) i i) ∧
  ∀ i, ¬ tc (calls [example_caller "beta" "b" "a"]) i i.
Proof.
  split.
  - rewrite <-(cycle_check_exact example_ring example_ring_distinct). vm_compute. discriminate.
  - apply (cycle_check_exact [example_caller "beta" "b" "a"]).
    + apply (bool_decide_unpack _). vm_compute. exact I.
    + vm_compute. reflexivity.
Defined.
