(* ===== verification/PairingRegistry.v ===== *)
(** * The pairing registry

    [crates/node-stack-internal/src/node_stack/pairing.rs]: slot addresses,
    planned and established pairs, and the registry the stack keeps them in.
    The registry is the [Vec] of pairs in the order they were committed. *)

From S2P Require Import Prelude Names Config.

(** ** Data *)

Record SlotAddr : Type := mkSlotAddr {
  slot_core_node : string;
  slot_instance_id : string;
  slot_link_id : string;
}.

#[export] Instance SlotAddr_eq_dec : EqDecision SlotAddr.
Proof. solve_decision. Defined.

Definition is_on (s : SlotAddr) (core_node : string) : bool :=
  bool_decide (slot_core_node s = core_node).

Definition SlotAddr_to_string (s : SlotAddr) : string :=
  slot_core_node s +:+ "/" +:+ slot_instance_id s +:+ ":" +:+ slot_link_id s.

Record RemoteSlotMeta : Type := mkRemoteSlotMeta {
  rm_pairing_name : string;
  rm_pairing_tag : string;
  rm_role : string;
  rm_cardinality : Cardinality;
  rm_copy : option string;
}.

#[export] Instance RemoteSlotMeta_eq_dec : EqDecision RemoteSlotMeta.
Proof. solve_decision. Defined.

Record PlannedPair : Type := mkPlannedPair {
  own : SlotAddr;
  peer : SlotAddr;
  peer_remote_meta : option RemoteSlotMeta;
}.

#[export] Instance PlannedPair_eq_dec : EqDecision PlannedPair.
Proof. solve_decision. Defined.

Definition mirrored (p : PlannedPair) : PlannedPair := mkPlannedPair (peer p) (own p) None.

Definition local_ends (p : PlannedPair) : list PlannedPair :=
  match peer_remote_meta p with
  | Some _ => [p]
  | None => [p; mirrored p]
  end.

Record PairEndpoint : Type := mkPairEndpoint {
  ep_slot : SlotAddr;
  ep_role : string;
  ep_copy : option string;
}.

#[export] Instance PairEndpoint_eq_dec : EqDecision PairEndpoint.
Proof. solve_decision. Defined.

Record Pairing : Type := mkPairing {
  pairing_name : string;
  pairing_tag : string;
  pair_a : PairEndpoint;
  pair_b : PairEndpoint;
}.

#[export] Instance Pairing_eq_dec : EqDecision Pairing.
Proof. solve_decision. Defined.

(** ** Pairs *)

Definition endpoint (p : Pairing) (slot : SlotAddr) : option PairEndpoint :=
  if decide (ep_slot (pair_a p) = slot) then Some (pair_a p)
  else if decide (ep_slot (pair_b p) = slot) then Some (pair_b p)
  else None.

Definition is_between (p : Pairing) (a b : SlotAddr) : bool :=
  opt_is_some (endpoint p a) && opt_is_some (endpoint p b).

Definition peer_of (p : Pairing) (slot : SlotAddr) : option PairEndpoint :=
  if decide (ep_slot (pair_a p) = slot) then Some (pair_b p)
  else if decide (ep_slot (pair_b p) = slot) then Some (pair_a p)
  else None.

Definition endpoint_is (core_node instance_id : string) (e : PairEndpoint) : bool :=
  bool_decide (slot_core_node (ep_slot e) = core_node)
  && bool_decide (slot_instance_id (ep_slot e) = instance_id).

Definition involves (p : Pairing) (core_node instance_id : string) : bool :=
  existsb (endpoint_is core_node instance_id) [pair_a p; pair_b p].

Definition has_live_local_endpoints (p : Pairing) (local_core_node : string)
    (is_live : string → bool) : bool :=
  forallb
    (λ e, negb (is_on (ep_slot e) local_core_node) || is_live (slot_instance_id (ep_slot e)))
    [pair_a p; pair_b p].

(** ** The registry *)

Definition PairingRegistry : Type := list Pairing.

Definition find_by_slot (r : PairingRegistry) (slot : SlotAddr) : option Pairing :=
  List.find (λ p, opt_is_some (endpoint p slot)) r.

Definition find_pair (r : PairingRegistry) (a b : SlotAddr) : option Pairing :=
  List.find (λ p, is_between p a b) r.

Definition registry_insert (r : PairingRegistry) (p : Pairing) : PairingRegistry := r ++ [p].

Definition remove_pair (r : PairingRegistry) (a b : SlotAddr) :
    option Pairing * PairingRegistry :=
  match remove_first (λ p, is_between p a b) r with
  | Some (p, r') => (Some p, r')
  | None => (None, r)
  end.

Definition remove_for_instance (r : PairingRegistry) (core_node instance_id : string) :
    list Pairing * PairingRegistry :=
  partition_list (λ p, involves p core_node instance_id) r.

Definition prune_dead (r : PairingRegistry) (local_core_node : string)
    (is_live : string → bool) : PairingRegistry :=
  retain (λ p, has_live_local_endpoints p local_core_node is_live) r.

Definition registry_clear (r : PairingRegistry) : PairingRegistry := [].

(** ** Lemmas *)

Definition slots_of (p : Pairing) : list SlotAddr := [ep_slot (pair_a p); ep_slot (pair_b p)].

Lemma endpoint_some p s : opt_is_some (endpoint p s) = true ↔ s ∈ slots_of p.
Proof.
  unfold endpoint, slots_of. rewrite !elem_of_cons. repeat case_decide; simpl; subst;
    split; auto; try congruence.
  intros [?|[?|?%elem_of_nil]]; congruence || done.
Qed.

Lemma endpoint_slot p s e : endpoint p s = Some e → ep_slot e = s ∧ (e = pair_a p ∨ e = pair_b p).
Proof. unfold endpoint. intros H. repeat case_decide; simplify_eq; auto. Qed.

Lemma find_by_slot_None r s : find_by_slot r s = None ↔ ∀ p, p ∈ r → s ∉ slots_of p.
Proof.
  unfold find_by_slot. rewrite find_None_forall. split; intros H p Hp.
  - specialize (H p Hp). rewrite <-endpoint_some. congruence.
  - apply not_true_iff_false. rewrite endpoint_some. auto.
Qed.

Lemma is_between_true p a b : is_between p a b = true ↔ a ∈ slots_of p ∧ b ∈ slots_of p.
Proof. unfold is_between. by rewrite andb_true_iff, !endpoint_some. Qed.

Lemma is_between_comm p a b : is_between p a b = is_between p b a.
Proof. unfold is_between. apply andb_comm. Qed.

Lemma find_pair_None r a b :
  find_pair r a b = None ↔ ∀ p, p ∈ r → ¬ (a ∈ slots_of p ∧ b ∈ slots_of p).
Proof.
  unfold find_pair. rewrite find_None_forall. split; intros H p Hp.
  - specialize (H p Hp). rewrite <-is_between_true. congruence.
  - apply not_true_iff_false. rewrite is_between_true. auto.
Qed.

(** Two distinct slots are between a pair exactly when each is the other's
    peer in it. *)
Lemma is_between_peers p a b :
  a ≠ b → is_between p a b = true → ep_slot <$> peer_of p a = Some b.
Proof.
  intros Hab [Ha Hb]%is_between_true. unfold slots_of, peer_of in *.
  set_unfold in Ha; set_unfold in Hb. repeat case_decide; simpl; naive_solver.
Qed.

Lemma involves_true p c i :
  involves p c i = true ↔
  ∃ s, s ∈ slots_of p ∧ slot_core_node s = c ∧ slot_instance_id s = i.
Proof.
  unfold involves, slots_of, endpoint_is. rewrite existsb_exists. split.
  - intros (e & He & [?%bool_decide_eq_true ?%bool_decide_eq_true]%andb_true_iff).
    exists (ep_slot e). split; [|done]. simpl in He. set_unfold. naive_solver.
  - intros (s & Hs & ? & ?). rewrite !elem_of_cons in Hs.
    destruct Hs as [->|[->|?%elem_of_nil]]; [| |done].
    + exists (pair_a p). split; [by left|]. rewrite !bool_decide_true by done. done.
    + exists (pair_b p). split; [by right; left|]. rewrite !bool_decide_true by done. done.
Qed.

Lemma has_live_true p c live :
  has_live_local_endpoints p c live = true ↔
  ∀ s, s ∈ slots_of p → slot_core_node s = c → live (slot_instance_id s) = true.
Proof.
  unfold has_live_local_endpoints, slots_of, is_on. simpl.
  rewrite andb_true_r, andb_true_iff, !orb_true_iff, !negb_true_iff, !bool_decide_eq_false.
  split.
  - intros [Ha Hb] s Hs Hc. rewrite !elem_of_cons in Hs.
    destruct Hs as [->|[->|?%elem_of_nil]]; [destruct Ha|destruct Hb|]; done.
  - intros H. split.
    + destruct (decide (slot_core_node (ep_slot (pair_a p)) = c)); [right|left; done].
      apply H; [set_solver|done].
    + destruct (decide (slot_core_node (ep_slot (pair_b p)) = c)); [right|left; done].
      apply H; [set_solver|done].
Qed.

(** Ending an instance takes out of the registry exactly the pairs with an
    endpoint of that instance on that daemon, in order, hands them back, and
    leaves every other pair in place, those of a same-named instance on
    another daemon included. *)
Lemma remove_for_instance_exact (r : PairingRegistry) (c i : string) (p : Pairing) :
  let '(dissolved, kept) := remove_for_instance r c i in
  r ≡ₚ dissolved ++ kept ∧
  (p ∈ dissolved ↔ p ∈ r ∧ ∃ s, s ∈ slots_of p ∧ slot_core_node s = c ∧ slot_instance_id s = i) ∧
  (p ∈ kept ↔ p ∈ r ∧ ∀ s, s ∈ slots_of p → slot_core_node s = c → slot_instance_id s ≠ i).
Proof.
  unfold remove_for_instance, partition_list. split_and!.
  - apply partition_list_perm.
  - by rewrite (elem_of_retain _ r), involves_true.
  - rewrite (elem_of_retain _ r), negb_true_iff, <-not_true_iff_false, involves_true.
    naive_solver.
Qed.

(** Reading the registry drops a pair only for an instance of this daemon
    that is not live: a pair is kept exactly when every endpoint on this daemon
    is live, so a pair between two other daemons is never judged; and a second
    read drops nothing more. *)
Lemma prune_dead_exact (r : PairingRegistry) (c : string) (live : string → bool) (p : Pairing) :
  (p ∈ prune_dead r c live ↔
   p ∈ r ∧ ∀ s, s ∈ slots_of p → slot_core_node s = c → live (slot_instance_id s) = true) ∧
  prune_dead (prune_dead r c live) c live = prune_dead r c live.
Proof.
  split.
  - unfold prune_dead. by rewrite elem_of_retain, has_live_true.
  - unfold prune_dead at 1. apply retain_all. intros q [_ ?]%elem_of_retain. done.
Qed.

(** Removing the pair between two slots. *)
Lemma remove_pair_None r a b : find_pair r a b = None → remove_pair r a b = (None, r).
Proof. unfold remove_pair, find_pair. rewrite <-remove_first_None. by intros ->. Qed.

Lemma remove_pair_Some r a b p :
  find_pair r a b = Some p →
  ∃ r', remove_pair r a b = (Some p, r') ∧ r ≡ₚ p :: r' ∧ is_between p a b = true.
Proof.
  unfold remove_pair, find_pair. intros H.
  destruct (remove_first _ r) as [[q r']|] eqn:E.
  - pose proof (remove_first_find _ _ _ _ E) as E'. rewrite H in E'. simplify_eq.
    exists r'. split; [done|]. split; [by apply remove_first_perm in E|].
    by apply find_elem_of in H as [_ ?].
  - apply remove_first_None in E. congruence.
Qed.
