(* ===== verification/Supervision.v ===== *)
(** * Supervision

    [crates/node-stack-internal/src/node_stack/supervision.rs]: what the stack
    keeps of an instance between its processes, the backoff that paces its
    restarts and what a claim, an exit and a respawn exchange; with the
    instance states and exit causes of [core-node-api/src/graph.rs] and the run
    goal of [core-node-api/src/encoding/node/run.rs].

    A [Duration], an [Instant] and a [SystemTime] are nanoseconds (see
    [Prelude]); the clocks a function reads are arguments ([now], [sysnow]).
    An [Arc] compared by [Arc::ptr_eq] is a value with the identity of its
    allocation. *)

From S2P Require Import Prelude Names RestartPolicy Config PairingRegistry.
#[local] Open Scope Z_scope.

(** ** States and exits *)

Inductive InstanceState : Type := Starting | Running | Restarting | Finished | Failed.

#[export] Instance InstanceState_eq_dec : EqDecision InstanceState.
Proof. solve_decision. Defined.

Definition has_process (s : InstanceState) : bool :=
  match s with Starting | Running => true | _ => false end.

Definition InstanceState_as_str (s : InstanceState) : string :=
  match s with
  | Starting => "starting"
  | Running => "running"
  | Restarting => "restarting"
  | Finished => "finished"
  | Failed => "failed"
  end.

Definition InstanceState_from_str (s : string) : result string InstanceState :=
  if decide (s = "starting") then Ok Starting
  else if decide (s = "running") then Ok Running
  else if decide (s = "restarting") then Ok Restarting
  else if decide (s = "finished") then Ok Finished
  else if decide (s = "failed") then Ok Failed
  else Err s.

Inductive ExitCause : Type :=
| Code (code : Z)
| Signal (number : Z) (name : option string) (core_dumped : bool)
| HealthKillCause (unanswered_secs : Z)
| Message (text : string).

#[export] Instance ExitCause_eq_dec : EqDecision ExitCause.
Proof. solve_decision. Defined.

Definition is_clean (e : ExitCause) : bool :=
  match e with Code c => c =? 0 | _ => false end.

(** [unix_ms]: 0 before the epoch, saturating at [u64::MAX]. *)
Definition unix_ms (time : Z) : Z :=
  if time <? 0 then 0 else Z.min U64_MAX (time / 1000000).

(** ** Goals *)

Inductive AnyType : Type :=
| ANull
| ABool (b : bool)
| AString (s : string)
| AArray (l : list AnyType)
| AObject (entries : list (string * AnyType))
| AInt (n : Z)
| AUInt (n : Z)
| AFloat (text : string).

Record ObservationTarget : Type := mkObservationTarget {
  ot_source : ProducerRef;
  ot_source_link_id : string;
  ot_peer : option (ProducerRef * string);
}.

#[export] Instance ObservationTarget_eq_dec : EqDecision ObservationTarget.
Proof. solve_decision. Defined.

(** An ordered set of observed pairings: what [ObservationTargets::new] lets
    through, refusing the first member that repeats an earlier one. *)
Definition ObservationTargets : Type := list ObservationTarget.

Definition ObservationTargets_new (targets : list ObservationTarget) :
    result ObservationTarget ObservationTargets :=
  match first_duplicate targets with
  | Some d => Err d
  | None => Ok targets
  end.

Record PairTarget : Type := mkPairTarget {
  pt_peer : ProducerRef;
  pt_peer_link_id : option string;
  pt_remote : option RemoteSlotMeta;
}.

Definition SlotBindings : Type := gmap string BoundProducers.

Record NodeInstancePlan : Type := mkNodeInstancePlan {
  plan_instance_id : string;
  plan_copy : option string;
  plan_arguments : gmap string AnyType;
  plan_clock : ClockBinding;
  plan_slot_bindings : SlotBindings;
  plan_daemon_scopes : gmap string AnyType;
}.

Record NodeRunGoal : Type := mkNodeRunGoal {
  instance_plan : NodeInstancePlan;
  manifest_sha256 : option string;
  goal_node_name : string;
  goal_tag : string;
  env_vars : list (string * string);
  timeout_secs : Z;
  requested_pairs : gmap string (list PairTarget);
  vacant_pairs : gmap string string;
  covered_pairs : gmap string (list PairTarget);
  planned_observations : gmap string ObservationTargets;
  launch_id : option string;
  lifecycle_watchers : list string;
  goal_restart : RestartRequest;
}.

Definition for_respawn (g : NodeRunGoal) (slot_bindings : SlotBindings)
    (observations : gmap string ObservationTargets) (watchers : list string) : NodeRunGoal :=
  mkNodeRunGoal
    (mkNodeInstancePlan
       (plan_instance_id (instance_plan g)) (plan_copy (instance_plan g))
       (plan_arguments (instance_plan g)) (plan_clock (instance_plan g))
       slot_bindings (plan_daemon_scopes (instance_plan g)))
    (manifest_sha256 g) (goal_node_name g) (goal_tag g) (env_vars g) (timeout_secs g)
    ∅ ∅ ∅ observations (launch_id g) watchers (goal_restart g).

(** An [Arc<NodeRunGoal>]: the goal and the identity of its allocation. *)
Record ArcGoal : Type := mkArcGoal {
  arc_id : nat;
  arc_goal : NodeRunGoal;
}.

Definition ptr_eq (a b : ArcGoal) : bool := (arc_id a =? arc_id b)%nat.

(** ** What a slot keeps *)

Record HealthKill : Type := mkHealthKill {
  unanswered_for : Z;
  last_answer : option Z;
}.

Record FirstStart : Type := mkFirstStart {
  fs_restart : ResolvedRestart;
  fs_goal : ArcGoal;
}.

Record Registrations : Type := mkRegistrations {
  observations : gmap string ObservationTargets;
  watchers : list string;
}.

Definition Registrations_default : Registrations := mkRegistrations ∅ [].

(** [restart_cancelled] is whether the slot's [restart_token], which is made
    with the slot and never replaced, has been cancelled. *)
Record Supervision : Type := mkSupervision {
  first_start : option FirstStart;
  health_kill : option HealthKill;
  restart_count : Z;
  attempt : Z;
  last_exit : option ExitCause;
  run_started : option Z;
  running_since : option Z;
  next_start : option Z;
  restart_cancelled : bool;
  held_pairs : list PlannedPair;
  registrations : Registrations;
}.

Definition Supervision_default : Supervision :=
  mkSupervision None None 0 0 None None None None false [] Registrations_default.

Definition set_first_start (f : option FirstStart) (s : Supervision) : Supervision :=
  mkSupervision f (health_kill s) (restart_count s) (attempt s) (last_exit s)
    (run_started s) (running_since s) (next_start s) (restart_cancelled s)
    (held_pairs s) (registrations s).
Definition set_health_kill (h : option HealthKill) (s : Supervision) : Supervision :=
  mkSupervision (first_start s) h (restart_count s) (attempt s) (last_exit s)
    (run_started s) (running_since s) (next_start s) (restart_cancelled s)
    (held_pairs s) (registrations s).
Definition set_restart_count (n : Z) (s : Supervision) : Supervision :=
  mkSupervision (first_start s) (health_kill s) n (attempt s) (last_exit s)
    (run_started s) (running_since s) (next_start s) (restart_cancelled s)
    (held_pairs s) (registrations s).
Definition set_attempt (n : Z) (s : Supervision) : Supervision :=
  mkSupervision (first_start s) (health_kill s) (restart_count s) n (last_exit s)
    (run_started s) (running_since s) (next_start s) (restart_cancelled s)
    (held_pairs s) (registrations s).
Definition set_last_exit (e : option ExitCause) (s : Supervision) : Supervision :=
  mkSupervision (first_start s) (health_kill s) (restart_count s) (attempt s) e
    (run_started s) (running_since s) (next_start s) (restart_cancelled s)
    (held_pairs s) (registrations s).
Definition set_run_started (t : option Z) (s : Supervision) : Supervision :=
  mkSupervision (first_start s) (health_kill s) (restart_count s) (attempt s) (last_exit s)
    t (running_since s) (next_start s) (restart_cancelled s)
    (held_pairs s) (registrations s).
Definition set_running_since (t : option Z) (s : Supervision) : Supervision :=
  mkSupervision (first_start s) (health_kill s) (restart_count s) (attempt s) (last_exit s)
    (run_started s) t (next_start s) (restart_cancelled s)
    (held_pairs s) (registrations s).
Definition set_next_start (t : option Z) (s : Supervision) : Supervision :=
  mkSupervision (first_start s) (health_kill s) (restart_count s) (attempt s) (last_exit s)
    (run_started s) (running_since s) t (restart_cancelled s)
    (held_pairs s) (registrations s).
Definition set_restart_cancelled (b : bool) (s : Supervision) : Supervision :=
  mkSupervision (first_start s) (health_kill s) (restart_count s) (attempt s) (last_exit s)
    (run_started s) (running_since s) (next_start s) b
    (held_pairs s) (registrations s).
Definition set_held_pairs (l : list PlannedPair) (s : Supervision) : Supervision :=
  mkSupervision (first_start s) (health_kill s) (restart_count s) (attempt s) (last_exit s)
    (run_started s) (running_since s) (next_start s) (restart_cancelled s)
    l (registrations s).
Definition set_registrations (r : Registrations) (s : Supervision) : Supervision :=
  mkSupervision (first_start s) (health_kill s) (restart_count s) (attempt s) (last_exit s)
    (run_started s) (running_since s) (next_start s) (restart_cancelled s)
    (held_pairs s) r.

(** [Supervision::restart]: [never] where no first start gives a goal. *)
Definition supervision_restart (s : Supervision) : ResolvedRestart :=
  match first_start s with
  | None => mkResolvedRestart (policy_only Never) OriginDefault
  | Some first => fs_restart first
  end.

Record RestartStatus : Type := mkRestartStatus {
  rs_restart : RestartDeclaration;
  rs_restart_origin : RestartOrigin;
  rs_restart_count : Z;
  rs_attempt : Z;
  rs_last_exit : option ExitCause;
  rs_running_since_ms : option Z;
  rs_next_start_ms : option Z;
}.

Definition supervision_status (s : Supervision) : RestartStatus :=
  let restart := supervision_restart s in
  mkRestartStatus (declaration restart) (origin restart) (restart_count s) (attempt s)
    (last_exit s) (unix_ms <$> running_since s) (unix_ms <$> next_start s).

(** ** The backoff *)

Record RestartBackoff : Type := mkRestartBackoff {
  first_delay : Z;
  max_delay : Z;
  reset_after : Z;
}.

Record NextAttempt : Type := mkNextAttempt {
  na_attempt : Z;
  na_delay : Z;
}.

(** [RestartBackoff::next]. [NonZeroU32::MIN] is 1. *)
Definition backoff_next (b : RestartBackoff) (previous_attempt : Z) (ran_for : option Z) :
    NextAttempt :=
  let attempt :=
    if match ran_for with Some r => reset_after b <=? r | None => false end
    then 1 else u32_saturating_add 1 previous_attempt in
  let delay :=
    match two_checked_pow (attempt - 1) with
    | None => max_delay b
    | Some multiplier => duration_saturating_mul (first_delay b) multiplier
    end in
  mkNextAttempt attempt (Z.min delay (max_delay b)).

(** What the backoff yields; the slot's token is read off the slot. *)
Inductive Attempt : Type :=
| Scheduled (attempt delay scheduled_at : Z)
| Capped (cap : Z).

(** [Supervision::advance_backoff]. *)
Definition advance_backoff (s : Supervision) (b : RestartBackoff) (ran_for : option Z)
    (now sysnow : Z) : Supervision * Attempt :=
  let n := backoff_next b (attempt s) ran_for in
  let s := set_attempt (na_attempt n) s in
  let scheduled :=
    (set_next_start (system_time_checked_add sysnow (na_delay n)) s,
     Scheduled (na_attempt n) (na_delay n) now) in
  match max_restarts (declaration (supervision_restart s)) with
  | Some cap =>
      if cap <? na_attempt n then (set_next_start None s, Capped cap) else scheduled
  | None => scheduled
  end.

(** ** What operations exchange *)

Inductive SpawnTarget : Type := NewInstance (first : FirstStart) | Respawn.

Inductive StartRun : Type :=
| RunNew (goal : ArcGoal)
| RunRespawn (goal : ArcGoal) (restarts : Z).

Record RespawnInputs : Type := mkRespawnInputs {
  ri_goal : NodeRunGoal;
  ri_held_pairs : list PlannedPair;
  ri_restart : ResolvedRestart;
  ri_first_start_goal : ArcGoal;
  ri_restart_count : Z;
  ri_previous_run_log : option string;
}.

Record ExitRecord : Type := mkExitRecord {
  er_exit : ExitCause;
  er_registrations : Registrations;
  er_next : option Attempt;
}.

Record KeptRelations : Type := mkKeptRelations {
  pair_daemons : gset string;
  kept_watchers : list string;
}.

Definition KeptRelations_of (s : Supervision) : KeptRelations :=
  mkKeptRelations
    (list_to_set
       (map (λ held, slot_core_node (peer held))
          (retain (λ held, negb (bool_decide
             (slot_core_node (peer held) = slot_core_node (own held)))) (held_pairs s))))
    (watchers (registrations s)).

Inductive SlotLeft : Type := LeftStarting (restart : bool) | RunsAnotherProcess.

Inductive SlotRemoval : Type := Removed (kept : KeptRelations) | Left (why : SlotLeft) | Untracked.

Inductive ProcessClaim : Type := Claimed | ClaimedElsewhere | Gone.

Inductive StartingClaim : Type :=
| StartingClaimed (kept : KeptRelations)
| IsFirstStart
| StartingClaimedElsewhere
| NotStarting.

Record RunningHealth : Type := mkRunningHealth { rh_running : nat; rh_healthy : nat }.

(** ** The backoff's waits *)

Definition wf_backoff (b : RestartBackoff) : Prop :=
  in_duration (first_delay b) ∧ in_duration (max_delay b).

(** The wait before the [k]-th of the attempts in a row. *)
Definition nth_delay (b : RestartBackoff) (k : Z) : Z :=
  if k <=? 32 then Z.min (max_delay b) (first_delay b * 2 ^ (k - 1)) else max_delay b.

Lemma backoff_next_delay b prev ran_for :
  wf_backoff b → 0 ≤ prev →
  na_delay (backoff_next b prev ran_for) = nth_delay b (na_attempt (backoff_next b prev ran_for)).
Proof.
  intros [[? ?] [? ?]] Hp. unfold backoff_next, nth_delay, two_checked_pow. simpl.
  set (k := if match ran_for with Some r => reset_after b <=? r | None => false end
            then 1 else u32_saturating_add 1 prev).
  assert (1 ≤ k).
  { subst k. case_match; [lia|]. unfold u32_saturating_add, U32_MAX. lia. }
  clearbody k. destruct (k - 1 <? 32) eqn:E, (k <=? 32) eqn:E'; try lia.
  unfold duration_saturating_mul. generalize (first_delay b * 2 ^ (k - 1)). intros. lia.
Qed.

Lemma nth_delay_bounds b k : wf_backoff b → 1 ≤ k → 0 ≤ nth_delay b k ≤ max_delay b.
Proof.
  intros [[? ?] [? ?]] Hk. unfold nth_delay. destruct (k <=? 32); [|lia].
  assert (0 ≤ first_delay b * 2 ^ (k - 1)) by (apply Z.mul_nonneg_nonneg; lia). lia.
Qed.

Lemma nth_delay_mono b j k : wf_backoff b → 1 ≤ j ≤ k → nth_delay b j ≤ nth_delay b k.
Proof.
  intros Hb Hj. destruct (Z.leb_spec k 32) as [Hk|Hk].
  - unfold nth_delay. destruct Hb as [[? ?] [? ?]].
    rewrite (proj2 (Z.leb_le j 32)), (proj2 (Z.leb_le k 32)) by lia.
    apply Z.min_le_compat_l. apply Z.mul_le_mono_nonneg_l; [done|].
    apply Z.pow_le_mono_r; lia.
  - unfold nth_delay at 2. rewrite (proj2 (Z.leb_gt k 32)) by lia.
    apply nth_delay_bounds; [done|lia].
Qed.

(** [n] ends in a row of processes that never ran for the reset window: the
    attempts the backoff yields, in order. *)
Fixpoint advances (s : Supervision) (b : RestartBackoff) (ends : list (option Z * Z * Z)) :
    list Attempt :=
  match ends with
  | [] => []
  | (ran_for, now, sysnow) :: ends =>
      let '(s', a) := advance_backoff s b ran_for now sysnow in
      a :: advances s' b ends
  end.

Definition short_run (b : RestartBackoff) (e : option Z * Z * Z) : Prop :=
  match e.1.1 with Some r => r < reset_after b | None => True end.

Lemma backoff_next_short b prev ran_for now sysnow :
  short_run b (ran_for, now, sysnow) →
  na_attempt (backoff_next b prev ran_for) = u32_saturating_add 1 prev.
Proof.
  unfold short_run, backoff_next. simpl. destruct ran_for as [r|]; [|done].
  intros H. by rewrite (proj2 (Z.leb_gt _ _)) by lia.
Qed.

Lemma advance_backoff_keeps s b ran_for now sysnow :
  let s' := (advance_backoff s b ran_for now sysnow).1 in
  first_start s' = first_start s ∧ attempt s' = na_attempt (backoff_next b (attempt s) ran_for).
Proof. unfold advance_backoff. by repeat case_match. Qed.

Lemma advance_keeps_restart s b ran_for now sysnow :
  supervision_restart (advance_backoff s b ran_for now sysnow).1 = supervision_restart s.
Proof.
  unfold supervision_restart. by destruct (advance_backoff_keeps s b ran_for now sysnow) as [-> _].
Qed.

(** The waits between an instance's starts double from the first delay up
    to the longest one, never shrink while starts keep failing, never exceed
    the longest wait, and are the longest wait from the 33rd attempt in a row
    on; a run of the reset window starts over at the first delay. *)
Lemma backoff_waits (b : RestartBackoff) (prev : Z) (ran_for : option Z) :
  wf_backoff b → in_u32 prev →
  let n := backoff_next b prev ran_for in
  1 ≤ na_attempt n ≤ U32_MAX ∧
  0 ≤ na_delay n ≤ max_delay b ∧
  (na_attempt n ≤ 32 → na_delay n = Z.min (max_delay b) (first_delay b * 2 ^ (na_attempt n - 1))) ∧
  (32 < na_attempt n → na_delay n = max_delay b) ∧
  na_delay n ≤ na_delay (backoff_next b (na_attempt n) None) ∧
  (∀ r, ran_for = Some r → reset_after b ≤ r →
   na_attempt n = 1 ∧ na_delay n = Z.min (max_delay b) (first_delay b)).
Proof.
  intros Hb [Hp Hp'] n.
  assert (1 ≤ na_attempt n ≤ U32_MAX) as Hn.
  { subst n. unfold backoff_next. simpl. case_match.
    - unfold U32_MAX. lia.
    - unfold u32_saturating_add, U32_MAX in *. lia. }
  assert (na_delay n = nth_delay b (na_attempt n)) as Hd by (by apply backoff_next_delay).
  split_and!; [apply Hn|apply Hn|..].
  - rewrite Hd. apply nth_delay_bounds; [done|lia].
  - rewrite Hd. apply nth_delay_bounds; [done|lia].
  - intros H. rewrite Hd. unfold nth_delay. by rewrite (proj2 (Z.leb_le _ _)).
  - intros H. rewrite Hd. unfold nth_delay. by rewrite (proj2 (Z.leb_gt _ _)).
  - rewrite Hd, backoff_next_delay by (done || lia). apply nth_delay_mono; [done|].
    rewrite (backoff_next_short b _ None 0 0) by done.
    unfold u32_saturating_add, U32_MAX in *. lia.
  - intros r -> Hr. assert (na_attempt n = 1) as H1.
    { subst n. unfold backoff_next. simpl. by rewrite (proj2 (Z.leb_le _ _)). }
    rewrite Hd, H1. split; [done|]. unfold nth_delay. simpl. by rewrite Z.mul_1_r.
Qed.

Lemma backoff_waits_witness :
  na_delay (backoff_next (mkRestartBackoff 1 60 100) 3 None) = 8.
Proof.
  destruct (backoff_waits (mkRestartBackoff 1 60 100) 3 None) as (_ & _ & H & _).
  - split; unfold in_duration, DURATION_MAX, NANOS_PER_SEC; simpl; lia.
  - unfold in_u32, U32_MAX. lia.
  - rewrite H; [reflexivity|]. vm_compute. congruence.
Defined.

Lemma advance_backoff_capped s b ran_for now sysnow cap :
  max_restarts (declaration (supervision_restart s)) = Some cap →
  (advance_backoff s b ran_for now sysnow).2 =
  let n := backoff_next b (attempt s) ran_for in
  if cap <? na_attempt n then Capped cap else Scheduled (na_attempt n) (na_delay n) now.
Proof.
  intros H. unfold advance_backoff.
  change (supervision_restart (set_attempt _ s)) with (supervision_restart s).
  rewrite H. cbn zeta. by case_match.
Qed.

(** The attempts yielded while nothing runs for the reset window. *)
Lemma advances_nth s b ends i e :
  Forall (short_run b) ends → in_u32 (attempt s) → ends !! i = Some e →
  ∃ s', supervision_restart s' = supervision_restart s ∧
    attempt s' = Z.min U32_MAX (attempt s + Z.of_nat i) ∧
    advances s b ends !! i = Some (advance_backoff s' b e.1.1 e.1.2 e.2).2.
Proof.
  intros H. revert s i. induction H as [|[[r n] sn] ends Hr H IH]; intros s i Ha Hi; [done|].
  simpl. destruct (advance_backoff s b r n sn) as [s1 a] eqn:E.
  pose proof (advance_backoff_keeps s b r n sn) as [_ Hatt].
  pose proof (advance_keeps_restart s b r n sn) as Hres. rewrite E in Hatt, Hres.
  cbn [fst snd] in Hatt, Hres.
  rewrite (backoff_next_short b _ r n sn) in Hatt by done.
  destruct i as [|i]; simpl in Hi; [injection Hi as <-|].
  - exists s. simpl. rewrite E. split_and!; [done| |done]. unfold in_u32 in Ha. lia.
  - destruct (IH s1 i) as (s' & Hs' & Ha' & Hl); [|done|].
    + rewrite Hatt. unfold in_u32, u32_saturating_add in *. lia.
    + exists s'. split_and!; [congruence| |done]. rewrite Ha', Hatt.
      unfold u32_saturating_add. unfold in_u32 in Ha. lia.
Qed.

(** Under a cap below [u32::MAX], an instance whose processes never last
    the reset window is restarted exactly [max_restarts] times in a row: the
    first [max_restarts] ends are each given the next attempt in order, and
    every one after is refused. *)
Lemma cap_allows_exactly_max_restarts (s : Supervision) (b : RestartBackoff)
    (ends : list (option Z * Z * Z)) (cap : Z) (i : nat) (a : Attempt) :
  attempt s = 0 →
  max_restarts (declaration (supervision_restart s)) = Some cap → 0 < cap < U32_MAX →
  Forall (short_run b) ends →
  advances s b ends !! i = Some a →
  (Z.of_nat i < cap → ∃ delay now, a = Scheduled (Z.of_nat i + 1) delay now) ∧
  (cap ≤ Z.of_nat i → a = Capped cap).
Proof.
  intros Ha Hcap Hc H Hi. unfold U32_MAX in Hc.
  assert (∀ s ends, length (advances s b ends) = length ends) as Hlen.
  { clear. intros s ends. revert s. induction ends as [|[[r n] sn] ends IH]; intros s; simpl; [done|].
    destruct (advance_backoff s b r n sn). simpl. by rewrite IH. }
  assert (is_Some (ends !! i)) as [e He].
  { apply lookup_lt_is_Some. rewrite <-(Hlen s). by eapply lookup_lt_Some. }
  destruct (advances_nth s b ends i e) as (s' & Hs' & Ha' & Hl);
    [done|unfold in_u32, U32_MAX; lia|done|].
  rewrite Hi in Hl. simplify_eq.
  rewrite (advance_backoff_capped s' _ _ _ _ cap) by congruence. cbn zeta.
  assert (short_run b e) as Hshort.
  { rewrite Forall_forall in H. apply H. by eapply list_elem_of_lookup_2. }
  destruct e as [[r n] sn]. rewrite (backoff_next_short b _ r n sn) by done. cbn [fst snd].
  rewrite Ha', Ha. unfold u32_saturating_add, U32_MAX. split; intros Hlt.
  - rewrite (proj2 (Z.ltb_ge _ _)) by lia. do 2 eexists. f_equal. lia.
  - by rewrite (proj2 (Z.ltb_lt _ _)) by lia.
Qed.

Definition example_goal : NodeRunGoal :=
  mkNodeRunGoal (mkNodeInstancePlan "cam" None ∅ Wall ∅ ∅) None "camera" "v1" [] 30
    ∅ ∅ ∅ ∅ None [] Unset.

Definition example_supervision (cap : Z) : Supervision :=
  set_first_start
    (Some (mkFirstStart
       (mkResolvedRestart (mkRestartDeclaration OnFailure (Some cap)) OriginNode)
       (mkArcGoal 0 example_goal)))
    Supervision_default.

Lemma cap_allows_exactly_max_restarts_witness :
  advances (example_supervision 2) (mkRestartBackoff 1 60 100)
    [(None, 5, 5); (Some 3, 6, 6); (Some 99, 7, 7)] !! 2%nat = Some (Capped 2).
Proof.
  destruct (advances (example_supervision 2) (mkRestartBackoff 1 60 100)
    [(None, 5, 5); (Some 3, 6, 6); (Some 99, 7, 7)] !! 2%nat) as [a|] eqn:E; [|vm_compute in E; discriminate].
  f_equal. eapply (cap_allows_exactly_max_restarts (example_supervision 2)
    (mkRestartBackoff 1 60 100) [(None, 5, 5); (Some 3, 6, 6); (Some 99, 7, 7)] 2 2 a);
    [reflexivity | reflexivity | unfold U32_MAX; lia | | exact E | lia].
  repeat constructor; unfold short_run; simpl; lia.
Defined.
