(* ===== verification/Instance.v ===== *)
(** * Instances

    [TrackedNodeInstance] of
    [crates/node-stack-internal/src/node_stack/entity.rs]: one slot of an
    entity, its predicates and the edits of its lifecycle, and the invariant
    every edit keeps.

    [healthy] is an [Arc<AtomicBool>] the health monitor keeps a clone of: the
    slot names a cell of [World]. [stopping] and the restart token are made
    with the slot and never replaced, so their value is part of it. *)

From S2P Require Import Prelude Names RestartPolicy Config PairingRegistry Supervision.
#[local] Open Scope Z_scope.

(** ** The world an entity lives in

    The process-wide counters [NEXT_ENTITY_GENERATION] and [NEXT_INCARNATION],
    the health cells handed out so far, and the paths removed from disk, the
    last first. The counters are [u64]s that grow by one a start: they are not
    wrapped. *)
Record World : Type := mkWorld {
  next_entity_generation_value : Z;
  next_incarnation_value : Z;
  next_cell : nat;
  health_cells : gmap nat bool;
  removed_paths : list string;
}.

Definition next_entity_generation (w : World) : Z * World :=
  (next_entity_generation_value w,
   mkWorld (next_entity_generation_value w + 1) (next_incarnation_value w)
     (next_cell w) (health_cells w) (removed_paths w)).

Definition next_incarnation (w : World) : Z * World :=
  (next_incarnation_value w,
   mkWorld (next_entity_generation_value w) (next_incarnation_value w + 1)
     (next_cell w) (health_cells w) (removed_paths w)).

(** [Arc::new(AtomicBool::new(true))]. *)
Definition new_health_cell (w : World) : nat * World :=
  (next_cell w,
   mkWorld (next_entity_generation_value w) (next_incarnation_value w)
     (S (next_cell w)) (<[next_cell w := true]> (health_cells w)) (removed_paths w)).

Definition store_health (cell : nat) (healthy : bool) (w : World) : World :=
  mkWorld (next_entity_generation_value w) (next_incarnation_value w)
    (next_cell w) (<[cell := healthy]> (health_cells w)) (removed_paths w).

Definition load_health (cell : nat) (w : World) : bool := default true (health_cells w !! cell).

(** [remove_file] and [remove_dir_all], whose failures the code ignores. *)
Definition remove_path (path : string) (w : World) : World :=
  mkWorld (next_entity_generation_value w) (next_incarnation_value w)
    (next_cell w) (health_cells w) (path :: removed_paths w).

(** ** Data *)

Record SpawnFiles : Type := mkSpawnFiles {
  runtime_config : string;
  credential : string;
}.

(** [SpawnFiles::remove]. *)
Definition SpawnFiles_remove (f : SpawnFiles) (w : World) : World :=
  remove_path (credential f) (remove_path (runtime_config f) w).

Record LaunchIdentity : Type := mkLaunchIdentity {
  li_launch_id : string;
  li_coordinator_core_node : string;
}.

#[export] Instance LaunchIdentity_eq_dec : EqDecision LaunchIdentity.
Proof. solve_decision. Defined.

Record InstanceEndpoint : Type := mkInstanceEndpoint {
  ie_label : string;
  ie_kind : EndpointKind;
  ie_urls : list string;
}.

Record ProcessGroup : Type := mkProcessGroup {
  group_pid : Z;
  is_container : bool;
}.

Record TrackedNodeInstance : Type := mkTrackedNodeInstance {
  i_instance_id : string;
  i_pid : option Z;
  i_state : InstanceState;
  i_incarnation : Z;
  i_instance_dir : option string;
  i_spawn_files : option SpawnFiles;
  i_run_log_path : option string;
  i_slot_bindings : SlotBindings;
  i_clock : ClockBinding;
  i_launch : option LaunchIdentity;
  i_copy : option string;
  i_healthy : nat;
  i_stopping : bool;
  i_shutdown_requests : Z;
  i_endpoints : list InstanceEndpoint;
  i_supervision : Supervision;
}.

Definition set_i_pid (v : option Z) (i : TrackedNodeInstance) : TrackedNodeInstance :=
  mkTrackedNodeInstance
    (i_instance_id i) v (i_state i) (i_incarnation i) (i_instance_dir i)
    (i_spawn_files i) (i_run_log_path i) (i_slot_bindings i) (i_clock i)
    (i_launch i) (i_copy i) (i_healthy i) (i_stopping i) (i_shutdown_requests i)
    (i_endpoints i) (i_supervision i).
Definition set_i_state (v : InstanceState) (i : TrackedNodeInstance) : TrackedNodeInstance :=
  mkTrackedNodeInstance
    (i_instance_id i) (i_pid i) v (i_incarnation i) (i_instance_dir i)
    (i_spawn_files i) (i_run_log_path i) (i_slot_bindings i) (i_clock i)
    (i_launch i) (i_copy i) (i_healthy i) (i_stopping i) (i_shutdown_requests i)
    (i_endpoints i) (i_supervision i).
Definition set_i_incarnation (v : Z) (i : TrackedNodeInstance) : TrackedNodeInstance :=
  mkTrackedNodeInstance
    (i_instance_id i) (i_pid i) (i_state i) v (i_instance_dir i) (i_spawn_files i)
    (i_run_log_path i) (i_slot_bindings i) (i_clock i) (i_launch i) (i_copy i)
    (i_healthy i) (i_stopping i) (i_shutdown_requests i) (i_endpoints i)
    (i_supervision i).
Definition set_i_instance_dir (v : option string) (i : TrackedNodeInstance) : TrackedNodeInstance :=
  mkTrackedNodeInstance
    (i_instance_id i) (i_pid i) (i_state i) (i_incarnation i) v (i_spawn_files i)
    (i_run_log_path i) (i_slot_bindings i) (i_clock i) (i_launch i) (i_copy i)
    (i_healthy i) (i_stopping i) (i_shutdown_requests i) (i_endpoints i)
    (i_supervision i).
Definition set_i_spawn_files (v : option SpawnFiles) (i : TrackedNodeInstance) : TrackedNodeInstance :=
  mkTrackedNodeInstance
    (i_instance_id i) (i_pid i) (i_state i) (i_incarnation i) (i_instance_dir i) v
    (i_run_log_path i) (i_slot_bindings i) (i_clock i) (i_launch i) (i_copy i)
    (i_healthy i) (i_stopping i) (i_shutdown_requests i) (i_endpoints i)
    (i_supervision i).
Definition set_i_run_log_path (v : option string) (i : TrackedNodeInstance) : TrackedNodeInstance :=
  mkTrackedNodeInstance
    (i_instance_id i) (i_pid i) (i_state i) (i_incarnation i) (i_instance_dir i)
    (i_spawn_files i) v (i_slot_bindings i) (i_clock i) (i_launch i) (i_copy i)
    (i_healthy i) (i_stopping i) (i_shutdown_requests i) (i_endpoints i)
    (i_supervision i).
Definition set_i_slot_bindings (v : SlotBindings) (i : TrackedNodeInstance) : TrackedNodeInstance :=
  mkTrackedNodeInstance
    (i_instance_id i) (i_pid i) (i_state i) (i_incarnation i) (i_instance_dir i)
    (i_spawn_files i) (i_run_log_path i) v (i_clock i) (i_launch i) (i_copy i)
    (i_healthy i) (i_stopping i) (i_shutdown_requests i) (i_endpoints i)
    (i_supervision i).
Definition set_i_clock (v : ClockBinding) (i : TrackedNodeInstance) : TrackedNodeInstance :=
  mkTrackedNodeInstance
    (i_instance_id i) (i_pid i) (i_state i) (i_incarnation i) (i_instance_dir i)
    (i_spawn_files i) (i_run_log_path i) (i_slot_bindings i) v (i_launch i)
    (i_copy i) (i_healthy i) (i_stopping i) (i_shutdown_requests i) (i_endpoints i)
    (i_supervision i).
Definition set_i_launch (v : option LaunchIdentity) (i : TrackedNodeInstance) : TrackedNodeInstance :=
  mkTrackedNodeInstance
    (i_instance_id i) (i_pid i) (i_state i) (i_incarnation i) (i_instance_dir i)
    (i_spawn_files i) (i_run_log_path i) (i_slot_bindings i) (i_clock i) v
    (i_copy i) (i_healthy i) (i_stopping i) (i_shutdown_requests i) (i_endpoints i)
    (i_supervision i).
Definition set_i_copy (v : option string) (i : TrackedNodeInstance) : TrackedNodeInstance :=
  mkTrackedNodeInstance
    (i_instance_id i) (i_pid i) (i_state i) (i_incarnation i) (i_instance_dir i)
    (i_spawn_files i) (i_run_log_path i) (i_slot_bindings i) (i_clock i)
    (i_launch i) v (i_healthy i) (i_stopping i) (i_shutdown_requests i)
    (i_endpoints i) (i_supervision i).
Definition set_i_healthy (v : nat) (i : TrackedNodeInstance) : TrackedNodeInstance :=
  mkTrackedNodeInstance
    (i_instance_id i) (i_pid i) (i_state i) (i_incarnation i) (i_instance_dir i)
    (i_spawn_files i) (i_run_log_path i) (i_slot_bindings i) (i_clock i)
    (i_launch i) (i_copy i) v (i_stopping i) (i_shutdown_requests i) (i_endpoints i)
    (i_supervision i).
Definition set_i_stopping (v : bool) (i : TrackedNodeInstance) : TrackedNodeInstance :=
  mkTrackedNodeInstance
    (i_instance_id i) (i_pid i) (i_state i) (i_incarnation i) (i_instance_dir i)
    (i_spawn_files i) (i_run_log_path i) (i_slot_bindings i) (i_clock i)
    (i_launch i) (i_copy i) (i_healthy i) v (i_shutdown_requests i) (i_endpoints i)
    (i_supervision i).
Definition set_i_shutdown_requests (v : Z) (i : TrackedNodeInstance) : TrackedNodeInstance :=
  mkTrackedNodeInstance
    (i_instance_id i) (i_pid i) (i_state i) (i_incarnation i) (i_instance_dir i)
    (i_spawn_files i) (i_run_log_path i) (i_slot_bindings i) (i_clock i)
    (i_launch i) (i_copy i) (i_healthy i) (i_stopping i) v (i_endpoints i)
    (i_supervision i).
Definition set_i_endpoints (v : list InstanceEndpoint) (i : TrackedNodeInstance) : TrackedNodeInstance :=
  mkTrackedNodeInstance
    (i_instance_id i) (i_pid i) (i_state i) (i_incarnation i) (i_instance_dir i)
    (i_spawn_files i) (i_run_log_path i) (i_slot_bindings i) (i_clock i)
    (i_launch i) (i_copy i) (i_healthy i) (i_stopping i) (i_shutdown_requests i) v
    (i_supervision i).
Definition set_i_supervision (v : Supervision) (i : TrackedNodeInstance) : TrackedNodeInstance :=
  mkTrackedNodeInstance
    (i_instance_id i) (i_pid i) (i_state i) (i_incarnation i) (i_instance_dir i)
    (i_spawn_files i) (i_run_log_path i) (i_slot_bindings i) (i_clock i)
    (i_launch i) (i_copy i) (i_healthy i) (i_stopping i) (i_shutdown_requests i)
    (i_endpoints i) v.

Definition edit_supervision (f : Supervision → Supervision) (i : TrackedNodeInstance) :
    TrackedNodeInstance := set_i_supervision (f (i_supervision i)) i.

(** [TrackedNodeInstance::new]. *)
Definition TrackedNodeInstance_new (instance_id : string) (state : InstanceState)
    (slot_bindings : SlotBindings) (w : World) : TrackedNodeInstance * World :=
  let '(incarnation, w) := next_incarnation w in
  let '(healthy, w) := new_health_cell w in
  (mkTrackedNodeInstance instance_id None state incarnation None None None slot_bindings
     Wall None None healthy false 0 [] Supervision_default, w).

Definition with_first_start (first : FirstStart) (i : TrackedNodeInstance) : TrackedNodeInstance :=
  edit_supervision (set_first_start (Some first)) i.
Definition with_clock (c : ClockBinding) (i : TrackedNodeInstance) : TrackedNodeInstance :=
  set_i_clock c i.
Definition with_launch (l : option LaunchIdentity) (i : TrackedNodeInstance) : TrackedNodeInstance :=
  set_i_launch l i.
Definition with_copy (c : option string) (i : TrackedNodeInstance) : TrackedNodeInstance :=
  set_i_copy c i.
Definition with_run_log (p : string) (i : TrackedNodeInstance) : TrackedNodeInstance :=
  set_i_run_log_path (Some p) i.

(** ** Predicates *)

Definition state_is (s : InstanceState) (i : TrackedNodeInstance) : bool :=
  bool_decide (i_state i = s).

Definition id_is (id : string) (i : TrackedNodeInstance) : bool :=
  bool_decide (i_instance_id i = id).

Definition awaits_restart (i : TrackedNodeInstance) : bool :=
  state_is Restarting i && negb (i_stopping i).

Definition runs_unclaimed (i : TrackedNodeInstance) : bool :=
  state_is Running i && negb (i_stopping i).

Definition keeps_held_pair (i : TrackedNodeInstance) (o p : SlotAddr) : bool :=
  existsb (λ held, bool_decide (own held = o) && bool_decide (peer held = p))
    (held_pairs (i_supervision i)).

Definition runs_process (i : TrackedNodeInstance) (pid : Z) : bool :=
  state_is Running i && bool_decide (i_pid i = Some pid).

Definition runs_unclaimed_process (i : TrackedNodeInstance) (pid : Z) : bool :=
  runs_process i pid && negb (i_stopping i).

Definition starts_a_restart (i : TrackedNodeInstance) : bool :=
  state_is Starting i && (0 <? attempt (i_supervision i)).

Definition first_started_from (i : TrackedNodeInstance) (goal : ArcGoal) : bool :=
  match first_start (i_supervision i) with
  | Some first => ptr_eq (fs_goal first) goal
  | None => false
  end.

Definition is_restart_of (i : TrackedNodeInstance) (goal : ArcGoal) (restarts : Z) : bool :=
  first_started_from i goal && (restart_count (i_supervision i) =? restarts).

Definition starts_for (i : TrackedNodeInstance) (run : StartRun) : bool :=
  match run with
  | RunNew goal => state_is Starting i && negb (starts_a_restart i) && first_started_from i goal
  | RunRespawn goal restarts => starts_a_restart i && is_restart_of i goal restarts
  end.

Definition awaits_restart_of (i : TrackedNodeInstance) (run : StartRun) : bool :=
  match run with
  | RunNew _ => false
  | RunRespawn goal restarts => awaits_restart i && is_restart_of i goal restarts
  end.

Definition live_incarnation (i : TrackedNodeInstance) : option Z :=
  let forked := state_is Running i || opt_is_some (i_pid i) in
  if has_process (i_state i) && forked then Some (i_incarnation i) else None.

Definition credential_path (i : TrackedNodeInstance) : option string :=
  credential <$> i_spawn_files i.

(** ** Edits *)

(** [claim_once]: marks the slot stopping, cancels its restart token and says
    whether this call was the first. *)
Definition claim_once (i : TrackedNodeInstance) : bool * TrackedNodeInstance :=
  (negb (i_stopping i),
   edit_supervision (set_restart_cancelled true) (set_i_stopping true i)).

Definition mark_stopping (i : TrackedNodeInstance) : TrackedNodeInstance := (claim_once i).2.

Definition set_slot_binding (link_id : string) (producers : BoundProducers)
    (i : TrackedNodeInstance) : TrackedNodeInstance :=
  set_i_slot_bindings (<[link_id := producers]> (i_slot_bindings i)) i.

Definition set_running (instance_dir : string) (i : TrackedNodeInstance) : TrackedNodeInstance :=
  set_i_instance_dir (Some instance_dir) (set_i_state Running i).

Definition set_starting_process (pid : Z) (files : SpawnFiles) (i : TrackedNodeInstance) :
    TrackedNodeInstance :=
  set_i_spawn_files (Some files) (set_i_pid (Some pid) i).

(** [take_next_attempt]: a refused attempt fails the instance. *)
Definition take_next_attempt (b : RestartBackoff) (ran_for : option Z) (now sysnow : Z)
    (i : TrackedNodeInstance) : Attempt * TrackedNodeInstance :=
  let '(s, next) := advance_backoff (i_supervision i) b ran_for now sysnow in
  let i := set_i_supervision s i in
  (next, match next with Capped _ => set_i_state Failed i | Scheduled _ _ _ => i end).

(** [record_exit]; [taken] is what [take_registrations] returns. *)
Definition record_exit (cause : ExitCause) (b : RestartBackoff) (now sysnow : Z)
    (taken : Registrations) (i : TrackedNodeInstance) : ExitRecord * TrackedNodeInstance :=
  let kill := health_kill (i_supervision i) in
  let ran_for :=
    (λ since,
       match kill with
       | Some k => match last_answer k with
                   | Some answer => saturating_duration_since answer since
                   | None => 0
                   end
       | None => saturating_duration_since now since
       end) <$> run_started (i_supervision i) in
  let exit :=
    match kill with
    | Some k => HealthKillCause (duration_as_secs (unanswered_for k))
    | None => cause
    end in
  let failed := negb (is_clean exit) in
  let i := edit_supervision
             (λ s, set_last_exit (Some exit) (set_run_started None (set_health_kill None s))) i in
  let i := set_i_endpoints [] (set_i_pid None i) in
  let p := policy (declaration (supervision_restart (i_supervision i))) in
  let policy_restarts :=
    if failed then restarts_after_failure p else restarts_after_clean_exit p in
  let shutdown_requested := 0 <? i_shutdown_requests i in
  let restarts_again := policy_restarts && negb shutdown_requested in
  let i := if shutdown_requested then edit_supervision (set_attempt 0) i else i in
  let i := set_i_state
             (match restarts_again, failed with
              | true, _ => Restarting
              | false, true => Failed
              | false, false => Finished
              end) i in
  if restarts_again then
    let i := edit_supervision (set_registrations taken) i in
    let '(next, i) := take_next_attempt b ran_for now sysnow i in
    (mkExitRecord exit taken (Some next), i)
  else (mkExitRecord exit taken None, i).

Definition begin_respawn (i : TrackedNodeInstance) (w : World) : TrackedNodeInstance * World :=
  let '(incarnation, w) := next_incarnation w in
  let '(cell, w) := new_health_cell w in
  let files := i_spawn_files i in
  let i := set_i_spawn_files None
             (set_i_healthy cell
                (edit_supervision (set_next_start None)
                   (set_i_endpoints []
                      (set_i_pid None
                         (set_i_incarnation incarnation (set_i_state Starting i)))))) in
  (i, match files with Some f => SpawnFiles_remove f w | None => w end).

Definition revert_respawn (i : TrackedNodeInstance) : TrackedNodeInstance :=
  set_i_spawn_files None (set_i_pid None (set_i_state Restarting i)).

Definition record_running (now sysnow : Z) (i : TrackedNodeInstance) : TrackedNodeInstance :=
  let i := edit_supervision
             (λ s, set_running_since (Some sysnow) (set_run_started (Some now) s)) i in
  if 0 <? attempt (i_supervision i) then
    edit_supervision
      (λ s, set_registrations Registrations_default
              (set_restart_count (u32_saturating_add (restart_count s) 1) s)) i
  else i.

(** [remove_instance_files]. *)
Definition remove_instance_files (i : TrackedNodeInstance) (w : World) : World :=
  let w := match i_instance_dir i with Some dir => remove_path dir w | None => w end in
  match i_spawn_files i with Some f => SpawnFiles_remove f w | None => w end.

(** ** The invariant of a slot

    What every slot of an entity keeps, whatever edits it has been through. *)
Definition policy_restarts_exit (p : RestartPolicy) (exit : ExitCause) : bool :=
  if is_clean exit then restarts_after_clean_exit p else restarts_after_failure p.

Definition restarts_supervised (s : Supervision) : Prop :=
  (∃ exit, last_exit s = Some exit ∧
     policy_restarts_exit (policy (declaration (supervision_restart s))) exit = true) ∧
  (∀ cap, max_restarts (declaration (supervision_restart s)) = Some cap → attempt s ≤ cap).

Record wf_instance (i : TrackedNodeInstance) : Prop := mk_wf_instance {
  (** An instance without a process has no pid and serves nothing. *)
  wf_no_process : has_process (i_state i) = false → i_pid i = None ∧ i_endpoints i = [];
  (** Endpoints are announced when the start commits. *)
  wf_starting : i_state i = Starting → i_endpoints i = [];
  (** A run is timed, and killed for its health, only while it runs. *)
  wf_run : run_started (i_supervision i) ≠ None ↔ i_state i = Running;
  wf_kill : health_kill (i_supervision i) ≠ None → i_state i = Running ∧ i_pid i ≠ None;
  (** A shutdown request names a running process. *)
  wf_shutdown : i_state i = Starting ∨ i_state i = Restarting → i_shutdown_requests i = 0;
  wf_shutdown_range : in_u32 (i_shutdown_requests i);
  wf_attempt : in_u32 (attempt (i_supervision i));
  (** An instance waits for a restart only after an attempt was taken. *)
  wf_restarting : i_state i = Restarting → 0 < attempt (i_supervision i);
  (** A restart waited for, in flight or running is one the policy makes and
      its cap admits. *)
  wf_supervised :
    0 < attempt (i_supervision i) →
    i_state i = Starting ∨ i_state i = Running ∨ i_state i = Restarting →
    restarts_supervised (i_supervision i);
  (** A start is due only while the instance waits for one. *)
  wf_next_start : next_start (i_supervision i) ≠ None → i_state i = Restarting;
  (** A claim cancels the wait for a restart. *)
  wf_token : restart_cancelled (i_supervision i) = i_stopping i;
  (** What an exit kept for the next process is handed over at its commit. *)
  wf_registrations : i_state i = Running → registrations (i_supervision i) = Registrations_default;
  wf_first_registrations :
    i_state i = Starting → attempt (i_supervision i) = 0 →
    registrations (i_supervision i) = Registrations_default
}.

(** The cases a field of the invariant leaves once the states are known. *)
Ltac slot_done :=
  try done; try congruence; try tauto; try (intuition (congruence || lia)).

Lemma state_is_true s i : state_is s i = true ↔ i_state i = s.
Proof. unfold state_is. apply bool_decide_eq_true. Qed.

Lemma id_is_true id i : id_is id i = true ↔ i_instance_id i = id.
Proof. unfold id_is. apply bool_decide_eq_true. Qed.

Lemma awaits_restart_true i : awaits_restart i = true ↔ i_state i = Restarting ∧ i_stopping i = false.
Proof. unfold awaits_restart. by rewrite andb_true_iff, state_is_true, negb_true_iff. Qed.

Lemma runs_unclaimed_true i : runs_unclaimed i = true ↔ i_state i = Running ∧ i_stopping i = false.
Proof. unfold runs_unclaimed. by rewrite andb_true_iff, state_is_true, negb_true_iff. Qed.

Lemma runs_process_true i p : runs_process i p = true ↔ i_state i = Running ∧ i_pid i = Some p.
Proof. unfold runs_process. by rewrite andb_true_iff, state_is_true, bool_decide_eq_true. Qed.

Lemma runs_unclaimed_process_true i p :
  runs_unclaimed_process i p = true ↔ i_state i = Running ∧ i_pid i = Some p ∧ i_stopping i = false.
Proof. unfold runs_unclaimed_process. rewrite andb_true_iff, runs_process_true, negb_true_iff. tauto. Qed.

Lemma starts_a_restart_true i :
  starts_a_restart i = true ↔ i_state i = Starting ∧ 0 < attempt (i_supervision i).
Proof. unfold starts_a_restart. by rewrite andb_true_iff, state_is_true, Z.ltb_lt. Qed.

Create HintDb slot.
#[export] Hint Rewrite state_is_true id_is_true awaits_restart_true runs_unclaimed_true
  runs_process_true runs_unclaimed_process_true starts_a_restart_true : slot.

Lemma new_wf id bindings w :
  wf_instance (TrackedNodeInstance_new id Starting bindings w).1.
Proof.
  cbn. constructor; cbn; try done; try tauto; lia.
Qed.

Lemma claim_once_wf i : wf_instance i → wf_instance (claim_once i).2.
Proof. by intros [? ? ? ? ? ? ? ? ? ? ? ? ?]. Qed.

Lemma set_slot_binding_wf link ps i : wf_instance i → wf_instance (set_slot_binding link ps i).
Proof. by intros [? ? ? ? ? ? ? ? ? ? ? ? ?]. Qed.

Lemma set_held_pairs_wf l i :
  wf_instance i → wf_instance (edit_supervision (set_held_pairs l) i).
Proof. by intros [? ? ? ? ? ? ? ? ? ? ? ? ?]. Qed.

Lemma set_run_log_wf p i : wf_instance i → wf_instance (set_i_run_log_path p i).
Proof. by intros [? ? ? ? ? ? ? ? ? ? ? ? ?]. Qed.

Lemma set_registrations_wf r i :
  i_state i = Restarting → wf_instance i → wf_instance (edit_supervision (set_registrations r) i).
Proof. intros Hs [? ? ? ? ? ? ? ? ? ? ? ? ?]. constructor; cbn; congruence || done. Qed.

Lemma set_shutdown_requests_wf n i :
  in_u32 n → i_state i = Running → wf_instance i → wf_instance (set_i_shutdown_requests n i).
Proof. intros Hn Hs [? ? ? ? ? ? ? ? ? ? ? ? ?]. constructor; cbn; try done. intuition congruence. Qed.

Lemma arm_health_kill_wf k i :
  i_state i = Running → i_pid i ≠ None → wf_instance i →
  wf_instance (edit_supervision (set_health_kill (Some k)) i).
Proof. intros Hs Hp [? ? ? ? ? ? ? ? ? ? ? ? ?]. by constructor. Qed.

Lemma set_starting_process_wf pid files i :
  i_state i = Starting → wf_instance i → wf_instance (set_starting_process pid files i).
Proof. intros Hs [? ? ? ? ? ? ? ? ? ? ? ? ?]. constructor; cbn in *; rewrite ?Hs in *; cbn; naive_solver. Qed.

Lemma commit_wf dir eps now sysnow i :
  i_state i = Starting → wf_instance i →
  wf_instance (record_running now sysnow (set_i_endpoints eps (set_running dir i))).
Proof.
  intros Hs [? ? [? ?] Hk Hsh ? Ha ? Hsup Hn ? ? Hr]. unfold record_running. cbn.
  assert (health_kill (i_supervision i) = None).
  { destruct (health_kill _); [|done]. destruct Hk as [? _]; [done|]. congruence. }
  assert (next_start (i_supervision i) = None).
  { destruct (next_start _); [|done]. rewrite Hn in Hs; done. }
  destruct (0 <? attempt (i_supervision i)) eqn:E; constructor; cbn in *;
    slot_done.
  intros _. apply Hr; [done|]. unfold in_u32 in Ha. lia.
Qed.

Lemma begin_respawn_wf i w :
  i_state i = Restarting → wf_instance i → wf_instance (begin_respawn i w).1.
Proof.
  intros Hs [? ? [? ?] Hk Hsh ? ? ? Hsup Hn ? ? ?]. cbn.
  constructor; cbn in *; slot_done.
Qed.

Lemma revert_respawn_wf i :
  starts_a_restart i = true → wf_instance i → wf_instance (revert_respawn i).
Proof.
  rewrite starts_a_restart_true.
  intros [Hs Ha] [? ? [? ?] Hk Hsh ? ? ? Hsup Hn ? ? ?].
  constructor; cbn in *; slot_done.
Qed.

Lemma restart_refused_wf i :
  i_state i = Restarting → wf_instance i →
  wf_instance (edit_supervision (set_next_start None) (set_i_state Failed i)).
Proof.
  intros Hs [? ? [? ?] Hk Hsh ? ? ? Hsup Hn ? ? ?].
  constructor; cbn in *; rewrite ?Hs in *; cbn in *; slot_done.
Qed.

Lemma backoff_attempt_range b prev ran_for :
  in_u32 prev → 1 ≤ na_attempt (backoff_next b prev ran_for) ≤ U32_MAX.
Proof.
  intros [? ?]. unfold backoff_next. simpl. case_match; unfold u32_saturating_add, U32_MAX in *; lia.
Qed.

(** What an advance of the backoff leaves: the attempt taken, within the cap
    when one is scheduled. *)
Lemma advance_backoff_spec s b ran_for now sysnow :
  in_u32 (attempt s) →
  let '(s', a) := advance_backoff s b ran_for now sysnow in
  ∃ ns, s' = set_next_start ns (set_attempt (na_attempt (backoff_next b (attempt s) ran_for)) s) ∧
    1 ≤ attempt s' ≤ U32_MAX ∧
    supervision_restart s' = supervision_restart s ∧
    match a with
    | Scheduled k d t =>
        k = attempt s' ∧ d = na_delay (backoff_next b (attempt s) ran_for) ∧ t = now ∧
        ns = system_time_checked_add sysnow d ∧
        (∀ cap, max_restarts (declaration (supervision_restart s)) = Some cap → k ≤ cap)
    | Capped cap =>
        ns = None ∧ max_restarts (declaration (supervision_restart s)) = Some cap ∧
        cap < attempt s'
    end.
Proof.
  intros Ha. pose proof (backoff_attempt_range b (attempt s) ran_for Ha) as Hr.
  unfold advance_backoff.
  change (supervision_restart (set_attempt _ s)) with (supervision_restart s). cbn zeta.
  destruct (max_restarts (declaration (supervision_restart s))) as [cap|] eqn:Hcap;
    [destruct (cap <? na_attempt (backoff_next b (attempt s) ran_for)) eqn:E|];
    eexists; (split; [reflexivity|]);
    cbn [attempt set_next_start set_attempt];
    split_and!; try done; try lia; try apply Hr.
  - intros ? [= <-]. lia.
Qed.

Lemma clean_policy_restarts p : restarts_after_clean_exit p = true → restarts_after_failure p = true.
Proof. by destruct p. Qed.

Lemma take_next_attempt_wf b ran_for now sysnow i :
  i_state i = Restarting → i_pid i = None → i_endpoints i = [] →
  run_started (i_supervision i) = None → health_kill (i_supervision i) = None →
  i_shutdown_requests i = 0 → in_u32 (attempt (i_supervision i)) →
  (∃ exit, last_exit (i_supervision i) = Some exit ∧
     policy_restarts_exit (policy (declaration (supervision_restart (i_supervision i)))) exit = true) →
  restart_cancelled (i_supervision i) = i_stopping i →
  wf_instance (take_next_attempt b ran_for now sysnow i).2.
Proof.
  intros Hs Hp He Hr Hk Hsh Ha Hpol Ht. unfold take_next_attempt.
  pose proof (advance_backoff_spec (i_supervision i) b ran_for now sysnow Ha) as H.
  destruct (advance_backoff _ _ _ _ _) as [s' a].
  destruct H as (ns & Hs' & Hatt & Hres & Hcase).
  assert (∃ exit, last_exit s' = Some exit ∧
    policy_restarts_exit (policy (declaration (supervision_restart s'))) exit = true) as Hpol'
    by (rewrite Hres, Hs'; exact Hpol).
  destruct a as [k d t|cap]; cbn [snd].
  - destruct Hcase as (-> & _ & _ & _ & Hcap).
    assert (restarts_supervised s') by (split; [done|by rewrite Hres]).
    constructor; cbn; subst s'; cbn in *; rewrite ?Hs, ?Hr, ?Hk, ?Hsh in *; slot_done; unfold in_u32; lia.
  - destruct Hcase as (-> & Hcap & Hlt).
    constructor; cbn; subst s'; cbn in *; rewrite ?Hs, ?Hr, ?Hk, ?Hsh in *; slot_done; unfold in_u32; lia.
Qed.

Lemma mark_start_failed_wf e b now sysnow i :
  is_clean e = false → i_state i = Restarting → wf_instance i →
  wf_instance (take_next_attempt b None now sysnow (edit_supervision (set_last_exit (Some e)) i)).2.
Proof.
  intros He Hs [H1 ? [H2 ?] H3 H4 ? ? H6 H7 ? ? ? ?]. destruct H1 as [? ?]; [by rewrite Hs|].
  apply take_next_attempt_wf; cbn; auto.
  - destruct (run_started _); [|done]. rewrite H2 in Hs; done.
  - destruct (health_kill _); [|done]. destruct H3 as [H3 _]; [done|]. congruence.
  - exists e. split; [done|]. unfold policy_restarts_exit. rewrite He.
    destruct H7 as [(x & _ & Hx) _]; auto. unfold policy_restarts_exit in Hx.
    destruct (is_clean x); [by apply clean_policy_restarts|done].
Qed.

(** An exit by its branches: how long the process ran, why it ended, and the
    slot with its process gone. *)
Definition exit_ran_for (now : Z) (i : TrackedNodeInstance) : option Z :=
  (λ since,
     match health_kill (i_supervision i) with
     | Some k => match last_answer k with
                 | Some answer => saturating_duration_since answer since
                 | None => 0
                 end
     | None => saturating_duration_since now since
     end) <$> run_started (i_supervision i).

Definition exit_cause (cause : ExitCause) (i : TrackedNodeInstance) : ExitCause :=
  match health_kill (i_supervision i) with
  | Some k => HealthKillCause (duration_as_secs (unanswered_for k))
  | None => cause
  end.

Definition without_process (exit : ExitCause) (i : TrackedNodeInstance) : TrackedNodeInstance :=
  set_i_endpoints [] (set_i_pid None
    (edit_supervision
       (λ s, set_last_exit (Some exit) (set_run_started None (set_health_kill None s))) i)).

Definition ended_state (exit : ExitCause) : InstanceState :=
  if is_clean exit then Finished else Failed.

Definition policy_restarts (exit : ExitCause) (i : TrackedNodeInstance) : bool :=
  policy_restarts_exit (policy (declaration (supervision_restart (i_supervision i)))) exit.

Lemma record_exit_eq cause b now sysnow taken i :
  record_exit cause b now sysnow taken i =
  let exit := exit_cause cause i in
  let gone := without_process exit i in
  if 0 <? i_shutdown_requests i then
    (mkExitRecord exit taken None,
     set_i_state (ended_state exit) (edit_supervision (set_attempt 0) gone))
  else if policy_restarts exit i then
    let '(next, i') := take_next_attempt b (exit_ran_for now i) now sysnow
                         (edit_supervision (set_registrations taken) (set_i_state Restarting gone)) in
    (mkExitRecord exit taken (Some next), i')
  else (mkExitRecord exit taken None, set_i_state (ended_state exit) gone).
Proof.
  unfold record_exit, exit_cause, exit_ran_for, without_process, ended_state, policy_restarts,
    policy_restarts_exit.
  cbn zeta. destruct i as [id pid st inc dir files log slots clk l cp h stop sh eps [fs hk rc at_ le rs rsi ns cn hp rg]].
  cbn. destruct hk as [k|]; cbn.
  - destruct (0 <? sh); cbn; [by rewrite andb_false_r|]. rewrite andb_true_r.
    by destruct (restarts_after_failure _).
  - destruct (is_clean cause), (0 <? sh); cbn; rewrite ?andb_false_r, ?andb_true_r; try done.
    + by destruct (restarts_after_clean_exit _).
    + by destruct (restarts_after_failure _).
Qed.

Lemma record_exit_wf cause b now sysnow taken i :
  i_state i = Running → wf_instance i →
  wf_instance (record_exit cause b now sysnow taken i).2.
Proof.
  intros Hs [? ? [H2 ?] H3 H4 [Hn ?] H5 H6 H7 H8 ? ? ?]. rewrite record_exit_eq. cbn zeta.
  generalize (exit_cause cause i) as exit. intros exit.
  assert (next_start (i_supervision i) = None) as Hns.
  { destruct (next_start _); [|done]. rewrite H8 in Hs; done. }
  assert (ended_state exit = Finished ∨ ended_state exit = Failed) as He.
  { unfold ended_state. destruct (is_clean exit); auto. }
  assert (has_process (ended_state exit) = false) as He' by (by destruct He as [-> | ->]).
  destruct (0 <? i_shutdown_requests i) eqn:Esh;
    [|destruct (policy_restarts exit i) eqn:Er].
  - destruct He as [He|He]; constructor; cbn; rewrite ?He, ?Hns; slot_done.
  - pose proof (take_next_attempt_wf b (exit_ran_for now i) now sysnow
      (edit_supervision (set_registrations taken)
         (set_i_state Restarting (without_process exit i)))) as Hw.
    destruct (take_next_attempt _ _ _ _ _) as [next i']. apply Hw; cbn; auto; [lia|].
    exists exit. split; [done|]. exact Er.
  - destruct He as [He|He]; constructor; cbn; rewrite ?He, ?Hns; slot_done.
Qed.

(** Whether the cap admits the attempt an exit takes. *)
Definition next_within_cap (b : RestartBackoff) (now : Z) (i : TrackedNodeInstance) : Prop :=
  ∀ cap, max_restarts (declaration (supervision_restart (i_supervision i))) = Some cap →
  na_attempt (backoff_next b (attempt (i_supervision i)) (exit_ran_for now i)) ≤ cap.

Lemma take_next_attempt_state b ran_for now sysnow i :
  in_u32 (attempt (i_supervision i)) → i_state i = Restarting →
  let '(next, i') := take_next_attempt b ran_for now sysnow i in
  i_pid i' = i_pid i ∧ i_endpoints i' = i_endpoints i ∧
  last_exit (i_supervision i') = last_exit (i_supervision i) ∧
  ((∀ cap, max_restarts (declaration (supervision_restart (i_supervision i))) = Some cap →
    na_attempt (backoff_next b (attempt (i_supervision i)) ran_for) ≤ cap) →
   i_state i' = Restarting) ∧
  (i_state i' = Restarting →
   ∀ cap, max_restarts (declaration (supervision_restart (i_supervision i))) = Some cap →
    na_attempt (backoff_next b (attempt (i_supervision i)) ran_for) ≤ cap) ∧
  (i_state i' = Restarting ∨ i_state i' = Failed).
Proof.
  intros Ha Hs. unfold take_next_attempt.
  pose proof (advance_backoff_spec (i_supervision i) b ran_for now sysnow Ha) as H.
  destruct (advance_backoff _ _ _ _ _) as [s' a].
  destruct H as (ns & Hs' & Hatt & Hres & Hcase).
  assert (attempt s' = na_attempt (backoff_next b (attempt (i_supervision i)) ran_for)) as Hna
    by (by rewrite Hs').
  assert (last_exit s' = last_exit (i_supervision i)) by (by rewrite Hs').
  destruct a as [k d t|cap].
  - destruct Hcase as (-> & _ & _ & _ & Hcap). rewrite <-Hna. cbn. auto 10.
  - destruct Hcase as (-> & Hcap & Hlt). rewrite <-Hna. cbn.
    split_and!; auto; [|done]. intros H'. apply H' in Hcap. lia.
Qed.

(** An exit of a running process is recorded in full: its cause, a health
    kill being its own cause whatever the status; the process's pid and
    endpoints are gone; and the instance waits for a restart exactly when its
    policy restarts that kind of exit, no removal asked the process to shut
    down and the cap admits the attempt, else it is finished after a clean
    exit and failed after any other or at the cap. *)
Lemma record_exit_outcome (cause : ExitCause) (b : RestartBackoff) (now sysnow : Z)
    (taken : Registrations) (i : TrackedNodeInstance) :
  wf_instance i → i_state i = Running →
  let exit := exit_cause cause i in
  let restarts := policy_restarts exit i && (i_shutdown_requests i =? 0) in
  let '(record, i') := record_exit cause b now sysnow taken i in
  er_exit record = exit ∧ er_registrations record = taken ∧
  opt_is_some (er_next record) = restarts ∧
  i_pid i' = None ∧ i_endpoints i' = [] ∧ last_exit (i_supervision i') = Some exit ∧
  (i_state i' = Restarting ↔ restarts = true ∧ next_within_cap b now i) ∧
  (i_state i' = Finished ↔ restarts = false ∧ is_clean exit = true) ∧
  has_process (i_state i') = false ∧
  (0 < i_shutdown_requests i → attempt (i_supervision i') = 0).
Proof.
  intros Hwf Hs exit restarts. subst restarts.
  pose proof (wf_shutdown_range i Hwf) as [Hn _]. rewrite record_exit_eq. fold exit. cbn zeta.
  destruct (0 <? i_shutdown_requests i) eqn:Esh;
    [|destruct (policy_restarts exit i) eqn:Er].
  - rewrite (proj2 (Z.eqb_neq _ 0)), andb_false_r by lia. cbn. unfold ended_state.
    destruct (is_clean exit); cbn; split_and!; try done; naive_solver.
  - rewrite (proj2 (Z.eqb_eq _ 0)) by lia. cbn [andb].
    pose proof (take_next_attempt_state b (exit_ran_for now i) now sysnow
      (edit_supervision (set_registrations taken) (set_i_state Restarting (without_process exit i)))
      (wf_attempt i Hwf) eq_refl) as H.
    destruct (take_next_attempt _ _ _ _ _) as [next i'].
    destruct H as (Hp & He & Hl & H1 & H2 & H3). cbn in Hp, He, Hl.
    change (supervision_restart _) with (supervision_restart (i_supervision i)) in H1, H2.
    change (attempt _) with (attempt (i_supervision i)) in H1, H2.
    split_and!; cbn; try done; try lia.
    + unfold next_within_cap. split; [auto | intros [_ ?]; auto].
    + split; [|naive_solver]. destruct H3 as [-> | ->]; done.
    + by destruct H3 as [-> | ->].
  - cbn. unfold ended_state. destruct (is_clean exit); cbn; split_and!; try done; try lia; naive_solver.
Qed.

Lemma with_first_start_wf f i :
  attempt (i_supervision i) = 0 → wf_instance i → wf_instance (with_first_start f i).
Proof.
  intros Ha [? ? ? ? ? ? ? ? Hs ? ? ? ?]. constructor; cbn; try done.
  rewrite Ha. lia.
Qed.

(** A slot started under [on_failure] with a cap, as the witnesses use it. *)
Definition example_world : World := mkWorld 1 1 0 ∅ [].

Definition example_first_start : FirstStart :=
  mkFirstStart
    (mkResolvedRestart (mkRestartDeclaration OnFailure (Some 3)) OriginNode)
    (mkArcGoal 0 example_goal).

Definition example_starting : TrackedNodeInstance :=
  with_first_start example_first_start (TrackedNodeInstance_new "cam" Starting ∅ example_world).1.

Definition example_running : TrackedNodeInstance :=
  record_running 100 100
    (set_i_endpoints [mkInstanceEndpoint "ui" Page ["http://localhost"]]
       (set_running "/inst/cam"
          (set_starting_process 42 (mkSpawnFiles "/tmp/rc" "/tmp/key") example_starting))).

Lemma example_starting_wf : wf_instance example_starting.
Proof. apply with_first_start_wf; [reflexivity|apply new_wf]. Qed.

Lemma example_running_wf : wf_instance example_running.
Proof.
  apply commit_wf; [reflexivity|]. apply set_starting_process_wf; [reflexivity|].
  apply example_starting_wf.
Qed.

Lemma record_exit_outcome_witness :
  i_state (record_exit (Code 1) (mkRestartBackoff 1 60 1000) 150 150 Registrations_default
             example_running).2 = Restarting.
Proof.
  pose proof (record_exit_outcome (Code 1) (mkRestartBackoff 1 60 1000) 150 150
    Registrations_default example_running example_running_wf eq_refl) as H.
  destruct (record_exit _ _ _ _ _ _) as [r i']. simpl in H.
  destruct H as (_ & _ & _ & _ & _ & _ & [_ H] & _). apply H. split; [reflexivity|].
  intros cap Hcap. vm_compute in Hcap. injection Hcap as <-. vm_compute. congruence.
Defined.
