(* ===== verification/Entity.v ===== *)
(** * Entities

    [NodeEntity] of [crates/node-stack-internal/src/node_stack/entity.rs]: a
    node's document, its stage and its instances, with the operations that
    build, start, commit, abort, claim and stop. Every critical section of the
    entity's lock is one function from entity to entity; an operation that
    releases the lock between critical sections is the composition of its
    sections with what other threads do in between, given as a function.

    The world (see [Instance]) carries the counters, the health cells and the
    removed paths. What the operations call outside the lock (the build
    command, the container build, the archive, the fork) is given by its
    results. *)

From S2P Require Import Prelude Names RestartPolicy Config Validation PairingRegistry Supervision Instance.
#[local] Open Scope Z_scope.

(** ** Data *)

Record BuiltInLaunch : Type := mkBuiltInLaunch {
  executable : string;
  launch_args : list string;
  launch_env : list (string * string);
}.

Inductive Artifact : Type := Built (path : string) | BuiltIn (launch : BuiltInLaunch).

Definition Artifact_path (a : Artifact) : string :=
  match a with Built p => p | BuiltIn l => executable l end.

Definition Artifact_built_in (a : Artifact) : option BuiltInLaunch :=
  match a with Built _ => None | BuiltIn l => Some l end.

Inductive NodeStage : Type :=
| Added (config_path : string)
| Building (config_path : string)
| Ready (config_path : string) (artifact : Artifact) (instances : list TrackedNodeInstance)
| Root (config_path : string) (instance : TrackedNodeInstance).

Inductive SerializedNodeStage : Type := SAdded | SBuilding | SReady | SRoot.

#[export] Instance SerializedNodeStage_eq_dec : EqDecision SerializedNodeStage.
Proof. solve_decision. Defined.

Definition stage_to_serialized (s : NodeStage) : SerializedNodeStage :=
  match s with
  | Added _ => SAdded
  | Building _ => SBuilding
  | Ready _ _ _ => SReady
  | Root _ _ => SRoot
  end.

Definition SerializedNodeStage_as_str (s : SerializedNodeStage) : string :=
  match s with
  | SAdded => "Added" | SBuilding => "Building" | SReady => "Ready" | SRoot => "Root"
  end.

Definition stage_name (s : NodeStage) : string :=
  SerializedNodeStage_as_str (stage_to_serialized s).

Definition ensure_buildable (s : NodeStage) : result string unit :=
  match s with Added _ => Ok tt | other => Err (stage_name other) end.

Definition ensure_spawnable (s : NodeStage) : result string unit :=
  match s with Ready _ _ _ => Ok tt | other => Err (stage_name other) end.

(** A document an entity was resolved against, by its identity and its bytes. *)
Record PinnedDocument : Type := mkPinnedDocument {
  pin_name : string;
  pin_tag : string;
  pin_sha256 : string;
  pin_content : string;
}.

(** [stage_tx] is the stage its watchers last received; a [WorkingDirGuard] is
    the path it removes. *)
Record NodeEntity : Type := mkNodeEntity {
  e_config : NodeConfig;
  e_stage : NodeStage;
  e_generation : Z;
  e_pending_working_dir : option string;
  e_documents : list PinnedDocument;
  e_stage_tx : SerializedNodeStage;
}.

Definition set_stage (s : NodeStage) (e : NodeEntity) : NodeEntity :=
  mkNodeEntity (e_config e) s (e_generation e) (e_pending_working_dir e) (e_documents e)
    (e_stage_tx e).

Definition broadcast_stage (e : NodeEntity) : NodeEntity :=
  mkNodeEntity (e_config e) (e_stage e) (e_generation e) (e_pending_working_dir e)
    (e_documents e) (stage_to_serialized (e_stage e)).

Definition set_pending_working_dir_field (d : option string) (e : NodeEntity) : NodeEntity :=
  mkNodeEntity (e_config e) (e_stage e) (e_generation e) d (e_documents e) (e_stage_tx e).

Definition set_pending_working_dir (d : string) (e : NodeEntity) : NodeEntity :=
  set_pending_working_dir_field (Some d) e.

Definition node_name (e : NodeEntity) : string := m_name (manifest (e_config e)).
Definition node_tag (e : NodeEntity) : string := m_tag (manifest (e_config e)).

(** The errors of [error.rs]. Of [ConfigError], the dependency validator's. *)
Inductive Error : Type :=
| ConfigFailed (e : DependencyError)
| PairingSlotNotFound (instance_id link_id : string)
| PairingInstanceNotInStack (instance_id : string)
| PairingInstanceWithoutProcess (instance_id : string) (state : InstanceState)
| PairingSlotAlreadyPaired (slot peer : string)
| PairAlreadyHeld (slot peer : string)
| PairingRolesNotComplementary (a b role name tag : string)
| PairingMismatch (a name_a tag_a b name_b tag_b : string)
| PairingShaMismatch (a sha_a b sha_b name tag : string)
| CannotModifyRootNode
| CannotOverwriteNodeWithDependents (node_name node_tag : string)
| CannotOverwriteNodeWithLiveInstances (node_name node_tag : string)
| DuplicateInstanceId (instance_id node_name node_tag core_node : string) (state : InstanceState)
| RespawnTargetMissing (instance_id : string)
| StartClaimed (instance_id : string)
| CannotRemoveNodeWithInstances (node_name node_tag : string)
| InvalidStageTransition (node_name node_tag from to : string)
| BuildFailed (node_name node_tag reason : string)
| StartFailed (node_name node_tag reason : string)
| VirtualDeptreeCycle (nodes : list string)
| ServiceActionContractCycle (nodes : list string) (closing_dependency kind : string)
| DuplicateLocalNode (name tag first second : string).

(** ** Construction *)

Definition with_stage (config : NodeConfig) (stage : NodeStage) (documents : list PinnedDocument)
    (w : World) : NodeEntity * World :=
  let '(generation, w) := next_entity_generation w in
  (mkNodeEntity config stage generation None documents (stage_to_serialized stage), w).

Definition NodeEntity_new (config : NodeConfig) (config_path : string)
    (documents : list PinnedDocument) (w : World) : NodeEntity * World :=
  with_stage config (Added config_path) documents w.

Definition NodeEntity_built_in (config : NodeConfig) (config_path : string)
    (launch : BuiltInLaunch) (documents : list PinnedDocument) (w : World) : NodeEntity * World :=
  with_stage config (Ready config_path (BuiltIn launch) []) documents w.

Definition NodeEntity_root (config : NodeConfig) (root_path : string)
    (instance : TrackedNodeInstance) (w : World) : NodeEntity * World :=
  with_stage config (Root root_path instance) [] w.

(** ** Reads *)

Definition built_in_launch (e : NodeEntity) : option BuiltInLaunch :=
  match e_stage e with Ready _ artifact _ => Artifact_built_in artifact | _ => None end.

Definition config_path (e : NodeEntity) : string :=
  match e_stage e with Added p | Building p | Ready p _ _ | Root p _ => p end.

Definition artifact_path (e : NodeEntity) : option string :=
  match e_stage e with
  | Added _ | Building _ | Root _ _ => None
  | Ready _ artifact _ => Some (Artifact_path artifact)
  end.

Definition instances (e : NodeEntity) : list TrackedNodeInstance :=
  match e_stage e with
  | Ready _ _ l => l
  | Root _ i => [i]
  | Added _ | Building _ => []
  end.

Definition instance (e : NodeEntity) (instance_id : string) : option TrackedNodeInstance :=
  List.find (id_is instance_id) (instances e).

(** [instances_mut]: the slots an operation may edit, none of them the
    root's. *)
Definition instances_mut (e : NodeEntity) : list TrackedNodeInstance :=
  match e_stage e with Ready _ _ l => l | _ => [] end.

Definition set_instances (l : list TrackedNodeInstance) (e : NodeEntity) : NodeEntity :=
  match e_stage e with
  | Ready p a _ => set_stage (Ready p a l) e
  | _ => e
  end.

Definition instance_mut (e : NodeEntity) (instance_id : string) : option TrackedNodeInstance :=
  List.find (id_is instance_id) (instances_mut e).

(** An edit through [instance_mut]. *)
Definition update_instance (instance_id : string) (f : TrackedNodeInstance → TrackedNodeInstance)
    (e : NodeEntity) : NodeEntity :=
  set_instances (update_first (id_is instance_id) f (instances_mut e)) e.

(** [instance_mut(id).filter(guard).map(edit)]: the result of the edit and the
    entity after it, or the entity unchanged. *)
Definition edit_when {A} (guard : TrackedNodeInstance → bool) (instance_id : string)
    (edit : TrackedNodeInstance → A * TrackedNodeInstance) (e : NodeEntity) :
    option A * NodeEntity :=
  match option_filter guard (instance_mut e instance_id) with
  | None => (None, e)
  | Some i =>
      let '(a, i') := edit i in
      (Some a, update_instance instance_id (λ _, i') e)
  end.

Definition process_group (e : NodeEntity) (pid : Z) : ProcessGroup :=
  mkProcessGroup pid (opt_is_some (container (execution (e_config e)))).

Definition pairing_slot_cardinality (e : NodeEntity) (link_id : string) : option Cardinality :=
  d ← depends_on (manifest (e_config e));
  pd_cardinality <$> List.find (λ p, bool_decide (pd_link_id p = link_id)) (pairings d).

(** ** Working directories *)

Definition take_pending_working_dir_if_generation (expected : Z) (e : NodeEntity) :
    result Z (option string) * NodeEntity :=
  if e_generation e =? expected then
    (Ok (e_pending_working_dir e), set_pending_working_dir_field None e)
  else (Err (e_generation e), e).

(** The [debug_assert] of another stage is not in a release build. *)
Definition rollback_building_to_added (working_dir : string) (e : NodeEntity) : NodeEntity :=
  match e_stage e with
  | Building p => set_pending_working_dir working_dir (broadcast_stage (set_stage (Added p) e))
  | _ => e
  end.

(** ** Building *)

Record BuildSnapshot : Type := mkBuildSnapshot {
  bs_node_name : string;
  bs_node_tag : string;
  bs_config_path : string;
  bs_container : option ContainerConfig;
  bs_build_cmd : option (list string);
  bs_language : PeppygenLanguage;
  bs_generation : Z;
}.

Definition build_failed (s : BuildSnapshot) (reason : string) : Error :=
  BuildFailed (bs_node_name s) (bs_node_tag s) reason.

(** The first critical section of [build]: the entity moves to [Building]. *)
Definition build_begin (e : NodeEntity) : result Error (BuildSnapshot * NodeEntity) :=
  match ensure_buildable (e_stage e) with
  | Err from => Err (InvalidStageTransition (node_name e) (node_tag e) from "Ready")
  | Ok _ =>
      let p := config_path e in
      Ok (mkBuildSnapshot (node_name e) (node_tag e) p
            (container (execution (e_config e))) (build_cmd (execution (e_config e)))
            (language (execution (e_config e))) (e_generation e),
          broadcast_stage (set_stage (Building p) e))
  end.

(** The last critical section of [build]. *)
Definition build_finish (s : BuildSnapshot) (build_result : result Error string) (e : NodeEntity) :
    result Error string * NodeEntity :=
  if negb (bool_decide (stage_to_serialized (e_stage e) = SBuilding))
     || negb (e_generation e =? bs_generation s)
  then (Err (InvalidStageTransition (bs_node_name s) (bs_node_tag s)
               (stage_name (e_stage e)) "Ready"), e)
  else
    match build_result with
    | Err err => (Err err, e)
    | Ok artifact_path =>
        (Ok artifact_path,
         broadcast_stage (set_stage (Ready (bs_config_path s) (Built artifact_path) []) e))
    end.

(** What the build runs outside the lock: the fingerprint's cache slot, the
    steps of the build and whether it was cancelled. *)
Record CacheSlot : Type := mkCacheSlot {
  slot_path : string;
  slot_cached : bool;
}.

Record BuildSteps : Type := mkBuildSteps {
  resolve_slot : BuildSnapshot → result string CacheSlot;
  rebuild : bool;
  mirror : bool;
  cancelled : bool;
  build_container_image : ContainerConfig → result string string;
  run_build_cmd : option (list string) → result string unit;
  move_sif_to_storage : string → string → result string string;
  archive_dir_to_storage : string → result string string;
}.

Definition build_and_publish (s : BuildSnapshot) (c : BuildSteps) (destination : string) :
    result Error string :=
  built_image ←
    match bs_container s with
    | Some container =>
        Some <$> map_err (build_failed s) (build_container_image c container)
    | None =>
        (λ _, None) <$> map_err (λ reason, build_failed s ("build_cmd failed: " +:+ reason))
                          (run_build_cmd c (bs_build_cmd s))
    end;
  match built_image with
  | Some sif =>
      map_err (λ e, build_failed s ("failed to move container image to storage: " +:+ e))
        (move_sif_to_storage c sif destination)
  | None =>
      map_err (λ e, build_failed s ("failed to archive node directory: " +:+ e))
        (archive_dir_to_storage c destination)
  end.

(** [produce_artifact], and whether the lock files of a Python node are left
    rewritten to the package mirror. *)
Definition produce_artifact (s : BuildSnapshot) (c : BuildSteps) : result Error string * bool :=
  match resolve_slot c s with
  | Err reason => (Err (build_failed s reason), false)
  | Ok slot =>
      if slot_cached slot && negb (rebuild c) then (Ok (slot_path slot), false)
      else
        let rewritten :=
          mirror c && match bs_language s with Python => true | Rust => false end in
        if cancelled c then (Err (build_failed s "build cancelled"), false)
        else
          match build_and_publish s c (slot_path slot) with
          | Ok p => (Ok p, rewritten)
          | Err e => (Err e, false)
          end
  end.

(** [NodeEntity::build], [others] being what other threads do to the entity
    behind the handle while the artifact is built. *)
Definition build (c : BuildSteps) (others : NodeEntity → NodeEntity) (e : NodeEntity) :
    result Error string * NodeEntity :=
  match build_begin e with
  | Err err => (Err err, e)
  | Ok (s, e) => build_finish s (produce_artifact s c).1 (others e)
  end.

(** ** Starting *)

(** [undo_start]: the starting slot goes back to waiting when it was a restart
    no stop claimed, else it goes. *)
Definition starting_slot (instance_id : string) (i : TrackedNodeInstance) : bool :=
  id_is instance_id i && state_is Starting i.

Definition undo_start (instance_id : string) (e : NodeEntity) : NodeEntity :=
  match List.find (starting_slot instance_id) (instances_mut e) with
  | None => e
  | Some i =>
      if starts_a_restart i && negb (i_stopping i)
      then set_instances (update_first (starting_slot instance_id) revert_respawn (instances_mut e)) e
      else
        match remove_first (starting_slot instance_id) (instances_mut e) with
        | Some (_, l) => set_instances l e
        | None => e
        end
  end.

Definition abandoned_start_group (instance_id : string) (run : StartRun) (e : NodeEntity) :
    option ProcessGroup :=
  i ← option_filter (λ i, starts_for i run) (instance e instance_id);
  pid ← i_pid i;
  Some (process_group e pid).

(** [undo_abandoned_start]; [others] acts between its two critical sections. *)
Definition undo_abandoned_start (instance_id : string) (run : StartRun)
    (others : NodeEntity → NodeEntity) (e : NodeEntity) : bool * NodeEntity :=
  let '(starts_for_run, awaits_its_restart) :=
    match instance e instance_id with
    | Some i => (starts_for i run, awaits_restart_of i run)
    | None => (false, false)
    end in
  (starts_for_run || awaits_its_restart,
   if starts_for_run then undo_start instance_id (others e) else others e).

Definition record_starting_process (instance_id : string) (pid : Z) (files : SpawnFiles)
    (e : NodeEntity) : NodeEntity :=
  (edit_when (state_is Starting) instance_id
     (λ i, (tt, set_starting_process pid files i)) e).2.

Record StartContext : Type := mkStartContext {
  sc_core_node : string;
  sc_run_log_path : string;
  sc_instance_id : string;
  sc_slot_bindings : SlotBindings;
  sc_clock : ClockBinding;
  sc_launch : option LaunchIdentity;
  sc_copy : option string;
  sc_spawn : SpawnTarget;
  sc_credential : string;
}.

Record StartedInstanceCtx : Type := mkStartedInstanceCtx {
  started_instance_dir : string;
  started_spawn_files : SpawnFiles;
  started_group : ProcessGroup;
  started_generation : Z;
}.

(** Phase 1 of [prepare_and_spawn]: the slot is registered, or taken from
    waiting to starting; what the later phases read comes back. *)
Definition spawn_register (ctx : StartContext) (e : NodeEntity) (w : World) :
    result Error (NodeConfig * Artifact * Z * NodeEntity) * World :=
  match e_stage e with
  | Ready _ artifact l =>
      let registered l w :=
        (Ok (e_config e, artifact, e_generation e, set_instances l e), w) in
      match sc_spawn ctx with
      | NewInstance first =>
          match List.find (id_is (sc_instance_id ctx)) l with
          | Some tracked =>
              (Err (DuplicateInstanceId (sc_instance_id ctx) (node_name e) (node_tag e)
                      (sc_core_node ctx) (i_state tracked)), w)
          | None =>
              let '(i, w) :=
                TrackedNodeInstance_new (sc_instance_id ctx) Starting (sc_slot_bindings ctx) w in
              registered
                (l ++ [with_run_log (sc_run_log_path ctx)
                         (with_first_start first
                            (with_copy (sc_copy ctx)
                               (with_launch (sc_launch ctx) (with_clock (sc_clock ctx) i))))])
                w
          end
      | Respawn =>
          let target i := id_is (sc_instance_id ctx) i && awaits_restart i in
          match List.find target l with
          | None => (Err (RespawnTargetMissing (sc_instance_id ctx)), w)
          | Some slot =>
              let '(slot', w) := begin_respawn slot w in
              registered (update_first target (λ _, slot') l) w
          end
      end
  | other =>
      (Err (InvalidStageTransition (node_name e) (node_tag e) (stage_name other) "spawn instance"), w)
  end.

(** Phase 3b: under one critical section, nothing forks for a slot a stop has
    claimed, and a fork's pid is recorded with it. [fork] is the result of
    [command.spawn()] and the child's pid. *)
Definition spawn_fork (instance_id : string) (files : SpawnFiles) (name tag : string)
    (fork : result string (option Z)) (e : NodeEntity) : result Error Z * NodeEntity :=
  if match instance e instance_id with Some i => i_stopping i | None => false end
  then (Err (StartClaimed instance_id), e)
  else
    match fork with
    | Err reason => (Err (StartFailed name tag reason), e)
    | Ok None => (Err (StartFailed name tag "the process has no pid"), e)
    | Ok (Some pid) => (Ok pid, record_starting_process instance_id pid files e)
    end.

(** What the phases between run: the instance directory, the spawn command
    (its runtime config) and the fork. *)
Record SpawnSteps : Type := mkSpawnSteps {
  prepare_dir : NodeConfig → Artifact → result string string;
  build_command : NodeConfig → Artifact → string → result string string;
  fork_command : string → result string (option Z);
}.

(** [prepare_and_spawn]. [others n] is what other threads do to the entity in
    the [n]-th gap between its critical sections. The key file's guard removes
    the file on every return before the fork. *)
Definition prepare_and_spawn (ctx : StartContext) (steps : SpawnSteps)
    (others : nat → NodeEntity * World → NodeEntity * World) (e : NodeEntity) (w : World) :
    result Error (Z * StartedInstanceCtx) * NodeEntity * World :=
  let id := sc_instance_id ctx in
  let key := remove_path (sc_credential ctx) in
  match spawn_register ctx e w with
  | (Err err, w) => (Err err, e, key w)
  | (Ok (config, artifact, generation, e), w) =>
      let name := m_name (manifest config) in
      let tag := m_tag (manifest config) in
      match prepare_dir steps config artifact with
      | Err reason =>
          let '(e, w) := others 0%nat (e, w) in
          (Err (StartFailed name tag reason), undo_start id e, key w)
      | Ok dir =>
          match build_command steps config artifact dir with
          | Err reason =>
              let '(e, w) := others 1%nat (e, w) in
              (Err (StartFailed name tag ("failed to build spawn command: " +:+ reason)),
               undo_start id e, key (remove_path dir w))
          | Ok runtime_config =>
              let files := mkSpawnFiles runtime_config (sc_credential ctx) in
              let '(e, w) := others 2%nat (e, w) in
              match spawn_fork id files name tag (fork_command steps runtime_config) e with
              | (Err err, e) =>
                  let '(e, w) := others 3%nat (e, SpawnFiles_remove files (remove_path dir w)) in
                  (Err err, undo_start id e, key w)
              | (Ok pid, e) =>
                  (Ok (pid, mkStartedInstanceCtx dir files
                         (mkProcessGroup pid (opt_is_some (container (execution config))))
                         generation), e, w)
              end
          end
      end
  end.

(** [commit_starting_instance]. *)
Definition commit_starting_instance (start_generation : Z) (instance_id instance_dir : string)
    (endpoints : list InstanceEndpoint) (now sysnow : Z) (e : NodeEntity) :
    result Error unit * NodeEntity :=
  let refuse from to := Err (InvalidStageTransition (node_name e) (node_tag e) from to) in
  if negb (e_generation e =? start_generation) then (refuse "stale-generation" "Running", e)
  else
    match e_stage e with
    | Ready _ _ l =>
        match List.find (id_is instance_id) l with
        | None => (refuse "missing" "Running", e)
        | Some i =>
            if negb (state_is Starting i) then (refuse "Running" "Running", e)
            else
              (Ok tt,
               update_instance instance_id
                 (λ i, record_running now sysnow
                         (set_i_endpoints endpoints (set_running instance_dir i))) e)
        end
    | other => (refuse (stage_name other) "Ready", e)
    end.

(** [commit_started]: a refused commit kills the process group and removes the
    start's files; the group killed, if any, comes back. *)
Definition commit_started (ctx : StartedInstanceCtx) (instance_id : string)
    (endpoints : list InstanceEndpoint) (now sysnow : Z) (e : NodeEntity) (w : World) :
    result Error unit * option ProcessGroup * NodeEntity * World :=
  match commit_starting_instance (started_generation ctx) instance_id (started_instance_dir ctx)
          endpoints now sysnow e with
  | (Ok _, e) => (Ok tt, None, e, w)
  | (Err err, e) =>
      (Err err, Some (started_group ctx), e,
       SpawnFiles_remove (started_spawn_files ctx) (remove_path (started_instance_dir ctx) w))
  end.

(** [abort_started], after its kill: the files go, and the slot when the entity
    is still the one the start registered in. [others] acts between the read of
    the generation and the critical section of [undo_start]. *)
Definition abort_started (ctx : StartedInstanceCtx) (instance_id : string)
    (others : NodeEntity → NodeEntity) (e : NodeEntity) (w : World) : NodeEntity * World :=
  (if e_generation e =? started_generation ctx then undo_start instance_id (others e) else others e,
   SpawnFiles_remove (started_spawn_files ctx) (remove_path (started_instance_dir ctx) w)).

(** ** Ends and restarts *)

Definition mark_instance_exited (instance_id : string) (pid : Z) (cause : ExitCause)
    (b : RestartBackoff) (now sysnow : Z) (taken : Registrations) (e : NodeEntity) :
    option ExitRecord * NodeEntity :=
  edit_when (λ i, runs_unclaimed_process i pid) instance_id
    (record_exit cause b now sysnow taken) e.

Definition edit_awaiting_restart {A} (instance_id : string)
    (edit : TrackedNodeInstance → A * TrackedNodeInstance) (e : NodeEntity) :
    option A * NodeEntity :=
  edit_when awaits_restart instance_id edit e.

Definition mark_start_failed (instance_id : string) (exit : ExitCause) (b : RestartBackoff)
    (now sysnow : Z) (e : NodeEntity) : option Attempt * NodeEntity :=
  edit_awaiting_restart instance_id
    (λ i, take_next_attempt b None now sysnow (edit_supervision (set_last_exit (Some exit)) i)) e.

Definition mark_restart_refused (instance_id : string) (e : NodeEntity) : bool * NodeEntity :=
  let '(r, e) :=
    edit_awaiting_restart instance_id
      (λ i, (tt, edit_supervision (set_next_start None) (set_i_state Failed i))) e in
  (opt_is_some r, e).

Definition record_respawn_log (instance_id path : string) (e : NodeEntity) : NodeEntity :=
  (edit_awaiting_restart instance_id (λ i, (tt, set_i_run_log_path (Some path) i)) e).2.

Definition awaiting_restart_slot (e : NodeEntity) (instance_id : string) :
    option TrackedNodeInstance :=
  option_filter awaits_restart (instance e instance_id).

Definition respawn_inputs_of (instance_id : string) (e : NodeEntity) : option RespawnInputs :=
  i ← awaiting_restart_slot e instance_id;
  first ← first_start (i_supervision i);
  let r := registrations (i_supervision i) in
  Some (mkRespawnInputs
          (for_respawn (arc_goal (fs_goal first)) (i_slot_bindings i)
             (observations r) (watchers r))
          (held_pairs (i_supervision i)) (fs_restart first) (fs_goal first)
          (restart_count (i_supervision i)) (i_run_log_path i)).

(** ** Claims

    [claim_once] works through the slot's own atomics, so a claim needs no
    write access and reaches the root's instance too. *)
Definition update_shared (instance_id : string) (f : TrackedNodeInstance → TrackedNodeInstance)
    (e : NodeEntity) : NodeEntity :=
  match e_stage e with
  | Root p i => set_stage (Root p (if id_is instance_id i then f i else i)) e
  | _ => update_instance instance_id f e
  end.

Definition claim_instance (instance_id : string) (e : NodeEntity) :
    option TrackedNodeInstance * NodeEntity :=
  match instance e instance_id with
  | None => (None, e)
  | Some i => (Some (mark_stopping i), update_shared instance_id mark_stopping e)
  end.

Definition claim_process (instance_id : string) (pid : Z) (e : NodeEntity) :
    ProcessClaim * NodeEntity :=
  match option_filter (λ i, runs_process i pid) (instance e instance_id) with
  | None => (Gone, e)
  | Some i =>
      let '(first, i') := claim_once i in
      (if first then Claimed else ClaimedElsewhere, update_shared instance_id (λ _, i') e)
  end.

Definition claim_starting (instance_id : string) (e : NodeEntity) : StartingClaim * NodeEntity :=
  match option_filter (state_is Starting) (instance e instance_id) with
  | None => (NotStarting, e)
  | Some i =>
      if negb (i_stopping i) && negb (starts_a_restart i) then (IsFirstStart, e)
      else
        let '(first, i') := claim_once i in
        (if first then StartingClaimed (KeptRelations_of (i_supervision i))
         else StartingClaimedElsewhere,
         update_shared instance_id (λ _, i') e)
  end.

Definition entity_runs_unclaimed_process (instance_id : string) (pid : Z) (e : NodeEntity) : bool :=
  match instance e instance_id with
  | Some i => runs_unclaimed_process i pid
  | None => false
  end.

(** [stop_instance]: the first slot with the id that is not starting goes, with
    its files. *)
Definition stoppable_slot (instance_id : string) (i : TrackedNodeInstance) : bool :=
  id_is instance_id i && negb (state_is Starting i).

Definition stop_instance (instance_id : string) (e : NodeEntity) (w : World) :
    option KeptRelations * NodeEntity * World :=
  match e_stage e with
  | Ready _ _ l =>
      match remove_first (stoppable_slot instance_id) l with
      | None => (None, e, w)
      | Some (removed, l) =>
          (Some (KeptRelations_of (i_supervision removed)), set_instances l e,
           remove_instance_files removed w)
      end
  | _ => (None, e, w)
  end.

Definition claim_and_remove_slot (instance_id : string) (e : NodeEntity) (w : World) :
    option KeptRelations * NodeEntity * World :=
  match claim_instance instance_id e with
  | (None, e) => (None, e, w)
  | (Some _, e) => stop_instance instance_id e w
  end.

Definition claim_and_remove (instance_id : string) (stopped_pid : option Z) (e : NodeEntity)
    (w : World) : SlotRemoval * NodeEntity * World :=
  match instance e instance_id with
  | None => (Untracked, e, w)
  | Some i =>
      let remove :=
        match claim_and_remove_slot instance_id e w with
        | (Some kept, e, w) => (Removed kept, e, w)
        | (None, e, w) => (Untracked, e, w)
        end in
      match i_state i with
      | Starting => (Left (LeftStarting (starts_a_restart i)), e, w)
      | Running =>
          if negb (bool_decide (i_pid i = stopped_pid)) then (Left RunsAnotherProcess, e, w)
          else remove
      | Restarting | Finished | Failed => remove
      end
  end.

(** ** Edits of a slot *)

Definition edit_instance (instance_id : string) (edit : TrackedNodeInstance → TrackedNodeInstance)
    (e : NodeEntity) : bool * NodeEntity :=
  let '(r, e) := edit_when (λ _, true) instance_id (λ i, (tt, edit i)) e in (opt_is_some r, e).

Definition edit_restarting (instance_id : string) (edit : TrackedNodeInstance → TrackedNodeInstance)
    (e : NodeEntity) : bool * NodeEntity :=
  let '(r, e) := edit_when (state_is Restarting) instance_id (λ i, (tt, edit i)) e in
  (opt_is_some r, e).

Definition edit_process (instance_id : string) (pid : Z)
    (edit : TrackedNodeInstance → TrackedNodeInstance) (e : NodeEntity) : NodeEntity :=
  (edit_when (λ i, runs_process i pid) instance_id (λ i, (tt, edit i)) e).2.

(** [record_held_pair]: on a scalar slot the pair displaces any other. *)
Definition hold_pair (scalar : bool) (pair : PlannedPair) (held : list PlannedPair) :
    list PlannedPair * list PlannedPair :=
  let '(displaced, held) :=
    if scalar then
      partition_list (λ other, bool_decide (own other = own pair) && bool_decide (other ≠ pair)) held
    else ([], held) in
  (displaced, if bool_decide (pair ∈ held) then held else held ++ [pair]).

Definition record_held_pair (pair : PlannedPair) (e : NodeEntity) :
    option (list PlannedPair) * NodeEntity :=
  match pairing_slot_cardinality e (slot_link_id (own pair)) with
  | None => (None, e)
  | Some own_cardinality =>
      edit_when (λ _, true) (slot_instance_id (own pair))
        (λ i,
           let '(displaced, held) :=
             hold_pair (is_scalar own_cardinality) pair (held_pairs (i_supervision i)) in
           (displaced, edit_supervision (set_held_pairs held) i)) e
  end.

Definition forget_held_pair (pair : PlannedPair) (e : NodeEntity) : NodeEntity :=
  (edit_instance (slot_instance_id (own pair))
     (λ i, edit_supervision
             (set_held_pairs
                (retain (λ held, negb (bool_decide (held = pair))) (held_pairs (i_supervision i)))) i)
     e).2.

Definition forget_pairs_held_with (peer_core_node peer_instance_id : string) (e : NodeEntity) :
    NodeEntity :=
  set_instances
    (map (λ i, edit_supervision
                 (set_held_pairs
                    (retain
                       (λ held,
                          negb (bool_decide (slot_core_node (peer held) = peer_core_node))
                          || negb (bool_decide (slot_instance_id (peer held) = peer_instance_id)))
                       (held_pairs (i_supervision i)))) i)
       (instances_mut e)) e.

Definition record_observations_for_restart (instance_id : string)
    (obs : gmap string ObservationTargets) (e : NodeEntity) : bool * NodeEntity :=
  edit_restarting instance_id
    (λ i, edit_supervision
            (λ s, set_registrations
                    (mkRegistrations (obs ∪ observations (registrations s))
                       (watchers (registrations s))) s) i) e.

Definition record_watchers_for_restart (instance_id : string) (ws : list string) (e : NodeEntity) :
    NodeEntity :=
  (edit_restarting instance_id
     (λ i, edit_supervision
             (λ s, set_registrations (mkRegistrations (observations (registrations s)) ws) s) i) e).2.

(** [arm_health_kill]: marks the kill on an unclaimed running slot with a pid
    and hands back the group to kill. *)
Definition arm_health_kill (instance_id : string) (kill : HealthKill) (e : NodeEntity) :
    option ProcessGroup * NodeEntity :=
  match option_filter runs_unclaimed (instance_mut e instance_id) with
  | None => (None, e)
  | Some i =>
      match i_pid i with
      | None => (None, e)
      | Some pid =>
          (Some (process_group e pid),
           update_instance instance_id (edit_supervision (set_health_kill (Some kill))) e)
      end
  end.

(** The [+= 1] of a [u32], which wraps in a release build. *)
Definition note_shutdown_request (instance_id : string) (pid : Z) (e : NodeEntity) : NodeEntity :=
  edit_process instance_id pid
    (λ i, set_i_shutdown_requests (u32_wrapping_add (i_shutdown_requests i) 1) i) e.

Definition withdraw_shutdown_request (instance_id : string) (pid : Z) (e : NodeEntity) : NodeEntity :=
  edit_process instance_id pid
    (λ i, set_i_shutdown_requests (u32_saturating_sub (i_shutdown_requests i) 1) i) e.

Definition set_instance_slot_binding (instance_id link_id : string) (producers : BoundProducers)
    (e : NodeEntity) : bool * NodeEntity :=
  edit_instance instance_id (set_slot_binding link_id producers) e.

Definition record_slot_binding_for_restart (instance_id link_id : string)
    (producers : BoundProducers) (e : NodeEntity) : bool * NodeEntity :=
  edit_restarting instance_id (set_slot_binding link_id producers) e.

(** ** Lemmas: what an edit of the slots leaves alone *)

(** Two entities that differ in their slots at most. *)
Definition same_but_slots (e e' : NodeEntity) : Prop :=
  e_config e' = e_config e ∧ e_generation e' = e_generation e ∧
  e_pending_working_dir e' = e_pending_working_dir e ∧ e_documents e' = e_documents e ∧
  e_stage_tx e' = e_stage_tx e ∧
  stage_to_serialized (e_stage e') = stage_to_serialized (e_stage e) ∧
  config_path e' = config_path e ∧ artifact_path e' = artifact_path e.

#[export] Instance same_but_slots_refl : Reflexive same_but_slots.
Proof. by intros e. Qed.

#[export] Instance same_but_slots_trans : Transitive same_but_slots.
Proof. intros e1 e2 e3. unfold same_but_slots. intuition congruence. Qed.

Lemma set_instances_frame l e : same_but_slots e (set_instances l e).
Proof. unfold set_instances, same_but_slots, config_path, artifact_path. by destruct (e_stage e) eqn:E; cbn; rewrite ?E. Qed.

Lemma set_instances_self e : set_instances (instances_mut e) e = e.
Proof. destruct e as [c [ | | | ] g d doc tx]; done. Qed.

Lemma set_instances_twice l l' e : set_instances l (set_instances l' e) = set_instances l e.
Proof. destruct e as [c [ | | | ] g d doc tx]; done. Qed.

Lemma instances_mut_set l e :
  instances_mut (set_instances l e) = match e_stage e with Ready _ _ _ => l | _ => [] end.
Proof. destruct e as [c [ | | | ] g d doc tx]; done. Qed.

Lemma instances_mut_ready p a l e : e_stage e = Ready p a l → instances_mut e = l ∧ instances e = l.
Proof. unfold instances_mut, instances. by intros ->. Qed.

Lemma not_ready_no_slots e :
  (∀ p a l, e_stage e ≠ Ready p a l) → instances_mut e = [].
Proof. unfold instances_mut. intros H. destruct (e_stage e) eqn:E; naive_solver. Qed.

Lemma instances_mut_update id f e :
  instances_mut (update_instance id f e) = update_first (id_is id) f (instances_mut e).
Proof. unfold update_instance. rewrite instances_mut_set. unfold instances_mut. by destruct (e_stage e). Qed.

Lemma update_instance_frame id f e : same_but_slots e (update_instance id f e).
Proof. apply set_instances_frame. Qed.

Lemma edit_when_frame {A} guard id (edit : _ → A * _) e : same_but_slots e (edit_when guard id edit e).2.
Proof.
  unfold edit_when. case_match; [|done]. destruct (edit _). apply update_instance_frame.
Qed.

(** The slot an edit ran on, and the entity after it. *)
Lemma edit_when_cases {A} guard id (edit : _ → A * _) e :
  (∃ i, instance_mut e id = Some i ∧ guard i = true ∧
     edit_when guard id edit e = (Some (edit i).1, update_instance id (λ _, (edit i).2) e)) ∨
  (edit_when guard id edit e = (None, e) ∧ ∀ i, instance_mut e id = Some i → guard i = false).
Proof.
  unfold edit_when. destruct (instance_mut e id) as [i|]; simpl; [|right; naive_solver].
  destruct (guard i) eqn:G; [left | right; naive_solver].
  exists i. by destruct (edit i).
Qed.

Lemma instance_mut_elem e id i : instance_mut e id = Some i → i ∈ instances_mut e ∧ i_instance_id i = id.
Proof. intros [? ?%id_is_true]%find_elem_of. done. Qed.

(** A property of slots is kept by an edit that keeps it under its guard. *)
Lemma edit_when_Forall {A} (P : TrackedNodeInstance → Prop) guard id (edit : _ → A * _) e :
  (∀ i, i ∈ instances_mut e → i_instance_id i = id → guard i = true → P i → P (edit i).2) →
  Forall P (instances_mut e) → Forall P (instances_mut (edit_when guard id edit e).2).
Proof.
  intros Hedit HP. destruct (edit_when_cases guard id edit e) as [(i & Hi & Hg & ->)|[-> _]]; [|done].
  cbn. rewrite instances_mut_update. apply Forall_update_first; [done|].
  intros x Hx Px. unfold instance_mut in Hi. rewrite Hi in Hx. simplify_eq.
  destruct (instance_mut_elem e id x Hi). auto.
Qed.

Lemma edit_when_map {A B} (g : TrackedNodeInstance → B) guard id (edit : _ → A * _) e :
  (∀ i, guard i = true → g (edit i).2 = g i) →
  map g (instances_mut (edit_when guard id edit e).2) = map g (instances_mut e).
Proof.
  intros Hg. destruct (edit_when_cases guard id edit e) as [(i & Hi & Hgu & ->)|[-> _]]; [|done].
  cbn. rewrite instances_mut_update.
  revert Hi. unfold instance_mut. induction (instances_mut e) as [|x l IH]; simpl; [done|].
  destruct (id_is id x); simpl; intros H; [simplify_eq; by rewrite Hg | by rewrite IH].
Qed.

(** ** Builds *)

(** A build publishes only into the entity it began on: when the entity
    behind the handle is replaced, rolled back or built by another run while
    the artifact is made, the build fails and leaves it exactly as the others
    left it; a failed build leaves it building; and only a build that succeeds
    on the same entity makes it ready, with its own artifact and no instance. *)
Lemma build_publishes_only_its_own (c : BuildSteps) (others : NodeEntity → NodeEntity)
    (e : NodeEntity) :
  match build c others e with
  | (Ok artifact, e') =>
      ∃ p, e_stage e = Added p ∧
        let seen := others (broadcast_stage (set_stage (Building p) e)) in
        (∃ q, e_stage seen = Building q) ∧ e_generation seen = e_generation e ∧
        e' = broadcast_stage (set_stage (Ready p (Built artifact) []) seen)
  | (Err err, e') =>
      e' = e ∧ (∀ p, e_stage e ≠ Added p) ∨
      ∃ p, e_stage e = Added p ∧ e' = others (broadcast_stage (set_stage (Building p) e))
  end.
Proof.
  unfold build, build_begin, ensure_buildable.
  destruct (e_stage e) as [p|p|p a l|p i] eqn:Es; try (left; split; [done|]; congruence).
  unfold config_path. rewrite Es. cbn zeta iota beta.
  set (seen := others _). unfold build_finish.
  destruct (negb (bool_decide (stage_to_serialized (e_stage seen) = SBuilding))) eqn:Eb; cbn [orb].
  { right. eauto. }
  destruct (e_generation seen =? _) eqn:Eg; cbn [negb]; [|right; eauto].
  destruct (produce_artifact _ _) as [[artifact|err] lk]; cbn [fst]; [|right; eauto].
  exists p. split; [done|]. fold seen. cbn zeta. split_and!; [|by apply Z.eqb_eq in Eg|done].
  apply negb_false_iff, bool_decide_eq_true in Eb. destruct (e_stage seen); try done. eauto.
Qed.

(** A ready entity and a concrete start, as the witnesses use them. *)
Definition example_config : NodeConfig :=
  mkNodeConfig
    (mkManifest "camera" "v1" ["A camera."] None []
       (Some (mkDependsOn [] [] []
          [mkPairingSlot "teleop" "v1" "leader" "arm" None One;
           mkPairingSlot "teleop" "v1" "leader" "arms" None ZeroOrMore] [])))
    Interfaces_default
    (mkExecution Rust None (Some ["run"]) None [] None false)
    (mkNodeFramework None).

Definition example_entity (l : list TrackedNodeInstance) : NodeEntity :=
  mkNodeEntity example_config (Ready "/cfg" (Built "/art") l) 1 None [] SReady.

Definition example_start (spawn : SpawnTarget) : StartContext :=
  mkStartContext "core" "/log" "cam" ∅ Wall None None spawn "/key".

Definition example_steps (fork : result string (option Z)) : SpawnSteps :=
  mkSpawnSteps (λ _ _, Ok "/inst/cam") (λ _ _ _, Ok "/rc") (λ _, fork).

(** ** Starts *)

Lemma find_app_not_found {A} (p : A → bool) l x :
  List.find p l = None → p x = true → List.find p (l ++ [x]) = Some x.
Proof.
  induction l as [|y l IH]; simpl; intros H Hx; [by rewrite Hx|]. by destruct (p y); [|apply IH].
Qed.

Lemma remove_app_not_found {A} (p : A → bool) l x :
  List.find p l = None → p x = true → remove_first p (l ++ [x]) = Some (x, l).
Proof.
  induction l as [|y l IH]; simpl; intros H Hx; [by rewrite Hx|]. destruct (p y); [done|].
  by rewrite IH.
Qed.

Lemma find_weaken {A} (p q : A → bool) l :
  (∀ x, q x = true → p x = true) → List.find p l = None → List.find q l = None.
Proof.
  rewrite !find_None_forall. intros Hpq H x Hx. destruct (q x) eqn:E; [|done].
  apply Hpq in E. by rewrite (H x Hx) in E.
Qed.

(** Undoing a first start removes the slot it appended. *)
Lemma undo_first_start e p a l i :
  e_stage e = Ready p a l → List.find (id_is (i_instance_id i)) l = None →
  i_state i = Starting → attempt (i_supervision i) = 0 →
  undo_start (i_instance_id i) (set_instances (l ++ [i]) e) = e.
Proof.
  intros Hst Hf Hs Ha. unfold undo_start. rewrite instances_mut_set, Hst.
  assert (starting_slot (i_instance_id i) i = true) as Hi.
  { unfold starting_slot, id_is, state_is. by rewrite !bool_decide_true. }
  assert (List.find (starting_slot (i_instance_id i)) l = None) as Hf'.
  { eapply find_weaken; [|exact Hf]. unfold starting_slot. by intros x [? _]%andb_true_iff. }
  rewrite find_app_not_found, remove_app_not_found by done.
  unfold starts_a_restart. rewrite Ha, andb_false_r. cbn. rewrite set_instances_twice.
  destruct (instances_mut_ready _ _ _ _ Hst) as [<- _]. apply set_instances_self.
Qed.

(** The process of a first start, recorded in the slot it appended. *)
Lemma record_first_process e p a l i pid files :
  e_stage e = Ready p a l → List.find (id_is (i_instance_id i)) l = None → i_state i = Starting →
  record_starting_process (i_instance_id i) pid files (set_instances (l ++ [i]) e) =
  set_instances (l ++ [set_starting_process pid files i]) e.
Proof.
  intros Hst Hf Hs. unfold record_starting_process, edit_when, instance_mut.
  rewrite instances_mut_set, Hst.
  assert (id_is (i_instance_id i) i = true) as Hi by (by apply id_is_true).
  rewrite find_app_not_found by done. cbn.
  assert (state_is Starting i = true) as -> by (by apply state_is_true). cbn.
  unfold update_instance. rewrite instances_mut_set, Hst, set_instances_twice. f_equal.
  rewrite find_None_forall in Hf. clear Hst. induction l as [|x l IH]; cbn; [by rewrite Hi|].
  rewrite Hf by set_solver. f_equal. apply IH. intros y Hy. apply Hf. set_solver.
Qed.

(** A refused start: the entity as it was, the key file gone. *)
Ltac no_trace := split; [done | apply elem_of_cons; by left].

(** C40: a first start that fails while nothing else touches the entity leaves
    the entity exactly as it was, and the start's key file is removed: at its
    directory, its command or its fork, as [prepare_and_spawn] undoes it, or once
    its process runs and is not ready in time, as [abort_started] undoes it, which
    removes the instance directory too. *)
Theorem failed_first_start_leaves_no_trace (ctx : StartContext) (first : FirstStart)
    (steps : SpawnSteps) (e : NodeEntity) (w : World) :
  sc_spawn ctx = NewInstance first →
  match prepare_and_spawn ctx steps (λ _ s, s) e w with
  | (Err _, e', w') => e' = e ∧ sc_credential ctx ∈ removed_paths w'
  | (Ok (_, started), e', w') =>
      let '(e'', w'') := abort_started started (sc_instance_id ctx) (λ e, e) e' w' in
      e'' = e ∧ sc_credential ctx ∈ removed_paths w'' ∧
      started_instance_dir started ∈ removed_paths w''
  end.
Proof.
  intros Hspawn. unfold prepare_and_spawn, spawn_register. rewrite Hspawn.
  destruct (e_stage e) as [p|p|p a l|p i] eqn:Hst; try no_trace.
  destruct (List.find (id_is (sc_instance_id ctx)) l) as [t|] eqn:Hf; [no_trace|].
  cbn [TrackedNodeInstance_new next_incarnation new_health_cell].
  set (i := with_run_log _ _).
  assert (i_instance_id i = sc_instance_id ctx) as Hid by done.
  assert (i_state i = Starting ∧ attempt (i_supervision i) = 0) as [Hs Ha] by done.
  clearbody i. rewrite <- Hid in *.
  assert (∀ j, i_instance_id j = i_instance_id i → i_state j = Starting → attempt (i_supervision j) = 0 →
    undo_start (i_instance_id i) (set_instances (l ++ [j]) e) = e) as Hundo.
  { intros j Hj ? ?. rewrite <- Hj. eapply undo_first_start; [exact Hst| |done..]. by rewrite Hj. }
  destruct (prepare_dir steps _ _) as [dir|r]; cbn zeta beta iota; [|rewrite (Hundo i) by done; no_trace].
  destruct (build_command steps _ _ _) as [rc|r]; cbn zeta beta iota; [|rewrite (Hundo i) by done; no_trace].
  unfold spawn_fork.
  match goal with |- context [if ?b then _ else _] => destruct b end; [rewrite (Hundo i) by done; no_trace|].
  destruct (fork_command steps rc) as [[pid|]|r]; [|rewrite (Hundo i) by done; no_trace..].
  unfold abort_started. rewrite (record_first_process e p a l i) by done. cbn [started_generation].
  destruct (set_instances_frame (l ++ [set_starting_process pid (mkSpawnFiles rc (sc_credential ctx)) i]) e)
    as (_ & -> & _). rewrite Z.eqb_refl. split_and!.
  - by apply Hundo.
  - cbn. set_solver.
  - cbn. set_solver.
Qed.

Lemma failed_first_start_leaves_no_trace_witness :
  (prepare_and_spawn (example_start (NewInstance example_first_start))
     (example_steps (Err "no such file")) (λ _ s, s) (example_entity []) example_world).1.2
  = example_entity [].
Proof.
  pose proof (failed_first_start_leaves_no_trace (example_start (NewInstance example_first_start))
    example_first_start (example_steps (Err "no such file")) (example_entity []) example_world eq_refl) as H.
  destruct (prepare_and_spawn (example_start (NewInstance example_first_start))
     (example_steps (Err "no such file")) (λ _ s, s) (example_entity []) example_world)
    as [[[r|err] e'] w'] eqn:E; [vm_compute in E; discriminate|].
  by destruct H as [-> _].
Defined.

(** The slot of an id, edited and undone. *)
Lemma instance_mut_ready e id i :
  instance_mut e id = Some i → ∃ p a l, e_stage e = Ready p a l ∧ List.find (id_is id) l = Some i.
Proof. unfold instance_mut, instances_mut. destruct (e_stage e); try done. eauto. Qed.

Lemma undo_restart e p a l i i' id :
  e_stage e = Ready p a l → List.find (id_is id) l = Some i → i_instance_id i' = id →
  starts_a_restart i' = true → i_stopping i' = false →
  undo_start id (set_instances (update_first (id_is id) (λ _, i') l) e) =
  update_instance id (λ _, revert_respawn i') e.
Proof.
  intros Hst Hf Hid Hsr Hstop. unfold undo_start. rewrite instances_mut_set, Hst.
  assert (id_is id i' = true) as Hi by (by apply id_is_true).
  pose proof (find_update_first_eq (id_is id) (λ _, i') l i Hf Hi) as Hf'.
  apply starts_a_restart_true in Hsr as [Hs Ha].
  assert (state_is Starting i' = true) as Hss by (by apply state_is_true).
  unfold starting_slot. rewrite (find_guard _ _ _ _ Hf' Hss).
  assert (starts_a_restart i' = true) as -> by (by apply starts_a_restart_true).
  rewrite Hstop. cbn [andb negb].
  rewrite (update_first_guard _ _ _ _ _ Hf' Hss), update_first_twice by done.
  rewrite set_instances_twice. unfold update_instance.
  by destruct (instances_mut_ready _ _ _ _ Hst) as [-> _].
Qed.

(** What a restart that failed to start leaves of its slot: everything it
    keeps between processes, under a new incarnation and a fresh health cell,
    waiting and unclaimed. *)
Definition waits_again (i i' : TrackedNodeInstance) (w : World) : Prop :=
  awaits_restart i' = true ∧ i_instance_id i' = i_instance_id i ∧
  i_pid i' = None ∧ i_spawn_files i' = None ∧
  i_slot_bindings i' = i_slot_bindings i ∧
  i_supervision i' = set_next_start None (i_supervision i) ∧
  i_incarnation i' = next_incarnation_value w ∧ i_healthy i' = next_cell w.

(** A restart that fails at any phase before its process is recorded, while
    nothing else touches the entity, puts its slot back to waiting with the
    attempts, pairs, registrations and bindings it had, so the next attempt
    starts from the same state. *)
Lemma failed_respawn_waits_again (ctx : StartContext) (steps : SpawnSteps)
    (e e' : NodeEntity) (w w' : World) (err : Error) (i : TrackedNodeInstance) :
  sc_spawn ctx = Respawn → instance_mut e (sc_instance_id ctx) = Some i →
  awaits_restart i = true → wf_instance i →
  prepare_and_spawn ctx steps (λ _ s, s) e w = (Err err, e', w') →
  ∃ i', e' = update_instance (sc_instance_id ctx) (λ _, i') e ∧ waits_again i i' w.
Proof.
  intros Hspawn Hi Haw Hwf. pose proof Haw as [Hs Hstop]%awaits_restart_true.
  pose proof (wf_restarting i Hwf Hs) as Ha.
  destruct (instance_mut_elem e _ i Hi) as [_ Hid].
  destruct (instance_mut_ready e _ i Hi) as (p & a & l & Hst & Hf).
  unfold prepare_and_spawn, spawn_register. rewrite Hst, Hspawn.
  rewrite (find_guard _ _ _ _ Hf Haw).
  destruct (begin_respawn i w) as [i' w1] eqn:Eb.
  rewrite (update_first_guard _ _ _ _ _ Hf Haw).
  assert (i' = (begin_respawn i w).1) as Hi' by (by rewrite Eb).
  set (e1 := set_instances _ e).
  assert (undo_start (sc_instance_id ctx) e1 =
    update_instance (sc_instance_id ctx) (λ _, revert_respawn i') e) as Hundo.
  { eapply undo_restart; [exact Hst|exact Hf| | |]; rewrite Hi'; [done| |done].
    by apply starts_a_restart_true. }
  assert (waits_again i (revert_respawn i') w) as Hw by (rewrite Hi'; cbn; split_and!; try done;
    by apply awaits_restart_true).
  clearbody e1. cbn zeta beta iota.
  destruct (prepare_dir steps _ _) as [dir|r]; [|intros; simplify_eq; eauto].
  destruct (build_command steps _ _ _) as [rc|r]; [|intros; simplify_eq; eauto].
  unfold spawn_fork.
  match goal with |- context [if ?b then _ else _] => destruct b end; [intros; simplify_eq; eauto|].
  destruct (fork_command steps rc) as [[pid|]|r]; intros; simplify_eq; eauto.
Qed.

Definition example_waiting : TrackedNodeInstance :=
  (record_exit (Code 1) (mkRestartBackoff 1 60 1000) 150 150 Registrations_default
     example_running).2.

Lemma example_waiting_wf : wf_instance example_waiting.
Proof. apply record_exit_wf; [reflexivity|apply example_running_wf]. Qed.

Lemma failed_respawn_waits_again_witness :
  ∃ i', (prepare_and_spawn (example_start Respawn) (example_steps (Ok None)) (λ _ s, s)
           (example_entity [example_waiting]) example_world).1.2
        = update_instance "cam" (λ _, i') (example_entity [example_waiting]) ∧
        waits_again example_waiting i' example_world.
Proof.
  destruct (prepare_and_spawn (example_start Respawn) (example_steps (Ok None)) (λ _ s, s)
    (example_entity [example_waiting]) example_world) as [[[r|err] e'] w'] eqn:E;
    [vm_compute in E; discriminate|].
  apply (failed_respawn_waits_again (example_start Respawn) (example_steps (Ok None))
    (example_entity [example_waiting]) e' example_world w' err example_waiting);
    [reflexivity | reflexivity | reflexivity | apply example_waiting_wf | exact E].
Defined.

(** ** Commits *)

(** A start commits only into the entity it registered in, while its slot
    is starting: the slot then runs, timed from now, serving the endpoints it
    announced, and a restart counts one more. Any refusal leaves the entity
    untouched and kills the start's process group and removes its files. *)
Lemma commit_started_guarded (ctx : StartedInstanceCtx) (id : string)
    (eps : list InstanceEndpoint) (now sysnow : Z) (e : NodeEntity) (w : World) :
  let '(r, killed, e', w') := commit_started ctx id eps now sysnow e w in
  match r with
  | Ok _ =>
      killed = None ∧ w' = w ∧ e_generation e = started_generation ctx ∧
      ∃ i i', instance_mut e id = Some i ∧ i_state i = Starting ∧
        e' = update_instance id (λ _, i') e ∧
        i_state i' = Running ∧ i_pid i' = i_pid i ∧ i_endpoints i' = eps ∧
        run_started (i_supervision i') = Some now ∧
        restart_count (i_supervision i') =
          (if 0 <? attempt (i_supervision i)
           then u32_saturating_add (restart_count (i_supervision i)) 1
           else restart_count (i_supervision i))
  | Err _ =>
      e' = e ∧ killed = Some (started_group ctx) ∧
      removed_paths w' = credential (started_spawn_files ctx)
        :: runtime_config (started_spawn_files ctx) :: started_instance_dir ctx :: removed_paths w ∧
      (e_generation e ≠ started_generation ctx ∨
       ∀ i, instance_mut e id = Some i → i_state i ≠ Starting)
  end.
Proof.
  unfold commit_started, commit_starting_instance.
  destruct (Z.eqb_spec (e_generation e) (started_generation ctx)) as [Hg|Hg]; cbn [negb];
    [|split_and!; auto].
  unfold instance_mut, instances_mut.
  destruct (e_stage e) as [p|p|p a l|p i] eqn:Hst; try (split_and!; try done; right; done).
  destruct (List.find (id_is id) l) as [i|] eqn:Hf; [|split_and!; try done; right; done].
  destruct (state_is Starting i) eqn:Hs; cbn [negb].
  2: { split_and!; try done. right. intros ? [= <-] ?%state_is_true. congruence. }
  apply state_is_true in Hs. split_and!; try done.
  exists i, (record_running now sysnow (set_i_endpoints eps (set_running (started_instance_dir ctx) i))).
  split_and!; try done.
  - unfold update_instance, instances_mut. rewrite Hst. f_equal. apply update_first_ext.
    intros x Hx. congruence.
  - unfold record_running. cbn. by case_match.
  - unfold record_running. cbn. by case_match.
  - unfold record_running. cbn. by case_match.
  - unfold record_running. cbn. by case_match.
  - unfold record_running. cbn. by case_match.
Qed.

Lemma commit_started_ok ctx id eps now sysnow e w i :
  started_generation ctx = e_generation e → instance_mut e id = Some i → i_state i = Starting →
  commit_started ctx id eps now sysnow e w =
  (Ok tt, None,
   update_instance id
     (λ i, record_running now sysnow
             (set_i_endpoints eps (set_running (started_instance_dir ctx) i))) e, w).
Proof.
  intros Hg Hi Hs. destruct (instance_mut_ready e id i Hi) as (p & a & l & Hst & Hf).
  unfold commit_started, commit_starting_instance. rewrite Hg, Z.eqb_refl, Hst, Hf. cbn [negb].
  assert (state_is Starting i = true) as -> by (by apply state_is_true). done.
Qed.

(** ** Claims *)

(** Of the stop paths that claim a running process one after the other,
    exactly the first is told it claimed it, every later one that another did;
    none of them is told so of another pid. *)
Lemma one_claim_wins (id : string) (pid : Z) (e : NodeEntity) (i : TrackedNodeInstance) :
  instance_mut e id = Some i → runs_process i pid = true →
  let '(c1, e1) := claim_process id pid e in
  let '(c2, e2) := claim_process id pid e1 in
  c1 = (if i_stopping i then ClaimedElsewhere else Claimed) ∧
  c2 = ClaimedElsewhere ∧ e2 = e1 ∧
  (∀ pid', pid' ≠ pid → (claim_process id pid' e) = (Gone, e)).
Proof.
  intros Hi Hr. destruct (instance_mut_elem e id i Hi) as [_ Hid].
  destruct (instance_mut_ready e id i Hi) as (p & a & l & Hst & Hf).
  assert (∀ f, update_shared id f e = update_instance id f e) as Hus
    by (intros f; unfold update_shared; by rewrite Hst).
  unfold claim_process, instance. destruct (instances_mut_ready _ _ _ _ Hst) as [Hm Hinst].
  rewrite Hinst, Hf. cbn [option_filter]. rewrite Hr. cbn [claim_once]. rewrite Hus.
  set (i' := edit_supervision _ _).
  assert (i_instance_id i' = id ∧ runs_process i' pid = true ∧ i_stopping i' = true) as (Hid' & Hr' & Hs')
    by (split_and!; done).
  assert (e_stage (update_instance id (λ _, i') e) = Ready p a (update_first (id_is id) (λ _, i') l))
    as Hst' by (unfold update_instance, instances_mut, set_instances; by rewrite Hst).
  destruct (instances_mut_ready _ _ _ _ Hst') as [Hm' Hinst']. rewrite Hinst'.
  rewrite (find_update_first_eq _ _ _ i) by (done || by apply id_is_true).
  cbn [option_filter]. rewrite Hr', Hs'. cbn [negb].
  split_and!; [by destruct (i_stopping i)|done| |].
  - unfold update_shared. rewrite Hst'. unfold update_instance at 1. rewrite Hm'.
    rewrite update_first_twice by (intros; by apply id_is_true).
    unfold update_instance. by rewrite set_instances_twice, Hm.
  - intros pid' Hne. assert (runs_process i pid' = false) as ->; [|done].
    apply runs_process_true in Hr as [? Hp]. unfold runs_process. rewrite Hp.
    rewrite bool_decide_false by congruence. apply andb_false_r.
Qed.

Lemma one_claim_wins_witness :
  (claim_process "cam" 42 (example_entity [example_running])).1 = Claimed.
Proof.
  pose proof (one_claim_wins "cam" 42 (example_entity [example_running]) example_running
    eq_refl eq_refl) as H.
  destruct (claim_process "cam" 42 _) as [c1 e1]. destruct (claim_process "cam" 42 e1).
  by destruct H as [-> _].
Defined.

Lemma edit_when_none {A} guard id (edit : _ → A * _) e i :
  instance_mut e id = Some i → guard i = false → edit_when guard id edit e = (None, e).
Proof. unfold edit_when. intros -> Hg. cbn. by rewrite Hg. Qed.

(** Once a stop path has claimed a slot, nothing but its removal moves it:
    the exit of its process is not recorded, the health monitor does not kill
    it, no restart is scheduled, refused or begun from it, and a start still in
    flight for it forks nothing. *)
Lemma claimed_slot_is_frozen (id : string) (e : NodeEntity) (i : TrackedNodeInstance) (w : World) :
  instance_mut e id = Some i → i_stopping i = true →
  (∀ pid cause b now sysnow taken,
     mark_instance_exited id pid cause b now sysnow taken e = (None, e)) ∧
  (∀ kill, arm_health_kill id kill e = (None, e)) ∧
  (∀ exit b now sysnow, mark_start_failed id exit b now sysnow e = (None, e)) ∧
  mark_restart_refused id e = (false, e) ∧
  respawn_inputs_of id e = None ∧
  (∀ files name tag fork, spawn_fork id files name tag fork e = (Err (StartClaimed id), e)) ∧
  (NoDup (map i_instance_id (instances_mut e)) → ∀ ctx,
     sc_instance_id ctx = id → sc_spawn ctx = Respawn →
     spawn_register ctx e w = (Err (RespawnTargetMissing id), w)).
Proof.
  intros Hi Hstop. destruct (instance_mut_ready e id i Hi) as (p & a & l & Hst & Hf).
  destruct (instances_mut_ready _ _ _ _ Hst) as [Hm Hinst].
  assert (instance e id = Some i) as Hi' by (unfold instance; by rewrite Hinst).
  assert (awaits_restart i = false) as Haw by (unfold awaits_restart; by rewrite Hstop, andb_false_r).
  split_and!.
  - intros. eapply edit_when_none; [done|].
    unfold runs_unclaimed_process. by rewrite Hstop, andb_false_r.
  - intros. unfold arm_health_kill. rewrite Hi. cbn. unfold runs_unclaimed.
    by rewrite Hstop, andb_false_r.
  - intros. by eapply edit_when_none.
  - unfold mark_restart_refused, edit_awaiting_restart. by erewrite edit_when_none.
  - unfold respawn_inputs_of, awaiting_restart_slot. rewrite Hi'. cbn. by rewrite Haw.
  - intros. unfold spawn_fork. by rewrite Hi', Hstop.
  - intros Hnd ctx <- Hspawn. unfold spawn_register. rewrite Hst, Hspawn.
    assert (List.find (λ j, id_is (sc_instance_id ctx) j && awaits_restart j) l = None) as ->; [|done].
    apply find_None_forall. intros j Hj. destruct (id_is (sc_instance_id ctx) j) eqn:Ej; [|done].
    apply id_is_true in Ej. apply find_elem_of in Hf as [Hil Hii%id_is_true].
    rewrite Hm in Hnd. assert (j = i) as ->; [|done].
    apply (NoDup_map_inj i_instance_id l); congruence.
Qed.

Lemma claimed_slot_is_frozen_witness :
  arm_health_kill "cam" (mkHealthKill 10 None)
    (claim_instance "cam" (example_entity [example_running])).2
  = (None, (claim_instance "cam" (example_entity [example_running])).2).
Proof.
  apply (claimed_slot_is_frozen "cam" (claim_instance "cam" (example_entity [example_running])).2
    (mark_stopping example_running) example_world); reflexivity.
Defined.

(** ** Held pairs *)

(** The pairs a slot holds, by its manifest's cardinality. *)
Definition held_ok (e : NodeEntity) (i : TrackedNodeInstance) : Prop :=
  NoDup (held_pairs (i_supervision i)) ∧
  ∀ p q c, p ∈ held_pairs (i_supervision i) → q ∈ held_pairs (i_supervision i) →
    own p = own q → pairing_slot_cardinality e (slot_link_id (own p)) = Some c →
    is_scalar c = true → p = q.

Lemma hold_pair_ok scalar pair held :
  NoDup held →
  let '(displaced, held') := hold_pair scalar pair held in
  NoDup held' ∧
  (∀ p, p ∈ held' ↔ p = pair ∨ p ∈ held ∧ (scalar = true → own p = own pair → p = pair)) ∧
  (∀ p, p ∈ displaced ↔ p ∈ held ∧ scalar = true ∧ own p = own pair ∧ p ≠ pair).
Proof.
  intros Hnd. unfold hold_pair.
  set (f := λ other, bool_decide (own other = own pair) && bool_decide (other ≠ pair)).
  assert (∀ p, f p = true ↔ own p = own pair ∧ p ≠ pair) as Hf.
  { intros p. unfold f. by rewrite andb_true_iff, !bool_decide_eq_true. }
  assert (∀ p, negb (f p) = true ↔ (own p = own pair → p = pair)) as Hnf.
  { intros p. rewrite negb_true_iff, <-not_true_iff_false, Hf.
    destruct (decide (p = pair)), (decide (own p = own pair)); tauto. }
  assert (∀ l, NoDup l → NoDup (if bool_decide (pair ∈ l) then l else l ++ [pair])) as Hadd.
  { intros l Hl. case_bool_decide; [done|]. apply NoDup_app. split_and!; [done| |apply NoDup_singleton].
    intros x Hx ?%list_elem_of_singleton. by subst. }
  assert (∀ l p, p ∈ (if bool_decide (pair ∈ l) then l else l ++ [pair]) ↔ p = pair ∨ p ∈ l) as Hin.
  { intros l p. case_bool_decide; [|set_solver]. split; [auto|]. intros [->|?]; done. }
  clearbody f. destruct scalar; cbn.
  - split_and!; [apply Hadd, (NoDup_retain _ held Hnd)| |].
    + intros p. rewrite Hin, (elem_of_retain _ held), Hnf. naive_solver.
    + intros p. rewrite (elem_of_retain _ held), Hf. naive_solver.
  - split_and!; [by apply Hadd| |].
    + intros p. rewrite Hin. naive_solver.
    + intros p. split; [by intros ?%elem_of_nil|naive_solver].
Qed.

(** A pair delivered to an instance is recorded once; on a slot that takes
    one peer it displaces exactly the other pairs of that slot, which come
    back, and no other slot's pairs are touched, so every instance holds at
    most one pair on a scalar slot. *)
Lemma record_held_pair_exclusive (pair : PlannedPair) (e : NodeEntity) (i : TrackedNodeInstance)
    (c : Cardinality) :
  instance_mut e (slot_instance_id (own pair)) = Some i →
  pairing_slot_cardinality e (slot_link_id (own pair)) = Some c →
  held_ok e i →
  ∃ displaced i',
    record_held_pair pair e =
      (Some displaced, update_instance (slot_instance_id (own pair)) (λ _, i') e) ∧
    held_ok e i' ∧ keeps_held_pair i' (own pair) (peer pair) = true ∧
    (∀ p, p ∈ displaced ↔
       p ∈ held_pairs (i_supervision i) ∧ is_scalar c = true ∧ own p = own pair ∧ p ≠ pair) ∧
    (∀ p, own p ≠ own pair →
       (p ∈ held_pairs (i_supervision i') ↔ p ∈ held_pairs (i_supervision i))).
Proof.
  intros Hi Hc [Hnd Hok]. unfold record_held_pair. rewrite Hc.
  unfold edit_when. rewrite Hi. cbn [option_filter].
  pose proof (hold_pair_ok (is_scalar c) pair _ Hnd) as H.
  destruct (hold_pair _ _ _) as [displaced held]. destruct H as (Hnd' & Hin & Hdis).
  eexists displaced, (edit_supervision (set_held_pairs held) i). split; [done|].
  split_and!; [split; cbn; [done|]| cbn | done | cbn].
  - intros p q c' [->|[Hp Hp']]%Hin [->|[Hq Hq']]%Hin Ho Hc' Hsc; [done| | |by eapply Hok].
    + symmetry. apply Hq'; [|by rewrite Ho]. congruence.
    + apply Hp'; [|by rewrite Ho]. rewrite Ho in Hc'. congruence.
  - apply existsb_exists. exists pair. split; [apply list_elem_of_In, Hin; by left|].
    by rewrite !bool_decide_true.
  - intros p Hp. rewrite Hin. split; [|naive_solver]. intros [->|[? _]]; done.
Qed.

Definition example_pair (peer_node : string) : PlannedPair :=
  mkPlannedPair (mkSlotAddr "core" "cam" "arm") (mkSlotAddr "core" peer_node "cam") None.

Definition example_holding : NodeEntity :=
  example_entity [edit_supervision (set_held_pairs [example_pair "left"]) example_running].

Lemma remove_first_unique l id i :
  NoDup (map i_instance_id l) → List.find (id_is id) l = Some i →
  (∀ q, q i = true → remove_first (λ j, id_is id j && q j) l
        = Some (i, retain (λ j, negb (id_is id j)) l)).
Proof.
  intros Hnd Hf q Hq. induction l as [|j l IH]; simpl in *; [done|].
  apply NoDup_cons in Hnd as [Hj Hnd]. destruct (id_is id j) eqn:E; simpl.
  - simplify_eq. rewrite Hq. do 2 f_equal. symmetry. apply retain_all. intros k Hk.
    apply negb_true_iff, bool_decide_eq_false. intros Hk'. apply Hj. apply elem_of_map.
    apply id_is_true in E. exists k. split; [congruence|done].
  - by rewrite IH.
Qed.

Lemma update_first_retain_others id f l :
  (∀ j, i_instance_id (f j) = i_instance_id j) → NoDup (map i_instance_id l) →
  retain (λ j, negb (id_is id j)) (update_first (id_is id) f l) = retain (λ j, negb (id_is id j)) l.
Proof.
  intros Hf Hnd. unfold retain. induction l as [|j l IH]; simpl in *; [done|].
  apply NoDup_cons in Hnd as [_ Hnd]. destruct (id_is id j) eqn:E; simpl.
  - unfold id_is in *. by rewrite Hf, E.
  - rewrite E. simpl. by rewrite IH.
Qed.

(** A claim and removal takes a slot out, with the files of its process,
    only when no start is in flight for it and, while it runs, only for the
    process the caller stopped; every other slot stays in place, in order, and
    the relations the slot kept come back; in each other case nothing changes. *)
Lemma claim_and_remove_exact (id : string) (stopped_pid : option Z) (e : NodeEntity) (w : World)
    (p : string) (a : Artifact) (l : list TrackedNodeInstance) :
  e_stage e = Ready p a l → NoDup (map i_instance_id l) →
  claim_and_remove id stopped_pid e w =
  match List.find (id_is id) l with
  | None => (Untracked, e, w)
  | Some i =>
      if state_is Starting i then (Left (LeftStarting (starts_a_restart i)), e, w)
      else if state_is Running i && negb (bool_decide (i_pid i = stopped_pid))
      then (Left RunsAnotherProcess, e, w)
      else (Removed (KeptRelations_of (i_supervision i)),
            set_instances (retain (λ j, negb (id_is id j)) l) e,
            remove_instance_files i w)
  end.
Proof.
  intros Hst Hnd. destruct (instances_mut_ready _ _ _ _ Hst) as [Hm Hinst].
  unfold claim_and_remove, instance. rewrite Hinst.
  destruct (List.find (id_is id) l) as [i|] eqn:Hf; [|done].
  assert (state_is Starting i = false →
    claim_and_remove_slot id e w = (Some (KeptRelations_of (i_supervision i)),
      set_instances (retain (λ j, negb (id_is id j)) l) e, remove_instance_files i w)) as Hrem.
  { intros Hns. unfold claim_and_remove_slot, claim_instance, instance. rewrite Hinst, Hf.
    unfold update_shared. rewrite Hst. unfold stop_instance, update_instance. rewrite Hm.
    assert (e_stage (set_instances (update_first (id_is id) mark_stopping l) e)
      = Ready p a (update_first (id_is id) mark_stopping l)) as -> by (unfold set_instances; by rewrite Hst).
    unfold stoppable_slot.
    rewrite (remove_first_unique _ id (mark_stopping i)).
    - rewrite update_first_retain_others, set_instances_twice by done. done.
    - by rewrite map_update_first.
    - apply find_update_first_eq; [done|]. apply find_elem_of in Hf as [_ Hf]. exact Hf.
    - unfold mark_stopping, claim_once, state_is in *. cbn. by rewrite Hns. }
  unfold state_is in *. destruct (i_state i) eqn:Es; cbn in *; done || by rewrite Hrem.
Qed.
