(* ===== verification/Lifecycle.v ===== *)
(** * The lifecycle of an entity's instances

    The operations of [entity.rs] as the steps of a transition system over one
    entity, and the invariants of every state it reaches. Each step is one
    critical section of the entity's lock, so a run of the system is an
    interleaving of the daemon's tasks: starts in flight, exit watchers, the
    health monitor, stops, joins and removals.

    A start in flight is a [flight]: the run of [prepare_and_spawn] that
    registered a slot and has not yet committed, failed or been undone. The
    phases of one run follow each other, so a fork, a commit or an undo is a
    step of its own flight only; everything else may happen in between. *)

From S2P Require Import Prelude Names RestartPolicy Config PairingRegistry Supervision Instance Entity.
#[local] Open Scope Z_scope.

(** ** States and steps *)

Record flight : Type := mkFlight {
  f_id : string;
  f_incarnation : Z;
  f_forked : option StartedInstanceCtx;
}.

Record sys : Type := mkSys {
  s_entity : NodeEntity;
  s_world : World;
  s_flights : list flight;
}.

Definition drop_flight (id : string) (fl : list flight) : list flight :=
  retain (λ f, negb (bool_decide (f_id f = id))) fl.

(** What other entities of the daemon may do to the shared world. *)
Definition world_grows (w w' : World) : Prop :=
  next_entity_generation_value w ≤ next_entity_generation_value w' ∧
  next_incarnation_value w ≤ next_incarnation_value w' ∧
  (next_cell w ≤ next_cell w')%nat.

(** A step is one critical section. [step_abort] is an abort that nothing comes
    between; one that others come between is [step_undo], which needs no match of
    the generation, after the steps of the others. *)
Inductive step : sys → sys → Prop :=
| step_world e w fl w' :
    world_grows w w' → step (mkSys e w fl) (mkSys e w' fl)
| step_set_pending e w fl d :
    step (mkSys e w fl) (mkSys (set_pending_working_dir d e) w fl)
| step_take_pending e w fl g :
    step (mkSys e w fl) (mkSys (take_pending_working_dir_if_generation g e).2 w fl)
| step_rollback e w fl d :
    step (mkSys e w fl) (mkSys (rollback_building_to_added d e) w fl)
| step_build_begin e w fl s e' :
    build_begin e = Ok (s, e') → step (mkSys e w fl) (mkSys e' w fl)
| step_build_finish e w fl s r :
    step (mkSys e w fl) (mkSys (build_finish s r e).2 w fl)
| step_register e w fl ctx c a g e' w' i :
    spawn_register ctx e w = (Ok (c, a, g, e'), w') →
    instance_mut e' (sc_instance_id ctx) = Some i →
    step (mkSys e w fl)
      (mkSys e' w' (fl ++ [mkFlight (sc_instance_id ctx) (i_incarnation i) None]))
| step_fork e w fl f files name tag fork pid e' dir :
    f ∈ fl → f_forked f = None →
    spawn_fork (f_id f) files name tag fork e = (Ok pid, e') →
    step (mkSys e w fl)
      (mkSys e' w
         (drop_flight (f_id f) fl
          ++ [mkFlight (f_id f) (f_incarnation f)
                (Some (mkStartedInstanceCtx dir files (process_group e pid) (e_generation e)))]))
| step_undo e w fl f :
    f ∈ fl → step (mkSys e w fl) (mkSys (undo_start (f_id f) e) w (drop_flight (f_id f) fl))
| step_abort e w fl f ctx :
    f ∈ fl → f_forked f = Some ctx →
    step (mkSys e w fl)
      (mkSys (abort_started ctx (f_id f) (λ e, e) e w).1 (abort_started ctx (f_id f) (λ e, e) e w).2
         (drop_flight (f_id f) fl))
| step_commit e w fl f ctx eps now sysnow r k e' w' :
    f ∈ fl → f_forked f = Some ctx →
    commit_started ctx (f_id f) eps now sysnow e w = (r, k, e', w') →
    step (mkSys e w fl) (mkSys e' w' (drop_flight (f_id f) fl))
| step_exit e w fl id pid cause b now sysnow taken :
    step (mkSys e w fl) (mkSys (mark_instance_exited id pid cause b now sysnow taken e).2 w fl)
| step_start_failed e w fl id reason b now sysnow :
    step (mkSys e w fl) (mkSys (mark_start_failed id (Message reason) b now sysnow e).2 w fl)
| step_restart_refused e w fl id :
    step (mkSys e w fl) (mkSys (mark_restart_refused id e).2 w fl)
| step_respawn_log e w fl id path :
    step (mkSys e w fl) (mkSys (record_respawn_log id path e) w fl)
| step_claim_instance e w fl id :
    step (mkSys e w fl) (mkSys (claim_instance id e).2 w fl)
| step_claim_process e w fl id pid :
    step (mkSys e w fl) (mkSys (claim_process id pid e).2 w fl)
| step_claim_starting e w fl id :
    step (mkSys e w fl) (mkSys (claim_starting id e).2 w fl)
| step_claim_and_remove e w fl id pid r e' w' :
    claim_and_remove id pid e w = (r, e', w') → step (mkSys e w fl) (mkSys e' w' fl)
| step_stop e w fl id r e' w' :
    stop_instance id e w = (r, e', w') → step (mkSys e w fl) (mkSys e' w' fl)
| step_record_held e w fl pair :
    step (mkSys e w fl) (mkSys (record_held_pair pair e).2 w fl)
| step_forget_held e w fl pair :
    step (mkSys e w fl) (mkSys (forget_held_pair pair e) w fl)
| step_forget_with e w fl core id :
    step (mkSys e w fl) (mkSys (forget_pairs_held_with core id e) w fl)
| step_observations e w fl id obs :
    step (mkSys e w fl) (mkSys (record_observations_for_restart id obs e).2 w fl)
| step_watchers e w fl id ws :
    step (mkSys e w fl) (mkSys (record_watchers_for_restart id ws e) w fl)
| step_arm_kill e w fl id k :
    step (mkSys e w fl) (mkSys (arm_health_kill id k e).2 w fl)
| step_note_shutdown e w fl id pid :
    step (mkSys e w fl) (mkSys (note_shutdown_request id pid e) w fl)
| step_withdraw_shutdown e w fl id pid :
    step (mkSys e w fl) (mkSys (withdraw_shutdown_request id pid e) w fl)
| step_bind e w fl id link ps :
    step (mkSys e w fl) (mkSys (set_instance_slot_binding id link ps e).2 w fl)
| step_bind_restart e w fl id link ps :
    step (mkSys e w fl) (mkSys (record_slot_binding_for_restart id link ps e).2 w fl).

(** An entity as [NodeEntity::new], [built_in] or [root] makes it. *)
Definition initial (st : sys) : Prop :=
  s_flights st = [] ∧
  ∃ c p w,
    (∃ docs, (s_entity st, s_world st) = NodeEntity_new c p docs w) ∨
    (∃ launch docs, (s_entity st, s_world st) = NodeEntity_built_in c p launch docs w) ∨
    (∃ i, (s_entity st, s_world st) = NodeEntity_root c p i w).

Definition reachable (st : sys) : Prop := ∃ st0, initial st0 ∧ rtc step st0 st.

(** ** The invariant *)

Definition slots (st : sys) : list TrackedNodeInstance := instances_mut (s_entity st).

(** The slot a flight starts. *)
Definition flies (e : NodeEntity) (f : flight) (i : TrackedNodeInstance) : Prop :=
  i_instance_id i = f_id f ∧ i_state i = Starting ∧ i_incarnation i = f_incarnation f ∧
  i_pid i = (λ ctx, group_pid (started_group ctx)) <$> f_forked f ∧
  i_spawn_files i = started_spawn_files <$> f_forked f ∧
  (∀ ctx, f_forked f = Some ctx → started_generation ctx = e_generation e).

Definition slot_ok (e : NodeEntity) (w : World) (i : TrackedNodeInstance) : Prop :=
  wf_instance i ∧ held_ok e i ∧
  i_incarnation i < next_incarnation_value w ∧ (i_healthy i < next_cell w)%nat ∧
  (i_state i = Running → i_pid i ≠ None).

Record inv (st : sys) : Prop := mk_inv {
  inv_tx : e_stage_tx (s_entity st) = stage_to_serialized (e_stage (s_entity st));
  inv_ids : NoDup (map i_instance_id (slots st));
  inv_incarnations : NoDup (map i_incarnation (slots st));
  inv_cells : NoDup (map i_healthy (slots st));
  inv_slots : Forall (slot_ok (s_entity st) (s_world st)) (slots st);
  inv_flight_ids : NoDup (map f_id (s_flights st));
  inv_flights : ∀ f, f ∈ s_flights st → ∃ i, i ∈ slots st ∧ flies (s_entity st) f i;
  inv_starting : ∀ i, i ∈ slots st → i_state i = Starting →
    ∃ f, f ∈ s_flights st ∧ f_id f = i_instance_id i
}.

(** ** Keeping the invariant *)

Lemma held_ok_frame e e' i : e_config e' = e_config e → held_ok e i → held_ok e' i.
Proof. unfold held_ok, pairing_slot_cardinality. by intros ->. Qed.

Lemma slot_ok_frame e e' w w' i :
  e_config e' = e_config e → world_grows w w' → slot_ok e w i → slot_ok e' w' i.
Proof.
  intros Hc (_ & Hi & Hn) (? & ? & ? & ? & ?). unfold slot_ok. split_and!; try done; try lia.
  by eapply held_ok_frame.
Qed.

Lemma flies_frame e e' f i : e_generation e' = e_generation e → flies e f i → flies e' f i.
Proof. unfold flies. by intros ->. Qed.

(** The slots after an edit of the one with an id. *)
Lemma elem_of_update_unique l id i i' y :
  NoDup (map i_instance_id l) → List.find (id_is id) l = Some i →
  y ∈ update_first (id_is id) (λ _, i') l ↔ y = i' ∨ (y ∈ l ∧ i_instance_id y ≠ id).
Proof.
  intros Hnd Hf. induction l as [|x l IH]; simpl in *; [done|].
  apply NoDup_cons in Hnd as [Hx Hnd]. destruct (id_is id x) eqn:E.
  - apply id_is_true in E. simplify_eq. rewrite !elem_of_cons. split.
    + intros [->|Hy]; [by left|]. right. split; [by right|]. intros Hy'. apply Hx, elem_of_map. eauto.
    + intros [->|[[->|Hy] Hne]]; [by left|done|by right].
  - rewrite !elem_of_cons, IH by done. unfold id_is in E. apply bool_decide_eq_false in E. naive_solver.
Qed.

Lemma map_update_unique {B} (g : TrackedNodeInstance → B) l id i i' :
  List.find (id_is id) l = Some i → g i' = g i →
  map g (update_first (id_is id) (λ _, i') l) = map g l.
Proof.
  intros Hf Hg. induction l as [|x l IH]; simpl in *; [done|].
  destruct (id_is id x); simpl; [simplify_eq; by rewrite Hg | by rewrite IH].
Qed.

(** What an edit of a slot must keep for the invariant to hold after it: the
    slot's identity, and its start in flight if it has one. *)
Record edit_ok (e : NodeEntity) (i i' : TrackedNodeInstance) : Prop := mk_edit_ok {
  eo_id : i_instance_id i' = i_instance_id i;
  eo_incarnation : i_incarnation i' = i_incarnation i;
  eo_cell : i_healthy i' = i_healthy i;
  eo_wf : wf_instance i → wf_instance i';
  eo_held : held_ok e i → held_ok e i';
  eo_starting : i_state i' = Starting ↔ i_state i = Starting;
  eo_starting_pid : i_state i = Starting → i_pid i' = i_pid i ∧ i_spawn_files i' = i_spawn_files i;
  eo_running : i_state i' = Running → i_state i = Running ∧ i_pid i' = i_pid i
}.

Lemma update_inv e w fl id i i' :
  inv (mkSys e w fl) → instance_mut e id = Some i → edit_ok e i i' →
  inv (mkSys (update_instance id (λ _, i') e) w fl).
Proof.
  intros [Htx Hids Hincs Hcells Hslots Hfids Hfl Hst] Hi [? ? ? Hwf Hh Hs Hsp Hr].
  unfold slots in *. simpl in *.
  destruct (update_instance_frame id (λ _, i') e) as (Hc & Hg & _ & _ & Htx' & Hser & _).
  destruct (instance_mut_elem e id i Hi) as [Hin Hid].
  pose proof (λ y, elem_of_update_unique _ id i i' y Hids Hi) as Hel.
  constructor; unfold slots; simpl; rewrite ?instances_mut_update.
  - congruence.
  - by rewrite (map_update_unique _ _ _ i).
  - by rewrite (map_update_unique _ _ _ i).
  - by rewrite (map_update_unique _ _ _ i).
  - rewrite Forall_forall in *. intros y [->|[Hy _]]%Hel.
    + destruct (Hslots i Hin) as (? & ? & ? & ? & Hrp). unfold slot_ok. split_and!; auto; try congruence.
      * eapply held_ok_frame; eauto.
      * intros [? ->]%Hr. auto.
    + eapply slot_ok_frame; [done| |by apply Hslots]. done.
  - done.
  - intros f Hf. destruct (Hfl f Hf) as (j & Hj & Hfj).
    destruct (decide (i_instance_id j = id)) as [E|E].
    + assert (j = i) as -> by (apply (NoDup_map_inj i_instance_id (instances_mut e)); congruence).
      exists i'. split; [apply Hel; by left|]. apply (flies_frame e); [done|].
      destruct Hfj as (? & Hjs & ? & ? & ? & ?). destruct (Hsp Hjs) as [Hsp1 Hsp2]. unfold flies.
      split_and!; [congruence|by apply Hs|congruence|by rewrite Hsp1|by rewrite Hsp2|done].
    + exists j. split; [apply Hel; by right|]. by apply (flies_frame e).
  - intros y [->|[Hy _]]%Hel Hys; [|by apply Hst].
    destruct (Hst i Hin) as (f & ? & ?); [by apply Hs|]. exists f. split; congruence.
Qed.

Lemma edit_when_inv {A} guard id (edit : _ → A * _) e w fl :
  (∀ i, i_instance_id i = id → guard i = true → edit_ok e i (edit i).2) →
  inv (mkSys e w fl) → inv (mkSys (edit_when guard id edit e).2 w fl).
Proof.
  intros Hedit Hinv. destruct (edit_when_cases guard id edit e) as [(i & Hi & Hg & ->)|[-> _]]; [|done].
  eapply update_inv; [done|done|]. apply Hedit; [|done]. by apply instance_mut_elem in Hi as [_ ?].
Qed.

(** An edit of what the invariant reads nothing of but the slot's own. *)
Ltac solve_edit := constructor; cbn; try done; try tauto; try congruence; auto.

Lemma edit_ok_same_run e i i' :
  i_instance_id i' = i_instance_id i → i_incarnation i' = i_incarnation i →
  i_healthy i' = i_healthy i → i_state i' = i_state i → i_pid i' = i_pid i →
  i_spawn_files i' = i_spawn_files i →
  held_pairs (i_supervision i') = held_pairs (i_supervision i) →
  (wf_instance i → wf_instance i') → edit_ok e i i'.
Proof.
  intros ? ? ? Hs Hp Hsf Hh ?. constructor; rewrite ?Hs, ?Hp; auto. unfold held_ok. by rewrite Hh.
Qed.

(** An edit that ends a run: no process before, none after. *)
Lemma edit_ok_no_process e i i' :
  i_instance_id i' = i_instance_id i → i_incarnation i' = i_incarnation i →
  i_healthy i' = i_healthy i → i_state i ≠ Starting → has_process (i_state i') = false →
  held_pairs (i_supervision i') = held_pairs (i_supervision i) →
  (wf_instance i → wf_instance i') → edit_ok e i i'.
Proof.
  intros ? ? ? Hs Hn Hh ?. constructor; auto.
  - unfold held_ok. by rewrite Hh.
  - split; [|done]. intros E. by rewrite E in Hn.
  - done.
  - intros E. by rewrite E in Hn.
Qed.

(** Entities with the same slots, config and generation, whose watchers are up
    to date. *)
Lemma same_slots_inv e e' w w' fl :
  instances_mut e' = instances_mut e → e_config e' = e_config e →
  e_generation e' = e_generation e →
  e_stage_tx e' = stage_to_serialized (e_stage e') → world_grows w w' →
  inv (mkSys e w fl) → inv (mkSys e' w' fl).
Proof.
  intros Hs Hc Hg Htx Hw [? ? ? ? Hsl ? Hfl ?]. unfold slots in *. simpl in *.
  constructor; unfold slots; simpl; rewrite ?Hs; try done.
  - eapply Forall_impl; [done|]. intros i Hi. by eapply slot_ok_frame.
  - intros f (i & ? & ?)%Hfl. exists i. split; [done|]. by apply (flies_frame e).
Qed.

Lemma world_grows_refl w : world_grows w w.
Proof. unfold world_grows. lia. Qed.
#[local] Hint Resolve world_grows_refl : slot.

Lemma remove_path_grows p w : world_grows w (remove_path p w).
Proof. unfold world_grows. simpl. lia. Qed.

Lemma world_grows_trans w1 w2 w3 : world_grows w1 w2 → world_grows w2 w3 → world_grows w1 w3.
Proof. unfold world_grows. lia. Qed.

Lemma spawn_files_grows f w : world_grows w (SpawnFiles_remove f w).
Proof. eapply world_grows_trans; apply remove_path_grows. Qed.

Lemma remove_files_grows i w : world_grows w (remove_instance_files i w).
Proof.
  unfold remove_instance_files. repeat case_match; eauto using world_grows_trans,
    remove_path_grows, spawn_files_grows, world_grows_refl.
Qed.

Lemma build_finish_inv s r e w fl :
  inv (mkSys e w fl) → inv (mkSys (build_finish s r e).2 w fl).
Proof.
  intros H. unfold build_finish.
  destruct (bool_decide (stage_to_serialized (e_stage e) = SBuilding)) eqn:Eb; cbn [negb orb]; [|done].
  destruct (negb (e_generation e =? bs_generation s)); [done|]. destruct r as [p|err]; [|done].
  apply bool_decide_eq_true in Eb. apply (same_slots_inv e _ w w); auto using world_grows_refl.
  unfold instances_mut. destruct (e_stage e); done.
Qed.

Lemma build_begin_inv e w fl s e' :
  build_begin e = Ok (s, e') → inv (mkSys e w fl) → inv (mkSys e' w fl).
Proof.
  unfold build_begin, ensure_buildable. destruct (e_stage e) as [p|p|p a l|p i] eqn:Hst;
    intros; simplify_eq. apply (same_slots_inv e _ w w); auto using world_grows_refl.
  unfold instances_mut. cbn. by rewrite Hst.
Qed.

Lemma rollback_inv d e w fl :
  inv (mkSys e w fl) → inv (mkSys (rollback_building_to_added d e) w fl).
Proof.
  intros H. unfold rollback_building_to_added. destruct (e_stage e) as [p|p|p a l|p i] eqn:Hst; try done.
  apply (same_slots_inv e _ w w); auto using world_grows_refl. unfold instances_mut. by rewrite Hst.
Qed.

(** Claims reach the slot through its atomics. *)
Lemma update_shared_inv id f e w fl :
  (∀ i, edit_ok e i (f i)) → inv (mkSys e w fl) → inv (mkSys (update_shared id f e) w fl).
Proof.
  intros Hf H. unfold update_shared.
  assert (inv (mkSys (update_instance id f e) w fl)) as Hup.
  { destruct (instance_mut e id) as [i|] eqn:Hi.
    - assert (update_instance id f e = update_instance id (λ _, f i) e) as ->.
      { unfold update_instance. f_equal. apply update_first_ext. intros x Hx.
        unfold instance_mut in Hi. congruence. }
      by eapply update_inv.
    - unfold update_instance, instance_mut in *. by rewrite update_first_not_found, set_instances_self. }
  destruct (e_stage e) as [p|p|p a l|p i] eqn:Hst; try done.
  apply (same_slots_inv e _ w w); auto using world_grows_refl.
  - unfold instances_mut. cbn. by rewrite Hst.
  - cbn. destruct H as [Htx _ _ _ _ _ _ _]. cbn in Htx. by rewrite Htx, Hst.
Qed.

Lemma claim_edit_ok e i : edit_ok e i (mark_stopping i).
Proof. apply edit_ok_same_run; try done. apply claim_once_wf. Qed.

Lemma claim_instance_inv id e w fl :
  inv (mkSys e w fl) → inv (mkSys (claim_instance id e).2 w fl).
Proof.
  intros H. unfold claim_instance. case_match; [|done]. apply update_shared_inv; [|done].
  intros i. apply claim_edit_ok.
Qed.

(** A claim that ran on the slot found is a claim on the slot of the id. *)
Lemma update_shared_found id g e i :
  instance e id = Some i → update_shared id (λ _, g i) e = update_shared id g e.
Proof.
  unfold instance, update_shared, update_instance, instances, instances_mut.
  destruct (e_stage e) as [p|p|p a l|p j] eqn:Hst; try done; cbn.
  - intros H. f_equal. apply update_first_ext. intros x Hx. congruence.
  - destruct (id_is id j); [|done]. by intros [= ->].
Qed.

Lemma claim_process_inv id pid e w fl :
  inv (mkSys e w fl) → inv (mkSys (claim_process id pid e).2 w fl).
Proof.
  intros H. unfold claim_process. destruct (option_filter _ _) as [i|] eqn:Hf; [|done].
  apply option_filter_some in Hf as [Hi _]. cbn [claim_once snd].
  change (edit_supervision _ _) with (mark_stopping i).
  rewrite (update_shared_found _ mark_stopping) by done.
  apply update_shared_inv; [|done]. intros j. apply claim_edit_ok.
Qed.

Lemma claim_starting_inv id e w fl :
  inv (mkSys e w fl) → inv (mkSys (claim_starting id e).2 w fl).
Proof.
  intros H. unfold claim_starting. destruct (option_filter _ _) as [i|] eqn:Hf; [|done].
  apply option_filter_some in Hf as [Hi _]. case_match; [done|]. cbn [claim_once snd].
  change (edit_supervision _ _) with (mark_stopping i).
  rewrite (update_shared_found _ mark_stopping) by done.
  apply update_shared_inv; [|done]. intros j. apply claim_edit_ok.
Qed.

(** Taking out a slot no start is in flight for. *)
Lemma remove_slot_inv e w fl q i l w' :
  inv (mkSys e w fl) → remove_first q (instances_mut e) = Some (i, l) → i_state i ≠ Starting →
  world_grows w w' → inv (mkSys (set_instances l e) w' fl).
Proof.
  intros [Htx Hids Hincs Hcells Hslots Hfids Hfl Hst] Hr Hns Hw. unfold slots in *. simpl in *.
  destruct (set_instances_frame l e) as (Hc & Hg & _ & _ & Htx' & Hser & _).
  assert (instances_mut (set_instances l e) = l) as Hl.
  { rewrite instances_mut_set. unfold instances_mut in Hr. by destruct (e_stage e). }
  pose proof (remove_first_perm _ _ _ _ Hr) as Hperm.
  destruct (NoDup_map_remove_first i_instance_id _ _ _ _ Hr Hids) as [? Hid].
  destruct (NoDup_map_remove_first i_incarnation _ _ _ _ Hr Hincs) as [? _].
  destruct (NoDup_map_remove_first i_healthy _ _ _ _ Hr Hcells) as [? _].
  destruct (Forall_remove_first _ _ _ _ _ Hr Hslots) as [_ Hs'].
  constructor; unfold slots; simpl; rewrite ?Hl; try done.
  - congruence.
  - eapply Forall_impl; [done|]. intros j Hj. by eapply slot_ok_frame.
  - intros f Hf. destruct (Hfl f Hf) as (j & Hj & Hfj). exists j. split.
    + rewrite Hperm in Hj. apply elem_of_cons in Hj as [->|?]; [|done]. by destruct Hfj as (_ & ? & _).
    + by apply (flies_frame e).
  - intros j Hj. apply Hst. rewrite Hperm. by right.
Qed.

Lemma stop_instance_inv id e w fl r e' w' :
  stop_instance id e w = (r, e', w') → inv (mkSys e w fl) → inv (mkSys e' w' fl).
Proof.
  unfold stop_instance. destruct (e_stage e) as [p|p|p a l|p i] eqn:Hst; try (intros; by simplify_eq).
  destruct (remove_first (stoppable_slot id) l) as [[i l']|] eqn:Hr; intros; simplify_eq; [|done].
  eapply (remove_slot_inv e w fl (stoppable_slot id) i); [done| | |apply remove_files_grows].
  - unfold instances_mut. by rewrite Hst.
  - apply remove_first_find, find_elem_of in Hr as [_ Hr].
    unfold stoppable_slot in Hr. apply andb_true_iff in Hr as [_ Hr].
    intros E. apply state_is_true in E. by rewrite E in Hr.
Qed.

Lemma claim_and_remove_inv id pid e w fl r e' w' :
  claim_and_remove id pid e w = (r, e', w') → inv (mkSys e w fl) → inv (mkSys e' w' fl).
Proof.
  intros Hcr H. unfold claim_and_remove in Hcr.
  assert (∀ k e1 w1, claim_and_remove_slot id e w = (k, e1, w1) → inv (mkSys e1 w1 fl)) as Hslot.
  { intros k e1 w1. unfold claim_and_remove_slot.
    pose proof (claim_instance_inv id e w fl H) as Hc.
    destruct (claim_instance id e) as [[i|] e2]; [|intros; by simplify_eq].
    intros. by eapply stop_instance_inv. }
  destruct (instance e id) as [i|]; [|by simplify_eq].
  destruct (claim_and_remove_slot id e w) as [[k e1] w1].
  specialize (Hslot k e1 w1 eq_refl).
  destruct (i_state i); try (by simplify_eq); try (destruct k; by simplify_eq).
  destruct (negb _); [by simplify_eq|]. destruct k; by simplify_eq.
Qed.

(** The edits of a slot. *)
Lemma record_exit_edit_ok e cause b now sysnow taken i :
  i_state i = Running → edit_ok e i (record_exit cause b now sysnow taken i).2.
Proof.
  intros Hs.
  assert (∀ b r now sysnow j, let j' := (take_next_attempt b r now sysnow j).2 in
    i_instance_id j' = i_instance_id j ∧ i_incarnation j' = i_incarnation j ∧
    i_healthy j' = i_healthy j ∧ held_pairs (i_supervision j') = held_pairs (i_supervision j) ∧
    (i_state j = Restarting → has_process (i_state j') = false)) as Ht.
  { clear. intros. subst j'. unfold take_next_attempt, advance_backoff.
    destruct (max_restarts _) as [cap|]; [destruct (cap <? _)|]; cbn; split_and!; try done; by intros ->. }
  pose proof (record_exit_wf cause b now sysnow taken i Hs) as Hwf. revert Hwf.
  rewrite record_exit_eq. cbn zeta. generalize (exit_cause cause i) as exit. intros exit.
  assert (has_process (ended_state exit) = false) as He by (unfold ended_state; by destruct (is_clean exit)).
  destruct (0 <? i_shutdown_requests i); [|destruct (policy_restarts exit i)].
  - intros. apply edit_ok_no_process; try done. cbn. congruence.
  - specialize (Ht b (exit_ran_for now i) now sysnow
      (edit_supervision (set_registrations taken) (set_i_state Restarting (without_process exit i)))).
    destruct (take_next_attempt _ _ _ _ _) as [next i']. cbn in Ht.
    destruct Ht as (? & ? & ? & ? & ?). intros. apply edit_ok_no_process; auto. congruence.
  - intros. apply edit_ok_no_process; try done. congruence.
Qed.

Lemma start_failed_edit_ok e reason b now sysnow i :
  awaits_restart i = true →
  edit_ok e i
    (take_next_attempt b None now sysnow (edit_supervision (set_last_exit (Some (Message reason))) i)).2.
Proof.
  intros [Hs _]%awaits_restart_true. 
  pose proof (mark_start_failed_wf (Message reason) b now sysnow i eq_refl Hs) as Hwf.
  revert Hwf. unfold take_next_attempt, advance_backoff.
  destruct (max_restarts _) as [cap|]; [destruct (cap <? _)|]; cbn; intros;
    apply edit_ok_no_process; cbn; try done; rewrite ?Hs; done.
Qed.

Lemma held_edit_ok e i held :
  (held_ok e i → held_ok e (edit_supervision (set_held_pairs held) i)) →
  edit_ok e i (edit_supervision (set_held_pairs held) i).
Proof. intros. constructor; cbn; try done. apply set_held_pairs_wf. Qed.

Lemma held_ok_retain e i q :
  held_ok e i → held_ok e (edit_supervision (set_held_pairs (retain q (held_pairs (i_supervision i)))) i).
Proof.
  intros [Hnd Hok]. split; cbn; [by apply NoDup_retain|].
  intros p p' c [? _]%elem_of_retain [? _]%elem_of_retain. by apply Hok.
Qed.

Lemma record_held_pair_inv pair e w fl :
  inv (mkSys e w fl) → inv (mkSys (record_held_pair pair e).2 w fl).
Proof.
  intros H. destruct (pairing_slot_cardinality e (slot_link_id (own pair))) as [c|] eqn:Hc;
    [|unfold record_held_pair; by rewrite Hc].
  destruct (instance_mut e (slot_instance_id (own pair))) as [i|] eqn:Hi.
  2: { unfold record_held_pair, edit_when. by rewrite Hc, Hi. }
  assert (held_ok e i) as Hok.
  { destruct (instance_mut_elem e _ i Hi) as [Hin _]. destruct H as [_ _ _ _ Hs _ _ _].
    rewrite Forall_forall in Hs. by destruct (Hs i Hin) as (_ & ? & _). }
  unfold record_held_pair, edit_when. rewrite Hc, Hi. cbn [option_filter].
  destruct Hok as [Hnd Hok]. pose proof (hold_pair_ok (is_scalar c) pair _ Hnd) as Hh.
  destruct (hold_pair _ _ _) as [displaced held]. destruct Hh as (Hnd' & Hin & _).
  eapply update_inv; [done|done|]. apply held_edit_ok. intros _. split; cbn; [done|].
  intros p q c' [->|[Hp Hp']]%Hin [->|[Hq Hq']]%Hin Ho Hc' Hsc; [done| | |by eapply Hok].
  - symmetry. apply Hq'; [|by rewrite Ho]. congruence.
  - apply Hp'; [|by rewrite Ho]. rewrite Ho in Hc'. congruence.
Qed.

Lemma arm_health_kill_inv id k e w fl :
  inv (mkSys e w fl) → inv (mkSys (arm_health_kill id k e).2 w fl).
Proof.
  intros H. unfold arm_health_kill. destruct (option_filter _ _) as [i|] eqn:Hf; [|done].
  apply option_filter_some in Hf as [Hi [Hs _]%runs_unclaimed_true].
  destruct (i_pid i) as [pid|] eqn:Hp; [|done].
  assert (update_instance id (edit_supervision (set_health_kill (Some k))) e =
    update_instance id (λ _, edit_supervision (set_health_kill (Some k)) i) e) as Heq.
  { unfold update_instance. f_equal. apply update_first_ext. intros x Hx.
    unfold instance_mut in Hi. congruence. }
  cbn [snd]. rewrite Heq. eapply update_inv; [done|done|].
  apply edit_ok_same_run; try done. apply arm_health_kill_wf; [done|congruence].
Qed.

Lemma map_inv f e w fl :
  (∀ i, edit_ok e i (f i)) → inv (mkSys e w fl) →
  inv (mkSys (set_instances (map f (instances_mut e)) e) w fl).
Proof.
  intros Hf [Htx Hids Hincs Hcells Hslots Hfids Hfl Hst]. unfold slots in *. simpl in *.
  destruct (set_instances_frame (map f (instances_mut e)) e) as (Hc & Hg & _ & _ & Htx' & Hser & _).
  assert (instances_mut (set_instances (map f (instances_mut e)) e) = map f (instances_mut e)) as Hl.
  { rewrite instances_mut_set. unfold instances_mut. by destruct (e_stage e). }
  assert (∀ {B} (g : _ → B), (∀ i, g (f i) = g i) →
    map g (map f (instances_mut e)) = map g (instances_mut e)) as Hmap.
  { intros B g Hg'. rewrite map_map. by apply map_ext. }
  constructor; unfold slots; simpl; rewrite ?Hl.
  - congruence.
  - rewrite Hmap; [done|]. intros i. apply Hf.
  - rewrite Hmap; [done|]. intros i. apply Hf.
  - rewrite Hmap; [done|]. intros i. apply Hf.
  - rewrite Forall_forall in *. intros y (i & -> & Hi)%elem_of_map. destruct (Hf i) as [? Hinc Hcell ? ? ? ? Hr].
    destruct (Hslots i Hi) as (? & ? & ? & ? & Hrp). unfold slot_ok.
    rewrite Hinc, Hcell. split_and!; auto.
    + eapply held_ok_frame; eauto.
    + intros [? ->]%Hr. auto.
  - done.
  - intros fg (i & Hi & Hfi)%Hfl. exists (f i). split; [apply elem_of_map; eauto|].
    apply (flies_frame e); [done|]. destruct (Hf i) as [Hid Hinc _ _ _ Hs Hsp _].
    destruct Hfi as (? & Hss & ? & ? & ? & ?). destruct (Hsp Hss) as [Hsp1 Hsp2].
    unfold flies. rewrite Hid, Hinc, Hsp1, Hsp2.
    split_and!; try done. by apply Hs.
  - intros y (i & -> & Hi)%elem_of_map Hys. destruct (Hf i) as [Hid _ _ _ _ Hs _ _].
    apply Hs in Hys. rewrite Hid. by apply Hst.
Qed.

(** ** Flights *)

Lemma elem_of_drop_flight id fl f : f ∈ drop_flight id fl ↔ f ∈ fl ∧ f_id f ≠ id.
Proof.
  unfold drop_flight. by rewrite elem_of_retain, negb_true_iff, bool_decide_eq_false.
Qed.

Lemma NoDup_drop_flight id fl : NoDup (map f_id fl) → NoDup (map f_id (drop_flight id fl)).
Proof.
  unfold drop_flight, retain. induction fl as [|f fl IH]; simpl; [done|].
  intros [Hf Hnd]%NoDup_cons. case_bool_decide; simpl; auto. apply NoDup_cons. split; [|auto].
  rewrite !elem_of_map in *. intros (g & ? & [? _]%(elem_of_retain _ fl)). eauto.
Qed.

Lemma NoDup_map_snoc {A B} (g : A → B) l x :
  NoDup (map g l) → g x ∉ map g l → NoDup (map g (l ++ [x])).
Proof.
  intros. rewrite map_app. apply NoDup_app. split_and!; [done| |apply NoDup_singleton].
  intros y ? ->%list_elem_of_singleton. done.
Qed.

(** The slot of a flight. *)
Lemma flight_slot e w fl f :
  inv (mkSys e w fl) → f ∈ fl →
  ∃ i, instance_mut e (f_id f) = Some i ∧ flies e f i ∧ slot_ok e w i.
Proof.
  intros [_ Hids _ _ Hslots _ Hfl _] Hf. unfold slots in *. simpl in *.
  destruct (Hfl f Hf) as (i & Hi & Hfi). exists i. split_and!; [|done|].
  - unfold instance_mut. destruct (find_Some_exists (id_is (f_id f)) (instances_mut e) i) as [j Hj];
      [done|by apply id_is_true; destruct Hfi|].
    rewrite Hj. f_equal. apply find_elem_of in Hj as [Hj ?%id_is_true].
    apply (NoDup_map_inj i_instance_id (instances_mut e)); try done. destruct Hfi. congruence.
  - rewrite Forall_forall in Hslots. auto.
Qed.

(** Registering a new slot. *)
Lemma append_inv e w fl i p a l w' :
  inv (mkSys e w fl) → e_stage e = Ready p a l → List.find (id_is (i_instance_id i)) l = None →
  wf_instance i → held_pairs (i_supervision i) = [] → i_state i = Starting → i_pid i = None →
  i_spawn_files i = None →
  i_incarnation i = next_incarnation_value w → i_healthy i = next_cell w →
  next_incarnation_value w' = next_incarnation_value w + 1 → next_cell w' = S (next_cell w) →
  world_grows w w' →
  inv (mkSys (set_instances (l ++ [i]) e) w' (fl ++ [mkFlight (i_instance_id i) (i_incarnation i) None])).
Proof.
  intros [Htx Hids Hincs Hcells Hslots Hfids Hfl Hst] Hstage Hnew Hwf Hheld Hs Hp Hsf Hinc Hcell Hw1 Hw2 Hw.
  unfold slots in *. simpl in *.
  destruct (instances_mut_ready _ _ _ _ Hstage) as [Hm _]. rewrite Hm in *.
  destruct (set_instances_frame (l ++ [i]) e) as (Hc & Hg & _ & _ & Htx' & Hser & _).
  assert (instances_mut (set_instances (l ++ [i]) e) = l ++ [i]) as Hl
    by (rewrite instances_mut_set; by rewrite Hstage).
  rewrite find_None_forall in Hnew.
  assert (∀ j, j ∈ l → i_instance_id j ≠ i_instance_id i) as Hne.
  { intros j Hj%Hnew E. apply id_is_true in E. congruence. }
  rewrite Forall_forall in Hslots.
  constructor; unfold slots; simpl; rewrite ?Hl.
  - congruence.
  - apply NoDup_map_snoc; [done|]. intros (j & ? & ?)%elem_of_map. by apply (Hne j).
  - apply NoDup_map_snoc; [done|]. intros (j & E & Hj)%elem_of_map.
    destruct (Hslots j Hj) as (_ & _ & ? & _). lia.
  - apply NoDup_map_snoc; [done|]. intros (j & E & Hj)%elem_of_map.
    destruct (Hslots j Hj) as (_ & _ & _ & ? & _). lia.
  - apply Forall_app. split.
    + apply Forall_forall. intros j Hj. eapply slot_ok_frame; [done|done|by apply Hslots].
    + apply Forall_singleton. unfold slot_ok. split_and!; [done| |lia|lia|congruence].
      unfold held_ok. rewrite Hheld. split; [constructor|]. by intros ? ? ? ?%elem_of_nil.
  - apply NoDup_map_snoc; [done|]. simpl. intros (f & E & Hf)%elem_of_map.
    destruct (Hfl f Hf) as (j & Hj & Hfj & _). apply (Hne j Hj). congruence.
  - intros f [Hf| ->%list_elem_of_singleton]%elem_of_app.
    + destruct (Hfl f Hf) as (j & ? & ?). exists j. split; [set_solver|]. by apply (flies_frame e).
    + exists i. split; [set_solver|]. unfold flies. simpl. done.
  - intros j [Hj| ->%list_elem_of_singleton]%elem_of_app Hjs.
    + destruct (Hst j Hj Hjs) as (f & ? & ?). exists f. split; [set_solver|done].
    + eexists. split; [apply elem_of_app; right; by apply list_elem_of_singleton|]. done.
Qed.

Lemma NoDup_map_replace {B} (g : TrackedNodeInstance → B) l id i i' :
  NoDup (map i_instance_id l) → NoDup (map g l) → List.find (id_is id) l = Some i →
  g i' ∉ map g l → NoDup (map g (update_first (id_is id) (λ _, i') l)).
Proof.
  intros Hids Hg Hf Hnew. induction l as [|x l IH]; simpl in *; [done|].
  apply NoDup_cons in Hids as [_ Hids], Hg as [Hx Hg].
  destruct (id_is id x); simpl; apply NoDup_cons; split; auto.
  - set_solver.
  - rewrite elem_of_map. intros (y & E & Hy). apply elem_of_update_unique with (1 := Hids) (2 := Hf) in Hy.
    destruct Hy as [->|[Hy _]]; [set_solver|]. apply Hx, elem_of_map. eauto.
  - apply IH; try done. set_solver.
Qed.

(** Taking a waiting slot back to starting, under a new incarnation. *)
Lemma respawn_inv e w fl i i' id w' :
  inv (mkSys e w fl) → instance_mut e id = Some i → i_state i ≠ Starting →
  i_instance_id i' = id → wf_instance i' →
  held_pairs (i_supervision i') = held_pairs (i_supervision i) →
  i_state i' = Starting → i_pid i' = None → i_spawn_files i' = None →
  i_incarnation i' = next_incarnation_value w → i_healthy i' = next_cell w →
  next_incarnation_value w' = next_incarnation_value w + 1 → next_cell w' = S (next_cell w) →
  world_grows w w' →
  inv (mkSys (update_instance id (λ _, i') e) w' (fl ++ [mkFlight id (i_incarnation i') None])).
Proof.
  intros [Htx Hids Hincs Hcells Hslots Hfids Hfl Hst] Hi Hns Hid' Hwf Hheld Hs Hp Hsf Hinc Hcell Hw1 Hw2 Hw.
  unfold slots in *. simpl in *.
  destruct (instance_mut_elem e id i Hi) as [Hin Hid].
  destruct (update_instance_frame id (λ _, i') e) as (Hc & Hg & _ & _ & Htx' & Hser & _).
  pose proof (λ y, elem_of_update_unique _ id i i' y Hids Hi) as Hel.
  rewrite Forall_forall in Hslots.
  assert (∀ f, f ∈ fl → f_id f ≠ id) as Hno.
  { intros f (j & Hj & Hfj & Hjs & _)%Hfl E.
    assert (j = i) as -> by (apply (NoDup_map_inj i_instance_id (instances_mut e)); congruence). done. }
  constructor; unfold slots; simpl; rewrite ?instances_mut_update.
  - congruence.
  - rewrite (map_update_unique _ _ _ i); [done|done|congruence].
  - apply (NoDup_map_replace _ _ _ i); try done. intros (j & E & Hj)%elem_of_map.
    destruct (Hslots j Hj) as (_ & _ & ? & _). lia.
  - apply (NoDup_map_replace _ _ _ i); try done. intros (j & E & Hj)%elem_of_map.
    destruct (Hslots j Hj) as (_ & _ & _ & ? & _). lia.
  - apply Forall_forall. intros y [->|[Hy _]]%Hel.
    + unfold slot_ok. split_and!; [done| |lia|lia|congruence].
      eapply held_ok_frame; [done|]. destruct (Hslots i Hin) as (_ & Hh & _).
      unfold held_ok in *. by rewrite Hheld.
    + eapply slot_ok_frame; [done|done|by apply Hslots].
  - apply NoDup_map_snoc; [done|]. simpl. intros (f & E & Hf)%elem_of_map. by apply (Hno f).
  - intros f [Hf| ->%list_elem_of_singleton]%elem_of_app.
    + destruct (Hfl f Hf) as (j & Hj & Hfj). exists j. split.
      * apply Hel. right. split; [done|]. destruct Hfj as [-> _]. by apply Hno.
      * by apply (flies_frame e).
    + exists i'. split; [apply Hel; by left|]. unfold flies. simpl. done.
  - intros y [->|[Hy _]]%Hel Hys.
    + eexists. split; [apply elem_of_app; right; by apply list_elem_of_singleton|]. done.
    + destruct (Hst y Hy Hys) as (f & ? & ?). exists f. split; [set_solver|done].
Qed.

(** A slot that awaits its restart is the one its id finds. *)
Lemma find_restarting e w fl id p slot :
  inv (mkSys e w fl) →
  List.find (λ i, id_is id i && p i) (instances_mut e) = Some slot →
  instance_mut e id = Some slot ∧ slot ∈ instances_mut e ∧ i_instance_id slot = id ∧
  p slot = true ∧ wf_instance slot.
Proof.
  intros Hinv [Hin [Hid Hp]%andb_true_iff]%find_elem_of. unfold instance_mut.
  destruct Hinv as [_ Hids _ _ Hslots _ _ _]. unfold slots in Hids, Hslots. simpl in Hids, Hslots.
  rewrite Forall_forall in Hslots. split_and!; [|done|by apply id_is_true|done|by destruct (Hslots slot Hin)].
  destruct (find_Some_exists (id_is id) (instances_mut e) slot) as [j Hj]; [done|done|].
  rewrite Hj. f_equal. apply find_elem_of in Hj as [Hj ?%id_is_true]. apply id_is_true in Hid.
  apply (NoDup_map_inj i_instance_id (instances_mut e)); congruence.
Qed.

Lemma register_new_inv ctx first e w fl c a g e' w' i :
  sc_spawn ctx = NewInstance first →
  spawn_register ctx e w = (Ok (c, a, g, e'), w') →
  instance_mut e' (sc_instance_id ctx) = Some i → inv (mkSys e w fl) →
  inv (mkSys e' w' (fl ++ [mkFlight (sc_instance_id ctx) (i_incarnation i) None])).
Proof.
  intros Hspawn Hreg Hi Hinv. unfold spawn_register in Hreg. rewrite Hspawn in Hreg.
  destruct (e_stage e) as [p|p|p art l|p j] eqn:Hst; try discriminate.
  destruct (List.find (id_is (sc_instance_id ctx)) l) as [t|] eqn:Hf; [discriminate|].
  cbn [TrackedNodeInstance_new next_incarnation new_health_cell] in Hreg.
  set (i0 := with_run_log _ _) in Hreg. injection Hreg as <- <- <- <- <-.
  assert (i = i0) as ->.
  { unfold instance_mut in Hi. rewrite instances_mut_set, Hst in Hi.
    rewrite find_app_not_found in Hi; [congruence|done|by apply id_is_true]. }
  change (sc_instance_id ctx) with (i_instance_id i0).
  apply (append_inv e w fl i0 p art l); try done. unfold world_grows. simpl. lia.
Qed.

Lemma register_respawn_inv ctx e w fl c a g e' w' i :
  sc_spawn ctx = Respawn →
  spawn_register ctx e w = (Ok (c, a, g, e'), w') →
  instance_mut e' (sc_instance_id ctx) = Some i → inv (mkSys e w fl) →
  inv (mkSys e' w' (fl ++ [mkFlight (sc_instance_id ctx) (i_incarnation i) None])).
Proof.
  intros Hspawn Hreg Hi Hinv. unfold spawn_register in Hreg. rewrite Hspawn in Hreg.
  destruct (e_stage e) as [p|p|p art l|p j] eqn:Hst; try discriminate.
  destruct (instances_mut_ready _ _ _ _ Hst) as [Hm _]. rewrite <-Hm in Hreg.
  destruct (List.find _ (instances_mut e)) as [slot|] eqn:Hf; [|discriminate].
  destruct (find_restarting _ _ _ _ _ _ Hinv Hf) as (Hslot & Hin & Hid & Haw & Hwf).
  pose proof Haw as [Hs Hstop]%awaits_restart_true.
  destruct (begin_respawn slot w) as [slot' w1] eqn:Eb.
  rewrite (update_first_guard _ _ _ _ _ Hslot Haw) in Hreg. injection Hreg as <- <- <- <- <-.
  assert (slot' = (begin_respawn slot w).1) as Hs' by (by rewrite Eb).
  assert (w1 = (begin_respawn slot w).2) as Hw' by (by rewrite Eb).
  change (set_instances _ e) with (update_instance (sc_instance_id ctx) (λ _, slot') e) in *.
  assert (i = slot') as ->.
  { unfold instance_mut in Hi, Hslot. rewrite instances_mut_update in Hi.
    rewrite (find_update_first_eq _ _ _ slot) in Hi; [congruence|done|].
    rewrite Hs'. by apply id_is_true. }
  eapply (respawn_inv e w fl slot); try done; rewrite ?Hs', ?Hw'; try done.
  - congruence.
  - by apply begin_respawn_wf.
  - cbn. by destruct (i_spawn_files slot).
  - cbn. by destruct (i_spawn_files slot).
  - cbn. destruct (i_spawn_files slot); unfold world_grows; simpl; lia.
Qed.

Lemma register_inv ctx e w fl c a g e' w' i :
  spawn_register ctx e w = (Ok (c, a, g, e'), w') →
  instance_mut e' (sc_instance_id ctx) = Some i → inv (mkSys e w fl) →
  inv (mkSys e' w' (fl ++ [mkFlight (sc_instance_id ctx) (i_incarnation i) None])).
Proof.
  intros. destruct (sc_spawn ctx) as [first|] eqn:Hspawn;
    [by eapply register_new_inv|by eapply register_respawn_inv].
Qed.

(** A fork records the pid of the flight's own slot. *)
Lemma fork_inv e w fl f files name tag fork pid e' dir :
  f ∈ fl → f_forked f = None → spawn_fork (f_id f) files name tag fork e = (Ok pid, e') →
  inv (mkSys e w fl) →
  inv (mkSys e' w (drop_flight (f_id f) fl
    ++ [mkFlight (f_id f) (f_incarnation f)
          (Some (mkStartedInstanceCtx dir files (process_group e pid) (e_generation e)))])).
Proof.
  intros Hf Hnf Hfork Hinv.
  destruct (flight_slot e w fl f Hinv Hf) as (i & Hi & (Hid & Hs & Hinc & Hpid & _) & Hok).
  unfold spawn_fork in Hfork. case_match; [discriminate|].
  destruct fork as [[pid'|]|]; simplify_eq.
  unfold record_starting_process, edit_when. rewrite Hi. cbn [option_filter].
  assert (state_is Starting i = true) as -> by (by apply state_is_true). cbn [snd].
  set (i' := set_starting_process pid files i).
  destruct Hinv as [Htx Hids Hincs Hcells Hslots Hfids Hfl Hst]. unfold slots in *. simpl in *.
  destruct (update_instance_frame (f_id f) (λ _, i') e) as (Hc & Hg & _ & _ & Htx' & Hser & _).
  pose proof (λ y, elem_of_update_unique _ (f_id f) i i' y Hids Hi) as Hel.
  constructor; unfold slots; simpl; rewrite ?instances_mut_update.
  - congruence.
  - by rewrite (map_update_unique _ _ _ i).
  - by rewrite (map_update_unique _ _ _ i).
  - by rewrite (map_update_unique _ _ _ i).
  - rewrite Forall_forall in *. intros y [->|[Hy _]]%Hel.
    + eapply slot_ok_frame; [done|apply world_grows_refl|].
      destruct Hok as (? & ? & ? & ? & ?). unfold slot_ok.
      split_and!; [by apply set_starting_process_wf|done..].
    + eapply slot_ok_frame; [done|apply world_grows_refl|by apply Hslots].
  - apply NoDup_map_snoc; [by apply NoDup_drop_flight|]. simpl.
    intros (g & E & [? ?]%elem_of_drop_flight)%elem_of_map. congruence.
  - intros g [[Hg' Hne]%elem_of_drop_flight| ->%list_elem_of_singleton]%elem_of_app.
    + destruct (Hfl g Hg') as (j & Hj & Hfj). exists j. split.
      * apply Hel. right. split; [done|]. by destruct Hfj as [-> _].
      * by apply (flies_frame e).
    + exists i'. split; [apply Hel; by left|]. unfold flies. simpl. split_and!; try done.
      intros ctx [= <-]. done.
  - intros y [->|[Hy Hyne]]%Hel Hys.
    + eexists. split; [apply elem_of_app; right; by apply list_elem_of_singleton|]. done.
    + destruct (Hst y Hy Hys) as (g & ? & ?). exists g. split; [|done].
      apply elem_of_app. left. apply elem_of_drop_flight. split; [done|congruence].
Qed.

(** A flight leaves when its slot is no longer starting. *)
Lemma settle_inv e w fl f i i' w' :
  inv (mkSys e w fl) → f ∈ fl → instance_mut e (f_id f) = Some i →
  i_instance_id i' = f_id f → i_incarnation i' = i_incarnation i → i_healthy i' = i_healthy i →
  wf_instance i' → held_pairs (i_supervision i') = held_pairs (i_supervision i) →
  i_state i' ≠ Starting → (i_state i' = Running → i_pid i' ≠ None) → world_grows w w' →
  inv (mkSys (update_instance (f_id f) (λ _, i') e) w' (drop_flight (f_id f) fl)).
Proof.
  intros [Htx Hids Hincs Hcells Hslots Hfids Hfl Hst] Hf Hi Hid' Hinc Hcell Hwf Hheld Hns Hrun Hw.
  unfold slots in *. simpl in *.
  destruct (instance_mut_elem e (f_id f) i Hi) as [Hin Hid].
  destruct (update_instance_frame (f_id f) (λ _, i') e) as (Hc & Hg & _ & _ & Htx' & Hser & _).
  pose proof (λ y, elem_of_update_unique _ (f_id f) i i' y Hids Hi) as Hel.
  rewrite Forall_forall in Hslots.
  constructor; unfold slots; simpl; rewrite ?instances_mut_update.
  - congruence.
  - rewrite (map_update_unique _ _ _ i); [done|done|congruence].
  - by rewrite (map_update_unique _ _ _ i).
  - by rewrite (map_update_unique _ _ _ i).
  - apply Forall_forall. intros y [->|[Hy _]]%Hel.
    + destruct (Hslots i Hin) as (_ & Hh & ? & ? & _). eapply slot_ok_frame; [done|done|].
      unfold slot_ok. rewrite Hinc, Hcell. split_and!; try done. unfold held_ok in *. by rewrite Hheld.
    + eapply slot_ok_frame; [done|done|by apply Hslots].
  - by apply NoDup_drop_flight.
  - intros g [Hg' Hne]%elem_of_drop_flight. destruct (Hfl g Hg') as (j & Hj & Hfj). exists j. split.
    + apply Hel. right. split; [done|]. by destruct Hfj as [-> _].
    + by apply (flies_frame e).
  - intros y [->|[Hy Hyne]]%Hel Hys; [done|].
    destruct (Hst y Hy Hys) as (g & ? & ?). exists g. split; [|done].
    apply elem_of_drop_flight. split; [done|congruence].
Qed.

Lemma undo_remove_inv e w fl f i p a l l' :
  inv (mkSys e w fl) → f ∈ fl → e_stage e = Ready p a l →
  remove_first (starting_slot (f_id f)) l = Some (i, l') →
  inv (mkSys (set_instances l' e) w (drop_flight (f_id f) fl)).
Proof.
  intros [Htx Hids Hincs Hcells Hslots Hfids Hfl Hst] Hf Hstage Hr. unfold slots in *. simpl in *.
  destruct (instances_mut_ready _ _ _ _ Hstage) as [Hm _]. rewrite Hm in *.
  destruct (set_instances_frame l' e) as (Hc & Hg & _ & _ & Htx' & Hser & _).
  assert (instances_mut (set_instances l' e) = l') as Hl by (rewrite instances_mut_set; by rewrite Hstage).
  pose proof (remove_first_perm _ _ _ _ Hr) as Hperm.
  destruct (NoDup_map_remove_first i_instance_id _ _ _ _ Hr Hids) as [? Hidn].
  destruct (NoDup_map_remove_first i_incarnation _ _ _ _ Hr Hincs) as [? _].
  destruct (NoDup_map_remove_first i_healthy _ _ _ _ Hr Hcells) as [? _].
  destruct (Forall_remove_first _ _ _ _ _ Hr Hslots) as [_ Hs'].
  assert (i_instance_id i = f_id f) as Hid.
  { apply remove_first_find, find_elem_of in Hr as [_ Hr]. unfold starting_slot in Hr.
    by apply andb_true_iff in Hr as [?%id_is_true _]. }
  constructor; unfold slots; simpl; rewrite ?Hl; try done.
  - congruence.
  - eapply Forall_impl; [done|]. intros j Hj. eapply slot_ok_frame; [done|apply world_grows_refl|done].
  - by apply NoDup_drop_flight.
  - intros g [Hg' Hne]%elem_of_drop_flight. destruct (Hfl g Hg') as (j & Hj & Hfj). exists j. split.
    + rewrite Hperm in Hj. apply elem_of_cons in Hj as [->|?]; [|done]. destruct Hfj as [? _]. congruence.
    + by apply (flies_frame e).
  - intros j Hj Hjs. destruct (Hst j) as (g & ? & ?); [rewrite Hperm; by right|done|].
    exists g. split; [|done]. apply elem_of_drop_flight. split; [done|]. intros E.
    apply Hidn, elem_of_map. exists j. split; [congruence|done].
Qed.

Lemma undo_inv e w fl f :
  f ∈ fl → inv (mkSys e w fl) →
  inv (mkSys (undo_start (f_id f) e) w (drop_flight (f_id f) fl)).
Proof.
  intros Hf Hinv.
  destruct (flight_slot e w fl f Hinv Hf) as (i & Hi & Hflies & Hok).
  pose proof Hflies as (Hid & Hs & _).
  destruct (instance_mut_ready e _ i Hi) as (p & a & l & Hst & Hfi).
  destruct (instances_mut_ready _ _ _ _ Hst) as [Hm _].
  assert (state_is Starting i = true) as Hss by (by apply state_is_true).
  pose proof (find_guard _ _ _ _ Hfi Hss) as Hfs.
  unfold undo_start. rewrite Hm. unfold starting_slot at 1. rewrite Hfs.
  destruct (starts_a_restart i && negb (i_stopping i)) eqn:E.
  - apply andb_true_iff in E as [Hsr _]. unfold starting_slot.
    rewrite (update_first_guard _ _ _ _ _ Hfi Hss).
    assert (set_instances (update_first (id_is (f_id f)) revert_respawn l) e
      = update_instance (f_id f) (λ _, revert_respawn i) e) as ->.
    { unfold update_instance. rewrite Hm. f_equal. apply update_first_ext. intros x Hx. congruence. }
    destruct Hok as (Hwf & _).
    apply (settle_inv e w fl f i); auto using world_grows_refl, revert_respawn_wf.
  - destruct (remove_first (starting_slot (f_id f)) l) as [[j l']|] eqn:Hr.
    + by eapply undo_remove_inv.
    + apply remove_first_None in Hr. unfold starting_slot in Hr. congruence.
Qed.

Lemma commit_inv e w fl f ctx eps now sysnow r k e' w' :
  f ∈ fl → f_forked f = Some ctx →
  commit_started ctx (f_id f) eps now sysnow e w = (r, k, e', w') →
  inv (mkSys e w fl) → r = Ok tt ∧ inv (mkSys e' w' (drop_flight (f_id f) fl)).
Proof.
  intros Hf Hfk Hc Hinv.
  destruct (flight_slot e w fl f Hinv Hf) as (i & Hi & (Hid & Hs & Hinc & Hpid & _ & Hgen) & Hok).
  destruct (instance_mut_ready e _ i Hi) as (p & a & l & Hst & Hfi).
  unfold commit_started, commit_starting_instance in Hc.
  rewrite (Hgen ctx Hfk), Z.eqb_refl, Hst, Hfi in Hc. cbn [negb] in Hc.
  assert (state_is Starting i = true) as Hss by (by apply state_is_true).
  rewrite Hss in Hc. cbn [negb] in Hc. injection Hc as <- <- <- <-. split; [done|].
  assert (∀ g, update_instance (f_id f) g e = update_instance (f_id f) (λ _, g i) e) as ->.
  { intros g. unfold update_instance. f_equal. apply update_first_ext. intros x Hx.
    unfold instance_mut in Hi. congruence. }
  destruct Hok as (Hwf & _).
  apply (settle_inv e w fl f i); auto using world_grows_refl, commit_wf.
  all: try (unfold record_running; cbn; by case_match).
  - intros _. rewrite Hfk in Hpid. unfold record_running. cbn. case_match; cbn; by rewrite Hpid.
Qed.

(** ** Reachable states *)

Lemma edit_instance_inv id f e w fl :
  (∀ i, edit_ok e i (f i)) → inv (mkSys e w fl) → inv (mkSys (edit_instance id f e).2 w fl).
Proof.
  intros Hf Hinv. pose proof (edit_when_inv (λ _, true) id (λ i, (tt, f i)) e w fl) as H.
  unfold edit_instance. destruct (edit_when _ _ _ _). apply H; [|done]. auto.
Qed.

Lemma edit_restarting_inv id f e w fl :
  (∀ i, i_state i = Restarting → edit_ok e i (f i)) → inv (mkSys e w fl) →
  inv (mkSys (edit_restarting id f e).2 w fl).
Proof.
  intros Hf Hinv. pose proof (edit_when_inv (state_is Restarting) id (λ i, (tt, f i)) e w fl) as H.
  unfold edit_restarting. destruct (edit_when _ _ _ _). apply H; [|done].
  intros i _ ?%state_is_true. auto.
Qed.

Lemma restart_refused_inv id e w fl :
  inv (mkSys e w fl) → inv (mkSys (mark_restart_refused id e).2 w fl).
Proof.
  intros Hinv. unfold mark_restart_refused, edit_awaiting_restart.
  pose proof (edit_when_inv awaits_restart id
    (λ i, (tt, edit_supervision (set_next_start None) (set_i_state Failed i))) e w fl) as H.
  destruct (edit_when _ _ _ _). apply H; [|done]. intros i _ [Hs _]%awaits_restart_true.
  apply edit_ok_no_process; try done; [congruence|by apply restart_refused_wf].
Qed.

Lemma edit_process_inv id pid f e w fl :
  (∀ i, i_state i = Running → edit_ok e i (f i)) → inv (mkSys e w fl) →
  inv (mkSys (edit_process id pid f e) w fl).
Proof.
  intros Hf Hinv. apply edit_when_inv; [|done]. intros i _ [? _]%runs_process_true. by apply Hf.
Qed.

Lemma shutdown_edit_ok e i n :
  (wf_instance i → in_u32 n) → i_state i = Running → edit_ok e i (set_i_shutdown_requests n i).
Proof. intros Hn Hs. apply edit_ok_same_run; try done. intros Hwf. apply set_shutdown_requests_wf; auto. Qed.

Lemma registrations_edit_ok e i r :
  i_state i = Restarting → edit_ok e i (edit_supervision (set_registrations r) i).
Proof. intros Hs. apply edit_ok_same_run; try done. by apply set_registrations_wf. Qed.

Lemma abort_inv e w fl f ctx :
  f ∈ fl → f_forked f = Some ctx → inv (mkSys e w fl) →
  inv (mkSys (abort_started ctx (f_id f) (λ e, e) e w).1 (abort_started ctx (f_id f) (λ e, e) e w).2
         (drop_flight (f_id f) fl)).
Proof.
  intros Hf Hfk Hinv.
  destruct (flight_slot e w fl f Hinv Hf) as (i & _ & (_ & _ & _ & _ & _ & Hg) & _).
  unfold abort_started. rewrite (Hg ctx Hfk), Z.eqb_refl. cbn [fst snd].
  pose proof (undo_inv e w fl f Hf Hinv) as Hu.
  apply (same_slots_inv (undo_start (f_id f) e) (undo_start (f_id f) e) w); auto.
  - by destruct Hu.
  - eapply world_grows_trans; [apply remove_path_grows|apply spawn_files_grows].
Qed.

Lemma wrapping_add_range n : in_u32 (u32_wrapping_add n 1).
Proof.
  unfold in_u32, u32_wrapping_add, U32_MAX.
  pose proof (Z.mod_pos_bound (n + 1) (2 ^ 32) ltac:(lia)). lia.
Qed.

Lemma step_inv st st' : step st st' → inv st → inv st'.
Proof.
  destruct 1; intros Hinv;
    try (by eauto using build_begin_inv, build_finish_inv, rollback_inv, register_inv, fork_inv,
           undo_inv, abort_inv, claim_instance_inv, claim_process_inv, claim_starting_inv,
           claim_and_remove_inv, stop_instance_inv, record_held_pair_inv, arm_health_kill_inv,
           restart_refused_inv).
  - apply (same_slots_inv e e w w'); auto. by destruct Hinv.
  - apply (same_slots_inv e _ w w); auto using world_grows_refl. by destruct Hinv.
  - unfold take_pending_working_dir_if_generation. case_match; [|done].
    apply (same_slots_inv e _ w w); auto using world_grows_refl. by destruct Hinv.
  - by eapply commit_inv.
  - apply edit_when_inv; [|done]. intros i _ (? & _ & _)%runs_unclaimed_process_true.
    by apply record_exit_edit_ok.
  - apply edit_when_inv; [|done]. intros i _ ?. by apply start_failed_edit_ok.
  - apply edit_when_inv; [|done]. intros i _ _. apply edit_ok_same_run; try done. apply set_run_log_wf.
  - apply edit_instance_inv; [|done]. intros i. apply held_edit_ok, held_ok_retain.
  - apply map_inv; [|done]. intros i. apply held_edit_ok, held_ok_retain.
  - apply edit_restarting_inv; [|done]. intros i Hs. by apply registrations_edit_ok.
  - apply edit_restarting_inv; [|done]. intros i Hs. by apply registrations_edit_ok.
  - apply edit_process_inv; [|done]. intros i. apply shutdown_edit_ok. intros _. apply wrapping_add_range.
  - apply edit_process_inv; [|done]. intros i. apply shutdown_edit_ok. intros Hwf.
    destruct (wf_shutdown_range i Hwf). unfold in_u32, u32_saturating_sub. lia.
  - apply edit_instance_inv; [|done]. intros i. apply edit_ok_same_run; try done. apply set_slot_binding_wf.
  - apply edit_restarting_inv; [|done]. intros i _. apply edit_ok_same_run; try done. apply set_slot_binding_wf.
Qed.

Lemma initial_inv st : initial st → inv st.
Proof.
  intros [Hfl (c & p & w & H)]. destruct st as [e w' fl]. simpl in *. subst fl.
  assert (instances_mut e = [] ∧ e_stage_tx e = stage_to_serialized (e_stage e)) as [Hs Htx].
  { destruct H as [[docs H]|[(launch & docs & H)|[i H]]]; by injection H as -> ->. }
  constructor; unfold slots; simpl; rewrite ?Hs; simpl; try done; try constructor.
  - by intros f ?%elem_of_nil.
  - by intros i ?%elem_of_nil.
Qed.

Lemma reachable_inv st : reachable st → inv st.
Proof.
  intros (st0 & H0 & Hsteps). pose proof (initial_inv st0 H0) as Hinv. clear H0.
  induction Hsteps as [|st1 st2 st3 Hstep _ IH]; [done|]. apply IH. by eapply step_inv.
Qed.

(** C1: in every state an entity reaches, whatever the daemon's tasks do and in
    whatever order: its instance ids, incarnations and health cells are
    distinct; watchers have seen its stage; an instance has a pid while it runs
    and none once its process is gone; it holds one pair at most on a scalar
    slot; and it is starting exactly while one start is in flight for it, whose
    forked process, and the files that process was given, are the ones it
    recorded, none before the fork. *)
Theorem lifecycle_invariant (st : sys) :
  reachable st →
  e_stage_tx (s_entity st) = stage_to_serialized (e_stage (s_entity st)) ∧
  NoDup (map i_instance_id (slots st)) ∧
  NoDup (map i_incarnation (slots st)) ∧
  NoDup (map i_healthy (slots st)) ∧
  (∀ i, i ∈ slots st →
     wf_instance i ∧ held_ok (s_entity st) i ∧
     i_incarnation i < next_incarnation_value (s_world st) ∧
     (i_state i = Running → i_pid i ≠ None) ∧
     (has_process (i_state i) = false → i_pid i = None) ∧
     (i_state i = Starting ↔ ∃ f, f ∈ s_flights st ∧ flies (s_entity st) f i)).
Proof.
  intros [Htx Hids Hincs Hcells Hslots Hfids Hfl Hst]%reachable_inv. split_and!; try done.
  rewrite Forall_forall in Hslots. intros i Hi. destruct (Hslots i Hi) as (Hwf & Hh & ? & ? & Hr).
  split_and!; try done.
  - intros Hn. by destruct (wf_no_process i Hwf Hn).
  - split; [|by intros (f & _ & _ & ? & _)]. intros Hs.
    destruct (Hst i Hi Hs) as (f & Hf & Hid). exists f. split; [done|].
    destruct (Hfl f Hf) as (j & Hj & Hfj).
    assert (j = i) as ->; [|done].
    apply (NoDup_map_inj i_instance_id (slots st)); try done. destruct Hfj. congruence.
Qed.

(** A start whose process was forked always commits while its run is the
    one to settle it: no claim, removal, join or exit of another instance in
    between can take its slot away, so the commit is refused only on another
    entity. *)
Lemma forked_start_commits (st : sys) (f : flight) (ctx : StartedInstanceCtx)
    (eps : list InstanceEndpoint) (now sysnow : Z) :
  reachable st → f ∈ s_flights st → f_forked f = Some ctx →
  let '(r, killed, e', w') := commit_started ctx (f_id f) eps now sysnow (s_entity st) (s_world st) in
  r = Ok tt ∧ killed = None ∧
  ∃ i, instance_mut e' (f_id f) = Some i ∧ i_state i = Running ∧
    i_pid i = Some (group_pid (started_group ctx)) ∧ i_incarnation i = f_incarnation f.
Proof.
  destruct st as [e w fl]. simpl. intros Hinv%reachable_inv Hf Hfk.
  destruct (flight_slot e w fl f Hinv Hf) as (i & Hi & (Hid & Hs & Hinc & Hpid & _ & Hgen) & Hok).
  pose proof (commit_started_ok ctx (f_id f) eps now sysnow e w i (Hgen ctx Hfk) Hi Hs) as ->.
  split_and!; try done. eexists. split.
  - unfold instance_mut. rewrite instances_mut_update.
    apply (find_update_first_eq (id_is (f_id f)) _ _ i Hi). apply id_is_true. cbn.
    unfold record_running. cbn. by case_match.
  - rewrite Hfk in Hpid. unfold record_running. cbn. by case_match.
Qed.

(** C13: in every reachable state an instance waits for a restart, or is being
    restarted, only when its last process or start ended in a way its policy
    restarts after: a failure under a policy that restarts failures, a clean exit
    only under one that restarts those too; with at least one attempt taken and
    none beyond the cap its policy sets. A start is due only while it waits, and
    its wait is cancelled exactly when a stop has claimed it. *)
Theorem restarts_follow_the_policy (st : sys) (i : TrackedNodeInstance) :
  reachable st → i ∈ slots st →
  i_state i = Restarting ∨ starts_a_restart i = true →
  (∃ exit, last_exit (i_supervision i) = Some exit ∧
     let p := policy (declaration (supervision_restart (i_supervision i))) in
     if is_clean exit then restarts_after_clean_exit p = true else restarts_after_failure p = true) ∧
  0 < attempt (i_supervision i) ∧
  (∀ cap, max_restarts (declaration (supervision_restart (i_supervision i))) = Some cap →
     attempt (i_supervision i) ≤ cap) ∧
  (next_start (i_supervision i) ≠ None → i_state i = Restarting) ∧
  restart_cancelled (i_supervision i) = i_stopping i.
Proof.
  intros Hinv%reachable_inv Hi Hr. destruct Hinv as [_ _ _ _ Hslots _ _ _].
  rewrite Forall_forall in Hslots. destruct (Hslots i Hi) as (Hwf & _).
  rewrite starts_a_restart_true in Hr.
  assert (0 < attempt (i_supervision i)) as Ha.
  { destruct Hr as [Hs|[_ ?]]; [by apply wf_restarting|done]. }
  destruct (wf_supervised i Hwf Ha) as [(exit & He & Hp) ?]; [tauto|].
  split_and!; auto; [|apply (wf_next_start i Hwf)|apply (wf_token i Hwf)].
  exists exit. split; [done|]. unfold policy_restarts_exit in Hp. by destruct (is_clean exit).
Qed.

(** ** A run: an instance starts, runs, fails and waits for its restart *)

Definition ex_new : NodeEntity * World :=
  NodeEntity_built_in example_config "/cfg" (mkBuiltInLaunch "/bin/peppy" ["mcp"] []) []
    example_world.

Definition ex_added : sys := mkSys ex_new.1 ex_new.2 [].

Definition ex_registered : NodeEntity * World :=
  match spawn_register (example_start (NewInstance example_first_start)) ex_new.1 ex_new.2 with
  | (Ok (_, _, _, e), w) => (e, w)
  | _ => ex_new
  end.

Definition ex_slot : TrackedNodeInstance :=
  default example_running (instances_mut ex_registered.1 !! 0%nat).

Definition ex_flight (ctx : option StartedInstanceCtx) : flight :=
  mkFlight "cam" (i_incarnation ex_slot) ctx.

Definition ex_starting : sys := mkSys ex_registered.1 ex_registered.2 [ex_flight None].

Definition ex_files : SpawnFiles := mkSpawnFiles "/rc" "/key".

Definition ex_fork : NodeEntity :=
  (spawn_fork (f_id (ex_flight None)) ex_files "camera" "v1" (Ok (Some 42)) ex_registered.1).2.

Definition ex_ctx : StartedInstanceCtx :=
  mkStartedInstanceCtx "/inst/cam" ex_files (process_group ex_registered.1 42)
    (e_generation ex_registered.1).

Definition ex_flying : list flight :=
  drop_flight (f_id (ex_flight None)) [ex_flight None] ++ [ex_flight (Some ex_ctx)].

Definition ex_forked : sys := mkSys ex_fork ex_registered.2 ex_flying.

Definition ex_committed : NodeEntity * World :=
  let '(_, _, e, w) :=
    commit_started ex_ctx (f_id (ex_flight (Some ex_ctx))) [] 100 100 ex_fork ex_registered.2 in
  (e, w).

Definition ex_landed : list flight := drop_flight (f_id (ex_flight (Some ex_ctx))) ex_flying.

Definition ex_running : sys := mkSys ex_committed.1 ex_committed.2 ex_landed.

Definition ex_waiting : sys :=
  mkSys (mark_instance_exited "cam" 42 (Code 1) (mkRestartBackoff 1 60 1000) 150 150
           Registrations_default ex_committed.1).2
    ex_committed.2 ex_landed.

Lemma ex_flying_in : ex_flight (Some ex_ctx) ∈ ex_flying.
Proof. unfold ex_flying. apply elem_of_app. right. by apply list_elem_of_singleton. Qed.

Lemma ex_added_starts : step ex_added ex_starting.
Proof.
  apply (step_register ex_new.1 ex_new.2 [] (example_start (NewInstance example_first_start))
    (e_config ex_new.1) (BuiltIn (mkBuiltInLaunch "/bin/peppy" ["mcp"] []))
    (e_generation ex_new.1) ex_registered.1 ex_registered.2 ex_slot); vm_compute; reflexivity.
Qed.

Lemma ex_starting_forks : step ex_starting ex_forked.
Proof.
  apply (step_fork ex_registered.1 ex_registered.2 [ex_flight None] (ex_flight None) ex_files
    "camera" "v1" (Ok (Some 42)) 42 ex_fork "/inst/cam").
  - by apply list_elem_of_singleton.
  - reflexivity.
  - vm_compute. reflexivity.
Qed.

Lemma ex_forked_commits : step ex_forked ex_running.
Proof.
  apply (step_commit ex_fork ex_registered.2 ex_flying (ex_flight (Some ex_ctx)) ex_ctx [] 100 100
    (Ok tt) None ex_committed.1 ex_committed.2).
  - apply ex_flying_in.
  - reflexivity.
  - vm_compute. reflexivity.
Qed.

Lemma ex_running_exits : step ex_running ex_waiting.
Proof.
  apply (step_exit ex_committed.1 ex_committed.2 ex_landed "cam" 42 (Code 1)
    (mkRestartBackoff 1 60 1000) 150 150 Registrations_default).
Qed.

Lemma ex_forked_reachable : reachable ex_forked.
Proof.
  exists ex_added. split.
  - split; [reflexivity|]. do 3 eexists. right; left. do 2 eexists. symmetry.
    apply surjective_pairing.
  - eapply rtc_l; [apply ex_added_starts|]. apply rtc_once, ex_starting_forks.
Qed.

Lemma ex_waiting_reachable : reachable ex_waiting.
Proof.
  destruct ex_forked_reachable as (st0 & H0 & Hs). exists st0. split; [done|].
  transitivity ex_forked; [exact Hs|].
  eapply rtc_l; [apply ex_forked_commits|]. apply rtc_once, ex_running_exits.
Qed.

Lemma lifecycle_invariant_witness :
  NoDup (map i_instance_id (slots ex_waiting)) ∧ length (slots ex_waiting) = 1%nat.
Proof.
  split; [|reflexivity]. apply (lifecycle_invariant ex_waiting ex_waiting_reachable).
Defined.

Lemma forked_start_commits_witness :
  (commit_started ex_ctx (f_id (ex_flight (Some ex_ctx))) [] 100 100
     (s_entity ex_forked) (s_world ex_forked)).1.1.1 = Ok tt.
Proof.
  pose proof (forked_start_commits ex_forked (ex_flight (Some ex_ctx)) ex_ctx [] 100 100
    ex_forked_reachable ex_flying_in eq_refl) as H.
  destruct (commit_started _ _ _ _ _ _ _) as [[[r k] e'] w']. apply H.
Defined.

Lemma restarts_follow_the_policy_witness :
  attempt (i_supervision (default example_running (slots ex_waiting !! 0%nat))) ≤ 3.
Proof.
  destruct (restarts_follow_the_policy ex_waiting (default example_running (slots ex_waiting !! 0%nat))
    ex_waiting_reachable) as (_ & _ & H & _).
  - vm_compute. constructor.
  - left. vm_compute. reflexivity.
  - apply H. vm_compute. reflexivity.
Defined.
