(* ===== verification/Stack.v ===== *)
(** * The node stack

    [node-stack-internal/src/node_stack.rs]: the entities of a daemon, the
    graph of their dependencies, the requirements that wait for a node not
    added yet, and the pairing registry, all under one lock.

    An [EntityHandle] is an [Arc<RwLock<NodeEntity>>] shared by the graph and
    by every task that found the entity: here an address in a heap of
    entities, so that a replacement in place is seen through every handle and
    pointer identity is equality of addresses. An operation runs under the
    stack's lock, so it is one step. [push_entity] also holds the write lock of
    the entity it replaces while it validates the replacement; [None] below is
    a thread that waits for a lock it holds itself ([parking_lot]'s locks are
    not reentrant). *)

From S2P Require Import Prelude Names RestartPolicy Config InterfaceEq Validation Graphs Cycle PairingRegistry Supervision Instance Entity Lifecycle.
#[local] Open Scope peppy_scope.

(** ** Keys *)

Record NodeKey : Type := mkNodeKey { key_name : string; key_tag : string }.

#[export] Instance NodeKey_eq_dec : EqDecision NodeKey.
Proof. solve_decision. Defined.

#[export] Program Instance NodeKey_countable : Countable NodeKey :=
  inj_countable' (λ k, (key_name k, key_tag k)) (λ p, mkNodeKey p.1 p.2) _.
Next Obligation. by intros []. Qed.

Definition NodeKey_new (name tag : string) : NodeKey := mkNodeKey (trim name) (trim tag).

Definition key_from_entity (e : NodeEntity) : NodeKey :=
  NodeKey_new (m_name (manifest (e_config e))) (m_tag (manifest (e_config e))).

Definition dependency_keys (node : NodeConfig) : list NodeKey :=
  map (λ s, NodeKey_new (spec_name s) (spec_tag s)) (collect_dependency_specs node).

Definition is_running_instance (inst : TrackedNodeInstance) (instance_id : string) : bool :=
  bool_decide (i_instance_id inst = instance_id) && bool_decide (i_state inst = Running).

(** ** The stack under its lock *)

Record EndpointMeta : Type := mkEndpointMeta {
  em_name : string;
  em_tag : string;
  em_role : string;
  em_sha256 : option string;
  em_cardinality : Cardinality;
  em_copy : option string;
}.

Record NodeStackInner (G : Type) : Type := mkNodeStackInner {
  graph : G;
  key_to_index : gmap NodeKey nat;
  pending_requirements : gmap NodeKey (list nat);
  root_key : NodeKey;
  pairing_registry : PairingRegistry;
}.
Arguments mkNodeStackInner {G}.
Arguments graph {G}.
Arguments key_to_index {G}.
Arguments pending_requirements {G}.
Arguments root_key {G}.
Arguments pairing_registry {G}.

(** The entities behind the handles. *)
Notation Heap := (gmap nat NodeEntity).

Section inner.
Context {G : Type} `{StableGraph G nat} `{Tarjan}.
Implicit Types (s : NodeStackInner G) (heap : Heap) (key : NodeKey) (index : nat).

Definition set_graph (g : G) s : NodeStackInner G :=
  mkNodeStackInner g (key_to_index s) (pending_requirements s) (root_key s) (pairing_registry s).
Definition set_key_to_index (m : gmap NodeKey nat) s : NodeStackInner G :=
  mkNodeStackInner (graph s) m (pending_requirements s) (root_key s) (pairing_registry s).
Definition set_pending (m : gmap NodeKey (list nat)) s : NodeStackInner G :=
  mkNodeStackInner (graph s) (key_to_index s) m (root_key s) (pairing_registry s).
Definition set_registry (r : PairingRegistry) s : NodeStackInner G :=
  mkNodeStackInner (graph s) (key_to_index s) (pending_requirements s) (root_key s) r.

(** ** Reads *)

(** [graph.node_weights()], with the entity each handle holds. *)
Definition entities heap s : list (nat * NodeEntity) :=
  omap (λ i, h ← g_node_weight (graph s) i; e ← heap !! h; Some (h, e)) (g_node_indices (graph s)).

Definition entity_at heap s index : option NodeEntity :=
  h ← g_node_weight (graph s) index; heap !! h.

Definition is_root s key : bool := bool_decide (root_key s = key).

Definition stack_len s : nat := length (g_node_indices (graph s)).

Definition stack_contains s key : bool := opt_is_some (key_to_index s !! key).

Definition find s key : option nat :=
  index ← key_to_index s !! key; g_node_weight (graph s) index.

Definition find_map_entity {T} heap s (project : nat → NodeEntity → option T) : option T :=
  first_some (λ '(h, e), project h e) (entities heap s).

Definition find_by_instance_id heap s (instance_id : string) : option TrackedNodeInstance :=
  find_map_entity heap s
    (λ _ e, List.find (λ inst, is_running_instance inst instance_id) (instances e)).

Definition find_entity_label_for_instance_id_any_state heap s (instance_id : string) :
    option (string * string) :=
  find_map_entity heap s
    (λ _ e,
       if is_root s (key_from_entity e) then None
       else if existsb (id_is instance_id) (instances e) then Some (node_name e, node_tag e)
       else None).

Definition find_entity_by_instance_id heap s (instance_id : string) : option nat :=
  find_map_entity heap s
    (λ h e, if existsb (λ inst, is_running_instance inst instance_id) (instances e)
            then Some h else None).

(** [Tracked], as the closure of [tracked] reads it. *)
Record Tracked : Type := mkTracked {
  tr_instance : TrackedNodeInstance;
  tr_handle : nat;
  tr_entity : NodeEntity;
}.

Definition tracked {T} heap s (instance_id : string) (read : Tracked → T) : option T :=
  find_map_entity heap s
    (λ h e, inst ← List.find (id_is instance_id) (instances e); Some (read (mkTracked inst h e))).

Definition find_entity_any_state heap s (instance_id : string) : option nat :=
  tracked heap s instance_id tr_handle.

Definition instance_state heap s (instance_id : string) : option InstanceState :=
  tracked heap s instance_id (λ t, i_state (tr_instance t)).

Definition find_instance_and_entity_any_state heap s (instance_id : string) :
    option (TrackedNodeInstance * nat) :=
  tracked heap s instance_id (λ t, (tr_instance t, tr_handle t)).

Definition find_instance_any_state heap s (instance_id : string) : option TrackedNodeInstance :=
  fst <$> find_instance_and_entity_any_state heap s instance_id.

Definition stack_live_incarnation heap s (instance_id : string) : option Z :=
  mjoin (tracked heap s instance_id (λ t, live_incarnation (tr_instance t))).

Definition stack_live_credential heap s (instance_id : string) : option string :=
  mjoin (tracked heap s instance_id
           (λ t, _ ← live_incarnation (tr_instance t); credential_path (tr_instance t))).

Definition stack_runs_process heap s (instance_id : string) (pid : Z) : bool :=
  default false (tracked heap s instance_id (λ t, runs_process (tr_instance t) pid)).

Definition stack_keeps_held_pair heap s (own peer : SlotAddr) : bool :=
  default false
    (tracked heap s (slot_instance_id own) (λ t, keeps_held_pair (tr_instance t) own peer)).

Definition stack_starts_a_restart heap s (instance_id : string) : bool :=
  default false (tracked heap s instance_id (λ t, starts_a_restart (tr_instance t))).

Definition running_health heap s (w : World) : RunningHealth :=
  fold_left
    (λ health '(_, e),
       if is_root s (key_from_entity e) then health
       else
         fold_left
           (λ health inst,
              mkRunningHealth (S (rh_running health))
                (rh_healthy health + if load_health (i_healthy inst) w then 1 else 0))
           (List.filter (λ inst, bool_decide (i_state inst = Running)) (instances e)) health)
    (entities heap s) (mkRunningHealth 0 0).

(** [root()] panics when the root is missing; it never is (see [stack_wf]). *)
Definition root s : option nat := find s (root_key s).

Definition root_core_node_name heap s : string :=
  match h ← root s; heap !! h with Some e => node_name e | None => "" end.

(** ** Dependencies *)

(** The entity whose write lock the caller holds is [held]. *)
Definition resolve_config heap s (name tag : string) : option NodeConfig :=
  index ← key_to_index s !! NodeKey_new name tag; e ← entity_at heap s index; Some (e_config e).

(** [read()] on the entity of a declared dependency blocks when it is the one
    held. *)
Definition reads_held s (held : option nat) (config : NodeConfig) : bool :=
  match held with
  | None => false
  | Some held =>
      existsb (λ key, bool_decide (find s key = Some held)) (dependency_keys config)
  end.

(** The view of the stack with the candidate in place of its stored config. *)
Definition cycle_view heap s (candidate : NodeEntity) : list CycleCheckNode :=
  let candidate_key := key_from_entity candidate in
  let candidate_index := key_to_index s !! candidate_key in
  let node_of key config := mkCycleCheckNode (key_name key) (key_tag key) config in
  omap
    (λ index,
       if decide (Some index = candidate_index) then None
       else e ← entity_at heap s index; Some (node_of (key_from_entity e) (e_config e)))
    (g_node_indices (graph s))
  ++ [node_of candidate_key (e_config candidate)].

Definition validate_no_service_action_cycle heap s (candidate : NodeEntity) :
    result Error unit :=
  match find_service_action_cycle (cycle_view heap s candidate) with
  | Some cycle =>
      Err (ServiceActionContractCycle (cycle_nodes cycle) (closing_dependency cycle)
             (InterfaceKind_to_string (cycle_kind cycle)))
  | None => Ok tt
  end.

Definition validate_dependencies heap s (held : option nat) (candidate : NodeEntity) :
    option (result Error unit) :=
  if reads_held s held (e_config candidate) then None
  else
    let errors :=
      validate_dependency_specs AllowAbsentWhenSlotAdmitsEmpty (resolve_config heap s)
        (manifest (e_config candidate)) (interfaces (e_config candidate))
        (m_name (manifest (e_config candidate))) (m_tag (manifest (e_config candidate))) in
    Some
      match errors with
      | err :: _ => Err (ConfigFailed err)
      | [] => validate_no_service_action_cycle heap s candidate
      end.

Definition validate_candidate heap s (held : option nat) (candidate : NodeEntity)
    (allow_missing_dependencies : bool) : option (result Error unit) :=
  if allow_missing_dependencies then Some (validate_no_service_action_cycle heap s candidate)
  else validate_dependencies heap s held candidate.

(** ** Wiring *)

Definition try_attach_edge (dependant_index : nat) (dep_key : NodeKey) s :
    bool * NodeStackInner G :=
  match key_to_index s !! dep_key with
  | None => (false, s)
  | Some dependency_index =>
      (true,
       match g_find_edge (graph s) dependant_index dependency_index with
       | None => set_graph (g_add_edge dependant_index dependency_index (graph s)) s
       | Some _ => s
       end)
  end.

(** [retain] of the lists, then of the entries that are not empty. *)
Definition clear_pending_requirements_for (dependant : nat) s : NodeStackInner G :=
  set_pending
    (filter (λ p, p.2 ≠ [])
       (retain (λ idx, negb (bool_decide (idx = dependant))) <$> pending_requirements s)) s.

Definition register_pending_requirement (dep_key : NodeKey) (dependant : nat) s :
    NodeStackInner G :=
  let entry := default [] (pending_requirements s !! dep_key) in
  set_pending
    (<[dep_key := if bool_decide (dependant ∈ entry) then entry else entry ++ [dependant]]>
       (pending_requirements s)) s.

Definition attach_key (index : nat) s (dep_key : NodeKey) : NodeStackInner G :=
  let '(attached, s) := try_attach_edge index dep_key s in
  if attached then s else register_pending_requirement dep_key index s.

Definition attach_dependencies heap (index : nat) s : NodeStackInner G :=
  match entity_at heap s index with
  | None => s
  | Some e =>
      fold_left (attach_key index) (dependency_keys (e_config e))
        (clear_pending_requirements_for index s)
  end.

Definition rewire_dependencies heap (index : nat) s : NodeStackInner G :=
  let g := fold_left (λ g edge, g_remove_edge edge g) (g_edges_out (graph s) index) (graph s) in
  attach_dependencies heap index (set_graph g s).

(** The loop over the requirements of [key], with those still unattached. *)
Definition attach_pending (key : NodeKey) (acc : list nat * NodeStackInner G) (dependant : nat) :
    list nat * NodeStackInner G :=
  let '(remaining, s) := acc in
  let '(attached, s) := try_attach_edge dependant key s in
  (if attached then remaining else remaining ++ [dependant], s).

Definition resolve_pending_requirements (key : NodeKey) s : NodeStackInner G :=
  match key_to_index s !! key with
  | None => s
  | Some _ =>
      match pending_requirements s !! key with
      | None => s
      | Some pending =>
          let '(remaining, s) :=
            fold_left (attach_pending key) pending
              ([], set_pending (delete key (pending_requirements s)) s) in
          match remaining with
          | [] => s
          | _ => set_pending (<[key := remaining]> (pending_requirements s)) s
          end
      end
  end.

(** [Arc::new(RwLock::new(entity))]. *)
Definition alloc (e : NodeEntity) heap : nat * Heap :=
  (fresh (dom heap), <[fresh (dom heap) := e]> heap).

Definition insert_new_entity (e : NodeEntity) heap s : Heap * NodeStackInner G :=
  let key := key_from_entity e in
  let '(handle, heap) := alloc e heap in
  let '(index, g) := g_add_node handle (graph s) in
  let s := set_key_to_index (<[key := index]> (key_to_index s)) (set_graph g s) in
  (heap, resolve_pending_requirements key (rewire_dependencies heap index s)).

Definition has_dependents (index : nat) (key : NodeKey) s : bool :=
  negb (bool_decide (g_neighbors_in (graph s) index = []))
  || match pending_requirements s !! key with
     | Some requirements => negb (bool_decide (requirements = []))
     | None => false
     end.

(** [push_entity]: the outcome and the stack after it, or [None] for a thread
    that never returns. *)
Definition push_entity (entity : NodeEntity) (allow_missing_dependencies : bool) heap s :
    option (result Error unit * (Heap * NodeStackInner G)) :=
  let key := key_from_entity entity in
  if is_root s key then Some (Err CannotModifyRootNode, (heap, s))
  else
    match key_to_index s !! key with
    | None =>
        r ← validate_candidate heap s None entity allow_missing_dependencies;
        match r with
        | Err e => Some (Err e, (heap, s))
        | Ok _ => Some (Ok tt, insert_new_entity entity heap s)
        end
    | Some index =>
        match g_node_weight (graph s) index with
        | None => Some (Ok tt, (heap, s))
        | Some handle =>
            (* an [Arc] always has its entity *)
            match heap !! handle with None => Some (Ok tt, (heap, s)) | Some current =>
            if negb (bool_decide (instances current = [])) then
              Some (Err (CannotOverwriteNodeWithLiveInstances (key_name key) (key_tag key)), (heap, s))
            else
              let interfaces_changed :=
                negb (interfaces (e_config current) ==? interfaces (e_config entity)) in
              let dependencies_changed :=
                negb (bool_decide
                        (dependency_keys (e_config current) = dependency_keys (e_config entity))) in
              if interfaces_changed && has_dependents index key s then
                Some (Err (CannotOverwriteNodeWithDependents (key_name key) (key_tag key)), (heap, s))
              else
                let needs_rewire := interfaces_changed || dependencies_changed in
                r ← (if needs_rewire
                     then validate_candidate heap s (Some handle) entity allow_missing_dependencies
                     else Some (Ok tt));
                match r with
                | Err e => Some (Err e, (heap, s))
                | Ok _ =>
                    let heap := <[handle := entity]> heap in
                    Some (Ok tt, (heap, if needs_rewire then rewire_dependencies heap index s else s))
                end
            end
        end
    end.

Definition remove_entity (key : NodeKey) s : NodeStackInner G :=
  match key_to_index s !! key with
  | None => s
  | Some index =>
      let dependants :=
        List.filter (λ d, negb (bool_decide (d = index))) (g_neighbors_in (graph s) index) in
      let s := set_key_to_index (delete key (key_to_index s)) s in
      let s := set_graph (g_remove_node index (graph s)) s in
      fold_left (λ s dependant, register_pending_requirement key dependant s) dependants
        (clear_pending_requirements_for index s)
  end.

Definition resolve_matching_slot (key : NodeKey) (expected_handle : nat) s :
    option (nat * nat) :=
  if is_root s key then None
  else
    index ← key_to_index s !! key;
    current ← g_node_weight (graph s) index;
    if decide (current = expected_handle) then Some (index, current) else None.

(** [clear]: the root keeps its handle. *)
Definition stack_clear s : NodeStackInner G :=
  match root s with
  | None => s
  | Some root_handle =>
      let '(index, g) := g_add_node root_handle g_empty in
      mkNodeStackInner g {[root_key s := index]} ∅ (root_key s)
        (registry_clear (pairing_registry s))
  end.
End inner.

(** ** Wiring, as a change of edges and requirements *)

Section wiring.
Context {G : Type} `{StableGraphLaws G nat}.
Implicit Types (s : NodeStackInner G) (key : NodeKey).

(** The requirements that wait for a key. *)
Definition pend s key : list nat := default [] (pending_requirements s !! key).

(** No empty list is kept, and nothing waits twice. *)
Definition pending_ok s : Prop :=
  ∀ key l, pending_requirements s !! key = Some l → l ≠ [] ∧ NoDup l.

(** What wiring leaves alone. *)
Record same_nodes s s' : Prop := {
  same_keys : key_to_index s' = key_to_index s;
  same_root : root_key s' = root_key s;
  same_registry : pairing_registry s' = pairing_registry s;
  same_weight : ∀ i, g_node_weight (graph s') i = g_node_weight (graph s) i;
}.

#[export] Instance same_nodes_preorder : PreOrder same_nodes.
Proof.
  split; [by split|]. intros s1 s2 s3 [] []. split; try congruence.
Qed.

Lemma same_entity_at heap s s' i : same_nodes s s' → entity_at heap s' i = entity_at heap s i.
Proof. intros Hs. unfold entity_at. by rewrite (same_weight _ _ Hs). Qed.

(** Every key leads to a node. *)
Definition keys_lead s : Prop :=
  ∀ key j, key_to_index s !! key = Some j → is_Some (g_node_weight (graph s) j).

Lemma same_keys_lead s s' : same_nodes s s' → keys_lead s → keys_lead s'.
Proof.
  intros [Hk _ _ Hw] Hl key j. rewrite Hk, Hw. apply Hl.
Qed.

Lemma clear_pending_same d s : same_nodes s (clear_pending_requirements_for d s).
Proof. by split. Qed.

Lemma clear_pending_pend d s key :
  pend (clear_pending_requirements_for d s) key =
  retain (λ idx, negb (bool_decide (idx = d))) (pend s key).
Proof.
  unfold pend, clear_pending_requirements_for. cbn [set_pending pending_requirements].
  destruct (pending_requirements s !! key) as [l|] eqn:E; cbn [from_option].
  - destruct (decide (retain (λ idx, negb (bool_decide (idx = d))) l = [])) as [Hn|Hn].
    + rewrite map_lookup_filter_None_2. { by unfold id; rewrite Hn. } right.
      intros x. rewrite lookup_fmap, E. cbn [fmap option_fmap option_map]. intros ?. simplify_eq. naive_solver.
    + rewrite (map_lookup_filter_Some_2 _ _ _ (retain (λ idx, negb (bool_decide (idx = d))) l)); [done| |done].
      by rewrite lookup_fmap, E.
  - rewrite map_lookup_filter_None_2; [done|]. left. by rewrite lookup_fmap, E.
Qed.

Lemma elem_of_clear_pending d s key i :
  i ∈ pend (clear_pending_requirements_for d s) key ↔ i ∈ pend s key ∧ i ≠ d.
Proof.
  rewrite clear_pending_pend, elem_of_retain, negb_true_iff, bool_decide_eq_false. done.
Qed.

Lemma clear_pending_ok d s : pending_ok s → pending_ok (clear_pending_requirements_for d s).
Proof.
  intros Hs key l. unfold clear_pending_requirements_for. cbn.
  rewrite map_lookup_filter_Some, lookup_fmap. cbn.
  intros [(l' & ? & ->)%fmap_Some ?]. split; [done|]. apply NoDup_retain. by eapply Hs.
Qed.

Lemma register_same key d s : same_nodes s (register_pending_requirement key d s).
Proof. by split. Qed.

Lemma elem_of_register key d s k i :
  i ∈ pend (register_pending_requirement key d s) k ↔ i ∈ pend s k ∨ (k = key ∧ i = d).
Proof.
  unfold pend, register_pending_requirement. cbn. rewrite lookup_insert. case_decide as E.
  - subst k. cbn. case_bool_decide; [naive_solver|]. rewrite elem_of_app, list_elem_of_singleton.
    naive_solver.
  - naive_solver.
Qed.

Lemma register_ok key d s : pending_ok s → pending_ok (register_pending_requirement key d s).
Proof.
  intros Hs k l. unfold register_pending_requirement. cbn. rewrite lookup_insert.
  case_decide as E; [|apply Hs]. intros ?; simplify_eq.
  destruct (pending_requirements s !! k) as [l|] eqn:El; cbn.
  - apply Hs in El as [? ?]. case_bool_decide; [done|]. split; [by destruct l|].
    apply NoDup_app. split; [done|]. split; [set_solver|]. apply NoDup_singleton.
  - split; [done|]. apply NoDup_singleton.
Qed.

(** An attempt either wires the edge or changes nothing. *)
Lemma try_attach_spec d key s :
  keys_lead s → is_Some (g_node_weight (graph s) d) →
  let r := try_attach_edge d key s in
  same_nodes s r.2 ∧ pending_requirements r.2 = pending_requirements s ∧
  (r.1 = true ↔ is_Some (key_to_index s !! key)) ∧
  ∀ a b, g_edge (graph r.2) a b ↔
    g_edge (graph s) a b ∨ (a = d ∧ key_to_index s !! key = Some b).
Proof.
  intros Hl Hd. unfold try_attach_edge.
  destruct (key_to_index s !! key) as [j|] eqn:Ej; cbn.
  2:{ split; [done|]. split; [done|]. split; [naive_solver|]. naive_solver. }
  destruct (g_find_edge (graph s) d j) eqn:Ef.
  - split; [done|]. split; [done|]. split; [naive_solver|]. intros a b. split; [naive_solver|].
    intros [?|[-> ?]]; [done|]. simplify_eq. apply find_edge_spec. by rewrite Ef.
  - split; [split; cbn; try done; intros; apply add_edge_weight|]. split; [done|].
    split; [naive_solver|]. intros a b. cbn. rewrite add_edge_edge by eauto. naive_solver.
Qed.

(** Attaching a node's keys: an edge for each that is in the stack, a
    requirement for each that is not. *)
Lemma attach_keys_spec d keys s :
  keys_lead s → is_Some (g_node_weight (graph s) d) → pending_ok s →
  let s' := fold_left (attach_key d) keys s in
  same_nodes s s' ∧ pending_ok s' ∧
  (∀ a b, g_edge (graph s') a b ↔
     g_edge (graph s) a b ∨ (a = d ∧ ∃ key, key ∈ keys ∧ key_to_index s !! key = Some b)) ∧
  ∀ key i, i ∈ pend s' key ↔
    i ∈ pend s key ∨ (i = d ∧ key ∈ keys ∧ key_to_index s !! key = None).
Proof.
  revert s. induction keys as [|key keys IH]; intros s Hl Hd Hp; cbn [fold_left].
  { split; [done|]. split; [done|]. split; intros; set_solver. }
  pose proof (try_attach_spec d key s Hl Hd) as (Hs1 & Hpend1 & Hr & He1).
  assert (Hstep : ∃ s1, attach_key d s key = s1 ∧ same_nodes s s1 ∧ pending_ok s1 ∧
    (∀ a b, g_edge (graph s1) a b ↔
       g_edge (graph s) a b ∨ (a = d ∧ key_to_index s !! key = Some b)) ∧
    ∀ k i, i ∈ pend s1 k ↔ i ∈ pend s k ∨ (i = d ∧ k = key ∧ key_to_index s !! key = None)).
  { unfold attach_key. destruct (try_attach_edge d key s) as [[] s1]; cbn in *; eexists.
    - split; [done|]. split; [done|]. split; [unfold pending_ok; by rewrite Hpend1|].
      split; [done|]. intros k i. unfold pend. rewrite Hpend1.
      destruct (proj1 Hr eq_refl) as [j Hj]. naive_solver.
    - split; [done|]. split; [by etrans; [|apply register_same]|].
      split; [apply register_ok; unfold pending_ok; by rewrite Hpend1|]. split; [done|].
      intros k i. rewrite elem_of_register. unfold pend at 1. rewrite Hpend1.
      destruct (key_to_index s !! key); [|naive_solver].
      assert (false = true) by (apply Hr; eauto). done. }
  destruct Hstep as (s1 & -> & Hs & Hp1 & He & Hpd).
  destruct (IH s1) as (Hs' & Hp' & He' & Hpd'); [by eapply same_keys_lead| |done|].
  { by rewrite (same_weight _ _ Hs). }
  rewrite (same_keys _ _ Hs) in *.
  split; [by etrans|]. split; [done|]. split.
  - intros a b. rewrite He', He. setoid_rewrite elem_of_cons. naive_solver.
  - intros k i. rewrite Hpd', Hpd. setoid_rewrite elem_of_cons. naive_solver.
Qed.

(** Rewiring a node: its edges and requirements are those of its config, every
    other node's are as they were. *)
Lemma rewire_spec heap d e s :
  keys_lead s → entity_at heap s d = Some e → pending_ok s →
  let s' := rewire_dependencies heap d s in
  same_nodes s s' ∧ pending_ok s' ∧
  (∀ a b, g_edge (graph s') a b ↔
     (g_edge (graph s) a b ∧ a ≠ d) ∨
     (a = d ∧ ∃ key, key ∈ dependency_keys (e_config e) ∧ key_to_index s !! key = Some b)) ∧
  ∀ key i, i ∈ pend s' key ↔
    (i ∈ pend s key ∧ i ≠ d) ∨
    (i = d ∧ key ∈ dependency_keys (e_config e) ∧ key_to_index s !! key = None).
Proof.
  intros Hl He Hp. unfold rewire_dependencies, attach_dependencies. cbn zeta.
  set (s1 := set_graph _ s).
  assert (Hs1 : same_nodes s s1).
  { subst s1. split; cbn; try done. intros. apply fold_remove_edge_weight. }
  rewrite (same_entity_at _ _ _ _ Hs1), He.
  set (s2 := clear_pending_requirements_for d s1).
  assert (Hs2 : same_nodes s s2) by (by etrans; [|apply clear_pending_same]).
  destruct (attach_keys_spec d (dependency_keys (e_config e)) s2) as (Hs' & Hp' & He' & Hpd').
  - by eapply same_keys_lead.
  - rewrite (same_weight _ _ Hs2). unfold entity_at in He.
    destruct (g_node_weight (graph s) d); [done|]. done.
  - by apply clear_pending_ok.
  - rewrite (same_keys _ _ Hs2) in *. split; [by etrans|]. split; [done|]. split.
    + intros a b. rewrite He'. subst s2 s1. cbn. rewrite remove_edges_out_edge. done.
    + intros key i. rewrite Hpd'. subst s2. rewrite elem_of_clear_pending. done.
Qed.

(** Attaching the requirements that wait for a key now in the stack. *)
Lemma attach_pending_spec key j l rem s :
  keys_lead s → key_to_index s !! key = Some j →
  (∀ i, i ∈ l → is_Some (g_node_weight (graph s) i)) →
  let r := fold_left (attach_pending key) l (rem, s) in
  r.1 = rem ∧ same_nodes s r.2 ∧ pending_requirements r.2 = pending_requirements s ∧
  ∀ a b, g_edge (graph r.2) a b ↔ g_edge (graph s) a b ∨ (a ∈ l ∧ b = j).
Proof.
  intros Hl Hj. revert s Hl Hj. induction l as [|d l IH]; intros s Hl Hj Hn; cbn [fold_left].
  { split; [done|]. split; [done|]. split; [done|]. set_solver. }
  pose proof (try_attach_spec d key s Hl (Hn d ltac:(set_solver))) as (Hs1 & Hpend1 & Hr & He1).
  assert (Hstep : attach_pending key (rem, s) d = (rem, (try_attach_edge d key s).2)).
  { unfold attach_pending. destruct (try_attach_edge d key s) as [attached s1]. cbn in *.
    assert (attached = true) as -> by (apply Hr; by rewrite Hj). done. }
  rewrite Hstep. set (s1 := (try_attach_edge d key s).2) in *. clearbody s1. clear Hstep.
  destruct (IH s1) as (-> & Hs' & Hpend' & He').
  - by eapply same_keys_lead.
  - by rewrite (same_keys _ _ Hs1).
  - intros i Hi. rewrite (same_weight _ _ Hs1). apply Hn. set_solver.
  - split; [done|]. split; [by transitivity s1|]. split; [congruence|].
    intros a b. rewrite He', He1, Hj. setoid_rewrite elem_of_cons. naive_solver.
Qed.

Lemma resolve_pending_spec key j s :
  keys_lead s → key_to_index s !! key = Some j → pending_ok s →
  (∀ i, i ∈ pend s key → is_Some (g_node_weight (graph s) i)) →
  let s' := resolve_pending_requirements key s in
  same_nodes s s' ∧ pending_ok s' ∧
  (∀ a b, g_edge (graph s') a b ↔ g_edge (graph s) a b ∨ (a ∈ pend s key ∧ b = j)) ∧
  ∀ k i, i ∈ pend s' k ↔ i ∈ pend s k ∧ k ≠ key.
Proof.
  intros Hl Hj Hp Hn. unfold resolve_pending_requirements. rewrite Hj.
  destruct (pending_requirements s !! key) as [l|] eqn:El.
  2:{ unfold pend. rewrite El. cbn. split; [done|]. split; [done|]. split; [set_solver|].
      intros k i. split; [|naive_solver]. intros Hi. split; [done|]. intros ->.
      rewrite El in Hi. cbn in Hi. set_solver. }
  assert (Hpl : pend s key = l) by (unfold pend; by rewrite El). rewrite Hpl in *.
  set (s1 := set_pending (delete key (pending_requirements s)) s).
  destruct (attach_pending_spec key j l [] s1) as (Hr & Hs' & Hpend & He'); [done..|].
  destruct (fold_left _ _ _) as [rem s2]. cbn [fst snd] in *. subst rem.
  split; [by destruct Hs'|]. split.
  { intros k l'. rewrite Hpend. subst s1. cbn. rewrite lookup_delete. case_decide; [done|]. apply Hp. }
  split; [done|]. intros k i. unfold pend. rewrite Hpend. subst s1. cbn. rewrite lookup_delete.
  case_decide; [subst; set_solver|naive_solver].
Qed.
End wiring.
