(* ===== verification/StackPairing.v ===== *)
(** * Pairing on the stack

    The pairing half of [node-stack-internal/src/node_stack.rs]: which
    instances are live for pairing, what a slot declares, the establishment of
    a pair between two slots of this daemon or with a slot of another one, and
    the views of the pairs the daemon serves. *)

From S2P Require Import Prelude Names RestartPolicy Config InterfaceEq Validation Graphs Cycle PairingRegistry Supervision Instance Entity Lifecycle Stack.

Section pairing.
Context {G : Type} `{StableGraph G nat} `{Tarjan}.
Implicit Types (s : NodeStackInner G) (heap : Heap).

(** ** Liveness *)

Definition instance_is_live_for_pairing heap s (instance_id : string) : bool :=
  match instance_state heap s instance_id with Some st => has_process st | None => false end.

Definition live_instance_ids_for_pairing heap s : gset string :=
  list_to_set
    (flat_map
       (λ '(_, e),
          map i_instance_id (List.filter (λ inst, has_process (i_state inst)) (instances e)))
       (entities heap s)).

Definition is_live heap s (instance_id : string) : bool :=
  bool_decide (instance_id ∈ live_instance_ids_for_pairing heap s).

Definition live_pairs_filtered heap s : list Pairing :=
  match pairing_registry s with
  | [] => []
  | _ =>
      List.filter
        (λ pair, has_live_local_endpoints pair (root_core_node_name heap s) (is_live heap s))
        (pairing_registry s)
  end.

Definition prune_dead_pairs heap s : NodeStackInner G :=
  match pairing_registry s with
  | [] => s
  | _ =>
      set_registry
        (prune_dead (pairing_registry s) (root_core_node_name heap s) (is_live heap s)) s
  end.

(** ** Declarations *)

Definition pairing_slot_meta heap s (slot : SlotAddr) : result Error PairingSlot :=
  let found :=
    tracked heap s (slot_instance_id slot)
      (λ t,
         (d ← depends_on (manifest (e_config (tr_entity t)));
          List.find (λ p, bool_decide (pd_link_id p = slot_link_id slot)) (pairings d),
          i_state (tr_instance t))) in
  match found with
  | None => Err (PairingInstanceNotInStack (slot_instance_id slot))
  | Some (dep, state) =>
      if negb (has_process state)
      then Err (PairingInstanceWithoutProcess (slot_instance_id slot) state)
      else ok_or dep (PairingSlotNotFound (slot_instance_id slot) (slot_link_id slot))
  end.

Definition instance_copy heap s (instance_id : string) : option string :=
  mjoin (tracked heap s instance_id (λ t, i_copy (tr_instance t))).

Definition resolve_endpoint_meta heap s (slot : SlotAddr) (remote_meta : option RemoteSlotMeta) :
    result Error EndpointMeta :=
  match remote_meta with
  | Some meta =>
      Ok (mkEndpointMeta (rm_pairing_name meta) (rm_pairing_tag meta) (rm_role meta) None
            (rm_cardinality meta) (rm_copy meta))
  | None =>
      if negb (is_on slot (root_core_node_name heap s))
      then Err (PairingInstanceNotInStack (slot_instance_id slot))
      else
        dep ← pairing_slot_meta heap s slot;
        Ok (mkEndpointMeta (pd_name dep) (pd_tag dep) (pd_role dep) (pd_sha256 dep)
              (pd_cardinality dep) (instance_copy heap s (slot_instance_id slot)))
  end.

(** ** Pairs *)

(** The loop over the two ends: a scalar slot that already holds a pair. *)
Definition scalar_conflict (r : PairingRegistry) (slot : SlotAddr) (meta : EndpointMeta) :
    option Error :=
  if negb (is_scalar (em_cardinality meta)) then None
  else
    match find_by_slot r slot with
    | None => None
    | Some existing =>
        Some (PairingSlotAlreadyPaired (SlotAddr_to_string slot)
                (match peer_of existing slot with
                 | Some peer => SlotAddr_to_string (ep_slot peer)
                 | None => ""
                 end))
    end.

Definition pins_differ (a b : option string) : option (string * string) :=
  match a, b with
  | Some sha_a, Some sha_b => if decide (sha_a = sha_b) then None else Some (sha_a, sha_b)
  | _, _ => None
  end.

Definition pair_slots_impl heap (a : SlotAddr) (a_remote_meta : option RemoteSlotMeta)
    (b : SlotAddr) (b_remote_meta : option RemoteSlotMeta) s :
    result Error Pairing * NodeStackInner G :=
  match resolve_endpoint_meta heap s a a_remote_meta with
  | Err e => (Err e, s)
  | Ok dep_a =>
  match resolve_endpoint_meta heap s b b_remote_meta with
  | Err e => (Err e, s)
  | Ok dep_b =>
      let text := SlotAddr_to_string in
      if bool_decide (em_name dep_a ≠ em_name dep_b) || bool_decide (em_tag dep_a ≠ em_tag dep_b)
      then
        (Err (PairingMismatch (text a) (em_name dep_a) (em_tag dep_a)
                (text b) (em_name dep_b) (em_tag dep_b)), s)
      else if bool_decide (em_role dep_a = em_role dep_b) then
        (Err (PairingRolesNotComplementary (text a) (text b) (em_role dep_a)
                (em_name dep_a) (em_tag dep_a)), s)
      else
        match pins_differ (em_sha256 dep_a) (em_sha256 dep_b) with
        | Some (sha_a, sha_b) =>
            (Err (PairingShaMismatch (text a) sha_a (text b) sha_b
                    (em_name dep_a) (em_tag dep_a)), s)
        | None =>
            let s := prune_dead_pairs heap s in
            match find_pair (pairing_registry s) a b with
            | Some _ => (Err (PairAlreadyHeld (text a) (text b)), s)
            | None =>
                match first_some (λ '(slot, meta), scalar_conflict (pairing_registry s) slot meta)
                        [(a, dep_a); (b, dep_b)] with
                | Some e => (Err e, s)
                | None =>
                    let pairing :=
                      mkPairing (em_name dep_a) (em_tag dep_a)
                        (mkPairEndpoint a (em_role dep_a) (em_copy dep_a))
                        (mkPairEndpoint b (em_role dep_b) (em_copy dep_b)) in
                    (Ok pairing, set_registry (registry_insert (pairing_registry s) pairing) s)
                end
            end
        end
  end
  end.

Definition pairs_impl heap s : list Pairing * NodeStackInner G :=
  let s := prune_dead_pairs heap s in (pairing_registry s, s).

Definition pair_slots heap (a b : SlotAddr) s : result Error Pairing * NodeStackInner G :=
  pair_slots_impl heap a None b None s.

Definition pair_slot_with_remote heap (local remote : SlotAddr) (meta : RemoteSlotMeta) s :
    result Error Pairing * NodeStackInner G :=
  pair_slots_impl heap local None remote (Some meta) s.

Definition pair_planned heap (pair : PlannedPair) s : result Error Pairing * NodeStackInner G :=
  match peer_remote_meta pair with
  | None => pair_slots heap (own pair) (peer pair) s
  | Some meta => pair_slot_with_remote heap (own pair) (peer pair) meta s
  end.

Definition clear_pair (a b : SlotAddr) s : option Pairing * NodeStackInner G :=
  let '(removed, r) := remove_pair (pairing_registry s) a b in (removed, set_registry r s).

Definition dissolve_pairs_for_remote_instance (core_node instance_id : string) s :
    list Pairing * NodeStackInner G :=
  let '(taken, r) := remove_for_instance (pairing_registry s) core_node instance_id in
  (taken, set_registry r s).

Definition dissolve_pairs_for_instance heap (instance_id : string) s :
    list Pairing * NodeStackInner G :=
  dissolve_pairs_for_remote_instance (root_core_node_name heap s) instance_id s.
End pairing.

(** ** Views *)

Record InstanceClock : Type := mkInstanceClock {
  ic_instance_id : string;
  ic_binding : ClockBinding;
  ic_launch : option LaunchIdentity;
}.

Definition holds_domain_name (state : InstanceState) : bool :=
  has_process state || bool_decide (state = Restarting).

Definition instance_clocks_of (l : list TrackedNodeInstance) (counts : InstanceState → bool) :
    list InstanceClock :=
  map (λ inst, mkInstanceClock (i_instance_id inst) (i_clock inst) (i_launch inst))
    (List.filter (λ inst, counts (i_state inst)) l).

Definition clock_domain_publisher_of (clocks : list InstanceClock) (name : string) :
    option string :=
  ic_instance_id <$>
  List.find
    (λ clock,
       match published_domain (ic_binding clock) with
       | Some domain => bool_decide (domain_name domain = name)
       | None => false
       end)
    clocks.

Definition live_container_instances_of (config : NodeConfig) (l : list TrackedNodeInstance) :
    list string :=
  match container (execution config) with
  | None => []
  | Some _ => map i_instance_id (List.filter (λ inst, has_process (i_state inst)) l)
  end.

Section views.
Context {G : Type} `{StableGraph G nat}.
Implicit Types (s : NodeStackInner G) (heap : Heap).

Definition clocks_where heap s (counts : InstanceState → bool) : list InstanceClock :=
  flat_map (λ '(_, e), instance_clocks_of (instances e) counts) (entities heap s).

Definition instance_clocks heap s : list InstanceClock := clocks_where heap s has_process.

Definition clock_domain_publisher heap s (name : string) : option string :=
  clock_domain_publisher_of (clocks_where heap s holds_domain_name) name.

Definition live_container_instance_ids heap s : list string :=
  flat_map (λ '(_, e), live_container_instances_of (e_config e) (instances e)) (entities heap s).

Record PairingNodeSnapshot : Type := mkPairingNodeSnapshot {
  sn_node_name : string;
  sn_node_tag : string;
  sn_instance_ids : list string;
  sn_pairing_deps : list PairingSlot;
}.

Definition pairing_node_snapshots heap s : list PairingNodeSnapshot :=
  omap
    (λ '(_, e),
       if bool_decide (key_from_entity e = root_key s) then None
       else
         match map i_instance_id (List.filter (λ inst, has_process (i_state inst)) (instances e)) with
         | [] => None
         | instance_ids =>
             Some (mkPairingNodeSnapshot (node_name e) (node_tag e) instance_ids
                     (match depends_on (manifest (e_config e)) with
                      | Some d => pairings d
                      | None => []
                      end))
         end)
    (entities heap s).
End views.

(** [pairing_slot_view]: the declared slots of one instance with the peers of
    the live pairs they hold. *)
Record PairedPeer : Type := mkPairedPeer {
  pp_peer : ProducerRef;
  pp_link_id : string;
  pp_copy : option string;
}.

Record SerializedPairingSlot : Type := mkSerializedPairingSlot {
  sps_pairing_name : string;
  sps_pairing_tag : string;
  sps_role : string;
  sps_cardinality : Cardinality;
  sps_peers : list PairedPeer;
}.

Definition pairing_slot_view (core_node instance_id : string) (deps : list PairingSlot)
    (live_pairs : list Pairing) : gmap string SerializedPairingSlot :=
  fold_left
    (λ out dep,
       let slot := mkSlotAddr core_node instance_id (pd_link_id dep) in
       let peers :=
         map (λ peer,
                mkPairedPeer
                  (mkProducerRef (slot_core_node (ep_slot peer)) (slot_instance_id (ep_slot peer)))
                  (slot_link_id (ep_slot peer)) (ep_copy peer))
           (omap (λ pair, peer_of pair slot) live_pairs) in
       <[pd_link_id dep :=
           mkSerializedPairingSlot (pd_name dep) (pd_tag dep) (pd_role dep)
             (pd_cardinality dep) peers]> out)
    deps ∅.

(** ** Exclusivity *)

(** How many pairs hold a slot, and how many join two slots. *)
Definition pairs_on (slot : SlotAddr) (r : PairingRegistry) : nat :=
  length (List.filter (λ p, opt_is_some (endpoint p slot)) r).

Definition pairs_between (a b : SlotAddr) (r : PairingRegistry) : nat :=
  length (List.filter (λ p, is_between p a b) r).

(** A scalar slot holds one pair at most, and two slots are paired once at
    most. *)
Record exclusive (card : SlotAddr → Cardinality) (r : PairingRegistry) : Prop := mk_exclusive {
  scalar_holds_one : ∀ slot, is_scalar (card slot) = true → pairs_on slot r ≤ 1;
  paired_once : ∀ a b, a ≠ b → pairs_between a b r ≤ 1;
}.

Lemma length_filter_retain {A} (p q : A → bool) l :
  length (List.filter p (retain q l)) ≤ length (List.filter p l).
Proof.
  unfold retain. induction l as [|x l IH]; simpl; [done|].
  destruct (q x); simpl; destruct (p x); simpl; lia.
Qed.

Lemma length_filter_none {A} (p : A → bool) l :
  (∀ x, x ∈ l → p x = false) → length (List.filter p l) = 0.
Proof.
  induction l as [|x l IH]; intros H; simpl; [done|]. rewrite H by set_solver.
  apply IH. set_solver.
Qed.

Lemma exclusive_retain card keep r : exclusive card r → exclusive card (retain keep r).
Proof.
  intros [H1 H2]. split.
  - intros slot Hs. etrans; [apply length_filter_retain|by apply H1].
  - intros a b Hab. etrans; [apply length_filter_retain|by apply H2].
Qed.

Lemma exclusive_insert card r p a b :
  exclusive card r → slots_of p = [a; b] →
  find_pair r a b = None →
  (is_scalar (card a) = true → find_by_slot r a = None) →
  (is_scalar (card b) = true → find_by_slot r b = None) →
  exclusive card (registry_insert r p).
Proof.
  intros [H1 H2] Hp Hab Ha Hb. unfold registry_insert. split.
  - intros slot Hs. unfold pairs_on. rewrite List.filter_app, length_app. simpl.
    destruct (opt_is_some (endpoint p slot)) eqn:E; simpl; [|specialize (H1 slot Hs); unfold pairs_on in *; lia].
    rewrite length_filter_none; [lia|]. apply endpoint_some in E. rewrite Hp in E.
    assert (Hnone : find_by_slot r slot = None).
    { rewrite !elem_of_cons in E. destruct E as [->|[->|?%elem_of_nil]]; [auto..|done]. }
    unfold find_by_slot in Hnone. by apply find_None_forall.
  - intros x y Hxy. unfold pairs_between. rewrite List.filter_app, length_app. simpl.
    destruct (is_between p x y) eqn:E; simpl; [|specialize (H2 x y Hxy); unfold pairs_between in *; lia].
    rewrite length_filter_none; [lia|]. apply is_between_true in E. rewrite Hp in E.
    intros q Hq. apply not_true_iff_false. rewrite is_between_true.
    rewrite find_pair_None in Hab. specialize (Hab q Hq). set_unfold in E. naive_solver.
Qed.

Section exclusivity.
Context {G : Type} `{StableGraph G nat} `{Tarjan}.
Implicit Types (s : NodeStackInner G) (heap : Heap).

Lemma prune_dead_pairs_registry heap s :
  ∃ keep, pairing_registry (prune_dead_pairs heap s) = retain keep (pairing_registry s) ∧
    ∀ p, p ∈ pairing_registry s → keep p = false →
      ∃ slot, slot ∈ slots_of p ∧ slot_core_node slot = root_core_node_name heap s ∧
        is_live heap s (slot_instance_id slot) = false.
Proof.
  unfold prune_dead_pairs. destruct (pairing_registry s) as [|p0 r] eqn:E.
  { exists (λ _, true). rewrite E. split; [done|]. set_solver. }
  exists (λ p, has_live_local_endpoints p (root_core_node_name heap s) (is_live heap s)).
  split; [done|]. intros p _ Hp. unfold has_live_local_endpoints, is_on in Hp. cbn in Hp.
  rewrite andb_true_r in Hp. apply andb_false_iff in Hp as [Hp|Hp];
    apply orb_false_iff in Hp as [?%negb_false_iff%bool_decide_eq_true ?];
    eexists; (split; [|done]); unfold slots_of; set_solver.
Qed.

(** What an endpoint was resolved from. *)
Lemma resolve_endpoint_local heap s slot meta :
  resolve_endpoint_meta heap s slot None = Ok meta →
  slot_core_node slot = root_core_node_name heap s ∧
  ∃ dep, pairing_slot_meta heap s slot = Ok dep ∧ em_role meta = pd_role dep ∧
    em_cardinality meta = pd_cardinality dep.
Proof.
  unfold resolve_endpoint_meta. destruct (negb _) eqn:E; [done|].
  apply negb_false_iff, bool_decide_eq_true in E.
  intros (dep & Hd & ?)%result_bind_ok. simplify_eq/=. eauto.
Qed.

Lemma no_conflict r slot meta :
  scalar_conflict r slot meta = None → is_scalar (em_cardinality meta) = true →
  find_by_slot r slot = None.
Proof.
  unfold scalar_conflict. intros Hc Hs. rewrite Hs in Hc. simpl in Hc.
  by destruct (find_by_slot r slot).
Qed.

(** The registry after an attempt, on every branch. *)
Lemma pair_slots_cases heap a ma b mb s r s' :
  pair_slots_impl heap a ma b mb s = (r, s') →
  (∃ e, r = Err e ∧ (s' = s ∨ s' = prune_dead_pairs heap s)) ∨
  ∃ da db, resolve_endpoint_meta heap s a ma = Ok da ∧ resolve_endpoint_meta heap s b mb = Ok db ∧
    em_name da = em_name db ∧ em_tag da = em_tag db ∧ em_role da ≠ em_role db ∧
    pins_differ (em_sha256 da) (em_sha256 db) = None ∧
    let pruned := pairing_registry (prune_dead_pairs heap s) in
    find_pair pruned a b = None ∧
    scalar_conflict pruned a da = None ∧ scalar_conflict pruned b db = None ∧
    let p := mkPairing (em_name da) (em_tag da)
               (mkPairEndpoint a (em_role da) (em_copy da))
               (mkPairEndpoint b (em_role db) (em_copy db)) in
    r = Ok p ∧ s' = set_registry (registry_insert pruned p) (prune_dead_pairs heap s).
Proof.
  unfold pair_slots_impl.
  destruct (resolve_endpoint_meta heap s a ma) as [da|] eqn:Ea; [|intros; simplify_eq; naive_solver].
  destruct (resolve_endpoint_meta heap s b mb) as [db|] eqn:Eb; [|intros; simplify_eq; naive_solver].
  destruct (bool_decide (em_name da ≠ em_name db)) eqn:En; [intros; simplify_eq/=; naive_solver|].
  destruct (bool_decide (em_tag da ≠ em_tag db)) eqn:Et; [intros; simplify_eq/=; naive_solver|].
  apply bool_decide_eq_false, dec_stable in En, Et. cbn [orb].
  case_bool_decide as Er; [intros; simplify_eq; naive_solver|].
  destruct (pins_differ _ _) as [[sa sb]|] eqn:Ep; [intros; simplify_eq; naive_solver|].
  destruct (find_pair _ a b) eqn:Ef; [intros; simplify_eq; naive_solver|]. cbn [first_some].
  destruct (scalar_conflict _ a da) eqn:Ca; [intros; simplify_eq; naive_solver|].
  destruct (scalar_conflict _ b db) eqn:Cb; [intros; simplify_eq; naive_solver|].
  intros. simplify_eq. right. exists da, db. split_and!; done.
Qed.
End exclusivity.

(** C34: pairing two slots keeps the registry exclusive: whatever the outcome,
    a slot declared for one peer never holds two pairs and no two slots are
    paired twice; the only pairs dropped are those of this daemon's dead
    instances. A pair is established only between the two slots asked for, of
    one pairing and with complementary roles, and an end this daemon hosts is
    declared by a tracked instance with a process. *)
Theorem pair_slots_exclusive {G} `{StableGraph G nat} (heap : Heap) (card : SlotAddr → Cardinality)
    (a b : SlotAddr) (ma mb : option RemoteSlotMeta) (s s' : NodeStackInner G)
    (r : result Error Pairing)
    (Hex : exclusive card (pairing_registry s))
    (Hcard : ∀ slot m meta, (slot, m) ∈ [(a, ma); (b, mb)] →
       resolve_endpoint_meta heap s slot m = Ok meta → em_cardinality meta = card slot)
    (Hrun : pair_slots_impl heap a ma b mb s = (r, s')) :
  exclusive card (pairing_registry s') ∧
  (∀ p, p ∈ pairing_registry s → p ∉ pairing_registry s' →
     ∃ slot, slot ∈ slots_of p ∧ slot_core_node slot = root_core_node_name heap s ∧
       is_live heap s (slot_instance_id slot) = false) ∧
  ∀ p, r = Ok p →
    p ∈ pairing_registry s' ∧ slots_of p = [a; b] ∧ ep_role (pair_a p) ≠ ep_role (pair_b p) ∧
    (ma = None → ∃ dep, pairing_slot_meta heap s a = Ok dep ∧ pd_role dep = ep_role (pair_a p)) ∧
    (mb = None → ∃ dep, pairing_slot_meta heap s b = Ok dep ∧ pd_role dep = ep_role (pair_b p)).
Proof.
  destruct (prune_dead_pairs_registry heap s) as (keep & Hkeep & Hdead).
  assert (Hpruned : exclusive card (pairing_registry (prune_dead_pairs heap s)))
    by (rewrite Hkeep; by apply exclusive_retain).
  assert (Hdrop : ∀ p, p ∈ pairing_registry s → p ∉ pairing_registry (prune_dead_pairs heap s) →
    ∃ slot, slot ∈ slots_of p ∧ slot_core_node slot = root_core_node_name heap s ∧
      is_live heap s (slot_instance_id slot) = false).
  { intros p Hp. rewrite Hkeep, elem_of_retain. intros Hn. apply (Hdead p Hp).
    destruct (keep p); [|done]. exfalso. auto. }
  apply pair_slots_cases in Hrun as [(e & -> & [-> | ->])|
    (da & db & Ea & Eb & _ & _ & Hrole & _ & Hf & Ca & Cb & -> & ->)].
  - split; [done|]. split; [done|]. done.
  - split; [done|]. split; [done|]. done.
  - assert (Hca := Hcard a ma da ltac:(set_solver) Ea).
    assert (Hcb := Hcard b mb db ltac:(set_solver) Eb). split; [|split].
    + cbn. apply (exclusive_insert card _ _ a b); [done..| |];
        intros Hs; eapply no_conflict; [done|congruence|done|congruence].
    + cbn. intros p Hp Hn. apply Hdrop; [done|]. unfold registry_insert in Hn. set_solver.
    + intros p ?. simplify_eq. cbn. unfold registry_insert. split; [set_solver|].
      split; [done|]. split; [done|]. split; intros ->.
      * apply resolve_endpoint_local in Ea as (_ & dep & ? & ? & _). eauto.
      * apply resolve_endpoint_local in Eb as (_ & dep & ? & ? & _). eauto.
Qed.

(** A daemon [core] with a running camera, the leader of a teleop, and a
    running gripper, the follower of one. *)
Definition example_gripper_config : NodeConfig :=
  mkNodeConfig
    (mkManifest "gripper" "v1" [] None []
       (Some (mkDependsOn [] [] [] [mkPairingSlot "teleop" "v1" "follower" "lead" None One] [])))
    Interfaces_default (mkExecution Rust None None None [] None false) (mkNodeFramework None).

Definition example_root_config : NodeConfig :=
  mkNodeConfig (mkManifest "core" "v1" [] None [] None)
    Interfaces_default (mkExecution Rust None None None [] None false) (mkNodeFramework None).

Definition example_instance (id : string) : TrackedNodeInstance :=
  (TrackedNodeInstance_new id Running ∅ example_world).1.

Definition example_heap : Heap :=
  <[0 := mkNodeEntity example_root_config (Root "/root" (example_instance "daemon")) 0 None [] SRoot]>
  (<[1 := example_entity [example_running]]>
  (<[2 := mkNodeEntity example_gripper_config (Ready "/g" (Built "/ga") [example_instance "grip"])
            2 None [] SReady]> ∅)).

Definition example_stack : NodeStackInner (map_graph nat) :=
  mkNodeStackInner
    (g_add_node 2 (g_add_node 1 (g_add_node 0 g_empty).2).2).2
    (<[mkNodeKey "core" "v1" := 0]>
      (<[mkNodeKey "camera" "v1" := 1]> (<[mkNodeKey "gripper" "v1" := 2]> ∅)))
    ∅ (mkNodeKey "core" "v1") [].

Definition example_leader : SlotAddr := mkSlotAddr "core" "cam" "arm".
Definition example_follower : SlotAddr := mkSlotAddr "core" "grip" "lead".

Lemma pair_slots_exclusive_witness :
  let run := pair_slots_impl example_heap example_leader None example_follower None example_stack in
  is_ok run.1 = true ∧ exclusive (λ _, One) (pairing_registry run.2) ∧
  exclusive (λ _, One)
    (pairing_registry
       (pair_slots_impl example_heap example_leader None example_follower None run.2).2).
Proof.
  assert (Hcard : ∀ s, s = example_stack ∨
     s = (pair_slots_impl example_heap example_leader None example_follower None example_stack).2 →
     ∀ slot m meta, (slot, m) ∈ [(example_leader, None); (example_follower, None)] →
       resolve_endpoint_meta example_heap s slot m = Ok meta → em_cardinality meta = One).
  { intros s Hs slot m meta Hin. rewrite !elem_of_cons in Hin.
    destruct Hs as [-> | ->]; destruct Hin as [Heq|[Heq|Hnil]];
      try (by apply elem_of_nil in Hnil); injection Heq as -> ->; vm_compute;
      intros Heq2; injection Heq2 as <-; reflexivity. }
  assert (H0 : exclusive (λ _, One) (pairing_registry example_stack)) by (split; cbn; lia).
  cbn zeta. split; [vm_compute; reflexivity|].
  match goal with |- exclusive _ (pairing_registry ?p.2) ∧ _ => destruct p as [r1 s1] eqn:E1 end.
  destruct (pair_slots_exclusive example_heap (λ _, One) example_leader example_follower None None
              example_stack s1 r1 H0 (Hcard _ (or_introl eq_refl)) E1) as [H1 _].
  split; [exact H1|]. cbn [snd].
  match goal with |- exclusive _ (pairing_registry ?p.2) => destruct p as [r2 s2] eqn:E2 end.
  refine (proj1 (pair_slots_exclusive example_heap (λ _, One) example_leader example_follower
                   None None s1 s2 r2 H1 (Hcard s1 _) E2)).
  right. reflexivity.
Defined.
