(* ===== verification/StackInv.v ===== *)
(** * The wiring invariant of the node stack

    Whatever is pushed, removed, replaced or edited, the stack's three tables
    agree with the documents of its entities: every key leads to the entity of
    that key, a dependency on a node of the stack is an edge, and a dependency
    on a node that is not there is a pending requirement, once. *)

From S2P Require Import Prelude Names RestartPolicy Config InterfaceEq Validation Graphs Cycle PairingRegistry Supervision Instance Entity Lifecycle Stack.
#[local] Open Scope peppy_scope.

Section wf.
Context {G : Type} `{StableGraphLaws G nat}.
Implicit Types (s : NodeStackInner G) (heap : Heap) (key : NodeKey).

Record stack_wf heap s : Prop := mk_stack_wf {
  wf_entities : ∀ i h, g_node_weight (graph s) i = Some h → is_Some (heap !! h);
  wf_handles : ∀ i j h,
    g_node_weight (graph s) i = Some h → g_node_weight (graph s) j = Some h → i = j;
  wf_keys : ∀ key i,
    key_to_index s !! key = Some i ↔
    ∃ e, entity_at heap s i = Some e ∧ key_from_entity e = key;
  wf_edges : ∀ i j ei ej,
    entity_at heap s i = Some ei → entity_at heap s j = Some ej →
    g_edge (graph s) i j ↔ key_from_entity ej ∈ dependency_keys (e_config ei);
  wf_pending : ∀ key i,
    i ∈ pend s key ↔
    ∃ e, entity_at heap s i = Some e ∧ key ∈ dependency_keys (e_config e) ∧
      key_to_index s !! key = None;
  wf_pending_lists : pending_ok s;
}.

(** The root is in the stack, with the config it was made with, which depends
    on no node. *)
Definition root_ok (root_config : NodeConfig) heap s : Prop :=
  dependency_keys root_config = [] ∧
  ∃ i e, key_to_index s !! root_key s = Some i ∧ entity_at heap s i = Some e ∧
    e_config e = root_config.

Lemma entity_at_Some heap s i e :
  entity_at heap s i = Some e ↔ ∃ h, g_node_weight (graph s) i = Some h ∧ heap !! h = Some e.
Proof. unfold entity_at. by rewrite bind_Some. Qed.

Lemma wf_keys_lead heap s : stack_wf heap s → keys_lead s.
Proof.
  intros Hwf key j (e & (h & ? & _)%entity_at_Some & _)%(wf_keys _ _ Hwf). eauto.
Qed.

Lemma edge_entities heap s i j :
  stack_wf heap s → g_edge (graph s) i j →
  is_Some (entity_at heap s i) ∧ is_Some (entity_at heap s j).
Proof.
  intros Hwf [e He]. apply edge_ends in He as [[hi Hi] [hj Hj]].
  destruct (wf_entities _ _ Hwf i hi Hi) as [ei ?], (wf_entities _ _ Hwf j hj Hj) as [ej ?].
  split; [exists ei|exists ej]; apply entity_at_Some; eauto.
Qed.

(** The dependencies of a node, each where the invariant says it is. *)
Lemma wf_edge_key heap s i e j :
  stack_wf heap s → entity_at heap s i = Some e →
  g_edge (graph s) i j ↔
  ∃ key, key ∈ dependency_keys (e_config e) ∧ key_to_index s !! key = Some j.
Proof.
  intros Hwf Hi. split.
  - intros Hij. destruct (edge_entities _ _ _ _ Hwf Hij) as [_ [ej Hj]].
    exists (key_from_entity ej). split; [by apply (wf_edges _ _ Hwf i j)|].
    apply (wf_keys _ _ Hwf). eauto.
  - intros (key & Hkey & (ej & Hj & <-)%(wf_keys _ _ Hwf)). by apply (wf_edges _ _ Hwf i j e ej).
Qed.

(** Whether something depends on a node, as [has_dependents] answers it: some
    entity of the stack, itself included, declares it. *)
Lemma has_dependents_spec heap s i e :
  stack_wf heap s → entity_at heap s i = Some e →
  has_dependents i (key_from_entity e) s = true ↔
  ∃ d ed, entity_at heap s d = Some ed ∧ key_from_entity e ∈ dependency_keys (e_config ed).
Proof.
  intros Hwf Hi. unfold has_dependents. rewrite orb_true_iff, negb_true_iff, bool_decide_eq_false.
  assert (Hkey : key_to_index s !! key_from_entity e = Some i) by (apply (wf_keys _ _ Hwf); eauto).
  transitivity (g_neighbors_in (graph s) i ≠ []).
  - split; [|by left]. intros [?|Hp]; [done|].
    destruct (pending_requirements s !! key_from_entity e) as [l|] eqn:El; [|done].
    destruct l as [|d l]; [done|].
    assert (Hd : d ∈ pend s (key_from_entity e)) by (unfold pend; rewrite El; set_solver).
    apply (wf_pending _ _ Hwf) in Hd as (_ & _ & _ & ?). congruence.
  - split.
    + intros Hn. destruct (g_neighbors_in (graph s) i) as [|d l] eqn:El; [done|].
      assert (Hd : g_edge (graph s) d i) by (apply neighbors_in_edge; rewrite El; set_solver).
      destruct (edge_entities _ _ _ _ Hwf Hd) as [[ed Hed] _]. exists d, ed. split; [done|].
      by apply (wf_edges _ _ Hwf d i).
    + intros (d & ed & Hed & Hin) Hn. apply (not_elem_of_nil d). rewrite <-Hn.
      apply neighbors_in_edge. by apply (wf_edges _ _ Hwf d i ed e).
Qed.

(** ** Edits behind a handle *)

Lemma entity_at_insert heap s i h e' j :
  stack_wf heap s → g_node_weight (graph s) i = Some h →
  entity_at (<[h := e']> heap) s j = if decide (j = i) then Some e' else entity_at heap s j.
Proof.
  intros Hwf Hi. unfold entity_at. case_decide as E.
  - subst j. rewrite Hi. cbn [mbind option_bind]. apply lookup_insert_eq.
  - destruct (g_node_weight (graph s) j) as [h'|] eqn:Hj; [|done].
    cbn [mbind option_bind]. apply lookup_insert_ne. intros ->. destruct E. by eapply wf_handles.
Qed.

Lemma entity_at_insert_other heap s h e' j :
  (∀ i, g_node_weight (graph s) i ≠ Some h) →
  entity_at (<[h := e']> heap) s j = entity_at heap s j.
Proof.
  intros Hh. unfold entity_at. destruct (g_node_weight (graph s) j) as [h'|] eqn:Hj; [|done].
  cbn [mbind option_bind]. apply lookup_insert_ne. intros ->. by destruct (Hh j).
Qed.

(** An edit that keeps the key and the dependency keys keeps the wiring. *)
Lemma edit_wf heap s h e e' :
  stack_wf heap s → heap !! h = Some e →
  key_from_entity e' = key_from_entity e →
  dependency_keys (e_config e') = dependency_keys (e_config e) →
  stack_wf (<[h := e']> heap) s.
Proof.
  intros Hwf Hh Hk Hd.
  assert (Hat : ∀ j, ∃ f : NodeEntity → NodeEntity,
    entity_at (<[h := e']> heap) s j = f <$> entity_at heap s j ∧
    ∀ x, entity_at heap s j = Some x →
      key_from_entity (f x) = key_from_entity x ∧
      dependency_keys (e_config (f x)) = dependency_keys (e_config x)).
  { intros j. unfold entity_at. destruct (g_node_weight (graph s) j) as [h'|]; cbn [mbind option_bind]; [|by exists id].
    destruct (decide (h' = h)) as [->|].
    - exists (λ _, e'). rewrite lookup_insert_eq, Hh. split; [done|]. intros x [= <-]. auto.
    - exists id. rewrite lookup_insert_ne by done. split; [by rewrite option_fmap_id|]. done. }
  assert (Hiff : ∀ j (P : NodeKey → list NodeKey → Prop),
    (∃ x, entity_at (<[h := e']> heap) s j = Some x ∧
       P (key_from_entity x) (dependency_keys (e_config x))) ↔
    ∃ x, entity_at heap s j = Some x ∧ P (key_from_entity x) (dependency_keys (e_config x))).
  { intros j P. destruct (Hat j) as (f & Hf & Hx). rewrite Hf. split.
    - intros (x & (y & Hy & ->)%fmap_Some & HP). exists y. split; [done|].
      destruct (Hx y Hy) as [<- <-]. done.
    - intros (x & Hy & HP). exists (f x). rewrite Hy. split; [done|].
      by destruct (Hx x Hy) as [-> ->]. }
  destruct Hwf as [Hent Hhd Hkeys Hedges Hpend Hpl]. split; try done.
  - intros i h' Hi. rewrite lookup_insert_is_Some'. right. by eapply Hent.
  - intros key i. rewrite Hkeys. symmetry. apply (Hiff i (λ k _, k = key)).
  - intros i j ei ej Hi Hj.
    destruct (Hat i) as (fi & Hfi & Hxi), (Hat j) as (fj & Hfj & Hxj).
    rewrite Hfi in Hi. rewrite Hfj in Hj.
    apply fmap_Some in Hi as (xi & Hxi' & ->), Hj as (xj & Hxj' & ->).
    destruct (Hxi xi Hxi') as [_ ->], (Hxj xj Hxj') as [-> _]. by apply Hedges.
  - intros key i. rewrite Hpend. symmetry.
    apply (Hiff i (λ _ d, key ∈ d ∧ key_to_index s !! key = None)).
Qed.

Lemma edit_root_ok cfg heap s i h e e' :
  stack_wf heap s → g_node_weight (graph s) i = Some h → heap !! h = Some e →
  key_from_entity e ≠ root_key s → root_ok cfg heap s → root_ok cfg (<[h := e']> heap) s.
Proof.
  intros Hwf Hi Hh Hne (Hd & r & x & Hk & Hx & Hc). split; [done|]. exists r, x. split; [done|].
  rewrite (entity_at_insert _ _ i) by done. rewrite decide_False; [done|]. intros ->.
  apply (wf_keys _ _ Hwf) in Hk as (y & Hy & Hky). apply Hne. rewrite <-Hky.
  apply entity_at_Some in Hy as (? & ? & ?). congruence.
Qed.

Lemma edit_config_root_ok cfg heap s h e e' :
  heap !! h = Some e → e_config e' = e_config e →
  root_ok cfg heap s → root_ok cfg (<[h := e']> heap) s.
Proof.
  intros Hh He (Hd & i & x & Hk & (h' & Hh' & Hx)%entity_at_Some & Hc). split; [done|].
  exists i, (if decide (h' = h) then e' else x). split; [done|].
  rewrite entity_at_Some. case_decide as E.
  - subst h'. split; [|congruence]. exists h. by rewrite lookup_insert_eq.
  - split; [|done]. exists h'. by rewrite lookup_insert_ne.
Qed.
End wf.

Section operations.
Context {G : Type} `{StableGraphLaws G nat}.
Implicit Types (s : NodeStackInner G) (heap : Heap) (key : NodeKey).

(** ** Insertion *)

(** The stack with the new node and its key, before it is wired. *)
Definition with_node (e : NodeEntity) heap s : Heap * nat * NodeStackInner G :=
  let '(handle, heap) := alloc e heap in
  let '(index, g) := g_add_node handle (graph s) in
  (heap, index,
   set_key_to_index (<[key_from_entity e := index]> (key_to_index s)) (set_graph g s)).

Lemma insert_new_entity_eq e heap s :
  insert_new_entity e heap s =
  let '(heap', index, s1) := with_node e heap s in
  (heap', resolve_pending_requirements (key_from_entity e) (rewire_dependencies heap' index s1)).
Proof.
  unfold insert_new_entity, with_node. destruct (alloc e heap) as [h heap'].
  by destruct (g_add_node h (graph s)).
Qed.

Lemma with_node_spec e heap s heap' index s1 :
  stack_wf heap s → with_node e heap s = (heap', index, s1) →
  g_node_weight (graph s) index = None ∧
  (∃ h, heap !! h = None ∧ heap' = <[h := e]> heap ∧
     ∀ j, g_node_weight (graph s1) j =
       if decide (j = index) then Some h else g_node_weight (graph s) j) ∧
  (∀ a b, g_edge (graph s1) a b ↔ g_edge (graph s) a b) ∧
  key_to_index s1 = <[key_from_entity e := index]> (key_to_index s) ∧
  pending_requirements s1 = pending_requirements s ∧
  root_key s1 = root_key s ∧ pairing_registry s1 = pairing_registry s.
Proof.
  intros Hwf. unfold with_node, alloc.
  assert (Hfresh : heap !! fresh (dom heap) = None) by (apply not_elem_of_dom, is_fresh).
  set (h := fresh (dom heap)) in *.
  pose proof (add_node_fresh h (graph s)) as Hi.
  pose proof (add_node_weight h (graph s)) as Hw.
  pose proof (add_node_edge h (graph s)) as He.
  destruct (g_add_node h (graph s)) as [i g]. cbn in Hi, Hw, He. intros ?. simplify_eq.
  split; [done|]. split; [by exists h|]. done.
Qed.

Lemma with_node_entity_at e heap s heap' index s1 j :
  stack_wf heap s → with_node e heap s = (heap', index, s1) →
  entity_at heap' s1 j = if decide (j = index) then Some e else entity_at heap s j.
Proof.
  intros Hwf (Hi & (h & Hh & -> & Hw) & _)%with_node_spec; [|done].
  unfold entity_at. rewrite Hw. case_decide as E; cbn [mbind option_bind]; [apply lookup_insert_eq|].
  destruct (g_node_weight (graph s) j) as [h'|] eqn:Hj; [|done]. cbn [mbind option_bind].
  apply lookup_insert_ne. intros ->. destruct (wf_entities _ _ Hwf j h' Hj) as [? ?]. congruence.
Qed.

Lemma with_node_keys e heap s heap' index s1 k j :
  stack_wf heap s → key_to_index s !! key_from_entity e = None →
  with_node e heap s = (heap', index, s1) →
  key_to_index s1 !! k = Some j ↔
  ∃ x, entity_at heap' s1 j = Some x ∧ key_from_entity x = k.
Proof.
  intros Hwf Hnew E1. rewrite (with_node_entity_at _ _ _ _ _ _ _ Hwf E1).
  apply with_node_spec in E1 as (Hi & _ & _ & -> & _); [|done].
  rewrite lookup_insert_Some, (wf_keys _ _ Hwf). case_decide as E.
  - subst j. split; [|intros (x & [= <-] & <-); by left].
    intros [[<- _]|[_ (x & Hx & _)]]; [by exists e|].
    apply entity_at_Some in Hx as (? & ? & _). congruence.
  - split; [naive_solver|]. intros (x & Hx & <-). right. split; [|eauto]. intros Hkx.
    assert (Hold : key_to_index s !! key_from_entity x = Some j) by (apply (wf_keys _ _ Hwf); eauto).
    congruence.
Qed.

(** The node at an index the graph does not have takes no part in the
    wiring. *)
Lemma absent_index heap s index :
  stack_wf heap s → g_node_weight (graph s) index = None →
  entity_at heap s index = None ∧ (∀ k, index ∉ pend s k) ∧
  ∀ a, ¬ g_edge (graph s) a index ∧ ¬ g_edge (graph s) index a.
Proof.
  intros Hwf Hi. assert (Hat : entity_at heap s index = None) by (unfold entity_at; by rewrite Hi).
  split; [done|]. split.
  - intros k (x & Hx & _)%(wf_pending _ _ Hwf). congruence.
  - intros a. split; intros [ed Hed]; apply edge_ends in Hed as [[? ?] [? ?]]; congruence.
Qed.

(** The wiring after an insertion. *)
Lemma insert_wiring e heap s heap' index s1 :
  stack_wf heap s → key_to_index s !! key_from_entity e = None →
  with_node e heap s = (heap', index, s1) →
  let s3 := (insert_new_entity e heap s).2 in
  same_nodes s1 s3 ∧ pending_ok s3 ∧
  (∀ a b, g_edge (graph s3) a b ↔
     g_edge (graph s) a b ∨
     (a = index ∧ ∃ k, k ∈ dependency_keys (e_config e) ∧ key_to_index s1 !! k = Some b) ∨
     (a ∈ pend s (key_from_entity e) ∧ b = index)) ∧
  ∀ k i, i ∈ pend s3 k ↔
    (i ∈ pend s k ∧ k ≠ key_from_entity e) ∨
    (i = index ∧ k ∈ dependency_keys (e_config e) ∧ key_to_index s1 !! k = None).
Proof.
  intros Hwf Hnew E1. rewrite insert_new_entity_eq, E1. cbn [snd].
  pose proof (λ k j, with_node_keys _ _ _ _ _ _ k j Hwf Hnew E1) as Hkti.
  pose proof (λ j, with_node_entity_at _ _ _ _ _ _ j Hwf E1) as Hat.
  apply with_node_spec in E1 as (Hi & (h & _ & _ & Hw) & He1 & Hk1 & Hp1 & _); [|done].
  destruct (absent_index _ _ _ Hwf Hi) as (_ & Hpnew & Hnoedge).
  assert (Hlead1 : keys_lead s1).
  { intros k j (x & (h' & ? & _)%entity_at_Some & _)%Hkti. eauto. }
  assert (Hpend1 : ∀ k, pend s1 k = pend s k) by (intros; unfold pend; by rewrite Hp1).
  assert (Hkey1 : key_to_index s1 !! key_from_entity e = Some index)
    by (rewrite Hk1; apply lookup_insert_eq).
  destruct (rewire_spec heap' index e s1) as (Hs2 & Hpok2 & He2 & Hpend2);
    [done|by rewrite Hat, decide_True|unfold pending_ok; rewrite Hp1; apply (wf_pending_lists _ _ Hwf)|].
  destruct (resolve_pending_spec (key_from_entity e) index (rewire_dependencies heap' index s1))
    as (Hs3 & Hpok3 & He3 & Hpend3).
  - by eapply same_keys_lead.
  - by rewrite (same_keys _ _ Hs2).
  - done.
  - intros i [[Hin _]|(-> & _)]%Hpend2; rewrite (same_weight _ _ Hs2), Hw; [|by rewrite decide_True].
    rewrite Hpend1 in Hin. apply (wf_pending _ _ Hwf) in Hin as (x & Hx & _).
    apply entity_at_Some in Hx as (? & ? & _). case_decide; eauto.
  - split; [by etrans|]. split; [done|]. split.
    + intros a b. rewrite He3, He2, Hpend2, Hpend1, He1. destruct (Hnoedge b) as [_ Hno].
      specialize (Hpnew (key_from_entity e)). split; [|destruct (decide (a = index))]; naive_solver.
    + intros k i. rewrite Hpend3, Hpend2, Hpend1. specialize (Hpnew k). split; [naive_solver|].
      intros [[? ?]|(-> & ? & Hk)]; [split; [left; split; congruence|done]|].
      split; [by right|]. intros ->. congruence.
Qed.

Lemma insert_new_entity_wf e heap s :
  stack_wf heap s → key_to_index s !! key_from_entity e = None →
  stack_wf (insert_new_entity e heap s).1 (insert_new_entity e heap s).2.
Proof.
  intros Hwf Hnew. destruct (with_node e heap s) as [[heap' index] s1] eqn:E1.
  pose proof (insert_wiring _ _ _ _ _ _ Hwf Hnew E1) as (Hs & Hpok & He & Hp).
  pose proof (λ k j, with_node_keys _ _ _ _ _ _ k j Hwf Hnew E1) as Hkti.
  pose proof (λ j, with_node_entity_at _ _ _ _ _ _ j Hwf E1) as Hat.
  assert (Hheap' : (insert_new_entity e heap s).1 = heap') by (by rewrite insert_new_entity_eq, E1).
  rewrite Hheap'. set (s3 := (insert_new_entity e heap s).2) in *. clearbody s3. clear Hheap'.
  assert (Hat3 : ∀ j, entity_at heap' s3 j = if decide (j = index) then Some e else entity_at heap s j)
    by (intros; by rewrite (same_entity_at heap' s1 s3)).
  apply with_node_spec in E1 as (Hi & (h & Hh & -> & Hw) & _ & Hk1 & _ & Hr1 & _); [|done].
  destruct (absent_index _ _ _ Hwf Hi) as (Hati & _ & Hnoedge).
  split.
  - intros i h'. rewrite (same_weight _ _ Hs), Hw, lookup_insert_is_Some'.
    case_decide; [intros [= <-]; by left|]. intros Hi'. right. by apply (wf_entities _ _ Hwf i).
  - intros i j h'. rewrite !(same_weight _ _ Hs), !Hw. repeat case_decide; subst; try done.
    + intros [= <-] Hj. destruct (wf_entities _ _ Hwf j h Hj). congruence.
    + intros Hi' [= <-]. destruct (wf_entities _ _ Hwf i h Hi'). congruence.
    + apply (wf_handles _ _ Hwf).
  - intros k j. rewrite (same_keys _ _ Hs), Hkti. by rewrite (same_entity_at _ s1 s3).
  - intros i j ei ej Hei Hej.
    assert (Hkj : key_to_index s1 !! key_from_entity ej = Some j)
      by (apply Hkti; rewrite <-(same_entity_at _ s1 s3) by done; eauto).
    rewrite He. rewrite Hat3 in Hei, Hej. destruct (decide (i = index)) as [->|Hne].
    { injection Hei as <-. split; [|by eauto 10].
      intros [Hno|[(_ & k & Hk & Hkk)|[(x & ? & _)%(wf_pending _ _ Hwf) _]]];
        [by destruct (Hnoedge j)| |congruence].
      apply Hkti in Hkk as (x & Hx & <-). rewrite Hat in Hx. by rewrite Hej in Hx; injection Hx as ->. }
    destruct (decide (j = index)) as [->|Hnej].
    + injection Hej as <-. rewrite (wf_pending _ _ Hwf).
      destruct (Hnoedge i) as [Hno _]. split; [|intros Hin; right; right; eauto 10].
      intros [?|[[? _]|[(x & Hx & ? & _) _]]]; [done..|]. rewrite Hei in Hx. by injection Hx as ->.
    + rewrite <-(wf_edges _ _ Hwf i j) by done. naive_solver.
  - intros k i. rewrite Hp, (same_keys _ _ Hs), Hat3, (wf_pending _ _ Hwf), Hk1. setoid_rewrite lookup_insert_None.
    case_decide as E.
    + subst i. split; [|intros (x & [= <-] & ?); by right].
      intros [[(x & ? & _) _]|(_ & ? & ?)]; [congruence|eauto].
    + split; [intros [[(x & ? & ? & ?) ?]|[? _]]; [eauto 10|done]|].
      intros (x & ? & ? & ? & ?). left. split; [eauto|congruence].
  - done.
Qed.

(** The new node is found under its key, every other one where it was. *)
Lemma insert_new_entity_at e heap s :
  stack_wf heap s → key_to_index s !! key_from_entity e = None →
  let '(heap', s') := insert_new_entity e heap s in
  root_key s' = root_key s ∧ pairing_registry s' = pairing_registry s ∧
  ∃ index, entity_at heap s index = None ∧
    key_to_index s' = <[key_from_entity e := index]> (key_to_index s) ∧
    ∀ j, entity_at heap' s' j = if decide (j = index) then Some e else entity_at heap s j.
Proof.
  intros Hwf Hnew. destruct (with_node e heap s) as [[heap' index] s1] eqn:E1.
  pose proof (insert_wiring _ _ _ _ _ _ Hwf Hnew E1) as (Hs & _).
  pose proof (λ j, with_node_entity_at _ _ _ _ _ _ j Hwf E1) as Hat.
  assert (Hheap' : (insert_new_entity e heap s).1 = heap') by (by rewrite insert_new_entity_eq, E1).
  destruct (insert_new_entity e heap s) as [heap'' s3]. cbn [fst snd] in *. subst heap''.
  apply with_node_spec in E1 as (Hi & _ & _ & Hk1 & _ & Hr1 & Hg1); [|done].
  destruct (absent_index _ _ _ Hwf Hi) as (Hati & _).
  rewrite (same_root _ _ Hs), (same_registry _ _ Hs). split; [done|]. split; [done|].
  exists index. rewrite (same_keys _ _ Hs). split; [done|]. split; [done|].
  intros j. by rewrite (same_entity_at heap' s1 s3).
Qed.

Lemma insert_root_ok cfg e heap s :
  stack_wf heap s → key_to_index s !! key_from_entity e = None → root_ok cfg heap s →
  root_ok cfg (insert_new_entity e heap s).1 (insert_new_entity e heap s).2.
Proof.
  intros Hwf Hnew (Hd & i & x & Hki & Hx & Hdx). split; [done|]. pose proof (insert_new_entity_at e heap s Hwf Hnew) as Hins.
  destruct (insert_new_entity e heap s) as [heap' s'].
  destruct Hins as (Hr & _ & index & Hno & Hk & Hat). exists i, x. cbn [fst snd].
  rewrite Hr, Hk, Hat. rewrite lookup_insert_ne by congruence. rewrite decide_False; [done|]. congruence.
Qed.
(** ** Replacement in place *)

Lemma replace_wf heap s i h e e' :
  stack_wf heap s → g_node_weight (graph s) i = Some h → heap !! h = Some e →
  key_from_entity e' = key_from_entity e →
  stack_wf (<[h := e']> heap) (rewire_dependencies (<[h := e']> heap) i s).
Proof.
  intros Hwf Hi Hh Hkey.
  pose proof (λ j, entity_at_insert heap s i h e' j Hwf Hi) as Hat.
  assert (Hati : entity_at heap s i = Some e) by (apply entity_at_Some; eauto).
  destruct (rewire_spec (<[h := e']> heap) i e' s) as (Hs & Hpok & He & Hp);
    [by eapply wf_keys_lead|by rewrite Hat, decide_True|by apply (wf_pending_lists _ _ Hwf)|].
  set (s' := rewire_dependencies _ i s) in *. clearbody s'.
  assert (Hat' : ∀ j, entity_at (<[h := e']> heap) s' j =
    if decide (j = i) then Some e' else entity_at heap s j)
    by (intros; by rewrite (same_entity_at _ s s')).
  assert (Hkeys : ∀ k j, key_to_index s !! k = Some j ↔
    ∃ x, entity_at (<[h := e']> heap) s' j = Some x ∧ key_from_entity x = k).
  { intros k j. rewrite (wf_keys _ _ Hwf), Hat'. case_decide; [subst j|done].
    split; intros (x & Hx & Hk); [rewrite Hati in Hx|]; injection Hx as <-; eexists;
      (split; [done|congruence]). }
  split.
  - intros j h'. rewrite (same_weight _ _ Hs), lookup_insert_is_Some'.
    right. by apply (wf_entities _ _ Hwf j).
  - intros j k h'. rewrite !(same_weight _ _ Hs). apply (wf_handles _ _ Hwf).
  - intros k j. by rewrite (same_keys _ _ Hs).
  - intros a b ea eb Ha Hb.
    assert (Hkb : key_to_index s !! key_from_entity eb = Some b) by (apply Hkeys; eauto).
    rewrite He. rewrite Hat' in Ha. destruct (decide (a = i)) as [->|Hne].
    + injection Ha as <-. split; [|by eauto 10]. intros [[_ ?]|(_ & k & Hk & Hkk)]; [done|].
      apply Hkeys in Hkk as (x & Hx & <-). rewrite Hb in Hx. by injection Hx as ->.
    + rewrite (wf_edge_key _ _ _ _ _ Hwf Ha). split; [|by eauto 10].
      intros [[(k & Hk & Hkk) _]|[? _]]; [|done].
      apply Hkeys in Hkk as (x & Hx & <-). rewrite Hb in Hx. by injection Hx as ->.
  - intros k a. rewrite Hp, (same_keys _ _ Hs), (wf_pending _ _ Hwf), Hat'. case_decide as E.
    + subst a. split; [intros [[_ ?]|(_ & ?)]; [done|eauto]|].
      intros (x & [= <-] & ?). by right.
    + split; [intros [[? _]|[? _]]; done|]. by left.
  - done.
Qed.

Lemma rewire_same heap s i :
  stack_wf heap s → same_nodes s (rewire_dependencies heap i s).
Proof.
  intros Hwf. destruct (entity_at heap s i) as [e|] eqn:E.
  - by destruct (rewire_spec heap i e s (wf_keys_lead _ _ Hwf) E (wf_pending_lists _ _ Hwf)).
  - unfold rewire_dependencies, attach_dependencies. cbn zeta. set (s1 := set_graph _ s).
    assert (Hs1 : same_nodes s s1) by (split; cbn; try done; intros; apply fold_remove_edge_weight).
    by rewrite (same_entity_at _ _ _ _ Hs1), E.
Qed.

Lemma replace_root_ok cfg heap s i h e e' :
  stack_wf heap s → g_node_weight (graph s) i = Some h → heap !! h = Some e →
  key_from_entity e' = key_from_entity e → key_from_entity e ≠ root_key s → root_ok cfg heap s →
  root_ok cfg (<[h := e']> heap) (rewire_dependencies (<[h := e']> heap) i s).
Proof.
  intros Hwf Hi Hh Hkey Hroot (Hd & r & x & Hkr & Hx & Hdx). split; [done|].
  pose proof (λ j, entity_at_insert heap s i h e' j Hwf Hi) as Hat.
  assert (Hati : entity_at heap s i = Some e) by (apply entity_at_Some; eauto).
  destruct (rewire_spec (<[h := e']> heap) i e' s) as (Hs & _);
    [by eapply wf_keys_lead|by rewrite Hat, decide_True|by apply (wf_pending_lists _ _ Hwf)|].
  exists r, x. rewrite (same_keys _ _ Hs), (same_root _ _ Hs), (same_entity_at _ _ _ _ Hs), Hat.
  rewrite decide_False; [done|].
  intros ->. apply (wf_keys _ _ Hwf) in Hkr as (y & Hy & Hky). congruence.
Qed.

(** ** Removal *)

Lemma register_all_spec key l s :
  pending_ok s →
  let s' := fold_left (λ s d, register_pending_requirement key d s) l s in
  same_nodes s s' ∧ graph s' = graph s ∧ pending_ok s' ∧
  ∀ k i, i ∈ pend s' k ↔ i ∈ pend s k ∨ (k = key ∧ i ∈ l).
Proof.
  revert s. induction l as [|d l IH]; intros s Hp; cbn [fold_left].
  { split; [done|]. split; [done|]. split; [done|]. set_solver. }
  destruct (IH (register_pending_requirement key d s)) as (Hs & Hg & Hp' & He);
    [by apply register_ok|].
  split; [etrans; [apply register_same|exact Hs]|]. split; [by rewrite Hg|]. split; [done|].
  intros k i. rewrite He, elem_of_register, elem_of_cons. tauto.
Qed.

Lemma remove_entity_spec key i s :
  key_to_index s !! key = Some i → pending_ok s →
  let s' := remove_entity key s in
  (∀ j, g_node_weight (graph s') j = if decide (j = i) then None else g_node_weight (graph s) j) ∧
  (∀ a b, g_edge (graph s') a b ↔ g_edge (graph s) a b ∧ a ≠ i ∧ b ≠ i) ∧
  key_to_index s' = delete key (key_to_index s) ∧ root_key s' = root_key s ∧
  pairing_registry s' = pairing_registry s ∧ pending_ok s' ∧
  ∀ k j, j ∈ pend s' k ↔ (j ∈ pend s k ∧ j ≠ i) ∨ (k = key ∧ g_edge (graph s) j i ∧ j ≠ i).
Proof.
  intros Hk Hp. unfold remove_entity. rewrite Hk. cbn zeta.
  set (s1 := set_graph _ _).
  destruct (register_all_spec key
    (List.filter (λ d, negb (bool_decide (d = i))) (g_neighbors_in (graph s) i))
    (clear_pending_requirements_for i s1)) as (Hs & Hg & Hpok & He);
    [by apply clear_pending_ok|].
  set (s' := fold_left _ _ _) in *. clearbody s'.
  split_and!.
  - intros j. rewrite Hg. apply remove_node_weight.
  - intros a b. rewrite Hg. apply remove_node_edge.
  - by rewrite (same_keys _ _ Hs).
  - by rewrite (same_root _ _ Hs).
  - by rewrite (same_registry _ _ Hs).
  - done.
  - intros k j. rewrite He, elem_of_clear_pending, elem_of_retain.
    by rewrite negb_true_iff, bool_decide_eq_false, neighbors_in_edge.
Qed.

Lemma remove_entity_wf heap s key :
  stack_wf heap s → stack_wf heap (remove_entity key s).
Proof.
  intros Hwf. destruct (key_to_index s !! key) as [i|] eqn:Ei;
    [|unfold remove_entity; by rewrite Ei].
  destruct (remove_entity_spec key i s Ei (wf_pending_lists _ _ Hwf))
    as (Hw & He & Hk & Hr & _ & Hpok & Hp).
  set (s' := remove_entity key s) in *. clearbody s'.
  destruct (proj1 (wf_keys _ _ Hwf key i) Ei) as (ei & Hei & Hkey).
  assert (Hat : ∀ j, entity_at heap s' j = if decide (j = i) then None else entity_at heap s j)
    by (intros j; unfold entity_at; rewrite Hw; by case_decide).
  assert (Hne : ∀ j, key_to_index s !! key = Some j ↔ j = i) by (intros; naive_solver).
  split.
  - intros j h. rewrite Hw. case_decide; [done|]. apply (wf_entities _ _ Hwf).
  - intros j k h. rewrite !Hw. repeat case_decide; try done. apply (wf_handles _ _ Hwf).
  - intros k j. rewrite Hk, Hat, lookup_delete_Some, (wf_keys _ _ Hwf). case_decide as E.
    + subst j. split; [|by intros (? & ? & _)]. intros [Hn (x & Hx & Hkx)]. congruence.
    + split; [naive_solver|]. intros (x & Hx & Hkx). split; [|eauto]. intros <-.
      apply E, Hne, (wf_keys _ _ Hwf). eauto.
  - intros a b ea eb. rewrite !Hat. repeat case_decide; try done. intros Ha Hb.
    rewrite He, (wf_edges _ _ Hwf a b) by done. tauto.
  - intros k j. rewrite Hp, Hk, Hat, (wf_pending _ _ Hwf). setoid_rewrite lookup_delete_None.
    case_decide as E; [subst j; split; [intros [[_ ?]|(_ & _ & ?)]; done|by intros (? & ? & _)]|].
    split.
    + intros [[(x & ? & ? & ?) _]|(-> & Hedge & _)]; [eauto 10|].
      destruct (edge_entities _ _ _ _ Hwf Hedge) as [[x Hx] _]. exists x. split; [done|].
      split; [|by left]. rewrite <-Hkey. by apply (wf_edges _ _ Hwf j i).
    + intros (x & Hx & Hin & [<-|Hnone]); [|left; eauto 10]. right. split; [done|].
      split; [|done]. apply (wf_edges _ _ Hwf j i x ei); [done..|]. by rewrite Hkey.
  - done.
Qed.

Lemma remove_root_ok cfg heap s key :
  stack_wf heap s → key ≠ root_key s → root_ok cfg heap s → root_ok cfg heap (remove_entity key s).
Proof.
  intros Hwf Hroot (Hd & r & x & Hkr & Hx & Hdx). split; [done|].
  destruct (key_to_index s !! key) as [i|] eqn:Ei;
    [|unfold remove_entity; rewrite Ei; by exists r, x].
  destruct (remove_entity_spec key i s Ei (wf_pending_lists _ _ Hwf)) as (Hw & _ & Hk & Hr & _).
  exists r, x. rewrite Hr, Hk, lookup_delete_ne by done. split; [done|].
  unfold entity_at in *. rewrite Hw, decide_False; [done|]. intros ->.
  apply (wf_keys _ _ Hwf) in Hkr as (y & Hy & Hky), Ei as (z & Hz & Hkz). congruence.
Qed.

(** ** Reset *)

Lemma stack_clear_wf cfg heap s :
  stack_wf heap s → root_ok cfg heap s →
  stack_wf heap (stack_clear s) ∧ root_ok cfg heap (stack_clear s).
Proof.
  intros Hwf (Hd & r & x & Hkr & Hx & Hdx). subst cfg.
  unfold stack_clear, root, find. rewrite Hkr. cbn [mbind option_bind].
  destruct (proj1 (entity_at_Some _ _ _ _) Hx) as (h & Hh & Hxh). rewrite Hh.
  pose proof (add_node_weight h (g_empty : G)) as Hw. pose proof (add_node_edge h (g_empty : G)) as He.
  destruct (g_add_node h g_empty) as [i g]. cbn [fst snd] in Hw, He.
  set (s' := mkNodeStackInner _ _ _ _ _).
  assert (Hat : ∀ j, entity_at heap s' j = if decide (j = i) then Some x else None).
  { intros j. unfold entity_at. subst s'. cbn [graph]. rewrite Hw, empty_weight.
    case_decide; [|done]. cbn [mbind option_bind]. done. }
  assert (Hkx : key_from_entity x = root_key s).
  { apply (wf_keys _ _ Hwf) in Hkr as (y & Hy & Hky). congruence. }
  split; [|split; [done|]; exists i, x; rewrite Hat, decide_True by done; cbn;
          by rewrite lookup_singleton_eq].
  subst s'. split; cbn [graph key_to_index pending_requirements root_key pend].
  - intros j h'. rewrite Hw, empty_weight. case_decide; [|done]. intros [= <-]. eauto.
  - intros j k h'. rewrite !Hw, !empty_weight. repeat case_decide; congruence.
  - intros k j. rewrite Hat, lookup_singleton_Some. case_decide as E; [|split; [naive_solver|by intros (? & ? & _)]].
    subst j. split; [intros [<- _]; eauto|]. intros (y & [= <-] & <-). done.
  - intros a b ea eb. rewrite !Hat. repeat case_decide; try done. intros [= <-] [= <-].
    rewrite He, Hd. split; [by intros ?%empty_edge|by intros ?%elem_of_nil].
  - intros k j. unfold pend. cbn. rewrite Hat, lookup_empty. cbn. split; [by intros ?%elem_of_nil|].
    case_decide; [|by intros (? & ? & _)]. intros (y & [= <-] & Hin & _). rewrite Hd in Hin.
    by apply elem_of_nil in Hin.
  - intros k l. unfold pending_ok. cbn [pending_requirements]. intros Hl. by rewrite lookup_empty in Hl.
Qed.
End operations.
