(* ===== verification/StackSteps.v ===== *)
(** * The node stack as a transition system

    The public operations of [NodeStack] in
    [node-stack-internal/src/node_stack.rs], the steps they and the tasks that
    hold entity handles make, and what every reachable stack satisfies. *)

From S2P Require Import Prelude Names RestartPolicy Config InterfaceEq Validation Graphs Cycle PairingRegistry Supervision Instance Entity Lifecycle Stack StackPairing StackInv.
#[local] Open Scope peppy_scope.

(** ** An entity keeps its config

    Only a push gives an entity another config. *)

Lemma set_instances_config l e : e_config (set_instances l e) = e_config e.
Proof. by destruct (set_instances_frame l e). Qed.

Lemma update_instance_config id f e : e_config (update_instance id f e) = e_config e.
Proof. apply set_instances_config. Qed.

Lemma edit_when_config {A} guard id (edit : _ → A * _) e :
  e_config (edit_when guard id edit e).2 = e_config e.
Proof. by destruct (edit_when_frame guard id edit e). Qed.

Lemma update_shared_config id f e : e_config (update_shared id f e) = e_config e.
Proof. unfold update_shared. destruct (e_stage e); try apply update_instance_config. done. Qed.

Create HintDb config_db.
#[export] Hint Rewrite set_instances_config update_instance_config @edit_when_config
  update_shared_config : config_db.

(** Unfold an operation, follow its branches, and read the config off what it
    built. *)
Ltac keeps_config :=
  unfold edit_awaiting_restart, edit_instance, edit_restarting, edit_process in *;
  repeat first
    [ progress cbn [fst snd e_config set_stage broadcast_stage set_pending_working_dir_field]
    | progress simplify_eq
    | progress autorewrite with config_db
    | match goal with
      | E : edit_when ?guard ?id ?edit ?e = (_, ?n) |- e_config ?n = _ =>
          rewrite <-(edit_when_config guard id edit e), E
      end
    | case_match ];
  try done.

Lemma claim_instance_config id e : e_config (claim_instance id e).2 = e_config e.
Proof. unfold claim_instance. keeps_config. Qed.

Lemma stop_instance_config id e w : e_config (stop_instance id e w).1.2 = e_config e.
Proof. unfold stop_instance. keeps_config. Qed.

Lemma claim_and_remove_config id pid e w : e_config (claim_and_remove id pid e w).1.2 = e_config e.
Proof.
  assert (Hslot : e_config (claim_and_remove_slot id e w).1.2 = e_config e).
  { unfold claim_and_remove_slot. rewrite <-(claim_instance_config id e).
    destruct (claim_instance id e) as [[i|] e1]; [apply stop_instance_config|done]. }
  unfold claim_and_remove. destruct (instance e id) as [i|]; [|done].
  destruct (claim_and_remove_slot id e w) as [[[k|] e1] w1]; cbn [fst snd] in Hslot;
    repeat case_match; done.
Qed.

Lemma step_config st st' : step st st' → e_config (s_entity st') = e_config (s_entity st).
Proof.
  destruct 1; cbn [s_entity]; try done.
  - unfold take_pending_working_dir_if_generation. keeps_config.
  - unfold rollback_building_to_added. keeps_config.
  - unfold build_begin in *. keeps_config.
  - unfold build_finish. keeps_config.
  - unfold spawn_register in *. keeps_config.
  - unfold spawn_fork, record_starting_process in *. keeps_config.
  - unfold undo_start. keeps_config.
  - unfold abort_started, undo_start. keeps_config.
  - unfold commit_started, commit_starting_instance in *. keeps_config.
  - unfold mark_instance_exited. keeps_config.
  - unfold mark_start_failed. keeps_config.
  - unfold mark_restart_refused. keeps_config.
  - unfold record_respawn_log. keeps_config.
  - apply claim_instance_config.
  - unfold claim_process. keeps_config.
  - unfold claim_starting. keeps_config.
  - rewrite <-(claim_and_remove_config id pid e w). by match goal with E : _ = _ |- _ => rewrite E end.
  - rewrite <-(stop_instance_config id e w). by match goal with E : _ = _ |- _ => rewrite E end.
  - unfold record_held_pair. keeps_config.
  - unfold forget_held_pair. keeps_config.
  - unfold forget_pairs_held_with. keeps_config.
  - unfold record_observations_for_restart. keeps_config.
  - unfold record_watchers_for_restart. keeps_config.
  - unfold arm_health_kill. keeps_config.
  - unfold note_shutdown_request. keeps_config.
  - unfold withdraw_shutdown_request. keeps_config.
  - unfold set_instance_slot_binding. keeps_config.
  - unfold record_slot_binding_for_restart. keeps_config.
Qed.

(** ** The stack and its public operations *)

Record NodeStack (G : Type) : Type := mkNodeStack {
  st_heap : Heap;
  shared : NodeStackInner G;
  add_log_paths : gmap NodeKey string;
  st_world : World;
}.
Arguments mkNodeStack {G}.
Arguments st_heap {G}.
Arguments shared {G}.
Arguments add_log_paths {G}.
Arguments st_world {G}.

Section public.
Context {G : Type} `{StableGraph G nat} `{Tarjan}.
Implicit Types st : NodeStack G.

(** [NodeStackInner::new]; [None] is the panic of its [expect]. *)
Definition NodeStackInner_new (root : NodeEntity) : option (Heap * NodeStackInner G) :=
  let s := mkNodeStackInner g_empty ∅ ∅ (key_from_entity root) [] in
  match validate_dependencies ∅ s None root with
  | Some (Ok _) => Some (insert_new_entity root ∅ s)
  | _ => None
  end.

(** [NodeStack::new], with the instance id given or drawn. *)
Definition NodeStack_new (root_config : NodeConfig) (instance_id root_path : string) (w : World) :
    option (NodeStack G) :=
  let '(inst, w) := TrackedNodeInstance_new instance_id Running ∅ w in
  let '(root_entity, w) := NodeEntity_root root_config root_path inst w in
  '(heap, inner) ← NodeStackInner_new root_entity;
  Some (mkNodeStack heap inner ∅ w).

Definition set_add_log_path (name tag path : string) st : NodeStack G :=
  mkNodeStack (st_heap st) (shared st) (<[NodeKey_new name tag := path]> (add_log_paths st))
    (st_world st).

Definition add_log_path (name tag : string) st : option string :=
  add_log_paths st !! NodeKey_new name tag.

Definition pushed st (w : World) (r : option (result Error unit * (Heap * NodeStackInner G))) :
    option (result Error unit * NodeStack G) :=
  '(r, (heap, inner)) ← r; Some (r, mkNodeStack heap inner (add_log_paths st) w).

Definition push_config (config : NodeConfig) (documents : list PinnedDocument)
    (allow_missing_dependencies : bool) (config_path : string) st :
    option (result Error unit * NodeStack G) :=
  let '(entity, w) := NodeEntity_new config config_path documents (st_world st) in
  pushed st w (push_entity entity allow_missing_dependencies (st_heap st) (shared st)).

Definition push_built_in (config : NodeConfig) (config_path : string) (launch : BuiltInLaunch)
    (documents : list PinnedDocument) st : option (result Error unit * NodeStack G) :=
  let '(entity, w) := NodeEntity_built_in config config_path launch documents (st_world st) in
  pushed st w (push_entity entity false (st_heap st) (shared st)).

(** The stack without an entity and its add log. *)
Definition unlink (key : NodeKey) st : NodeStack G :=
  mkNodeStack (st_heap st) (remove_entity key (shared st)) (delete key (add_log_paths st))
    (st_world st).

Definition remove_config (name tag : string) st : result Error bool * NodeStack G :=
  let key := NodeKey_new name tag in
  if is_root (shared st) key then (Err CannotModifyRootNode, st)
  else
    match index ← key_to_index (shared st) !! key; entity_at (st_heap st) (shared st) index with
    | None => (Ok false, st)
    | Some entity =>
        if negb (bool_decide (instances entity = []))
        then (Err (CannotRemoveNodeWithInstances name tag), st)
        else (Ok true, unlink key st)
    end.

(** The check of the two [*_if_matches] operations: the caller's handle, in
    [Building], of the generation the caller built. The removal lets go of the
    entity's lock before it unlinks, still under the lock of the stack: an edit of
    the entity in between commutes with [unlink], which leaves the entity as it
    is, so the two are one step here. *)
Definition matches_build (key : NodeKey) (expected_handle : nat) (expected_generation : Z) st :
    option NodeEntity :=
  '(_, current) ← resolve_matching_slot key expected_handle (shared st);
  entity ← st_heap st !! current;
  if (e_generation entity =? expected_generation)%Z
     && match e_stage entity with Building _ => true | _ => false end
  then Some entity else None.

Definition remove_config_if_matches (name tag : string) (expected_handle : nat)
    (expected_generation : Z) st : bool * NodeStack G :=
  let key := NodeKey_new name tag in
  match matches_build key expected_handle expected_generation st with
  | None => (false, st)
  | Some _ => (true, unlink key st)
  end.

Definition rollback_to_added_if_matches (name tag : string) (expected_handle : nat)
    (expected_generation : Z) (working_dir : string) st : bool * NodeStack G :=
  let key := NodeKey_new name tag in
  match matches_build key expected_handle expected_generation st with
  | None => (false, st)
  | Some entity =>
      (true,
       mkNodeStack (<[expected_handle := rollback_building_to_added working_dir entity]> (st_heap st))
         (shared st) (add_log_paths st) (st_world st))
  end.

Definition reset st : NodeStack G :=
  mkNodeStack (st_heap st) (stack_clear (shared st)) ∅ (st_world st).

Definition set_inner (inner : NodeStackInner G) st : NodeStack G :=
  mkNodeStack (st_heap st) inner (add_log_paths st) (st_world st).

(** ** Edits of the entity that tracks an instance *)

Definition edit_handle {T} (handle : nat) (edit : NodeEntity → T * NodeEntity) st :
    option T * NodeStack G :=
  match st_heap st !! handle with
  | None => (None, st)
  | Some e =>
      let '(r, e) := edit e in
      (Some r, mkNodeStack (<[handle := e]> (st_heap st)) (shared st) (add_log_paths st) (st_world st))
  end.

Definition edit_any_state {T} (instance_id : string) (edit : NodeEntity → T * NodeEntity) st :
    option T * NodeStack G :=
  match find_entity_any_state (st_heap st) (shared st) instance_id with
  | None => (None, st)
  | Some handle => edit_handle handle edit st
  end.

Definition stack_set_instance_slot_binding (instance_id link_id : string)
    (producers : BoundProducers) st : bool * NodeStack G :=
  match find_entity_by_instance_id (st_heap st) (shared st) instance_id with
  | None => (false, st)
  | Some handle =>
      let '(r, st) := edit_handle handle (set_instance_slot_binding instance_id link_id producers) st in
      (default false r, st)
  end.

Definition stack_record_slot_binding_for_restart (instance_id link_id : string)
    (producers : BoundProducers) st : bool * NodeStack G :=
  let '(r, st) :=
    edit_any_state instance_id (record_slot_binding_for_restart instance_id link_id producers) st in
  (default false r, st).

Definition stack_record_held_pair (pair : PlannedPair) st : list PlannedPair * NodeStack G :=
  let '(r, st) := edit_any_state (slot_instance_id (own pair)) (record_held_pair pair) st in
  (default [] (mjoin r), st).

Definition stack_forget_held_pair (pair : PlannedPair) st : NodeStack G :=
  (edit_any_state (slot_instance_id (own pair)) (λ e, (tt, forget_held_pair pair e)) st).2.

Definition stack_forget_pairs_held_with (peer_core_node peer_instance_id : string) st :
    NodeStack G :=
  fold_left
    (λ st handle,
       (edit_handle handle
          (λ e, (tt, forget_pairs_held_with peer_core_node peer_instance_id e)) st).2)
    (map fst (entities (st_heap st) (shared st))) st.

Definition stack_record_observations_for_restart (instance_id : string)
    (observations : gmap string ObservationTargets) st : bool * NodeStack G :=
  let '(r, st) :=
    edit_any_state instance_id (record_observations_for_restart instance_id observations) st in
  (default false r, st).

Definition stack_record_watchers_for_restart (instance_id : string) (watchers : list string) st :
    NodeStack G :=
  (edit_any_state instance_id (λ e, (tt, record_watchers_for_restart instance_id watchers e)) st).2.

Definition stack_arm_health_kill (instance_id : string) (kill : HealthKill) st :
    option ProcessGroup * NodeStack G :=
  let '(r, st) := edit_any_state instance_id (arm_health_kill instance_id kill) st in
  (mjoin r, st).
End public.

(** ** Steps *)

Section steps.
Context {G : Type} `{StableGraphLaws G nat} `{TarjanLaws}.
Implicit Types (st : NodeStack G) (s : NodeStackInner G) (heap : Heap).

(** A task steps the entity behind a handle it holds, in the graph or not. *)
Inductive stack_step : NodeStack G → NodeStack G → Prop :=
| st_push_config st config documents allow path r st' :
    push_config config documents allow path st = Some (r, st') → stack_step st st'
| st_push_built_in st config path launch documents r st' :
    push_built_in config path launch documents st = Some (r, st') → stack_step st st'
| st_remove st name tag : stack_step st (remove_config name tag st).2
| st_remove_if_matches st name tag handle generation :
    stack_step st (remove_config_if_matches name tag handle generation st).2
| st_rollback st name tag handle generation dir :
    stack_step st (rollback_to_added_if_matches name tag handle generation dir st).2
| st_reset st : stack_step st (reset st)
| st_log_path st name tag path : stack_step st (set_add_log_path name tag path st)
| st_entity st handle e w' e' fl fl' :
    st_heap st !! handle = Some e → step (mkSys e (st_world st) fl) (mkSys e' w' fl') →
    stack_step st
      (mkNodeStack (<[handle := e']> (st_heap st)) (shared st) (add_log_paths st) w')
| st_pair st pair : stack_step st (set_inner (pair_planned (st_heap st) pair (shared st)).2 st)
| st_clear_pair st a b : stack_step st (set_inner (clear_pair a b (shared st)).2 st)
| st_prune st : stack_step st (set_inner (pairs_impl (st_heap st) (shared st)).2 st)
| st_dissolve st core id :
    stack_step st (set_inner (dissolve_pairs_for_remote_instance core id (shared st)).2 st).

(** Each pair is in the registry once. *)
Definition pairs_once (r : PairingRegistry) : Prop := ∀ a b, a ≠ b → pairs_between a b r ≤ 1.

Record stack_inv (root_config : NodeConfig) (key : NodeKey) st : Prop := mk_stack_inv {
  si_wf : stack_wf (st_heap st) (shared st);
  si_root : root_ok root_config (st_heap st) (shared st);
  si_root_key : root_key (shared st) = key;
  si_pairs : pairs_once (pairing_registry (shared st));
}.

Lemma is_root_false s key : is_root s key = false ↔ root_key s ≠ key.
Proof. unfold is_root. apply bool_decide_eq_false. Qed.

(** ** Pushes *)

(** What a push leaves, on every branch. *)
Lemma push_entity_cases entity allow heap s r heap' s' :
  push_entity entity allow heap s = Some (r, (heap', s')) →
  (heap' = heap ∧ s' = s ∧
     (r = Ok tt →
      key_to_index s !! key_from_entity entity ≠ None ∧
      ¬ ∃ i, key_to_index s !! key_from_entity entity = Some i ∧ is_Some (entity_at heap s i))) ∨
  (r = Ok tt ∧ root_key s ≠ key_from_entity entity ∧
   key_to_index s !! key_from_entity entity = None ∧
   validate_candidate heap s None entity allow = Some (Ok tt) ∧
   (heap', s') = insert_new_entity entity heap s) ∨
  ∃ i h current,
    r = Ok tt ∧ root_key s ≠ key_from_entity entity ∧
    key_to_index s !! key_from_entity entity = Some i ∧
    g_node_weight (graph s) i = Some h ∧ heap !! h = Some current ∧ instances current = [] ∧
    ((interfaces (e_config current) ==? interfaces (e_config entity)) = true ∨
     has_dependents i (key_from_entity entity) s = false) ∧
    let needs_rewire :=
      negb (interfaces (e_config current) ==? interfaces (e_config entity))
      || negb (bool_decide (dependency_keys (e_config current) = dependency_keys (e_config entity))) in
    heap' = <[h := entity]> heap ∧
    (needs_rewire = true → validate_candidate heap s (Some h) entity allow = Some (Ok tt)) ∧
    s' = (if needs_rewire then rewire_dependencies heap' i s else s).
Proof.
  unfold push_entity. destruct (is_root s (key_from_entity entity)) eqn:Er;
    [intros; simplify_eq; naive_solver|]. apply is_root_false in Er.
  destruct (key_to_index s !! key_from_entity entity) as [i|] eqn:Ei.
  2:{ destruct (validate_candidate heap s None entity allow) as [[[]|e]|] eqn:Ev; cbn; [| |done].
      - intros Hins. right; left. split_and!; try done; congruence.
      - intros. simplify_eq. left. naive_solver. }
  destruct (g_node_weight (graph s) i) as [h|] eqn:Eh.
  2:{ intros. simplify_eq. left. split_and!; try done. intros _. split; [done|].
      intros (? & ? & [? (? & ? & _)%entity_at_Some]). congruence. }
  destruct (heap !! h) as [current|] eqn:Ec.
  2:{ intros. simplify_eq. left. split_and!; try done. intros _. split; [done|].
      intros (? & ? & [? (? & ? & ?)%entity_at_Some]). congruence. }
  destruct (bool_decide (instances current = [])) eqn:El; cbn [negb];
    [apply bool_decide_eq_true in El|intros; simplify_eq; naive_solver].
  destruct (interfaces (e_config current) ==? interfaces (e_config entity)) eqn:Eeq; cbn [negb andb orb].
  2:{ destruct (has_dependents i _ s) eqn:Ed; [intros; simplify_eq; naive_solver|].
      destruct (validate_candidate heap s (Some h) entity allow) as [[[]|e]|] eqn:Ev; cbn; [| |done];
        intros; simplify_eq; [right; right|left; naive_solver].
      exists i, h, current. rewrite Eeq. cbn. split_and!; auto. }
  destruct (negb (bool_decide _)) eqn:Edep.
  - destruct (validate_candidate heap s (Some h) entity allow) as [[[]|e]|] eqn:Ev; cbn; [| |done];
      intros; simplify_eq; [right; right|left; naive_solver].
    exists i, h, current. rewrite Eeq, Edep. cbn. split_and!; auto.
  - cbn. intros. simplify_eq. right; right.
    exists i, h, current. rewrite Eeq, Edep. cbn. split_and!; auto. done.
Qed.
Lemma push_entity_inv cfg entity allow heap s r heap' s' :
  push_entity entity allow heap s = Some (r, (heap', s')) →
  stack_wf heap s → root_ok cfg heap s →
  stack_wf heap' s' ∧ root_ok cfg heap' s' ∧
  root_key s' = root_key s ∧ pairing_registry s' = pairing_registry s.
Proof.
  intros Hpush Hwf Hroot. apply push_entity_cases in Hpush as
    [(-> & -> & _)|[(_ & _ & Hnew & _ & Hins)|
      (i & h & current & _ & Hnr & Hi & Hh & Hc & _ & _ & -> & _ & ->)]]; [done| |].
  - pose proof (insert_new_entity_wf entity heap s Hwf Hnew) as Hiwf.
    pose proof (insert_root_ok cfg entity heap s Hwf Hnew Hroot) as Hiroot.
    pose proof (insert_new_entity_at entity heap s Hwf Hnew) as Hiat.
    rewrite <-Hins in Hiwf, Hiroot, Hiat. destruct Hiat as (? & ? & _). done.
  - assert (Hkey : key_from_entity current = key_from_entity entity).
    { apply (wf_keys _ _ Hwf) in Hi as (x & Hx & Hkx).
      apply entity_at_Some in Hx as (? & ? & ?). congruence. }
    destruct (_ || _) eqn:Erw.
    + assert (Hwf' : stack_wf (<[h := entity]> heap) (rewire_dependencies (<[h := entity]> heap) i s))
        by (by eapply replace_wf).
      assert (Hati : entity_at (<[h := entity]> heap) s i = Some entity)
        by (rewrite (entity_at_insert _ _ i) by done; by rewrite decide_True).
      destruct (rewire_spec (<[h := entity]> heap) i entity s (wf_keys_lead _ _ Hwf) Hati
        (wf_pending_lists _ _ Hwf)) as (Hs & _).
      split; [done|]. split; [eapply replace_root_ok; try done; congruence|].
      by rewrite (same_root _ _ Hs), (same_registry _ _ Hs).
    + apply orb_false_iff in Erw as [_ Hd%negb_false_iff%bool_decide_eq_true].
      split; [by eapply edit_wf|]. split; [eapply edit_root_ok; try done; congruence|]. done.
Qed.

(** ** The other operations *)

Lemma unlink_inv cfg rk key st :
  key ≠ rk → stack_inv cfg rk st → stack_inv cfg rk (unlink key st).
Proof.
  intros Hne [Hwf Hroot Hk Hp]. subst rk.
  assert (Hsame : root_key (remove_entity key (shared st)) = root_key (shared st) ∧
    pairing_registry (remove_entity key (shared st)) = pairing_registry (shared st)).
  { destruct (key_to_index (shared st) !! key) as [i|] eqn:Ei;
      [|unfold remove_entity; by rewrite Ei].
    by destruct (remove_entity_spec key i (shared st) Ei (wf_pending_lists _ _ Hwf))
      as (_ & _ & _ & ? & ? & _). }
  destruct Hsame as [Hr Hg]. split; cbn.
  - by apply remove_entity_wf.
  - by apply remove_root_ok.
  - done.
  - by rewrite Hg.
Qed.

Lemma matches_build_Some key handle generation st e :
  matches_build key handle generation st = Some e →
  root_key (shared st) ≠ key ∧
  (∃ i, key_to_index (shared st) !! key = Some i ∧
     g_node_weight (graph (shared st)) i = Some handle) ∧
  st_heap st !! handle = Some e ∧ e_generation e = generation ∧
  ∃ p, e_stage e = Building p.
Proof.
  unfold matches_build, resolve_matching_slot.
  destruct (is_root (shared st) key) eqn:Er; [done|]. apply is_root_false in Er.
  destruct (key_to_index (shared st) !! key) as [i|] eqn:Ei; [|done]. cbn.
  destruct (g_node_weight _ i) as [h|] eqn:Eh; [|done]. cbn. case_decide; [|done]. subst h. cbn.
  destruct (st_heap st !! handle) as [x|] eqn:Ex; [|done]. cbn.
  destruct (_ && _) eqn:Eb; [|done]. intros [= <-].
  apply andb_true_iff in Eb as [?%Z.eqb_eq Hb]. split_and!; eauto.
  destruct (e_stage x); try done. eauto.
Qed.

Lemma edit_handle_inv cfg rk st h e e' w :
  st_heap st !! h = Some e → e_config e' = e_config e → stack_inv cfg rk st →
  stack_inv cfg rk (mkNodeStack (<[h := e']> (st_heap st)) (shared st) (add_log_paths st) w).
Proof.
  intros Hh Hc [Hwf Hroot Hk Hp]. split; cbn; [|by eapply edit_config_root_ok|done|done].
  eapply edit_wf; [done|done| |by rewrite Hc]. unfold key_from_entity. by rewrite Hc.
Qed.

Lemma stack_clear_same s :
  root_key (stack_clear s) = root_key s ∧
  (pairing_registry (stack_clear s) = [] ∨ pairing_registry (stack_clear s) = pairing_registry s).
Proof.
  unfold stack_clear. destruct (root s) as [h|]; [|auto].
  destruct (g_add_node h g_empty). auto.
Qed.

(** Operations of the registry alone. *)
Lemma set_inner_inv cfg rk s' st :
  stack_inv cfg rk st → (∃ r, s' = set_registry r (shared st)) →
  pairs_once (pairing_registry s') → stack_inv cfg rk (set_inner s' st).
Proof. intros [Hwf Hroot Hk Hp] [r ->] Hp'. split; [by destruct Hwf; split|done..]. Qed.

Lemma pairs_once_exclusive r : pairs_once r ↔ exclusive (λ _, ZeroOrMore) r.
Proof. split; [intros Hr; split; [by intros ? ?|exact Hr]|]. by intros [_ ?]. Qed.

Lemma pairs_once_retain keep r : pairs_once r → pairs_once (retain keep r).
Proof. rewrite !pairs_once_exclusive. apply exclusive_retain. Qed.

Lemma prune_set_registry heap s : ∃ r, prune_dead_pairs heap s = set_registry r s.
Proof.
  unfold prune_dead_pairs. destruct (pairing_registry s) eqn:E; [|eauto].
  exists []. destruct s. cbn in E. by subst.
Qed.

Lemma pairs_once_insert r p a b :
  pairs_once r → slots_of p = [a; b] → find_pair r a b = None → pairs_once (registry_insert r p).
Proof. rewrite !pairs_once_exclusive. intros. by eapply exclusive_insert. Qed.

Lemma pair_planned_inv cfg rk pair st :
  stack_inv cfg rk st →
  stack_inv cfg rk (set_inner (pair_planned (st_heap st) pair (shared st)).2 st).
Proof.
  intros Hinv. assert (Hp := si_pairs _ _ _ Hinv).
  destruct (prune_set_registry (st_heap st) (shared st)) as [pr Hpr].
  destruct (prune_dead_pairs_registry (st_heap st) (shared st)) as (keep & Hkeep & _).
  assert (Hpruned : pairs_once (pairing_registry (prune_dead_pairs (st_heap st) (shared st))))
    by (rewrite Hkeep; by apply pairs_once_retain).
  assert (∃ ma mb, pair_planned (st_heap st) pair (shared st) =
    pair_slots_impl (st_heap st) (own pair) ma (peer pair) mb (shared st)) as (ma & mb & ->).
  { unfold pair_planned, pair_slots, pair_slot_with_remote.
    destruct (peer_remote_meta pair) as [m|]; [by exists None, (Some m)|by exists None, None]. }
  destruct (pair_slots_impl _ _ _ _ _ _) as [r s'] eqn:E. cbn [snd].
  apply pair_slots_cases in E as [(e & _ & [-> | ->])|
    (da & db & _ & _ & _ & _ & _ & _ & Hf & _ & _ & _ & ->)]; apply set_inner_inv; try done.
  - exists (pairing_registry (shared st)). by destruct (shared st).
  - eauto.
  - rewrite Hpr. eauto.
  - cbn. eapply pairs_once_insert; [done| |exact Hf]. done.
Qed.

Lemma clear_pair_inv cfg rk a b st :
  stack_inv cfg rk st → stack_inv cfg rk (set_inner (clear_pair a b (shared st)).2 st).
Proof.
  intros Hinv. assert (Hp := si_pairs _ _ _ Hinv). unfold clear_pair, remove_pair.
  destruct (remove_first _ _) as [[p r]|] eqn:E; cbn [snd]; apply set_inner_inv; try done; eauto.
  cbn. intros x y Hxy. etrans; [|by apply Hp]. apply remove_first_Some in E as (l1 & l2 & -> & -> & _).
  unfold pairs_between. rewrite !List.filter_app, !length_app. cbn. destruct (is_between p x y); cbn; lia.
Qed.

Lemma stack_step_inv cfg rk st st' : stack_step st st' → stack_inv cfg rk st → stack_inv cfg rk st'.
Proof.
  intros Hstep Hinv. assert (Hinv' := Hinv). destruct Hinv' as [Hwf Hroot Hk Hp].
  destruct Hstep as [st config documents allow path r st' Hpush|st config path launch documents r st' Hpush
    |st name tag|st name tag handle generation|st name tag handle generation dir|st|st name tag path
    |st handle e w' e' fl fl' Hh Hstep|st pair|st a b|st|st core id].
  - unfold push_config, pushed in Hpush. destruct (NodeEntity_new _ _ _ _) as [e w].
    destruct (push_entity _ _ _ _) as [[r' [heap' s']]|] eqn:E; cbn in Hpush; simplify_eq.
    apply (push_entity_inv cfg) in E as (? & ? & ? & Hg); [|done..]. split; cbn; rewrite ?Hg; done.
  - unfold push_built_in, pushed in Hpush. destruct (NodeEntity_built_in _ _ _ _ _) as [e w].
    destruct (push_entity _ _ _ _) as [[r' [heap' s']]|] eqn:E; cbn in Hpush; simplify_eq.
    apply (push_entity_inv cfg) in E as (? & ? & ? & Hg); [|done..]. split; cbn; rewrite ?Hg; done.
  - unfold remove_config. destruct (is_root _ _) eqn:Er; [done|]. apply is_root_false in Er.
    repeat case_match; try done. apply unlink_inv; [congruence|done].
  - unfold remove_config_if_matches. destruct (matches_build _ _ _ _) eqn:E; [|done].
    apply matches_build_Some in E as (? & _). apply unlink_inv; [congruence|done].
  - unfold rollback_to_added_if_matches. destruct (matches_build _ _ _ _) as [e|] eqn:E; [|done].
    apply matches_build_Some in E as (_ & _ & Hh & _). apply (edit_handle_inv _ _ _ _ e); [done| |done].
    unfold rollback_building_to_added. keeps_config.
  - destruct (stack_clear_wf cfg (st_heap st) (shared st)) as [? ?]; [done..|].
    destruct (stack_clear_same (shared st)) as [? Hg]. split; cbn; [done..| |]; [congruence|].
    destruct Hg as [-> | ->]; [|done]. intros ???. cbn. lia.
  - by split.
  - apply (edit_handle_inv _ _ _ _ e); [done| |done].
    apply (step_config (mkSys e (st_world st) fl) (mkSys e' w' fl') Hstep).
  - by apply pair_planned_inv.
  - by apply clear_pair_inv.
  - destruct (prune_set_registry (st_heap st) (shared st)) as [pr Hpr].
    destruct (prune_dead_pairs_registry (st_heap st) (shared st)) as (keep & Hkeep & _).
    apply set_inner_inv; [done|cbn; eauto|]. cbn. rewrite Hkeep. by apply pairs_once_retain.
  - unfold dissolve_pairs_for_remote_instance, remove_for_instance, partition_list. cbn [snd].
    apply set_inner_inv; [done|eauto|]. cbn.
    apply (pairs_once_retain (λ p, negb (involves p core id))). done.
Qed.

(** The stack [NodeStack::new] makes. *)
Lemma NodeStack_new_inv cfg id path w st :
  dependency_keys cfg = [] → NodeStack_new (G := G) cfg id path w = Some st →
  stack_inv cfg (NodeKey_new (m_name (manifest cfg)) (m_tag (manifest cfg))) st.
Proof.
  intros Hd. unfold NodeStack_new, NodeStackInner_new.
  destruct (TrackedNodeInstance_new _ _ _ _) as [inst w1].
  destruct (NodeEntity_root cfg path inst w1) as [root w2] eqn:Er.
  assert (Hcfg : e_config root = cfg) by (unfold NodeEntity_root, with_stage in Er; by simplify_eq/=).
  set (s0 := mkNodeStackInner g_empty ∅ ∅ (key_from_entity root) []).
  assert (Hat0 : ∀ j, entity_at ∅ s0 j = None).
  { intros j. unfold entity_at. cbn [graph s0]. by rewrite empty_weight. }
  assert (Hp0 : ∀ k, pend s0 k = []) by (intros; unfold pend; cbn; by rewrite lookup_empty).
  assert (Hwf0 : stack_wf ∅ s0).
  { split; cbn [graph key_to_index s0].
    - intros i h. by rewrite empty_weight.
    - intros i j h. by rewrite empty_weight.
    - intros k i. rewrite Hat0, lookup_empty. naive_solver.
    - intros i j ei ej. by rewrite Hat0.
    - intros k i. rewrite Hp0, Hat0, elem_of_nil. naive_solver.
    - intros k l. cbn. by rewrite lookup_empty. }
  destruct (validate_dependencies ∅ s0 None root) as [[[]|]|]; [|done..].
  assert (Hnew : key_to_index s0 !! key_from_entity root = None) by apply lookup_empty.
  pose proof (insert_new_entity_wf root ∅ s0 Hwf0 Hnew) as Hwf.
  pose proof (insert_new_entity_at root ∅ s0 Hwf0 Hnew) as Hins.
  destruct (insert_new_entity root ∅ s0) as [heap inner]. cbn [mbind option_bind fst snd] in *.
  intros [= <-]. destruct Hins as (Hr & Hg & index & _ & Hk & Hat). split; cbn.
  - done.
  - split; [done|]. exists index, root. rewrite Hr, Hk, Hat. cbn [root_key s0].
    by rewrite lookup_insert_eq, decide_True.
  - rewrite Hr. cbn. unfold key_from_entity. by rewrite Hcfg.
  - rewrite Hg. intros ???. cbn. lia.
Qed.

Definition stack_reachable (cfg : NodeConfig) st : Prop :=
  ∃ id path w st0, NodeStack_new cfg id path w = Some st0 ∧ rtc stack_step st0 st.

Lemma stack_reachable_inv cfg st :
  dependency_keys cfg = [] → stack_reachable cfg st →
  stack_inv cfg (NodeKey_new (m_name (manifest cfg)) (m_tag (manifest cfg))) st.
Proof.
  intros Hd (id & path & w & st0 & H0' & Hrtc). apply NodeStack_new_inv in H0'; [|done].
  induction Hrtc as [|x y z Hxy _ IH]; [done|]. apply IH. by eapply stack_step_inv.
Qed.
End steps.
