(* ===== verification/StackSafety.v ===== *)
(** * What every reachable stack keeps

    The theorems about [NodeStack] of [node-stack-internal/src/node_stack.rs]
    over the runs of [StackSteps]: its invariant, what a push keeps and refuses,
    when it blocks, and what a re-add restores. *)

From S2P Require Import Prelude Names RestartPolicy Config InterfaceEq Validation Graphs Cycle PairingRegistry Supervision Instance Entity Lifecycle Stack StackPairing StackInv StackSteps.
#[local] Open Scope peppy_scope.

(** ** The invariant *)

(** C2: in every stack a daemon reaches, whatever is pushed, replaced,
    removed, reset, paired or done to an entity through a handle: every key
    leads to the one entity of that key; a dependency on a node of the stack
    is an edge to it, and nothing else is an edge; a dependency on a node that
    is not there waits for it, once; the root is in place with the config the
    daemon started with; and no two slots are paired twice. *)
Theorem stack_invariant {G} `{StableGraphLaws G nat} `{TarjanLaws} (root_config : NodeConfig)
    (st : NodeStack G)
    (Hroot : dependency_keys root_config = [])
    (Hreach : stack_reachable root_config st) :
  stack_inv root_config
    (NodeKey_new (m_name (manifest root_config)) (m_tag (manifest root_config))) st.
Proof. by apply stack_reachable_inv. Qed.

Section pushes.
Context {G : Type} `{StableGraphLaws G nat} `{TarjanLaws}.
Implicit Types (st : NodeStack G) (heap : Heap).

Lemma push_config_entity config docs allow path st r st' :
  push_config config docs allow path st = Some (r, st') →
  ∃ entity, e_config entity = config ∧ instances entity = [] ∧
    push_entity entity allow (st_heap st) (shared st) = Some (r, (st_heap st', shared st')).
Proof.
  unfold push_config, pushed. destruct (NodeEntity_new _ _ _ _) as [entity w] eqn:E.
  destruct (push_entity _ _ _ _) as [[r' [heap' s']]|] eqn:Ep; cbn; [|done].
  intros [= <- <-]. exists entity. unfold NodeEntity_new, with_stage in E. by simplify_eq/=.
Qed.

(** The entity at an index after a push: another one only where it was
    replaced. *)
Lemma push_entity_at entity allow heap s r heap' s' i e e' :
  stack_wf heap s → push_entity entity allow heap s = Some (r, (heap', s')) →
  entity_at heap s i = Some e → entity_at heap' s' i = Some e' →
  e' = e ∨
  (e' = entity ∧ instances e = [] ∧ key_from_entity e = key_from_entity entity ∧
   ((interfaces (e_config e) ==? interfaces (e_config entity)) = true ∨
    has_dependents i (key_from_entity e) s = false)).
Proof.
  intros Hwf Hpush He He'. apply push_entity_cases in Hpush as
    [(-> & -> & _)|[(_ & _ & Hnew & _ & Hins)|
      (k & h & current & _ & _ & Hk & Hh & Hc & Hinst & Hdep & -> & _ & Hs')]].
  - left. congruence.
  - pose proof (insert_new_entity_at entity heap s Hwf Hnew) as Hat. rewrite <-Hins in Hat.
    destruct Hat as (_ & _ & index & Hno & _ & Hat). rewrite Hat in He'. left.
    rewrite decide_False in He'; congruence.
  - assert (Hwt : ∀ j, g_node_weight (graph s') j = g_node_weight (graph s) j).
    { intros j. destruct (_ || _); [|by subst]. subst s'.
      assert (Hati : entity_at (<[h := entity]> heap) s k = Some entity)
        by (rewrite (entity_at_insert _ _ k) by done; by rewrite decide_True).
      destruct (rewire_spec (<[h := entity]> heap) k entity s (wf_keys_lead _ _ Hwf) Hati
        (wf_pending_lists _ _ Hwf)) as (Hsame & _).
      by rewrite (same_weight _ _ Hsame). }
    assert (He'' : entity_at (<[h := entity]> heap) s i = Some e')
      by (unfold entity_at in *; by rewrite Hwt in He').
    rewrite (entity_at_insert _ _ k) in He'' by done. case_decide as E; [|left; congruence].
    subst k. right. assert (e = current) as ->.
    { apply entity_at_Some in He as (? & ? & ?). congruence. }
    apply (wf_keys _ _ Hwf) in Hk as (x & Hx & Hkx). assert (x = current) as -> by congruence.
    injection He'' as <-. rewrite Hkx. done.
Qed.
End pushes.

(** C12: a push never pulls anything from under what runs or depends on it: an
    entity that still tracks instances is left as it is, and the node another
    one depends on keeps producing and consuming the same interfaces, whatever
    config is pushed in its place. *)
Theorem push_keeps_dependants {G} `{StableGraphLaws G nat} `{TarjanLaws} (root_config : NodeConfig)
    (st st' : NodeStack G) (config : NodeConfig) (docs : list PinnedDocument) (allow : bool)
    (path : string) (r : result Error unit) (i d : nat) (e e' ed : NodeEntity)
    (Hroot : dependency_keys root_config = [])
    (Hreach : stack_reachable root_config st)
    (Hpush : push_config config docs allow path st = Some (r, st'))
    (He : entity_at (st_heap st) (shared st) i = Some e)
    (He' : entity_at (st_heap st') (shared st') i = Some e') :
  (instances e ≠ [] → e' = e) ∧
  (entity_at (st_heap st) (shared st) d = Some ed →
   key_from_entity e ∈ dependency_keys (e_config ed) →
   ∀ kind, produced (interfaces (e_config e')) kind = produced (interfaces (e_config e)) kind ∧
     consumed (interfaces (e_config e')) kind = consumed (interfaces (e_config e)) kind).
Proof.
  destruct (stack_reachable_inv _ _ Hroot Hreach) as [Hwf _ _ _].
  apply push_config_entity in Hpush as (entity & Hc & _ & Hpush).
  destruct (push_entity_at _ _ _ _ _ _ _ _ _ _ Hwf Hpush He He') as [->|(-> & Hinst & Hkey & Hdep)];
    [done|]. split; [done|]. intros Hed Hin kind.
  destruct Hdep as [Heq|Hno].
  - destruct (interfaces_eq_same _ _ kind Heq). done.
  - assert (Hyes : has_dependents i (key_from_entity e) (shared st) = true)
      by (apply (has_dependents_spec (st_heap st)); eauto). congruence.
Qed.

(** ** Caller-driven cycles *)

Section views.
Context {G : Type} `{StableGraphLaws G nat} `{TarjanLaws}.
Implicit Types (s : NodeStackInner G) (heap : Heap).

(** An entity as the cycle check sees it. *)
Definition check_node (e : NodeEntity) : CycleCheckNode :=
  mkCycleCheckNode (key_name (key_from_entity e)) (key_tag (key_from_entity e)) (e_config e).

(** The nodes of the stack. *)
Definition stack_view heap s : list CycleCheckNode :=
  omap (λ i, check_node <$> entity_at heap s i) (g_node_indices (graph s)).

Lemma elem_of_stack_view heap s n :
  n ∈ stack_view heap s ↔ ∃ i e, entity_at heap s i = Some e ∧ n = check_node e.
Proof.
  unfold stack_view. rewrite list_elem_of_omap. split.
  - intros (i & _ & (e & ? & ->)%fmap_Some). eauto.
  - intros (i & e & He & ->). exists i. rewrite He. split; [|done].
    apply node_indices_spec. apply entity_at_Some in He as (h & ? & _). eauto.
Qed.

Lemma elem_of_cycle_view heap s candidate n :
  n ∈ cycle_view heap s candidate ↔
  n = check_node candidate ∨
  ∃ i e, entity_at heap s i = Some e ∧
    key_to_index s !! key_from_entity candidate ≠ Some i ∧ n = check_node e.
Proof.
  unfold cycle_view. cbn zeta. rewrite elem_of_app, list_elem_of_singleton, list_elem_of_omap.
  split.
  - intros [(i & _ & Hi)|?]; [right|by left]. case_decide; [done|].
    destruct (entity_at heap s i) as [e|] eqn:He; cbn in Hi; [|done]. injection Hi as <-.
    exists i, e. split; [done|]. split; [congruence|done].
  - intros [?|(i & e & He & Hne & ->)]; [by right|left]. exists i. split.
    + apply node_indices_spec. apply entity_at_Some in He as (h & ? & _). eauto.
    + rewrite decide_False by congruence. by rewrite He.
Qed.

Lemma NoDup_omap_inj {A B} (f : A → option B) l :
  NoDup l → (∀ i j x, f i = Some x → f j = Some x → i = j) → NoDup (omap f l).
Proof.
  intros Hl Hf. induction Hl as [|i l Hi Hl IH]; simpl; [constructor|].
  destruct (f i) as [x|] eqn:E; [|done]. constructor; [|done].
  rewrite list_elem_of_omap. intros (j & Hj & Ej). destruct Hi. by rewrite (Hf i j x).
Qed.

Lemma check_node_key e e' :
  (cc_name (check_node e), cc_tag (check_node e)) =
  (cc_name (check_node e'), cc_tag (check_node e')) → key_from_entity e = key_from_entity e'.
Proof. cbn. intros [= ? ?]. unfold key_from_entity, NodeKey_new. congruence. Qed.

Lemma cycle_view_distinct heap s candidate :
  stack_wf heap s → distinct_identities (cycle_view heap s candidate).
Proof.
  intros Hwf. unfold distinct_identities.
  set (identity := λ n, (cc_name n, cc_tag n)).
  set (f := λ index, if decide (Some index = key_to_index s !! key_from_entity candidate)
    then None else e ← entity_at heap s index; Some (check_node e)).
  assert (Hmap : map identity (omap f (g_node_indices (graph s))) =
    omap (λ i, identity <$> f i) (g_node_indices (graph s))).
  { generalize (g_node_indices (graph s)). induction l as [|i l IH]; cbn [omap list_omap map]; [done|].
    destruct (f i); cbn [map fmap option_fmap option_map]; by rewrite IH. }
  assert (Hview : cycle_view heap s candidate =
    omap f (g_node_indices (graph s)) ++ [check_node candidate]) by reflexivity.
  rewrite Hview, map_app, Hmap. clear Hview Hmap.
  assert (Hf : ∀ i x, identity <$> f i = Some x → ∃ e, entity_at heap s i = Some e ∧
    key_to_index s !! key_from_entity candidate ≠ Some i ∧ x = identity (check_node e)).
  { intros i x (n & Hn & ->)%fmap_Some. unfold f in Hn. case_decide; [done|].
    destruct (entity_at heap s i) as [e|] eqn:He; cbn in Hn; [|done]. injection Hn as <-.
    exists e. split; [done|]. split; [congruence|done]. }
  apply NoDup_app. split; [|split; [|apply NoDup_singleton]].
  - apply NoDup_omap_inj; [apply node_indices_NoDup|].
    intros i j x (e & He & _ & ->)%Hf (e' & He' & _ & Hx)%Hf. apply check_node_key in Hx.
    assert (Hki : key_to_index s !! key_from_entity e = Some i) by (apply (wf_keys _ _ Hwf); eauto).
    assert (Hkj : key_to_index s !! key_from_entity e' = Some j) by (apply (wf_keys _ _ Hwf); eauto).
    congruence.
  - intros x (i & _ & (e & He & Hne & ->)%Hf)%list_elem_of_omap Hx.
    apply list_elem_of_singleton in Hx. apply (check_node_key e candidate) in Hx.
    apply Hne, (wf_keys _ _ Hwf). eauto.
Qed.

(** A candidate the check lets through closes no cycle. *)
Lemma validated_acyclic heap s held candidate allow :
  stack_wf heap s → validate_candidate heap s held candidate allow = Some (Ok tt) →
  ∀ a, ¬ tc (member_calls (cycle_view heap s candidate)) a a.
Proof.
  intros Hwf Hval. assert (Hcycle : validate_no_service_action_cycle heap s candidate = Ok tt).
  { unfold validate_candidate, validate_dependencies in Hval. destruct allow; [congruence|].
    destruct (reads_held _ _ _); [done|]. destruct (validate_dependency_specs _ _ _ _ _ _); congruence. }
  apply acyclic_members. apply find_service_action_cycle_None; [by apply cycle_view_distinct|].
  unfold validate_no_service_action_cycle in Hcycle.
  by destruct (find_service_action_cycle _).
Qed.
End views.

(** C32: a push that adds a node, or that changes the interfaces or the
    dependency keys of one, leaves a stack in which no node can reach itself
    through service and action calls, even when missing dependencies are
    allowed. *)
Theorem push_closes_no_cycle {G} `{StableGraphLaws G nat} `{TarjanLaws} (root_config : NodeConfig)
    (st st' : NodeStack G) (config : NodeConfig) (docs : list PinnedDocument) (allow : bool)
    (path : string)
    (Hroot : dependency_keys root_config = [])
    (Hreach : stack_reachable root_config st)
    (Hpush : push_config config docs allow path st = Some (Ok tt, st'))
    (Hchange : ∀ i e, entity_at (st_heap st) (shared st) i = Some e →
       key_from_entity e = NodeKey_new (m_name (manifest config)) (m_tag (manifest config)) →
       (interfaces (e_config e) ==? interfaces config) = false ∨
       dependency_keys (e_config e) ≠ dependency_keys config) :
  ∀ a, ¬ tc (member_calls (stack_view (st_heap st') (shared st'))) a a.
Proof.
  destruct (stack_reachable_inv _ _ Hroot Hreach) as [Hwf _ _ _].
  apply push_config_entity in Hpush as (entity & <- & _ & Hpush).
  apply push_entity_cases in Hpush as
    [(Hh' & Hs' & Hno)|[(_ & _ & Hnew & Hval & Hins)|
      (i & h & current & _ & _ & Hk & Hh & Hc & _ & _ & Hheap & Hval & Hs')]].
  - destruct (Hno eq_refl) as [Hsome Hnone]. destruct (key_to_index _ !! _) as [i|] eqn:Ei; [|done].
    exfalso. apply Hnone. exists i. split; [done|]. apply (wf_keys _ _ Hwf) in Ei as (? & ? & _). eauto.
  - pose proof (insert_new_entity_at entity _ _ Hwf Hnew) as Hat. rewrite <-Hins in Hat.
    destruct Hat as (_ & _ & index & _ & _ & Hat). intros a Ha.
    apply (validated_acyclic _ _ _ _ _ Hwf Hval a). eapply member_calls_ext; [|exact Ha].
    intros n (j & e & He & ->)%elem_of_stack_view. apply elem_of_cycle_view. rewrite Hat in He.
    case_decide; [left; congruence|right]. exists j, e. split; [done|]. split; congruence.
  - destruct (proj1 (wf_keys _ _ Hwf _ _) Hk) as (x & Hx & Hkx).
    assert (x = current) as -> by (apply entity_at_Some in Hx as (? & ? & ?); congruence).
    destruct (_ || _) eqn:Erw.
    2:{ apply orb_false_iff in Erw as [Hi%negb_false_iff Hd%negb_false_iff%bool_decide_eq_true].
        destruct (Hchange i current Hx Hkx) as [?|?]; congruence. }
    assert (Hati : ∀ j, entity_at (st_heap st') (shared st) j =
      if decide (j = i) then Some entity else entity_at (st_heap st) (shared st) j)
      by (intros; rewrite Hheap; by apply entity_at_insert).
    destruct (rewire_spec (st_heap st') i entity (shared st)) as (Hsame & _);
      [by eapply wf_keys_lead|by rewrite Hati, decide_True|by apply (wf_pending_lists _ _ Hwf)|].
    intros a Ha. apply (validated_acyclic _ _ _ _ _ Hwf (Hval eq_refl) a).
    eapply member_calls_ext; [|exact Ha]. rewrite Hs'.
    intros n (j & e & He & ->)%elem_of_stack_view. apply elem_of_cycle_view.
    rewrite (same_entity_at _ _ _ _ Hsame), Hati in He.
    case_decide; [left; congruence|right]. exists j, e. split; [done|]. split; congruence.
Qed.

(** ** Pushes that never return *)

Section blocking.
Context {G : Type} `{StableGraphLaws G nat} `{TarjanLaws}.
Implicit Types (s : NodeStackInner G) (heap : Heap).

Lemma validate_candidate_None heap s held entity allow :
  validate_candidate heap s held entity allow = None ↔
  allow = false ∧ reads_held s held (e_config entity) = true.
Proof.
  unfold validate_candidate, validate_dependencies. destruct allow; [naive_solver|].
  destruct (reads_held _ _ _); naive_solver.
Qed.

(** The only key that leads to a handle is its entity's own. *)
Lemma reads_held_spec heap s i h e config :
  stack_wf heap s → g_node_weight (graph s) i = Some h → entity_at heap s i = Some e →
  reads_held s (Some h) config = true ↔ key_from_entity e ∈ dependency_keys config.
Proof.
  intros Hwf Hi He. unfold reads_held. rewrite existsb_exists. split.
  - intros (key & Hin%list_elem_of_In & Hf%bool_decide_eq_true). unfold find in Hf.
    apply bind_Some in Hf as (j & Hj & Hw). assert (j = i) as -> by (by eapply wf_handles).
    apply (wf_keys _ _ Hwf) in Hj as (x & Hx & <-). by assert (x = e) as -> by congruence.
  - intros Hin. exists (key_from_entity e). rewrite <-list_elem_of_In, bool_decide_eq_true.
    split; [done|]. unfold find. apply bind_Some. exists i. split; [|done].
    apply (wf_keys _ _ Hwf). eauto.
Qed.

Lemma push_entity_None entity allow heap s :
  stack_wf heap s →
  push_entity entity allow heap s = None ↔
  allow = false ∧ key_from_entity entity ≠ root_key s ∧
  key_from_entity entity ∈ dependency_keys (e_config entity) ∧
  ∃ i e, entity_at heap s i = Some e ∧ key_from_entity e = key_from_entity entity ∧
    instances e = [] ∧
    if interfaces (e_config e) ==? interfaces (e_config entity)
    then dependency_keys (e_config e) ≠ dependency_keys (e_config entity)
    else has_dependents i (key_from_entity entity) s = false.
Proof.
  intros Hwf. unfold push_entity. set (key := key_from_entity entity).
  destruct (is_root s key) eqn:Er.
  { apply bool_decide_eq_true in Er. split; [done|]. intros (_ & ? & _). congruence. }
  apply is_root_false in Er.
  destruct (key_to_index s !! key) as [i|] eqn:Ei.
  2:{ pose proof (validate_candidate_None heap s None entity allow) as Hn.
      split.
      - destruct (validate_candidate _ _ _ _ _) as [[]|]; cbn; [done..|].
        by destruct (proj1 Hn eq_refl).
      - intros (_ & _ & _ & i & e & He & Hk & _).
        assert (key_to_index s !! key = Some i) by (apply (wf_keys _ _ Hwf); eauto). congruence. }
  destruct (proj1 (wf_keys _ _ Hwf _ _) Ei) as (e & He & Hke).
  destruct (proj1 (entity_at_Some _ _ _ _) He) as (h & Hh & Hhe). rewrite Hh, Hhe.
  pose proof (validate_candidate_None heap s (Some h) entity allow) as Hn.
  rewrite (reads_held_spec heap s i h e), Hke in Hn by done.
  assert (Huniq : ∀ j x, entity_at heap s j = Some x → key_from_entity x = key → j = i ∧ x = e).
  { intros j x Hx Hkx. assert (key_to_index s !! key = Some j) by (apply (wf_keys _ _ Hwf); eauto).
    simplify_eq. split; congruence. }
  case_bool_decide as Hl; cbn [negb].
  2:{ split; [done|]. intros (_ & _ & _ & j & x & Hx & Hkx & Hlx & _).
      destruct (Huniq j x Hx Hkx) as [-> ->]. done. }
  transitivity (validate_candidate heap s (Some h) entity allow = None ∧
    if interfaces (e_config e) ==? interfaces (e_config entity)
    then dependency_keys (e_config e) ≠ dependency_keys (e_config entity)
    else has_dependents i key s = false).
  - destruct (_ ==? _) eqn:Eeq; cbn [negb andb orb].
    + case_bool_decide as Hd; cbn; [naive_solver|].
      destruct (validate_candidate _ _ _ _ _) as [[]|]; cbn; naive_solver.
    + destruct (has_dependents i key s); [naive_solver|].
      destruct (validate_candidate _ _ _ _ _) as [[]|]; cbn; naive_solver.
  - rewrite Hn. split.
    + intros [[-> Hin] Hif]. split_and!; try done. by exists i, e.
    + intros (-> & _ & Hin & j & x & Hx & Hkx & Hlx & Hif).
      destruct (Huniq j x Hx Hkx) as [-> ->]. done.
Qed.
End blocking.

(** C39: a push returns, except in one case: a node already in the stack,
    without instances, is pushed again with missing dependencies refused, with
    other dependency keys or other interfaces nothing depends on, and with a
    dependency on itself. Resolving that dependency reads the entity whose
    write lock the push holds, and the thread waits for itself. *)
Theorem push_blocks_exactly {G} `{StableGraphLaws G nat} `{TarjanLaws} (root_config : NodeConfig)
    (st : NodeStack G) (config : NodeConfig) (docs : list PinnedDocument) (allow : bool) (path : string)
    (Hroot : dependency_keys root_config = [])
    (Hreach : stack_reachable root_config st) :
  let key := NodeKey_new (m_name (manifest config)) (m_tag (manifest config)) in
  push_config config docs allow path st = None ↔
  allow = false ∧ key ≠ root_key (shared st) ∧ key ∈ dependency_keys config ∧
  ∃ i e, entity_at (st_heap st) (shared st) i = Some e ∧ key_from_entity e = key ∧
    instances e = [] ∧
    if interfaces (e_config e) ==? interfaces config
    then dependency_keys (e_config e) ≠ dependency_keys config
    else ¬ ∃ d ed, entity_at (st_heap st) (shared st) d = Some ed ∧
             key ∈ dependency_keys (e_config ed).
Proof.
  destruct (stack_reachable_inv _ _ Hroot Hreach) as [Hwf _ _ _]. cbn zeta.
  unfold push_config, pushed. destruct (NodeEntity_new _ _ _ _) as [entity w] eqn:E.
  assert (Hc : e_config entity = config)
    by (unfold NodeEntity_new, with_stage in E; by simplify_eq/=).
  transitivity (push_entity entity allow (st_heap st) (shared st) = None).
  { destruct (push_entity _ _ _ _) as [[? [? ?]]|]; done. }
  rewrite push_entity_None by done. unfold key_from_entity at 1 2 4 5. rewrite Hc.
  split; intros (? & ? & ? & i & e & He & Hk & Hl & Hif); split_and!; try done; exists i, e;
    split_and!; try done; rewrite ?Hc in *; destruct (_ ==? _); try done.
  - intros Hdep. apply not_true_iff_false in Hif. apply Hif.
    rewrite <-Hk. apply (has_dependents_spec (st_heap st)); [done..|]. by rewrite Hk.
  - apply not_true_iff_false. rewrite <-Hk, (has_dependents_spec (st_heap st)) by done.
    by rewrite Hk.
Qed.

(** ** Cleanups of a build *)

Section cleanups.
Context {G : Type} `{StableGraphLaws G nat} `{TarjanLaws}.
Implicit Types (st : NodeStack G) (s : NodeStackInner G) (heap : Heap).

Lemma matches_build_iff key handle generation st e :
  matches_build key handle generation st = Some e ↔
  key ≠ root_key (shared st) ∧ find (shared st) key = Some handle ∧
  st_heap st !! handle = Some e ∧ e_generation e = generation ∧ ∃ p, e_stage e = Building p.
Proof.
  split.
  - intros (? & (i & Hi & Hw) & ? & ? & ?)%matches_build_Some. split; [done|].
    split; [|done]. unfold find. by rewrite Hi.
  - intros (Hr & Hf & Hh & Hg & p & Hp). unfold find in Hf.
    apply bind_Some in Hf as (i & Hi & Hw).
    unfold matches_build, resolve_matching_slot, is_root.
    rewrite bool_decide_false by done. rewrite Hi. cbn. rewrite Hw. cbn.
    rewrite decide_True by done. cbn. rewrite Hh. cbn. by rewrite Hg, Z.eqb_refl, Hp.
Qed.

Lemma remove_entity_find heap s key other :
  stack_wf heap s →
  find (remove_entity key s) other = if decide (other = key) then None else find s other.
Proof.
  intros Hwf. destruct (key_to_index s !! key) as [i|] eqn:Ei.
  2:{ unfold remove_entity. rewrite Ei. case_decide as E; [|done]. subst. unfold find. by rewrite Ei. }
  destruct (remove_entity_spec key i s Ei (wf_pending_lists _ _ Hwf)) as (Hw & _ & Hk & _).
  unfold find. rewrite Hk. case_decide as E; [subst; by rewrite lookup_delete_eq|].
  rewrite lookup_delete_ne by done. destruct (key_to_index s !! other) as [j|] eqn:Ej; [|done].
  cbn. rewrite Hw, decide_False; [done|]. intros ->.
  apply (wf_keys _ _ Hwf) in Ei as (x & Hx & <-), Ej as (y & Hy & <-). congruence.
Qed.
End cleanups.

(** The cleanup of a failed or cancelled build touches only the entity that
    build began on: it acts when the key still leads to the caller's handle,
    in the building stage of the generation the caller built, and otherwise
    changes nothing. A removal then takes the key out of the stack and leaves
    every other entity where it was; a rollback changes that entity alone, back
    to the added stage with its working directory. *)
Lemma cleanup_touches_only_its_build {G} `{StableGraphLaws G nat} `{TarjanLaws}
    (root_config : NodeConfig) (st : NodeStack G) (name tag dir : string) (handle : nat)
    (generation : Z)
    (Hroot : dependency_keys root_config = [])
    (Hreach : stack_reachable root_config st) :
  let key := NodeKey_new name tag in
  let its_build :=
    key ≠ root_key (shared st) ∧ find (shared st) key = Some handle ∧
    ∃ e p, st_heap st !! handle = Some e ∧ e_generation e = generation ∧ e_stage e = Building p in
  let removal := remove_config_if_matches name tag handle generation st in
  let rollback := rollback_to_added_if_matches name tag handle generation dir st in
  (removal.1 = true ↔ its_build) ∧ (rollback.1 = true ↔ its_build) ∧
  (removal.1 = false → removal.2 = st) ∧ (rollback.1 = false → rollback.2 = st) ∧
  (removal.1 = true → find (shared removal.2) key = None ∧ st_heap removal.2 = st_heap st ∧
     ∀ other, other ≠ key → find (shared removal.2) other = find (shared st) other) ∧
  (rollback.1 = true → shared rollback.2 = shared st ∧
     (∀ h, h ≠ handle → st_heap rollback.2 !! h = st_heap st !! h) ∧
     ∃ e e' p, st_heap st !! handle = Some e ∧ e_stage e = Building p ∧
       st_heap rollback.2 !! handle = Some e' ∧ e_stage e' = Added p ∧
       e_pending_working_dir e' = Some dir ∧ e_config e' = e_config e).
Proof.
  destruct (stack_reachable_inv _ _ Hroot Hreach) as [Hwf _ _ _]. cbn zeta.
  unfold remove_config_if_matches, rollback_to_added_if_matches.
  set (key := NodeKey_new name tag).
  pose proof (matches_build_iff key handle generation st) as Hm.
  destruct (matches_build key handle generation st) as [e|]; cbn [fst snd].
  2:{ assert (Hno : ¬ (key ≠ root_key (shared st) ∧ find (shared st) key = Some handle ∧
        ∃ e p, st_heap st !! handle = Some e ∧ e_generation e = generation ∧ e_stage e = Building p)).
      { intros (? & ? & e & p & ? & ? & ?). by assert (None = Some e) by (apply Hm; eauto 10). }
      split_and!; try done; split; done || tauto. }
  destruct (proj1 (Hm e) eq_refl) as (Hr & Hf & Hh & Hg & p & Hp).
  split_and!; try done; [split; [|done]; eauto 10..| |]; intros _.
  - cbn. split; [|split; [done|]]; [|intros other Hne]; rewrite (remove_entity_find (st_heap st)) by done;
      [by rewrite decide_True|by rewrite decide_False].
  - cbn. split; [done|]. split; [intros h Hne; by rewrite lookup_insert_ne|].
    exists e, (rollback_building_to_added dir e), p. rewrite lookup_insert_eq.
    unfold rollback_building_to_added. rewrite Hp. done.
Qed.

(** ** Removing a node and adding it back *)

(** A node that is removed and pushed back is wired to its dependants as
    before: another node's edge leads to the new entity exactly when it led to
    the old one. *)
Lemma readd_restores_edges {G} `{StableGraphLaws G nat} `{TarjanLaws} (root_config : NodeConfig)
    (st st1 st2 : NodeStack G) (name tag : string) (config : NodeConfig)
    (docs : list PinnedDocument) (allow : bool) (path : string) (i j d : nat) (ed : NodeEntity)
    (Hroot : dependency_keys root_config = [])
    (Hreach : stack_reachable root_config st)
    (Hkey : NodeKey_new (m_name (manifest config)) (m_tag (manifest config)) = NodeKey_new name tag)
    (Hremove : remove_config name tag st = (Ok true, st1))
    (Hpush : push_config config docs allow path st1 = Some (Ok tt, st2))
    (Hi : key_to_index (shared st) !! NodeKey_new name tag = Some i)
    (Hj : key_to_index (shared st2) !! NodeKey_new name tag = Some j)
    (Hd : entity_at (st_heap st) (shared st) d = Some ed) (Hne : d ≠ i) :
  g_edge (graph (shared st2)) d j ↔ g_edge (graph (shared st)) d i.
Proof.
  pose proof (stack_reachable_inv _ _ Hroot Hreach) as [Hwf _ _ _].
  assert (Hreach1 : stack_reachable root_config st1).
  { destruct Hreach as (id & pth & w & st0 & H0' & Hrtc). exists id, pth, w, st0. split; [done|].
    eapply rtc_r; [done|]. pose proof (st_remove st name tag) as Hs. by rewrite Hremove in Hs. }
  assert (Hreach2 : stack_reachable root_config st2).
  { destruct Hreach1 as (id & pth & w & st0 & H0' & Hrtc). exists id, pth, w, st0. split; [done|].
    eapply rtc_r; [done|]. by eapply st_push_config. }
  pose proof (stack_reachable_inv _ _ Hroot Hreach1) as [Hwf1 _ _ _].
  pose proof (stack_reachable_inv _ _ Hroot Hreach2) as [Hwf2 _ _ _].
  assert (Hst1 : st1 = unlink (NodeKey_new name tag) st).
  { unfold remove_config in Hremove. destruct (is_root _ _); [done|]. repeat case_match; congruence. }
  destruct (remove_entity_spec _ _ (shared st) Hi (wf_pending_lists _ _ Hwf)) as (Hw & _ & Hk & _).
  assert (Hd1 : entity_at (st_heap st1) (shared st1) d = Some ed).
  { subst st1. unfold entity_at in *. cbn. by rewrite Hw, decide_False. }
  assert (Hnew : key_to_index (shared st1) !! NodeKey_new name tag = None)
    by (subst st1; cbn; rewrite Hk; apply lookup_delete_eq).
  assert (Hd2 : entity_at (st_heap st2) (shared st2) d = Some ed).
  { apply push_config_entity in Hpush as (entity & Hc & _ & Hpush).
    assert (Hke : key_from_entity entity = NodeKey_new name tag)
      by (unfold key_from_entity; by rewrite Hc).
    apply push_entity_cases in Hpush as
      [(_ & _ & Hno)|[(_ & _ & _ & _ & Hins)|(k & h & c & _ & _ & Hk' & _)]]; rewrite ?Hke in *.
    - by destruct (Hno eq_refl).
    - pose proof (insert_new_entity_at entity _ _ Hwf1) as Hat. rewrite Hke in Hat.
      specialize (Hat Hnew). rewrite <-Hins in Hat.
      destruct Hat as (_ & _ & index & Hnone & _ & Hat). rewrite Hat, decide_False; [done|]. congruence.
    - congruence. }
  destruct (proj1 (wf_keys _ _ Hwf _ _) Hi) as (ei & Hei & Hkei).
  destruct (proj1 (wf_keys _ _ Hwf2 _ _) Hj) as (ej & Hej & Hkej).
  rewrite (wf_edges _ _ Hwf2 d j ed ej), (wf_edges _ _ Hwf d i ed ei) by done.
  by rewrite Hkei, Hkej.
Qed.

(** ** Stacks that are reached *)

Notation ExampleStack := (NodeStack (map_graph nat)).

Definition example_empty : ExampleStack :=
  mkNodeStack ∅ (mkNodeStackInner g_empty ∅ ∅ (mkNodeKey "" "") []) ∅ example_world.

Definition example_start_stack : ExampleStack :=
  default example_empty (NodeStack_new example_root_config "daemon" "/root" example_world).

Definition example_push (allow : bool) (config : NodeConfig) (st : ExampleStack) : ExampleStack :=
  match push_config config [] allow "/cfg" st with Some (_, st') => st' | None => st end.

(** The camera of [Validation], then a viewer of its frames. *)
Definition example_viewer_config : NodeConfig :=
  mkNodeConfig example_viewer example_viewer_interfaces
    (mkExecution Rust None None None [] None false) (mkNodeFramework None).

Definition example_two : ExampleStack :=
  example_push false example_viewer_config (example_push false example_camera example_start_stack).

Lemma example_pushed st allow config :
  stack_reachable example_root_config st →
  opt_is_some (push_config config [] allow "/cfg" st) = true →
  stack_reachable example_root_config (example_push allow config st).
Proof.
  intros (id & path & w & st0 & Hnew & Hrtc) Hsome. exists id, path, w, st0. split; [exact Hnew|].
  unfold example_push. destruct (push_config _ _ _ _ _) as [[r st']|] eqn:E; [|done].
  eapply rtc_r; [exact Hrtc|]. by eapply st_push_config.
Qed.

Lemma example_start_reachable : stack_reachable example_root_config example_start_stack.
Proof.
  exists "daemon", "/root", example_world, example_start_stack. split; [|apply rtc_refl].
  vm_compute. reflexivity.
Qed.

Lemma example_two_reachable : stack_reachable example_root_config example_two.
Proof.
  apply example_pushed; [apply example_pushed; [apply example_start_reachable|]|];
    vm_compute; reflexivity.
Qed.

Lemma stack_invariant_witness :
  stack_inv example_root_config (NodeKey_new "core" "v1") example_two.
Proof.
  apply (stack_invariant example_root_config example_two); [vm_compute; reflexivity|].
  apply example_two_reachable.
Defined.

(** A camera that no longer emits its frames. *)
Definition example_blind_camera : NodeConfig :=
  mkNodeConfig (manifest example_camera) Interfaces_default
    (mkExecution Rust None None None [] None false) (mkNodeFramework None).

Definition example_camera_entity : NodeEntity :=
  mkNodeEntity example_camera (Added "/cfg") 2 None [] SAdded.
Definition example_viewer_entity : NodeEntity :=
  mkNodeEntity example_viewer_config (Added "/cfg") 3 None [] SAdded.

Lemma push_keeps_dependants_witness :
  is_ok <$> (fst <$> push_config example_blind_camera [] false "/cfg" example_two) = Some false ∧
  ∀ kind, produced (interfaces (e_config example_camera_entity)) kind =
    produced (interfaces example_camera) kind.
Proof.
  split; [vm_compute; reflexivity|]. intros kind.
  destruct (push_config example_blind_camera [] false "/cfg" example_two) as [[r st']|] eqn:E;
    [|vm_compute in E; discriminate E].
  assert (Hst' : st' = example_push false example_blind_camera example_two)
    by (unfold example_push; rewrite E; reflexivity).
  refine (proj1 (proj2 (push_keeps_dependants example_root_config example_two st'
    example_blind_camera [] false "/cfg" r 1 2 example_camera_entity example_camera_entity
    example_viewer_entity _ example_two_reachable E _ _) _ _ kind));
    first [vm_compute; reflexivity | rewrite Hst'; vm_compute; reflexivity | idtac].
  apply (bool_decide_unpack _). vm_compute. exact I.
Defined.

(** A property of every entity is read off the nodes of the graph. *)
Lemma entities_forallb {G} `{StableGraphLaws G nat} (heap : Heap) (s : NodeStackInner G)
    (P : NodeEntity → bool) :
  forallb (λ i, match entity_at heap s i with Some e => P e | None => true end)
    (g_node_indices (graph s)) = true →
  ∀ i e, entity_at heap s i = Some e → P e = true.
Proof.
  rewrite forallb_forall. intros Hall i e He.
  assert (Hin : In i (g_node_indices (graph s))).
  { apply list_elem_of_In, node_indices_spec. apply entity_at_Some in He as (h & ? & _). eauto. }
  specialize (Hall i Hin). by rewrite He in Hall.
Qed.

(** A node that serves one contract and calls another. *)
Definition example_service_node (name implemented called : string) : NodeConfig :=
  mkNodeConfig
    (mkManifest name "v1" [] None [mkImplementsEntry implemented "v1" "own" None]
       (Some (mkDependsOn [] [mkContractDependency called "v1" "peer" None One] [] [] [])))
    (mkInterfaces None
       (Some (mkServiceInterfaces (Some [Linked (mkLinkedEntry "own" "ask" None)])
                (Some [mkConsumedEntry "peer" "ask" None]))) None)
    (mkExecution Rust None None None [] None false) (mkNodeFramework None).

(** Alpha serves [a] and calls [b]; beta serves [x] and calls [a]. *)
Definition example_alpha : ExampleStack :=
  example_push false (example_service_node "alpha" "a" "b") example_start_stack.
Definition example_beta : NodeConfig := example_service_node "beta" "x" "a".
Definition example_chain : ExampleStack := example_push false example_beta example_alpha.

Lemma example_alpha_reachable : stack_reachable example_root_config example_alpha.
Proof. apply example_pushed; [apply example_start_reachable|vm_compute; reflexivity]. Qed.

Lemma example_chain_reachable : stack_reachable example_root_config example_chain.
Proof. apply example_pushed; [apply example_alpha_reachable|vm_compute; reflexivity]. Qed.

Lemma push_closes_no_cycle_witness :
  (fst <$> push_config (example_service_node "beta" "b" "a") [] true "/cfg" example_alpha) ≠
    Some (Ok tt) ∧
  ∀ a, ¬ tc (member_calls (stack_view (st_heap example_chain) (shared example_chain))) a a.
Proof.
  split; [vm_compute; discriminate|].
  apply (push_closes_no_cycle example_root_config example_alpha example_chain example_beta []
    false "/cfg"); [vm_compute; reflexivity|apply example_alpha_reachable|vm_compute; reflexivity|].
  intros i e He Hk. exfalso.
  assert (Hno : negb (bool_decide (key_from_entity e = NodeKey_new "beta" "v1")) = true).
  { revert i e He Hk. intros i e He _. revert i e He. apply entities_forallb. vm_compute. reflexivity. }
  apply negb_true_iff, bool_decide_eq_false in Hno. exact (Hno Hk).
Defined.

(** *** Changed contracts *)

(** Beta as it is in the stack, serving [b] in place of [x]. *)
Definition example_renamed : NodeConfig := example_service_node "beta" "b" "a".
Definition example_closed : ExampleStack := example_push false example_renamed example_chain.

Definition example_alpha_node : CycleCheckNode :=
  mkCycleCheckNode "alpha" "v1" (example_service_node "alpha" "a" "b").
Definition example_renamed_node : CycleCheckNode :=
  mkCycleCheckNode "beta" "v1" example_renamed.

Lemma example_node_calls a b contract caller provider :
  node_calls (mkCycleCheckNode a "v1" (example_service_node caller contract provider))
    (mkCycleCheckNode b "v1" (example_service_node b provider contract)).
Proof.
  eexists. split; [reflexivity|]. left. eexists. split; [left|]. split.
  - left. exists (mkConsumedEntry "peer" "ask" None). split; [left|reflexivity].
  - cbn. unfold node_implements. cbn. rewrite !bool_decide_true by done. done.
Qed.

(** The cycle check does not run on every push. A node pushed again with
    the interfaces and the node dependencies it had is not validated, though
    the contracts it implements may have changed: this push succeeds on a
    reachable stack without cycle, with missing dependencies refused, and
    leaves two nodes that call each other, which the check on a new node of
    the same config reports. *)
Lemma readd_can_close_cycle :
  stack_reachable example_root_config example_chain ∧
  push_config example_renamed [] false "/cfg" example_chain = Some (Ok tt, example_closed) ∧
  find_service_action_cycle (stack_view (st_heap example_chain) (shared example_chain)) = None ∧
  tc (member_calls (stack_view (st_heap example_closed) (shared example_closed)))
    example_alpha_node example_alpha_node ∧
  fst <$> push_config example_renamed [] false "/cfg" example_alpha =
    Some (Err (ServiceActionContractCycle ["alpha:v1"; "beta:v1"] "b:v1" "service")).
Proof.
  split; [apply example_chain_reachable|]. split; [vm_compute; reflexivity|].
  split; [vm_compute; reflexivity|]. split; [|vm_compute; reflexivity].
  assert (Ha : stack_view (st_heap example_closed) (shared example_closed) !! 1 =
    Some example_alpha_node) by (vm_compute; reflexivity).
  assert (Hb : stack_view (st_heap example_closed) (shared example_closed) !! 0 =
    Some example_renamed_node) by (vm_compute; reflexivity).
  apply list_elem_of_lookup_2 in Ha, Hb.
  eapply tc_l; [|apply tc_once]; (split; [eassumption|split; [eassumption|apply example_node_calls]]).
Qed.

(** *** Self-dependencies *)

(** The camera, with a dependency on itself. *)
Definition example_self_camera : NodeConfig :=
  mkNodeConfig
    (mkManifest "camera" "v1" [] None []
       (Some (mkDependsOn [mkNodeDependency "camera" "v1" "twin" ZeroOrOne] [] [] [] [])))
    (interfaces example_camera)
    (mkExecution Rust None None None [] None false) (mkNodeFramework None).

Lemma push_blocks_exactly_witness :
  push_config example_self_camera [] false "/cfg" example_two = None ∧
  push_config example_camera [] false "/cfg" example_two ≠ None.
Proof.
  assert (Hd : dependency_keys example_root_config = []) by (vm_compute; reflexivity).
  split.
  - apply (push_blocks_exactly example_root_config example_two example_self_camera [] false "/cfg"
      Hd example_two_reachable).
    split; [reflexivity|]. split; [vm_compute; discriminate|].
    split; [apply (bool_decide_unpack _); vm_compute; exact I|].
    exists 1, example_camera_entity. do 3 (split; [vm_compute; reflexivity|]).
    vm_compute. discriminate.
  - rewrite (push_blocks_exactly example_root_config example_two example_camera [] false "/cfg"
      Hd example_two_reachable).
    intros (_ & _ & Hself & _). revert Hself. apply (bool_decide_unpack _). vm_compute. exact I.
Defined.

(** *** Builds *)

(** Steps of the entity behind a handle, as the stack makes them. *)
Lemma example_entity_stepped (st : ExampleStack) handle e e' w' fl fl' :
  stack_reachable example_root_config st →
  st_heap st !! handle = Some e → step (mkSys e (st_world st) fl) (mkSys e' w' fl') →
  stack_reachable example_root_config
    (mkNodeStack (<[handle := e']> (st_heap st)) (shared st) (add_log_paths st) w').
Proof.
  intros (id & path & w & st0 & Hnew & Hrtc) Hh Hs. exists id, path, w, st0. split; [exact Hnew|].
  eapply rtc_r; [exact Hrtc|]. by eapply st_entity.
Qed.

(** The camera's build, in progress. *)
Definition example_building_camera : NodeEntity :=
  mkNodeEntity example_camera (Building "/cfg") 2 None [] SBuilding.
Definition example_building : ExampleStack :=
  mkNodeStack (<[1 := example_building_camera]> (st_heap example_two)) (shared example_two)
    (add_log_paths example_two) (st_world example_two).

Lemma example_building_reachable : stack_reachable example_root_config example_building.
Proof.
  apply (example_entity_stepped example_two 1 example_camera_entity example_building_camera
    (st_world example_two) [] []); [apply example_two_reachable|vm_compute; reflexivity|].
  apply (step_build_begin example_camera_entity (st_world example_two) []
    (mkBuildSnapshot "camera" "v1" "/cfg" None None Rust 2) example_building_camera).
  vm_compute. reflexivity.
Qed.

Lemma cleanup_touches_only_its_build_witness :
  find (shared (remove_config_if_matches "camera" "v1" 1 2 example_building).2)
    (NodeKey_new "camera" "v1") = None ∧
  (remove_config_if_matches "camera" "v1" 1 3 example_building).2 = example_building ∧
  shared (rollback_to_added_if_matches "camera" "v1" 1 2 "/work" example_building).2 =
    shared example_building.
Proof.
  assert (Hd : dependency_keys example_root_config = []) by (vm_compute; reflexivity).
  pose proof (λ gen, cleanup_touches_only_its_build example_root_config example_building
    "camera" "v1" "/work" 1 gen Hd example_building_reachable) as Hc.
  destruct (Hc 2%Z) as (_ & _ & _ & _ & Hremoved & Hrolled).
  destruct (Hc 3%Z) as (_ & _ & Hkept & _). cbv zeta in *.
  split; [apply Hremoved; vm_compute; reflexivity|].
  split; [apply Hkept; vm_compute; reflexivity|apply Hrolled; vm_compute; reflexivity].
Defined.

(** *** A camera that comes back *)

Definition example_gone : ExampleStack := (remove_config "camera" "v1" example_two).2.
Definition example_back : ExampleStack := example_push false example_camera example_gone.

Lemma readd_restores_edges_witness : ∃ j, g_edge (graph (shared example_back)) 2 j.
Proof.
  destruct (key_to_index (shared example_back) !! NodeKey_new "camera" "v1") as [j|] eqn:Hj;
    [|vm_compute in Hj; discriminate Hj].
  exists j.
  assert (Hd : dependency_keys example_root_config = []) by (vm_compute; reflexivity).
  assert (Hgone : remove_config "camera" "v1" example_two = (Ok true, example_gone))
    by (vm_compute; reflexivity).
  assert (Hback : push_config example_camera [] false "/cfg" example_gone = Some (Ok tt, example_back))
    by (vm_compute; reflexivity).
  assert (Hi : key_to_index (shared example_two) !! NodeKey_new "camera" "v1" = Some 1)
    by (vm_compute; reflexivity).
  assert (Hv : entity_at (st_heap example_two) (shared example_two) 2 = Some example_viewer_entity)
    by (vm_compute; reflexivity).
  assert (He : g_edge (graph (shared example_two)) 2 1).
  { apply find_edge_spec. apply (bool_decide_unpack _). vm_compute. exact I. }
  assert (Hne : 2 ≠ 1) by discriminate.
  apply (readd_restores_edges example_root_config example_two example_gone example_back
    "camera" "v1" example_camera [] false "/cfg" 1 j 2 example_viewer_entity Hd
    example_two_reachable eq_refl Hgone Hback Hi Hj Hv Hne).
  exact He.
Defined.
