(* ===== verification/StackGraph.v ===== *)
(** * The serialized graph

    [NodeStackInner::to_serialized_graph] of
    [node-stack-internal/src/node_stack.rs] and the data it builds, from
    [core-node-api/src/graph.rs]: what [peppy stack list] and
    [peppy node info] show of a stack. *)

From S2P Require Import Prelude Names RestartPolicy Config InterfaceEq Validation Graphs Cycle PairingRegistry Supervision Instance Entity Lifecycle Stack StackPairing StackInv StackSteps StackSafety.
#[local] Open Scope peppy_scope.

Record SerializedInstance : Type := mkSerializedInstance {
  si_instance_id : string;
  si_state : InstanceState;
  si_healthy : bool;
  si_clock : ClockBinding;
  si_slot_bindings : SlotBindings;
  si_pairing_slots : gmap string SerializedPairingSlot;
  si_endpoints : list InstanceEndpoint;
  si_restart_status : RestartStatus;
}.

Record SerializedNode : Type := mkSerializedNode {
  sn_name : string;
  sn_tag : string;
  sn_core_node : string;
  sn_config_path : string;
  sn_artifact_path : option string;
  sn_stage : SerializedNodeStage;
  sn_instances : list SerializedInstance;
}.

Record SerializedEdge : Type := mkSerializedEdge {
  se_from : SerializedNode;
  se_to : SerializedNode;
  via_contract : option string;
}.

Record SerializedNodeGraph : Type := mkSerializedNodeGraph {
  sg_nodes : list SerializedNode;
  sg_edges : list SerializedEdge;
}.

(** ** Readers of the graph *)

Definition running_instances (n : SerializedNode) : list SerializedInstance :=
  List.filter (λ i, bool_decide (si_state i = Running)) (sn_instances n).

Definition running_instance_ids (n : SerializedNode) : list string :=
  map si_instance_id (running_instances n).

Definition find_node (g : SerializedNodeGraph) (name tag : string) : option SerializedNode :=
  List.find (λ n, bool_decide (sn_name n = name) && bool_decide (sn_tag n = tag)) (sg_nodes g).

(** The error is the label of the missing node. *)
Definition running_instance_ids_by_node (g : SerializedNodeGraph) (name tag : string) :
    result string (list string) :=
  match find_node g name tag with
  | Some n => Ok (running_instance_ids n)
  | None => Err (name_tag name tag)
  end.

(** ** Building it *)

(** The health cell is shared, so a snapshot reads it. *)
Definition serialize_instance (w : World) (i : TrackedNodeInstance) : SerializedInstance :=
  mkSerializedInstance (i_instance_id i) (i_state i) (load_health (i_healthy i) w) (i_clock i)
    (i_slot_bindings i) ∅ (i_endpoints i) (supervision_status (i_supervision i)).

Definition serialize_node_entity (w : World) (e : NodeEntity) (core_node : string) :
    SerializedNode :=
  mkSerializedNode (node_name e) (node_tag e) core_node (config_path e) (artifact_path e)
    (stage_to_serialized (e_stage e)) (map (serialize_instance w) (instances e)).

Definition set_pairing_slots (slots : gmap string SerializedPairingSlot) (i : SerializedInstance) :
    SerializedInstance :=
  mkSerializedInstance (si_instance_id i) (si_state i) (si_healthy i) (si_clock i)
    (si_slot_bindings i) slots (si_endpoints i) (si_restart_status i).

(** One round of the overlay loop: the slots of the instances that have a
    process. *)
Definition overlay_node (core_node : string) (live_pairs : list Pairing) (config : NodeConfig)
    (n : SerializedNode) : SerializedNode :=
  match depends_on (manifest config) with
  | None => n
  | Some deps =>
      if bool_decide (pairings deps = []) then n
      else
        mkSerializedNode (sn_name n) (sn_tag n) (sn_core_node n) (sn_config_path n)
          (sn_artifact_path n) (sn_stage n)
          (map
             (λ i,
                if negb (has_process (si_state i)) then i
                else
                  set_pairing_slots
                    (pairing_slot_view core_node (si_instance_id i) (pairings deps) live_pairs) i)
             (sn_instances n))
  end.

Section build.
Context {G : Type} `{StableGraph G nat} `{Tarjan}.
Implicit Types (s : NodeStackInner G) (heap : Heap).

(** An entity as the node list has it. *)
Definition listed heap (w : World) s (e : NodeEntity) : SerializedNode :=
  let core_node := key_name (root_key s) in
  overlay_node core_node (live_pairs_filtered heap s) (e_config e)
    (serialize_node_entity w e core_node).

Definition serialized_nodes heap (w : World) s : list SerializedNode :=
  map (λ '(_, e), listed heap w s e) (entities heap s).

Definition direct_edges heap (w : World) s : list SerializedEdge :=
  let core_node := key_name (root_key s) in
  omap
    (λ edge_idx,
       '(src_idx, dst_idx) ← g_edge_endpoints (graph s) edge_idx;
       src ← entity_at heap s src_idx;
       dst ← entity_at heap s dst_idx;
       Some (mkSerializedEdge (serialize_node_entity w src core_node)
               (serialize_node_entity w dst core_node) None))
    (g_edge_indices (graph s)).

(** [collect] into a map: a later node of a key replaces an earlier one. *)
Definition node_by_key (nodes : list SerializedNode) : gmap (string * string) SerializedNode :=
  fold_left (λ m n, <[(sn_name n, sn_tag n) := n]> m) nodes ∅.

Definition contract_edge (by_key : gmap (string * string) SerializedNode)
    (edge : ContractImplementationEdge) : option SerializedEdge :=
  from ← by_key !! (consumer_name edge, consumer_tag edge);
  to ← by_key !! (provider_name edge, provider_tag edge);
  Some (mkSerializedEdge from to (Some (name_tag (contract_name edge) (contract_tag edge)))).

Definition to_serialized_graph heap (w : World) s : SerializedNodeGraph :=
  let nodes := serialized_nodes heap w s in
  let configs := map (λ '(_, e), e_config e) (entities heap s) in
  mkSerializedNodeGraph nodes
    (direct_edges heap w s
     ++ omap (contract_edge (node_by_key nodes)) (collect_contract_implementation_edges configs)).
End build.

(** ** The edges are the dependencies *)

Section exact.
Context {G : Type} `{StableGraphLaws G nat} `{TarjanLaws}.
Implicit Types (s : NodeStackInner G) (heap : Heap).

Lemma elem_of_entities heap s h e :
  (h, e) ∈ entities heap s ↔
  ∃ i, g_node_weight (graph s) i = Some h ∧ heap !! h = Some e.
Proof.
  unfold entities. rewrite list_elem_of_omap. split.
  - intros (i & _ & Hi). exists i. destruct (g_node_weight (graph s) i) as [h'|]; [|done].
    cbn in Hi. destruct (heap !! h') eqn:E; cbn in Hi; [|done]. by simplify_eq.
  - intros (i & Hi & Hh). exists i. rewrite Hi. cbn. rewrite Hh. split; [|done].
    apply node_indices_spec. eauto.
Qed.

Lemma entities_at heap s e : (∃ h, (h, e) ∈ entities heap s) ↔ ∃ i, entity_at heap s i = Some e.
Proof.
  setoid_rewrite elem_of_entities. setoid_rewrite entity_at_Some. naive_solver.
Qed.

Lemma listed_name heap w s e :
  sn_name (listed heap w s e) = node_name e ∧ sn_tag (listed heap w s e) = node_tag e.
Proof. unfold listed, overlay_node. repeat case_match; done. Qed.

Lemma elem_of_serialized_nodes heap w s n :
  n ∈ serialized_nodes heap w s ↔ ∃ i e, entity_at heap s i = Some e ∧ n = listed heap w s e.
Proof.
  unfold serialized_nodes. rewrite elem_of_map. split.
  - intros ([h e] & -> & Hin). destruct (proj1 (entities_at heap s e)) as [i Hi]; eauto.
  - intros (i & e & Hi & ->). destruct (proj2 (entities_at heap s e)) as [h Hh]; [eauto|].
    by exists (h, e).
Qed.

(** Nodes of different keys: what the map holds is what the list has. *)
Lemma node_by_key_lookup nodes :
  (∀ n n', n ∈ nodes → n' ∈ nodes → (sn_name n, sn_tag n) = (sn_name n', sn_tag n') → n = n') →
  ∀ key n, node_by_key nodes !! key = Some n ↔ n ∈ nodes ∧ key = (sn_name n, sn_tag n).
Proof.
  unfold node_by_key. induction nodes as [|x nodes IH] using rev_ind; intros Huniq key n.
  { cbn. rewrite lookup_empty. set_solver. }
  rewrite fold_left_app. cbn [fold_left]. rewrite lookup_insert.
  assert (Huniq' : ∀ n n', n ∈ nodes → n' ∈ nodes →
    (sn_name n, sn_tag n) = (sn_name n', sn_tag n') → n = n')
    by (intros ????; apply Huniq; set_solver).
  specialize (IH Huniq').
  case_decide as E.
  - subst key. split; [intros [= <-]; set_solver|]. intros [Hin Hk]. f_equal. symmetry.
    apply Huniq; set_solver.
  - rewrite IH. split; [set_solver|]. intros [[Hin|Hx%list_elem_of_singleton]%elem_of_app Hk]; [done|].
    subst x. congruence.
Qed.

Lemma listed_unique heap w s :
  stack_wf heap s → ∀ n n', n ∈ serialized_nodes heap w s → n' ∈ serialized_nodes heap w s →
  (sn_name n, sn_tag n) = (sn_name n', sn_tag n') → n = n'.
Proof.
  intros Hwf n n' (i & e & He & ->)%elem_of_serialized_nodes (i' & e' & He' & ->)%elem_of_serialized_nodes.
  destruct (listed_name heap w s e) as [-> ->], (listed_name heap w s e') as [-> ->]. intros [= Hn Ht].
  assert (Hk : key_from_entity e = key_from_entity e').
  { unfold key_from_entity, node_name, node_tag in *. congruence. }
  assert (Hi : key_to_index s !! key_from_entity e = Some i) by (apply (wf_keys _ _ Hwf); eauto).
  assert (Hi' : key_to_index s !! key_from_entity e' = Some i') by (apply (wf_keys _ _ Hwf); eauto).
  congruence.
Qed.

Lemma elem_of_direct_edges heap w s edge :
  edge ∈ direct_edges heap w s ↔
  ∃ i j src dst, g_edge (graph s) i j ∧ entity_at heap s i = Some src ∧ entity_at heap s j = Some dst ∧
    edge = mkSerializedEdge (serialize_node_entity w src (key_name (root_key s)))
             (serialize_node_entity w dst (key_name (root_key s))) None.
Proof.
  unfold direct_edges. rewrite list_elem_of_omap. split.
  - intros (x & _ & Hx). destruct (g_edge_endpoints (graph s) x) as [[i j]|] eqn:Ex; [|done].
    cbn in Hx. destruct (entity_at heap s i) as [src|] eqn:Ei; [|done].
    cbn in Hx. destruct (entity_at heap s j) as [dst|] eqn:Ej; [|done].
    cbn in Hx. injection Hx as <-. exists i, j, src, dst. split; [by exists x|done].
  - intros (i & j & src & dst & [x Hx] & Hi & Hj & ->). exists x. rewrite Hx. cbn. rewrite Hi. cbn.
    rewrite Hj. split; [|done]. apply edge_indices_spec. eauto.
Qed.
End exact.

(** The edges of the serialized graph are exactly the dependencies of the
    stack: one without a contract for every node that names another of the
    stack as a dependency, and one for every node that depends on a contract
    another declares to implement, with that contract's label. Both ends of a
    contract edge are the nodes of the node list; those of a direct edge are
    the same entities without the live pairs of their slots. *)
Lemma serialized_edges_exact {G} `{StableGraphLaws G nat} `{TarjanLaws} (root_config : NodeConfig)
    (st : NodeStack G) (edge : SerializedEdge)
    (Hroot : dependency_keys root_config = [])
    (Hreach : stack_reachable root_config st) :
  let at_index := entity_at (st_heap st) (shared st) in
  let plain e := serialize_node_entity (st_world st) e (key_name (root_key (shared st))) in
  let listed := listed (st_heap st) (st_world st) (shared st) in
  edge ∈ sg_edges (to_serialized_graph (st_heap st) (st_world st) (shared st)) ↔
  ∃ i j src dst, at_index i = Some src ∧ at_index j = Some dst ∧
    ((key_from_entity dst ∈ dependency_keys (e_config src) ∧
      edge = mkSerializedEdge (plain src) (plain dst) None) ∨
     ∃ d dep item,
       depends_on (manifest (e_config src)) = Some d ∧ dep ∈ contracts d ∧
       item ∈ implements (manifest (e_config dst)) ∧
       ie_name item = cd_name dep ∧ ie_tag item = cd_tag dep ∧
       edge = mkSerializedEdge (listed src) (listed dst) (Some (name_tag (cd_name dep) (cd_tag dep)))).
Proof.
  destruct (stack_reachable_inv _ _ Hroot Hreach) as [Hwf _ _ _]. cbn zeta.
  set (heap := st_heap st) in *. set (s := shared st) in *. set (w := st_world st).
  pose proof (node_by_key_lookup _ (listed_unique heap w s Hwf)) as Hby.
  assert (Hlisted : ∀ i e, entity_at heap s i = Some e →
    node_by_key (serialized_nodes heap w s) !! (m_name (manifest (e_config e)), m_tag (manifest (e_config e)))
    = Some (listed heap w s e)).
  { intros i e He. apply Hby. destruct (listed_name heap w s e) as [-> ->]. split; [|done].
    apply elem_of_serialized_nodes. eauto. }
  assert (Hconfig : ∀ c, c ∈ map (λ '(_, e), e_config e) (entities heap s) ↔
    ∃ i e, entity_at heap s i = Some e ∧ e_config e = c).
  { intros c. rewrite elem_of_map. split.
    - intros ([h e] & -> & Hin). destruct (proj1 (entities_at heap s e)) as [i Hi]; eauto.
    - intros (i & e & He & <-). destruct (proj2 (entities_at heap s e)) as [h Hh]; [eauto|].
      by exists (h, e). }
  cbn [to_serialized_graph sg_edges]. rewrite elem_of_app, elem_of_direct_edges, list_elem_of_omap.
  setoid_rewrite contract_edges_exact. split.
  - intros [(i & j & src & dst & Hij & Hi & Hj & ->)|
      (ce & (consumer & provider & d & dep & item & Hc & Hp & Hd & Hdep & Hitem & Hn & Ht & ->) & Hce)].
    + exists i, j, src, dst. do 2 (split; [done|]). left. split; [|done]. by apply (wf_edges _ _ Hwf i j).
    + apply Hconfig in Hc as (i & src & Hi & <-), Hp as (j & dst & Hj & <-).
      exists i, j, src, dst. do 2 (split; [done|]). right. exists d, dep, item.
      do 5 (split; [done|]). unfold contract_edge in Hce. cbn in Hce.
      rewrite (Hlisted i src Hi) in Hce. cbn in Hce. rewrite (Hlisted j dst Hj) in Hce. cbn in Hce. congruence.
  - intros (i & j & src & dst & Hi & Hj & [[Hk ->]|(d & dep & item & Hd & Hdep & Hitem & Hn & Ht & ->)]).
    + left. exists i, j, src, dst. split; [|done]. by apply (wf_edges _ _ Hwf i j src dst).
    + right. eexists. split.
      { exists (e_config src), (e_config dst), d, dep, item. rewrite !Hconfig.
        split_and!; eauto. }
      unfold contract_edge. cbn. rewrite (Hlisted i src Hi). cbn. by rewrite (Hlisted j dst Hj).
Qed.

Lemma serialized_edges_exact_witness :
  mkSerializedEdge
    (serialize_node_entity (st_world example_two) example_viewer_entity "core")
    (serialize_node_entity (st_world example_two) example_camera_entity "core") None
  ∈ sg_edges (to_serialized_graph (st_heap example_two) (st_world example_two) (shared example_two)).
Proof.
  apply (serialized_edges_exact example_root_config example_two _ eq_refl example_two_reachable).
  exists 2, 1, example_viewer_entity, example_camera_entity.
  split; [vm_compute; reflexivity|]. split; [vm_compute; reflexivity|]. left.
  split; [apply (bool_decide_unpack _); vm_compute; exact I|]. reflexivity.
Defined.
