(* ===== verification/Deptree.v ===== *)
(** * The transient dependency tree

    [node-stack-internal/src/virtual_deptree.rs]: the order in which
    [peppy node sync -a] syncs the nodes it found on disk. The graph is built
    once and only grows, so its indices are the positions of the nodes; the
    order comes from [petgraph]'s [toposort], a class here. *)

From stdpp Require Import sorting.
From S2P Require Import Prelude Names RestartPolicy Config Validation Graphs Cycle PairingRegistry Supervision Instance Entity.
#[local] Open Scope peppy_scope.

Record VirtualNodeInfo : Type := mkVirtualNodeInfo {
  root_dir : string;
  vn_config : NodeConfig;
}.

Definition vn_key (info : VirtualNodeInfo) : string * string :=
  (m_name (manifest (vn_config info)), m_tag (manifest (vn_config info))).

Record VirtualDeptree : Type := mkVirtualDeptree {
  vd_infos : list VirtualNodeInfo;
  vd_order : list nat;
}.

(** ** Building *)

(** The first pass: every node registered, or the second of a key refused. *)
Fixpoint register_nodes (inputs : list (string * NodeConfig)) (by_key : gmap (string * string) nat)
    (infos : list VirtualNodeInfo) :
    result Error (gmap (string * string) nat * list VirtualNodeInfo) :=
  match inputs with
  | [] => Ok (by_key, infos)
  | (dir, config) :: inputs =>
      let info := mkVirtualNodeInfo dir config in
      match by_key !! vn_key info with
      | Some first =>
          Err (DuplicateLocalNode (vn_key info).1 (vn_key info).2
                 (match infos !! first with Some i => root_dir i | None => "" end) dir)
      | None =>
          register_nodes inputs (<[vn_key info := length infos]> by_key) (infos ++ [info])
      end
  end.

(** The second pass: an edge from each dependency in the set to its
    dependant. *)
Definition dependency_edges (by_key : gmap (string * string) nat) (infos : list VirtualNodeInfo) :
    list (nat * nat) :=
  flat_map
    (λ '(idx, info),
       match depends_on (manifest (vn_config info)) with
       | None => []
       | Some d =>
           omap (λ dep, dep_idx ← by_key !! (nd_name dep, nd_tag dep); Some (dep_idx, idx)) (nodes d)
       end)
    (enumerate infos).

Definition vn_check (info : VirtualNodeInfo) : CycleCheckNode :=
  mkCycleCheckNode (vn_key info).1 (vn_key info).2 (vn_config info).

(** [(a.name, a.tag) <= (b.name, b.tag)]. *)
Definition check_le (a b : CycleCheckNode) : Prop :=
  pair_lt (cc_name b, cc_tag b) (cc_name a, cc_tag a) = false.

#[export] Instance check_le_dec : RelDecision check_le.
Proof. intros a b. unfold check_le. apply _. Defined.

Definition deptree_build `{Toposort} `{Tarjan} (inputs : list (string * NodeConfig)) :
    result Error VirtualDeptree :=
  match register_nodes inputs ∅ [] with
  | Err e => Err e
  | Ok (by_key, infos) =>
      match toposort (length infos) (dependency_edges by_key infos) with
      | Err i =>
          Err (VirtualDeptreeCycle
                 [match infos !! i with
                  | Some info => name_tag (vn_key info).1 (vn_key info).2
                  | None => ""
                  end])
      | Ok order =>
          match find_service_action_cycle (merge_sort check_le (map vn_check infos)) with
          | Some cycle =>
              Err (ServiceActionContractCycle (cycle_nodes cycle) (closing_dependency cycle)
                     (InterfaceKind_to_string (cycle_kind cycle)))
          | None => Ok (mkVirtualDeptree infos order)
          end
      end
  end.

(** [self.infos[idx]] panics on an index that is not there; none is missing
    (see [deptree_orders_dependencies]). *)
Definition topological_order (t : VirtualDeptree) : list VirtualNodeInfo :=
  omap (λ idx, vd_infos t !! idx) (vd_order t).

(** ** Dependencies within the set *)

Definition infos_of (inputs : list (string * NodeConfig)) : list VirtualNodeInfo :=
  map (λ '(dir, config), mkVirtualNodeInfo dir config) inputs.

(** The second node declares a dependency on the first. *)
Definition depended_on (a b : VirtualNodeInfo) : Prop :=
  ∃ d dep, depends_on (manifest (vn_config b)) = Some d ∧ dep ∈ nodes d ∧
    vn_key a = (nd_name dep, nd_tag dep).

(** The same among the nodes of a set. *)
Definition dependency_in (infos : list VirtualNodeInfo) (a b : VirtualNodeInfo) : Prop :=
  a ∈ infos ∧ b ∈ infos ∧ depended_on a b.

(** What registering has found so far. *)
Definition registered (by_key : gmap (string * string) nat) (infos : list VirtualNodeInfo) : Prop :=
  ∀ key i, by_key !! key = Some i ↔ ∃ info, infos !! i = Some info ∧ vn_key info = key.

Lemma registered_NoDup by_key infos : registered by_key infos → NoDup (map vn_key infos).
Proof.
  intros Hr. apply NoDup_alt. intros i j key. change (map vn_key infos) with (vn_key <$> infos).
  rewrite !list_lookup_fmap, !fmap_Some.
  intros (x & Hi & Hk) (y & Hj & Hk').
  assert (by_key !! key = Some i) by (apply Hr; eauto).
  assert (by_key !! key = Some j) by (apply Hr; eauto). congruence.
Qed.

Lemma registered_snoc by_key infos info :
  registered by_key infos → by_key !! vn_key info = None →
  registered (<[vn_key info := length infos]> by_key) (infos ++ [info]).
Proof.
  intros Hr Hno key i. rewrite lookup_insert. case_decide as E.
  - subst key. split.
    + intros [= <-]. exists info. by rewrite lookup_app_r, Nat.sub_diag by done.
    + intros (x & Hx & Hk). f_equal. apply lookup_app_Some in Hx as [Hx|[? Hx]].
      * assert (by_key !! vn_key info = Some i) by (apply Hr; eauto). congruence.
      * apply list_lookup_singleton_Some in Hx as [? _]. lia.
  - rewrite (Hr key i). split.
    + intros (x & Hx & Hk). exists x. split; [|done]. by apply lookup_app_l_Some.
    + intros (x & Hx & Hk). apply lookup_app_Some in Hx as [Hx|[? Hx]]; [eauto|].
      apply list_lookup_singleton_Some in Hx as [_ <-]. congruence.
Qed.

(** The first pass succeeds exactly on distinct keys, with the nodes in
    order. *)
Lemma register_nodes_spec inputs by_key infos :
  registered by_key infos →
  match register_nodes inputs by_key infos with
  | Ok (m, l) => registered m l ∧ l = infos ++ infos_of inputs
  | Err _ => ¬ NoDup (map vn_key (infos ++ infos_of inputs))
  end.
Proof.
  revert by_key infos. induction inputs as [|[dir config] inputs IH]; intros by_key infos Hr; cbn.
  { by rewrite app_nil_r. }
  set (info := mkVirtualNodeInfo dir config). fold (vn_key info).
  destruct (by_key !! vn_key info) as [first|] eqn:E.
  - apply Hr in E as (x & Hx & Hk). rewrite map_app. cbn. intros (_ & Hnd & _)%NoDup_app.
    apply (Hnd (vn_key info)); [|left]. apply elem_of_map. exists x. split; [done|].
    by eapply list_elem_of_lookup_2.
  - specialize (IH _ _ (registered_snoc _ _ _ Hr E)). by rewrite <-app_assoc in IH.
Qed.

Section edges.
Context (by_key : gmap (string * string) nat) (infos : list VirtualNodeInfo).
Context (Hr : registered by_key infos).

Lemma dependency_edges_spec i j :
  (i, j) ∈ dependency_edges by_key infos ↔
  ∃ a b, infos !! i = Some a ∧ infos !! j = Some b ∧ depended_on a b.
Proof.
  unfold dependency_edges. rewrite elem_of_flat_map. split.
  - intros ([idx b] & Hb%elem_of_enumerate & Hin).
    destruct (depends_on (manifest (vn_config b))) as [d|] eqn:Ed; [|by apply elem_of_nil in Hin].
    apply list_elem_of_omap in Hin as (dep & Hdep & Hi).
    destruct (by_key !! (nd_name dep, nd_tag dep)) as [k|] eqn:Ek; [|done]. cbn in Hi. simplify_eq.
    apply Hr in Ek as (a & Ha & Hk). exists a, b. split; [done|]. split; [done|]. by exists d, dep.
  - intros (a & b & Ha & Hb & d & dep & Hd & Hdep & Hk). exists (j, b).
    rewrite elem_of_enumerate. split; [done|]. rewrite Hd. apply list_elem_of_omap. exists dep.
    split; [done|]. by rewrite (proj2 (Hr _ i)) by eauto.
Qed.

Lemma dependency_edges_within : edges_within (length infos) (dependency_edges by_key infos).
Proof.
  intros i j (a & b & ?%lookup_lt_Some & ?%lookup_lt_Some & _)%dependency_edges_spec. done.
Qed.

(** A path of edges is a path of dependencies. *)
Lemma edges_dependencies i j :
  tc (edge_in (dependency_edges by_key infos)) i j →
  ∃ a b, infos !! i = Some a ∧ infos !! j = Some b ∧ tc (dependency_in infos) a b.
Proof.
  assert (Hone : ∀ i j, edge_in (dependency_edges by_key infos) i j →
    ∃ a b, infos !! i = Some a ∧ infos !! j = Some b ∧ dependency_in infos a b).
  { intros x y (a & b & Ha & Hb & ?)%dependency_edges_spec. exists a, b. do 2 (split; [done|]).
    split_and!; by try eapply list_elem_of_lookup_2. }
  induction 1 as [x y Hxy|x y z Hxy _ (b & c & Hb & Hc & Hbc)].
  - destruct (Hone _ _ Hxy) as (a & b & ? & ? & ?). exists a, b. by eauto using tc_once.
  - destruct (Hone _ _ Hxy) as (a & b' & Ha & Hb' & Hab). simplify_eq. exists a, c.
    by eauto using tc_l.
Qed.

(** An order of the indices orders the nodes. *)
Lemma order_infos order :
  order ≡ₚ seq 0 (length infos) →
  (∀ i j, (i, j) ∈ dependency_edges by_key infos → before order i j) →
  let sorted := topological_order (mkVirtualDeptree infos order) in
  sorted ≡ₚ infos ∧
  ∀ l1 b l2, sorted = l1 ++ b :: l2 → ∀ a, a ∈ infos → depended_on a b → a ∈ l1.
Proof.
  intros Hperm Hbefore. unfold topological_order. cbn [vd_infos vd_order].
  assert (Hseq : omap (λ i, infos !! i) (seq 0 (length infos)) = infos).
  { clear. induction infos as [|x l IH] using rev_ind; [done|].
    rewrite length_app, seq_app. cbn. rewrite omap_app. cbn.
    rewrite lookup_app_r, Nat.sub_diag by done. cbn. f_equal. rewrite <-IH at 2.
    apply list_omap_ext. apply Forall_Forall2_diag, Forall_forall. intros i Hi%elem_of_seq.
    apply lookup_app_l. lia. }
  split; [by rewrite Hperm, Hseq|].
  assert (Hnd : NoDup order) by (rewrite Hperm; apply NoDup_seq).
  intros l1 b l2 (o1 & j & o2 & Ho & <- & Hj)%omap_split a Hin Hdep.
  apply list_elem_of_lookup in Hin as [i Hi].
  destruct (Hbefore i j) as (p1 & p2 & p3 & Hp); [apply dependency_edges_spec; eauto|].
  assert (Hp' : order = (p1 ++ i :: p2) ++ j :: p3) by (by rewrite Hp, <-app_assoc).
  rewrite Hp' in Ho, Hnd. apply NoDup_middle_unique in Ho as [<- _]; [|done].
  apply list_elem_of_omap. exists i. split; [set_solver|done].
Qed.
End edges.

Section trees.
Context `{ToposortLaws} `{TarjanLaws}.

(** What each outcome of the build says. *)
Lemma deptree_build_cases inputs :
  let infos := infos_of inputs in
  (¬ NoDup (map vn_key infos) ∧ ∃ e, deptree_build inputs = Err e) ∨
  (∃ by_key, registered by_key infos ∧ register_nodes inputs ∅ [] = Ok (by_key, infos)).
Proof.
  cbn zeta. assert (H0' : registered ∅ []).
  { intros key i. rewrite lookup_empty, lookup_nil. naive_solver. }
  pose proof (register_nodes_spec inputs ∅ [] H0') as Hs. unfold deptree_build.
  destruct (register_nodes inputs ∅ []) as [[by_key infos]|e] eqn:E.
  - destruct Hs as [Hr ->]. right. by exists by_key.
  - left. eauto.
Qed.

Lemma checks_distinct by_key infos :
  registered by_key infos → distinct_identities (merge_sort check_le (map vn_check infos)).
Proof.
  intros Hr. unfold distinct_identities. rewrite merge_sort_Permutation, map_map.
  by apply (registered_NoDup by_key).
Qed.

(** The service check, on the nodes in whatever order. *)
Lemma checks_acyclic by_key infos :
  registered by_key infos →
  find_service_action_cycle (merge_sort check_le (map vn_check infos)) = None ↔
  ∀ n, ¬ tc (member_calls (map vn_check infos)) n n.
Proof.
  intros Hr. rewrite find_service_action_cycle_None by (by eapply checks_distinct).
  rewrite acyclic_members. split; intros Ha n Hn; apply (Ha n); (eapply member_calls_ext; [|exact Hn]);
    intros x; by rewrite merge_sort_Permutation.
Qed.

(** Nodes that stand after their dependencies form no cycle. *)
Lemma ordered_acyclic infos sorted :
  NoDup sorted → sorted ≡ₚ infos →
  (∀ l1 b l2, sorted = l1 ++ b :: l2 → ∀ a, a ∈ infos → depended_on a b → a ∈ l1) →
  ∀ a, ¬ tc (dependency_in infos) a a.
Proof.
  intros Hnd Hperm Hord.
  assert (Hstep : ∀ a b, tc (dependency_in infos) a b →
    ∃ i j, sorted !! i = Some a ∧ sorted !! j = Some b ∧ i < j).
  { assert (Hone : ∀ a b, dependency_in infos a b →
      ∃ i j, sorted !! i = Some a ∧ sorted !! j = Some b ∧ i < j).
    { intros a b (Ha & Hb & Hab). rewrite <-Hperm in Hb.
      apply list_elem_of_split in Hb as (l1 & l2 & Hs). pose proof (Hord _ _ _ Hs a Ha Hab) as Hin.
      apply list_elem_of_lookup in Hin as [i Hi]. exists i, (length l1). rewrite Hs.
      split; [by apply lookup_app_l_Some|]. split; [|by eapply lookup_lt_Some].
      by rewrite lookup_app_r, Nat.sub_diag. }
    induction 1 as [a b Hab|a b c Hab _ (i & j & Hi & Hj & Hij)]; [eauto|].
    destruct (Hone _ _ Hab) as (k & l & Hk & Hl & Hkl). exists k, j. split; [done|]. split; [done|].
    assert (l = i) by (by eapply NoDup_lookup). lia. }
  intros a (i & j & Hi & Hj & Hij)%Hstep. assert (i = j) by (by eapply NoDup_lookup). lia.
Qed.

Lemma registered_infos_NoDup by_key infos : registered by_key infos → NoDup infos.
Proof. intros Hr%registered_NoDup. by apply NoDup_fmap_1 in Hr. Qed.
End trees.

(** A tree that was built gives back every input node once, and each after
    all its dependencies of the input set. *)
Lemma deptree_orders_dependencies `{ToposortLaws} `{TarjanLaws}
    (inputs : list (string * NodeConfig)) (t : VirtualDeptree)
    (Hbuild : deptree_build inputs = Ok t) :
  topological_order t ≡ₚ infos_of inputs ∧
  ∀ l1 b l2, topological_order t = l1 ++ b :: l2 →
    ∀ a, a ∈ infos_of inputs → depended_on a b → a ∈ l1.
Proof.
  destruct (deptree_build_cases inputs) as [(_ & e & He)|(by_key & Hr & Hreg)]; [congruence|].
  unfold deptree_build in Hbuild. rewrite Hreg in Hbuild.
  destruct (toposort _ _) as [order|] eqn:Et; [|done].
  apply toposort_order in Et as [Hperm Hbefore]; [|by apply dependency_edges_within].
  destruct (find_service_action_cycle _); [done|]. injection Hbuild as <-.
  by apply (order_infos by_key).
Qed.

(** A build succeeds exactly on a set of nodes with distinct identities, no
    cycle of node dependencies among them, and no cycle of service and action
    calls. *)
Lemma deptree_builds_exactly `{ToposortLaws} `{TarjanLaws} (inputs : list (string * NodeConfig)) :
  let infos := infos_of inputs in
  (∃ t, deptree_build inputs = Ok t) ↔
  NoDup (map vn_key infos) ∧ (∀ a, ¬ tc (dependency_in infos) a a) ∧
  ∀ n, ¬ tc (member_calls (map vn_check infos)) n n.
Proof.
  cbn zeta. destruct (deptree_build_cases inputs) as [(Hdup & e & He)|(by_key & Hr & Hreg)].
  { split; [intros [t Ht]; congruence|]. by intros [? _]. }
  unfold deptree_build. rewrite Hreg. rewrite <-(checks_acyclic by_key) by done.
  pose proof (registered_NoDup _ _ Hr) as Hnd.
  pose proof (dependency_edges_within _ _ Hr) as Hwithin.
  destruct (toposort _ _) as [order|i] eqn:Et.
  - apply toposort_order in Et as [Hperm Hbefore]; [|done].
    destruct (order_infos by_key _ Hr order Hperm Hbefore) as [Hsorted Hord].
    assert (Hac : ∀ a, ¬ tc (dependency_in (infos_of inputs)) a a).
    { eapply ordered_acyclic; [|exact Hsorted|exact Hord]. rewrite Hsorted.
      by eapply registered_infos_NoDup. }
    destruct (find_service_action_cycle _); [|naive_solver]. split; [by intros [? ?]|naive_solver].
  - apply toposort_cycle in Et as [_ Hc]; [|done]. split; [by intros [? ?]|].
    intros (_ & Hac & _). apply (edges_dependencies _ _ Hr) in Hc as (a & b & Ha & Hb & Hab).
    simplify_eq. by apply Hac in Hab.
Qed.

(** ** A tree *)

Definition example_node (name : string) (deps : list string) : string * NodeConfig :=
  (name, mkNodeConfig
           (mkManifest name "v1" [] None []
              (Some (mkDependsOn (map (λ d, mkNodeDependency d "v1" d One) deps) [] [] [] [])))
           Interfaces_default (mkExecution Rust None None None [] None false) (mkNodeFramework None)).

Definition example_inputs : list (string * NodeConfig) :=
  [example_node "viewer" ["camera"; "elsewhere"]; example_node "camera" []].

Lemma deptree_orders_dependencies_witness :
  ∃ t, deptree_build example_inputs = Ok t ∧ topological_order t ≡ₚ infos_of example_inputs.
Proof.
  destruct (deptree_build example_inputs) as [t|] eqn:E; [|vm_compute in E; discriminate E].
  exists t. split; [reflexivity|]. apply (deptree_orders_dependencies example_inputs t E).
Defined.

(** Two nodes that depend on each other are refused. *)
Lemma deptree_builds_exactly_witness :
  (∀ a, ¬ tc (dependency_in (infos_of example_inputs)) a a) ∧
  ¬ ∃ t, deptree_build [example_node "a" ["b"]; example_node "b" ["a"]] = Ok t.
Proof.
  split.
  - apply (deptree_builds_exactly example_inputs).
    destruct (deptree_build example_inputs) as [t|] eqn:E; [|vm_compute in E; discriminate E].
    exists t. reflexivity.
  - rewrite (deptree_builds_exactly [example_node "a" ["b"]; example_node "b" ["a"]]).
    intros (_ & Hac & _).
    set (a := mkVirtualNodeInfo "a" (example_node "a" ["b"]).2).
    set (b := mkVirtualNodeInfo "b" (example_node "b" ["a"]).2).
    apply (Hac a). apply (tc_l _ a b a); [|apply tc_once];
      (split; [set_solver|]; split; [set_solver|]; do 2 eexists; split; [reflexivity|];
       split; [left|reflexivity]).
Defined.
