(* ===== verification/LaunchTypes.v ===== *)
(** * The links of a deployment

    The parts of [daemon-config-internal/src/launcher/types.rs] the link
    planner reads: link values and their shapes, the grammar of a target,
    vacancies, placements, and the copies of [launcher/compose/copy.rs]; with
    the errors of [daemon-config-internal/src/error.rs] the planner reports.

    A [BTreeMap] is a [gmap]; where the code iterates it, [btree_iter] gives
    the entries in key order. *)

From stdpp Require Import sorting.
From S2P Require Import Prelude Names Config.
#[local] Open Scope peppy_scope.

(** ** Ordered maps *)

Definition key_le {A} (p q : string * A) : Prop := String.le p.1 q.1.

#[export] Instance key_le_dec {A} : RelDecision (@key_le A).
Proof. intros p q. unfold key_le. apply _. Defined.

Definition btree_iter {A} (m : gmap string A) : list (string * A) :=
  merge_sort key_le (map_to_list m).

Lemma btree_iter_perm {A} (m : gmap string A) : btree_iter m ≡ₚ map_to_list m.
Proof. apply merge_sort_Permutation. Qed.

Lemma elem_of_btree_iter {A} (m : gmap string A) k x : (k, x) ∈ btree_iter m ↔ m !! k = Some x.
Proof. by rewrite btree_iter_perm, elem_of_map_to_list. Qed.

Lemma btree_iter_NoDup {A} (m : gmap string A) : NoDup (map fst (btree_iter m)).
Proof. rewrite btree_iter_perm. apply (NoDup_fst_map_to_list m). Qed.

(** ** Errors

    Of [ParsingError], the variants of the link validators. *)

Module Parsing.

Inductive SlotKind : Type := Node | Contract.

Inductive VacancyRefusal : Type :=
| ManifestRequires (declare_emptiable : string)
| SpelledDifferently (empty_spelling : string)
| NoEmptyState (requirement : string).

Inductive ParsingError : Type :=
| UnknownInstanceId (owner_instance_id link instance_id : string)
| DuplicateInstanceIdAcrossStack (instance_id name_a tag_a name_b tag_b : string)
| BindingArrayOnScalarSlot (owner_instance_id binding : string) (cardinality : Cardinality)
| BindingScalarOnMultiSlot (owner_instance_id binding : string) (cardinality : Cardinality)
| BindingCardinalityUnmet (owner_instance_id binding : string)
| BindingSingleSlotMultipleTargets (owner_instance_id binding : string)
    (cardinality : Cardinality) (target_count : nat)
| BindingTargetMismatch (owner_instance_id binding target_instance_id
    expected_name expected_tag actual_name actual_tag : string)
| BindingContractNotImplemented (owner_instance_id binding target_instance_id
    contract_name contract_tag producer_name producer_tag : string)
| BindingSlotUnfulfilled (owner_instance_id link_id : string) (slot_kind : SlotKind)
    (slot_name slot_tag : string) (cardinality : Cardinality)
| BindingMemberOutsideCopy (instance_id owner_instance_id link_id : string)
| BindingCopyFillsSlotTwice (copy owner_instance_id link_id : string) (members : list string)
| LinkTargetNotScalar (owner_instance_id link : string)
| PairingScalarOnMultiSlot (owner_instance_id link : string) (cardinality : Cardinality)
| PairingCardinalityUnmet (owner_instance_id link : string)
| PairingSlotAlreadyPaired (instance_id link_id existing_peer : string)
| PairAlreadyHeld (instance_id link_id peer : string)
| PairingTargetNotComplementary (owner_instance_id key target_instance_id producer_name
    producer_tag pairing_name pairing_tag role : string)
| PairingTargetAmbiguous (owner_instance_id key target_instance_id pairing_name pairing_tag
    candidate_link_ids : string)
| PairingConflict (instance_a link_a target_a instance_b link_b target_b : string)
| PairingSha256Mismatch (instance_a sha_a instance_b sha_b pairing_name pairing_tag : string)
| PairingSlotUncovered (instance_id link_id pairing_name pairing_tag role : string)
    (cardinality : Cardinality)
| ObservationArrayOnScalarSlot (owner_instance_id link : string) (cardinality : Cardinality)
| ObservationScalarOnMultiSlot (owner_instance_id link : string) (cardinality : Cardinality)
| ObservationCardinalityUnmet (owner_instance_id link : string)
| ObservationSingleSlotMultipleTargets (owner_instance_id link : string)
    (cardinality : Cardinality) (target_count : nat)
| ObservationTargetNotObservable (owner_instance_id key source_instance_id source_name source_tag
    pairing_name pairing_tag observed_role : string)
| ObservationTargetAmbiguous (owner_instance_id key source_instance_id pairing_name pairing_tag
    candidate_role candidate_link_ids : string)
| ObservationTargetUnpaired (owner_instance_id key target_instance_id target_link_id target_role
    pairing_name pairing_tag observed_role : string)
| ObservationTargetHoldsSeveralPairs (owner_instance_id key target_instance_id target_link_id :
    string) (pair_count : nat) (peers : string)
| DuplicateObservationTarget (owner_instance_id link source_instance_id source_link_id : string)
| ObservationSlotUncovered (instance_id link_id pairing_name pairing_tag observed_role : string)
    (cardinality : Cardinality)
| LinkToDaemonTarget (owner_instance_id link : string)
| LinkUnknownSlot (owner_instance_id link declared_link_ids : string)
| LinkVacantInvalid (owner_instance_id link_id slot_kind : string) (refusal : VacancyRefusal)
| ClockMismatch (a a_clock b b_clock via : string)
| ClockDomainReserved (domains : string)
| ClockPublisherWithoutDeployments (domain publisher : string)
| ClockPublisherUnknown (domain publisher instances : string)
| ClockPublisherOfSeveral (instance domains : string)
| ClockPublisherBound (instance domain bound : string)
| ClockDomainUnknown (instance clock declared : string).

End Parsing.

(** ** Targets *)

(** [LinkTargets]: the list [LinkTargets::new] let through. *)
Definition LinkTargets_new (targets : list string) : result string (list string) :=
  match first_duplicate targets with
  | Some target => Err target
  | None => Ok targets
  end.

Inductive Selection : Type :=
| Scalar (target : string)
| Array (targets : list string)
| Flags (targets : list string).

(** A vacancy's reason, trimmed and not empty. *)
Definition VacantReason_new (reason : string) : option string :=
  let trimmed := trim reason in
  if bool_decide (trimmed = "") then None else Some trimmed.

Inductive LinkValue : Type := Bound (selection : Selection) | Vacant (reason : string).

Definition value_selection (v : LinkValue) : option Selection :=
  match v with Bound s => Some s | Vacant _ => None end.

Definition value_vacancy (v : LinkValue) : option string :=
  match v with Vacant r => Some r | Bound _ => None end.

Definition selection_targets (s : Selection) : list string :=
  match s with Scalar target => [target] | Array targets | Flags targets => targets end.

Definition as_scalar (s : Selection) : option string :=
  match s with Scalar target => Some target | Flags [target] => Some target | _ => None end.

Inductive CardinalityShapeViolation : Type :=
| ArrayOnScalarSlot (cardinality : Cardinality)
| ScalarOnMultiSlot (cardinality : Cardinality)
| Unmet
| SingleSlotMultipleTargets (cardinality : Cardinality) (target_count : nat).

Definition check_cardinality_shape (cardinality : Cardinality) (selection : Selection) :
    result CardinalityShapeViolation unit :=
  match cardinality, selection with
  | (One | ZeroOrOne), Scalar _ => Ok tt
  | (One | ZeroOrOne), Array _ => Err (ArrayOnScalarSlot cardinality)
  | (One | ZeroOrOne), Flags targets =>
      if (length targets =? 1)%nat then Ok tt
      else Err (SingleSlotMultipleTargets cardinality (length targets))
  | (OneOrMore | ZeroOrMore), Scalar _ => Err (ScalarOnMultiSlot cardinality)
  | OneOrMore, (Array [] | Flags []) => Err Unmet
  | (OneOrMore | ZeroOrMore), (Array _ | Flags _) => Ok tt
  end.

(** [str::split_once('/')]. *)
Fixpoint split_once_slash (s : string) : option (string * string) :=
  match s with
  | EmptyString => None
  | String c s' =>
      if (byte_val c =? 47)%Z then Some ("", s')
      else '(a, b) ← split_once_slash s'; Some (String c a, b)
  end.

Definition split_link_target (value : string) : string * option string :=
  match split_once_slash value with
  | Some (instance, link) => (instance, Some link)
  | None => (value, None)
  end.

Definition contains_slash (s : string) : bool := opt_is_some (split_once_slash s).

Definition split_well_formed_link_target (target : string) : option (string * option string) :=
  let '(instance, link) := split_link_target target in
  if bool_decide (instance = "") then None
  else if match link with
          | Some link => bool_decide (link = "") || contains_slash link
          | None => false
          end
  then None
  else Some (instance, link).

(** ** Instances, placements and copies *)

(** The fields of a deployment instance the planner reads. *)
Record DeploymentInstance : Type := mkDeploymentInstance {
  di_instance_id : string;
  di_clock : option string;
  di_links : gmap string LinkValue;
  di_core_node : option string;
}.

Definition DeploymentInstance_empty (instance_id : string) : DeploymentInstance :=
  mkDeploymentInstance instance_id None ∅ None.

Definition participant_vacancies (links : gmap string LinkValue) (participants : gset string) :
    gmap string string :=
  omap value_vacancy (filter (λ p, p.1 ∈ participants) links).

Record Placements : Type := mkPlacements {
  pl_coordinator : string;
  pl_by_instance : gmap string string;
}.

Definition Placements_all_on (core_node : string) : Placements := mkPlacements core_node ∅.

Definition core_node_of (p : Placements) (instance_id : string) : string :=
  default (pl_coordinator p) (pl_by_instance p !! instance_id).

Definition is_federated (p : Placements) : bool :=
  existsb (λ '(_, core_node), negb (bool_decide (core_node = pl_coordinator p)))
    (map_to_list (pl_by_instance p)).

Record CopyRecord : Type := mkCopyRecord {
  cr_name : string;
  cr_instances : list (string * string);
}.

(** [CopyMembership], the copy of each instance with its id inside it. *)
Definition CopyMembership : Type := gmap string CopyTag.

Definition CopyMembership_of (copies : list CopyRecord) : CopyMembership :=
  fold_left
    (λ m copy,
       fold_left (λ m '(instance_id, in_copy), <[instance_id := mkCopyTag (cr_name copy) in_copy]> m)
         (cr_instances copy) m)
    copies ∅.

Definition tag_of (m : CopyMembership) (instance_id : string) : option CopyTag := m !! instance_id.

(** ** What a shape lets through *)

(** A selection as the launch parser and the flags build it: no target twice,
    and flags that occur. *)
Definition wf_selection (s : Selection) : Prop :=
  NoDup (selection_targets s) ∧ match s with Flags targets => targets ≠ [] | _ => True end.

Lemma check_cardinality_shape_admits c s :
  check_cardinality_shape c s = Ok tt → admits c (length (selection_targets s)) = true.
Proof.
  destruct c, s as [t|[|? ?]|[|? [|? ?]]]; cbn; try done.
Qed.

Lemma LinkTargets_new_ok targets l : LinkTargets_new targets = Ok l ↔ l = targets ∧ NoDup targets.
Proof.
  unfold LinkTargets_new. rewrite <-first_duplicate_None.
  destruct (first_duplicate targets); naive_solver.
Qed.
