(* ===== verification/Bindings.v ===== *)
(** * Producer bindings

    [daemon-config-internal/src/launcher/bindings.rs]: the producers each
    consumer instance of a plan is bound to, and every rule a binding breaks. *)

From S2P Require Import Prelude Names RestartPolicy Config PairingRegistry Supervision LaunchTypes.
#[local] Open Scope peppy_scope.
Import Parsing.

Inductive MemberAddressing : Type :=
| WholeSet
| ByCopy (one_per_copy : gset string).

Record BindingValidationItem : Type := mkBindingValidationItem {
  bi_node_name : string;
  bi_node_tag : string;
  bi_instances : list DeploymentInstance;
  bi_depends_on : option DependsOn;
  bi_implements : list ImplementsEntry;
  bi_addressing : MemberAddressing;
}.

Record SlotMeta : Type := mkSlotMeta {
  sm_name : string;
  sm_tag : string;
  sm_kind : SlotKind;
  sm_cardinality : Cardinality;
}.

(** [SlotBindings]: the ordered producer set of each slot. *)
Notation Resolution := (gmap string BoundProducers).

Record ValidatedBindings : Type := mkValidatedBindings {
  vb_errors : list ParsingError;
  vb_slot_bindings : gmap string Resolution;
}.

Notation DeclaredSlots := (gmap string SlotMeta).

Definition collect_declared_slots (depends_on : option DependsOn) : DeclaredSlots :=
  match depends_on with
  | None => ∅
  | Some deps =>
      let slots :=
        fold_left
          (λ m dep, <[nd_link_id dep := mkSlotMeta (nd_name dep) (nd_tag dep) Node (nd_cardinality dep)]> m)
          (nodes deps) ∅ in
      fold_left
        (λ m dep, <[cd_link_id dep := mkSlotMeta (cd_name dep) (cd_tag dep) Contract (cd_cardinality dep)]> m)
        (contracts deps) slots
  end.

Definition slot_matches_producer (slot : SlotMeta) (producer : BindingValidationItem) : bool :=
  match sm_kind slot with
  | Node =>
      bool_decide (bi_node_name producer = sm_name slot) && bool_decide (bi_node_tag producer = sm_tag slot)
  | Contract =>
      existsb (λ item, bool_decide (ie_name item = sm_name slot) && bool_decide (ie_tag item = sm_tag slot))
        (bi_implements producer)
  end.

(** Every instance with the item that deploys it, in order. *)
Definition deployed (items : list BindingValidationItem) :
    list (DeploymentInstance * BindingValidationItem) :=
  flat_map (λ item, map (λ instance, (instance, item)) (bi_instances item)) items.

(** [entry(..).or_insert(..)]: the first item listing an id wins. *)
Definition build_instance_lookup (items : list BindingValidationItem) :
    gmap string BindingValidationItem :=
  fold_left
    (λ m '(instance, item),
       match m !! di_instance_id instance with
       | Some _ => m
       | None => <[di_instance_id instance := item]> m
       end)
    (deployed items) ∅.

Definition check_stack_wide_instance_id_uniqueness (items : list BindingValidationItem) :
    list ParsingError :=
  (fold_left
     (λ '(seen, errors) '(instance, item),
        let id := di_instance_id instance in
        match (seen : gmap string (string * string)) !! id with
        | Some (name_a, tag_a) =>
            (seen,
             errors ++ [DuplicateInstanceIdAcrossStack id name_a tag_a (bi_node_name item) (bi_node_tag item)])
        | None => (<[id := (bi_node_name item, bi_node_tag item)]> seen, errors)
        end)
     (deployed items) (∅, [])).2.

Record BindingContext : Type := mkBindingContext {
  instance_to_item : gmap string BindingValidationItem;
  bc_placements : Placements;
  bc_copies : CopyMembership;
}.

(** Rule 2. *)
Definition check_value_matches_cardinality (slot : SlotMeta) (selection : Selection)
    (binding_key : string) (instance : DeploymentInstance) : result ParsingError unit :=
  let owner := di_instance_id instance in
  match check_cardinality_shape (sm_cardinality slot) selection with
  | Ok _ => Ok tt
  | Err (ArrayOnScalarSlot c) => Err (BindingArrayOnScalarSlot owner binding_key c)
  | Err (ScalarOnMultiSlot c) => Err (BindingScalarOnMultiSlot owner binding_key c)
  | Err Unmet => Err (BindingCardinalityUnmet owner binding_key)
  | Err (SingleSlotMultipleTargets c n) =>
      Err (BindingSingleSlotMultipleTargets owner binding_key c n)
  end.

Definition target_conformance_error (slot : SlotMeta) (target_item : BindingValidationItem)
    (binding_key target_id : string) (instance : DeploymentInstance) : ParsingError :=
  match sm_kind slot with
  | Node =>
      BindingTargetMismatch (di_instance_id instance) binding_key target_id
        (sm_name slot) (sm_tag slot) (bi_node_name target_item) (bi_node_tag target_item)
  | Contract =>
      BindingContractNotImplemented (di_instance_id instance) binding_key target_id
        (sm_name slot) (sm_tag slot) (bi_node_name target_item) (bi_node_tag target_item)
  end.

(** One round of the loop of rule 3: the member of a target, or its offence. *)
Definition resolve_target (slot : SlotMeta) (binding_key : string) (instance : DeploymentInstance)
    (context : BindingContext) (target_id : string) : result ParsingError BoundMember :=
  match instance_to_item context !! target_id with
  | None => Err (UnknownInstanceId (di_instance_id instance) binding_key target_id)
  | Some target_item =>
      if negb (slot_matches_producer slot target_item)
      then Err (target_conformance_error slot target_item binding_key target_id instance)
      else
        Ok (mkBoundMember (mkProducerRef (core_node_of (bc_placements context) target_id) target_id)
              (tag_of (bc_copies context) target_id))
  end.

(** Rules 2 and 3 over one linked slot. [None] is the panic of its [expect]. *)
Definition resolve_linked_slot (slot : SlotMeta) (selection : Selection) (binding_key : string)
    (instance : DeploymentInstance) (context : BindingContext) :
    option (result (list ParsingError) BoundProducers) :=
  match check_value_matches_cardinality slot selection binding_key instance with
  | Err shape_error => Some (Err [shape_error])
  | Ok _ =>
      let results :=
        map (resolve_target slot binding_key instance context) (selection_targets selection) in
      match errs results with
      | [] =>
          match BoundProducers_try_from (oks results) with
          | Ok bound => Some (Ok bound)
          | Err _ => None
          end
      | offenders => Some (Err offenders)
      end
  end.

(** What a round of the loops below does to the slots resolved and to the
    violations. *)
Inductive Outcome : Type :=
| Skip
| Resolve (bound : BoundProducers)
| Refuse (errors : list ParsingError).

Definition apply_outcome (key : string) (o : Outcome) (acc : Resolution * list ParsingError) :
    Resolution * list ParsingError :=
  match o with
  | Skip => acc
  | Resolve bound => (<[key := bound]> acc.1, acc.2)
  | Refuse errors => (acc.1, acc.2 ++ errors)
  end.

(** Rules 2 and 3 over one link of an instance. *)
Definition link_outcome (declared_slots : DeclaredSlots) (instance : DeploymentInstance)
    (context : BindingContext) (binding_key : string) (value : LinkValue) : option Outcome :=
  match declared_slots !! binding_key with
  | None => Some Skip
  | Some slot =>
      match value_selection value with
      | None => Some (Resolve [])
      | Some selection =>
          r ← resolve_linked_slot slot selection binding_key instance context;
          Some match r with Ok bound => Resolve bound | Err slot_errors => Refuse slot_errors end
      end
  end.

(** Rule 5 over one declared slot. *)
Definition unlinked_outcome (instance : DeploymentInstance) (link_id : string) (slot : SlotMeta) :
    Outcome :=
  if opt_is_some (di_links instance !! link_id) then Skip
  else if allows_empty (sm_cardinality slot) then Resolve []
  else
    Refuse [BindingSlotUnfulfilled (di_instance_id instance) link_id (sm_kind slot)
              (sm_name slot) (sm_tag slot) (sm_cardinality slot)].

Definition resolve_links (declared_slots : DeclaredSlots) (instance : DeploymentInstance)
    (context : BindingContext) : option (Resolution * list ParsingError) :=
  fold_option
    (λ acc '(key, value),
       o ← link_outcome declared_slots instance context key value; Some (apply_outcome key o acc))
    (btree_iter (di_links instance)) (∅, []).

Definition resolve_unlinked_slots (instance : DeploymentInstance) (declared_slots : DeclaredSlots)
    (acc : Resolution * list ParsingError) : Resolution * list ParsingError :=
  fold_left (λ acc '(link_id, slot), apply_outcome link_id (unlinked_outcome instance link_id slot) acc)
    (btree_iter declared_slots) acc.

(** The ids each copy fills a slot with. *)
Definition group_by_copy (bound : BoundProducers) : gmap string (list string) :=
  fold_left
    (λ m member,
       match member_copy member with
       | Some copy =>
           <[copy_name copy := default [] (m !! copy_name copy) ++ [copy_instance_id copy]]> m
       | None => m
       end)
    bound ∅.

(** Rule 6 over one slot. *)
Definition check_slot_addressing (one_per_copy : gset string) (instance : DeploymentInstance)
    (slot : string) (bound : BoundProducers) : list ParsingError :=
  flat_map
    (λ member,
       match member_copy member with
       | Some _ => []
       | None =>
           [BindingMemberOutsideCopy (instance_id (producer member)) (di_instance_id instance) slot]
       end)
    bound
  ++ (if bool_decide (slot ∈ one_per_copy)
      then
        flat_map
          (λ '(copy, ids),
             if (1 <? length ids)%nat
             then [BindingCopyFillsSlotTwice copy (di_instance_id instance) slot ids] else [])
          (btree_iter (group_by_copy bound))
      else []).

Definition check_copy_addressing (one_per_copy : gset string) (instance : DeploymentInstance)
    (declared_slots : DeclaredSlots) (resolved : Resolution) : list ParsingError :=
  flat_map
    (λ '(slot, _),
       match resolved !! slot with
       | None => []
       | Some bound => check_slot_addressing one_per_copy instance slot bound
       end)
    (btree_iter declared_slots).

Definition resolve_instance_slots (item : BindingValidationItem) (instance : DeploymentInstance)
    (declared_slots : DeclaredSlots) (context : BindingContext) :
    option (Resolution * list ParsingError) :=
  linked ← resolve_links declared_slots instance context;
  let '(resolved, errors) := resolve_unlinked_slots instance declared_slots linked in
  Some
    (resolved,
     errors ++
     match bi_addressing item with
     | WholeSet => []
     | ByCopy one_per_copy => check_copy_addressing one_per_copy instance declared_slots resolved
     end).

(** The body of the loops of [validate_bindings]. *)
Definition bind_instance (context : BindingContext) (out : ValidatedBindings)
    (entry : DeploymentInstance * BindingValidationItem) : option ValidatedBindings :=
  let '(instance, item) := entry in
  '(resolved, errors) ←
    resolve_instance_slots item instance (collect_declared_slots (bi_depends_on item)) context;
  Some
    (mkValidatedBindings (vb_errors out ++ errors)
       (if bool_decide (resolved = ∅) then vb_slot_bindings out
        else <[di_instance_id instance := resolved]> (vb_slot_bindings out))).

Definition validate_bindings (items : list BindingValidationItem) (placements : Placements)
    (copies : CopyMembership) : option ValidatedBindings :=
  let context := mkBindingContext (build_instance_lookup items) placements copies in
  fold_option (bind_instance context) (deployed items)
    (mkValidatedBindings (check_stack_wide_instance_id_uniqueness items) ∅).

(** ** What a slot resolves to *)

Section slots.
Context (context : BindingContext).

(** A target that exists and satisfies the slot. *)
Definition conforms (slot : SlotMeta) (target : string) : Prop :=
  ∃ item, instance_to_item context !! target = Some item ∧ slot_matches_producer slot item = true.

(** The member a target becomes: where it is placed, and the copy it is in. *)
Definition member_of (target : string) : BoundMember :=
  mkBoundMember (mkProducerRef (core_node_of (bc_placements context) target) target)
    (tag_of (bc_copies context) target).

(** The set a declared slot of an instance holds: what it selects, in order;
    nothing when it is vacant, or when it is left out and may be empty. *)
Definition slot_resolves (instance : DeploymentInstance) (link_id : string) (slot : SlotMeta)
    (bound : BoundProducers) : Prop :=
  match di_links instance !! link_id with
  | None => allows_empty (sm_cardinality slot) = true ∧ bound = []
  | Some (Vacant _) => bound = []
  | Some (Bound selection) =>
      check_cardinality_shape (sm_cardinality slot) selection = Ok tt ∧
      (∀ target, target ∈ selection_targets selection → conforms slot target) ∧
      bound = map member_of (selection_targets selection)
  end.

(** What a consumer that addresses its members by copy asks of a set. *)
Definition addressed (addressing : MemberAddressing) (link_id : string) (bound : BoundProducers) :
    Prop :=
  match addressing with
  | WholeSet => True
  | ByCopy one_per_copy =>
      (∀ member, member ∈ bound → is_Some (member_copy member)) ∧
      (link_id ∈ one_per_copy → NoDup (map copy_name (omap member_copy bound)))
  end.

Lemma resolve_target_ok slot key instance target m :
  resolve_target slot key instance context target = Ok m ↔
  conforms slot target ∧ m = member_of target.
Proof.
  unfold resolve_target, conforms. destruct (instance_to_item context !! target) as [item|].
  - destruct (slot_matches_producer slot item) eqn:E; cbn.
    + split; [intros [= <-]; eauto|by intros [_ ->]].
    + split; [done|]. intros [(? & [= <-] & ?) _]. congruence.
  - split; [done|]. by intros [(? & ? & _) _].
Qed.

Lemma resolve_linked_slot_spec slot selection key instance :
  NoDup (selection_targets selection) →
  let resolves :=
    check_cardinality_shape (sm_cardinality slot) selection = Ok tt ∧
    ∀ target, target ∈ selection_targets selection → conforms slot target in
  (resolves ∧ resolve_linked_slot slot selection key instance context =
     Some (Ok (map member_of (selection_targets selection)))) ∨
  (¬ resolves ∧ ∃ errors, errors ≠ [] ∧
     resolve_linked_slot slot selection key instance context = Some (Err errors)).
Proof.
  intros Hnd. cbn zeta. unfold resolve_linked_slot, check_value_matches_cardinality.
  destruct (check_cardinality_shape _ _) as [[]|v]; 
    [|right; split; [by intros [? _]|]; destruct v; (eexists; split; [|reflexivity]); done].
  set (results := map _ (selection_targets selection)).
  destruct (errs results) as [|e es] eqn:Ee.
  - left. assert (Hall := Ee). subst results. rewrite errs_nil in Hall.
    assert (Hconf : ∀ t, t ∈ selection_targets selection →
      resolve_target slot key instance context t = Ok (member_of t)).
    { intros t Ht. destruct (Hall t Ht) as [m Hm]. rewrite Hm.
      by apply resolve_target_ok in Hm as [_ ->]. }
    split; [split; [done|]; intros t Ht; by destruct (proj1 (resolve_target_ok _ _ _ _ _) (Hconf t Ht))|].
    rewrite (oks_map _ member_of) by done. unfold BoundProducers_try_from.
    assert (Hp : first_duplicate (map producer (map member_of (selection_targets selection))) = None).
    { apply first_duplicate_None. rewrite map_map. apply NoDup_fmap_2; [|done]. by intros ?? [= _ ->]. }
    by rewrite Hp.
  - right. split; [|by exists (e :: es)]. intros [_ Hconf].
    assert (errs results = []); [|congruence]. subst results. apply errs_nil. intros t Ht.
    exists (member_of t). apply resolve_target_ok. auto.
Qed.
End slots.

(** ** The loops *)

Definition refusals (o : Outcome) : list ParsingError :=
  match o with Refuse errors => errors | _ => [] end.

(** Rounds over distinct keys: every set resolved is kept, every violation
    reported. *)
Lemma apply_outcomes {A} (key : A → string) (o : A → Outcome) (l : list A) m0 e0 :
  NoDup (map key l) → (∀ x bound, x ∈ l → o x = Resolve bound → m0 !! key x = None) →
  let r := fold_left (λ acc x, apply_outcome (key x) (o x) acc) l (m0, e0) in
  (∀ k bound, r.1 !! k = Some bound ↔
     m0 !! k = Some bound ∨ ∃ x, x ∈ l ∧ key x = k ∧ o x = Resolve bound) ∧
  r.2 = e0 ++ flat_map (λ x, refusals (o x)) l.
Proof.
  revert m0 e0. induction l as [|x l IH]; intros m0 e0 Hnd Hfresh.
  { cbn. split; [set_solver|by rewrite app_nil_r]. }
  cbn [map] in Hnd. apply NoDup_cons in Hnd as [Hx Hnd]. rewrite elem_of_map in Hx. cbn [fold_left].
  destruct (apply_outcome (key x) (o x) (m0, e0)) as [m1 e1] eqn:E1.
  assert (Hm1 : ∀ k bound, m1 !! k = Some bound ↔
    m0 !! k = Some bound ∨ (key x = k ∧ o x = Resolve bound)).
  { intros k b. destruct (o x) as [|bound|es] eqn:Eo; cbn [apply_outcome fst snd] in E1;
      injection E1 as <- <-.
    - naive_solver.
    - rewrite lookup_insert. case_decide as Ek; [subst|naive_solver].
      assert (Hnone : m0 !! key x = None) by (apply (Hfresh x bound); [set_solver|done]).
      rewrite Hnone. naive_solver.
    - naive_solver. }
  assert (He1 : e1 = e0 ++ refusals (o x)).
  { destruct (o x); cbn [apply_outcome fst snd refusals] in *; injection E1 as <- <-;
      by rewrite ?app_nil_r. }
  destruct (IH m1 e1 Hnd) as [Hm He].
  { intros y by_ Hy Hoy. apply eq_None_not_Some. intros [b [Hb|[Hk _]]%Hm1].
    - rewrite (Hfresh y by_) in Hb; [done|set_solver|done].
    - apply Hx. by exists y. }
  split; [|rewrite He, He1; cbn; by rewrite app_assoc].
  intros k b. rewrite Hm, Hm1. setoid_rewrite elem_of_cons. naive_solver.
Qed.

(** The links of an instance as the launch parser and the flags build them. *)
Definition wf_links (instance : DeploymentInstance) : Prop :=
  ∀ key selection, di_links instance !! key = Some (Bound selection) →
    NoDup (selection_targets selection).

Section instance.
Context (context : BindingContext) (instance : DeploymentInstance) (slots : DeclaredSlots).
Context (Hwf : wf_links instance).

(** A linked slot resolves, or is refused with its violations. *)
Lemma link_outcome_spec key value :
  di_links instance !! key = Some value →
  ∃ o, link_outcome slots instance context key value = Some o ∧
    match slots !! key with
    | None => o = Skip
    | Some slot =>
        (∃ bound, o = Resolve bound ∧ slot_resolves context instance key slot bound) ∨
        (∃ errors, o = Refuse errors ∧ errors ≠ [] ∧
           ¬ ∃ bound, slot_resolves context instance key slot bound)
    end.
Proof.
  intros Hl. unfold link_outcome. destruct (slots !! key) as [slot|]; [|eauto].
  unfold slot_resolves. rewrite Hl. destruct value as [selection|reason]; cbn [value_selection].
  - destruct (resolve_linked_slot_spec context slot selection key instance) as
      [[[Hs Hc] ->]|(Hno & errors & Hne & ->)]; [by eapply Hwf|..]; cbn; eexists; (split; [reflexivity|]).
    + left. eauto 10.
    + right. exists errors. split; [done|]. split; [done|]. intros (b & ? & ? & _). by apply Hno.
  - eexists. split; [reflexivity|]. left. eauto.
Qed.

Lemma slot_resolves_fun key slot b b' :
  slot_resolves context instance key slot b → slot_resolves context instance key slot b' → b = b'.
Proof.
  unfold slot_resolves. destruct (di_links instance !! key) as [[]|]; naive_solver.
Qed.

(** The two rounds, link by link: a slot's set is recorded exactly when the
    slot resolves to it, and nothing is reported exactly when it resolves. *)
Definition linked_round (link : string) (value : LinkValue) : Outcome :=
  default Skip (link_outcome slots instance context link value).

Definition resolvable (link : string) : Prop :=
  ∀ slot, slots !! link = Some slot → ∃ bound, slot_resolves context instance link slot bound.

Lemma linked_round_spec link value :
  di_links instance !! link = Some value →
  (∀ bound, linked_round link value = Resolve bound ↔
     ∃ slot, slots !! link = Some slot ∧ slot_resolves context instance link slot bound) ∧
  (refusals (linked_round link value) = [] ↔ resolvable link).
Proof.
  intros Hl. destruct (link_outcome_spec link value Hl) as (o & Ho & Hspec).
  unfold linked_round, resolvable. rewrite Ho. simpl. clear Ho.
  destruct (slots !! link) as [slot|]; [|subst o; naive_solver].
  destruct Hspec as [(b & -> & Hb)|(errors & -> & Hne & Hno)].
  - split; [|naive_solver]. intros bound. split; [intros [= <-]; eauto|].
    intros (? & [= <-] & Hr). f_equal. by eapply slot_resolves_fun.
  - split; [naive_solver|]. split; [done|]. intros Hr. destruct Hno. by apply Hr.
Qed.

Lemma unlinked_round_spec link slot :
  slots !! link = Some slot →
  (∀ bound, unlinked_outcome instance link slot = Resolve bound ↔
     di_links instance !! link = None ∧ slot_resolves context instance link slot bound) ∧
  (refusals (unlinked_outcome instance link slot) = [] ↔
     is_Some (di_links instance !! link) ∨ resolvable link).
Proof.
  intros Hs. unfold unlinked_outcome, resolvable, slot_resolves. rewrite Hs.
  destruct (di_links instance !! link); cbn [opt_is_some]; [naive_solver|].
  destruct (allows_empty (sm_cardinality slot)) eqn:Ha; split.
  - naive_solver.
  - split; [|done]. intros _. right. intros ? [= <-]. eauto.
  - naive_solver.
  - split; [done|]. intros [[? [=]]|Hr]. by destruct (Hr slot) as (? & ? & _); [|congruence].
Qed.

(** What the two loops over the slots leave. *)
Lemma resolve_slots_spec :
  ∃ linked, resolve_links slots instance context = Some linked ∧
  let r := resolve_unlinked_slots instance slots linked in
  (∀ link bound, r.1 !! link = Some bound ↔
     ∃ slot, slots !! link = Some slot ∧ slot_resolves context instance link slot bound) ∧
  (r.2 = [] ↔ ∀ link slot, slots !! link = Some slot →
     ∃ bound, slot_resolves context instance link slot bound).
Proof.
  set (o := λ e : string * LinkValue, linked_round e.1 e.2).
  exists (fold_left (λ acc e, apply_outcome e.1 (o e) acc) (btree_iter (di_links instance)) (∅, [])).
  split.
  { apply fold_option_total. intros acc [key value] Hin%elem_of_btree_iter.
    destruct (link_outcome_spec key value Hin) as (x & Hx & _). subst o. unfold linked_round.
    cbn [fst snd]. by rewrite Hx. }
  cbn zeta. unfold resolve_unlinked_slots.
  destruct (apply_outcomes fst o (btree_iter (di_links instance)) ∅ []) as [Hm He];
    [apply btree_iter_NoDup|intros; apply lookup_empty|].
  destruct (fold_left _ (btree_iter (di_links instance)) _) as [m e]. cbn [fst snd] in Hm, He.
  set (u := λ e : string * SlotMeta, unlinked_outcome instance e.1 e.2).
  rewrite (fold_left_ext _ (λ acc x, apply_outcome x.1 (u x) acc)) by (by intros ? []).
  destruct (apply_outcomes fst u (btree_iter slots) m e) as [Hm' He'].
  { apply btree_iter_NoDup. }
  { intros [link slot] b Hin%elem_of_btree_iter [Hn _]%unlinked_round_spec; [|done].
    apply eq_None_not_Some. intros [b' [Hb|([k v] & Hin' & Hk & _)]%Hm]; [by rewrite lookup_empty in Hb|].
    cbn in Hk, Hn. subst k. apply elem_of_btree_iter in Hin'. congruence. }
  destruct (fold_left _ (btree_iter slots) (m, e)) as [m' e']. cbn [fst snd] in *. subst e e'. split.
  - intros link bound. rewrite Hm', Hm, lookup_empty. split.
    + intros [[?|([k v] & Hin%elem_of_btree_iter & Hk & Ho)]|([k slot] & Hin%elem_of_btree_iter & Hk & Hu)];
        [done|..]; cbn in Hk; subst k.
      * by apply (linked_round_spec _ _ Hin) in Ho.
      * apply (unlinked_round_spec _ _ Hin) in Hu as [_ Hu]. eauto.
    + intros (slot & Hs & Hr). destruct (di_links instance !! link) as [v|] eqn:El.
      * left. right. exists (link, v). rewrite elem_of_btree_iter. split; [done|]. split; [done|].
        apply (linked_round_spec _ _ El). eauto.
      * right. exists (link, slot). rewrite elem_of_btree_iter. split; [done|]. split; [done|].
        by apply (unlinked_round_spec _ _ Hs).
  - rewrite app_nil_l, app_nil, !flat_map_nil. split.
    + intros [Hl Hu] link. destruct (di_links instance !! link) as [v|] eqn:El.
      * apply (linked_round_spec _ _ El), (Hl (link, v)). by apply elem_of_btree_iter.
      * intros slot Hs. specialize (Hu (link, slot) ltac:(by apply elem_of_btree_iter)).
        apply (unlinked_round_spec _ _ Hs) in Hu as [[v Hv]|Hu]; [congruence|by apply Hu].
    + intros Hall. split; intros [k v] Hin%elem_of_btree_iter.
      * apply (linked_round_spec _ _ Hin). intros ?. apply Hall.
      * apply (unlinked_round_spec _ _ Hin). right. intros ?. apply Hall.
Qed.
End instance.

(** ** Addressing by copy *)

Lemma group_by_copy_count bound c :
  length (default [] (group_by_copy bound !! c)) =
  count_occ String.string_dec (map copy_name (omap member_copy bound)) c.
Proof.
  unfold group_by_copy. induction bound as [|x bound IH] using rev_ind.
  { cbn. by rewrite lookup_empty. }
  rewrite fold_left_app, omap_app, map_app, count_occ_app, <-IH. cbn [fold_left].
  destruct (member_copy x) as [t|] eqn:E; cbn [omap list_omap].
  - rewrite E. cbn [map count_occ]. rewrite lookup_insert.
    destruct (String.string_dec (copy_name t) c) as [->|Hne].
    + rewrite decide_True by done. cbn. rewrite length_app. cbn. lia.
    + rewrite decide_False by done. lia.
  - rewrite E. cbn. lia.
Qed.

Lemma group_by_copy_once bound :
  (∀ c ids, group_by_copy bound !! c = Some ids → length ids ≤ 1) ↔
  NoDup (map copy_name (omap member_copy bound)).
Proof.
  rewrite NoDup_ListNoDup, (NoDup_count_occ String.string_dec). split.
  - intros H c. rewrite <-group_by_copy_count. destruct (group_by_copy bound !! c) eqn:E; [|cbn; lia].
    by apply (H c).
  - intros H c ids Hc. specialize (H c). rewrite <-group_by_copy_count, Hc in H. done.
Qed.

Lemma check_slot_addressing_nil one instance link bound :
  check_slot_addressing one instance link bound = [] ↔ addressed (ByCopy one) link bound.
Proof.
  unfold check_slot_addressing. cbn [addressed]. rewrite app_nil, flat_map_nil. f_equiv.
  - apply forall_proper. intros m. destruct (member_copy m) as [t|]; split; intros H Hin.
    + eauto.
    + done.
    + by apply H in Hin.
    + by apply H in Hin as [? ?].
  - case_bool_decide as Hin; [|naive_solver]. rewrite flat_map_nil, <-group_by_copy_once.
    split.
    + intros H _ c ids Hc. specialize (H (c, ids) ltac:(by apply elem_of_btree_iter)). cbv beta iota in H.
      destruct (1 <? length ids)%nat eqn:E; [done|]. apply Nat.ltb_ge in E. done.
    + intros H [c ids] Hc%elem_of_btree_iter. specialize (H Hin c ids Hc).
      destruct (1 <? length ids)%nat eqn:E; [|done]. apply Nat.ltb_lt in E. lia.
Qed.

(** One instance: its slots resolve as [slot_resolves] says, and nothing is
    reported exactly when all do and are addressed as the consumer asks. *)
Lemma resolve_instance_spec item instance slots context :
  wf_links instance →
  ∃ resolved errors, resolve_instance_slots item instance slots context = Some (resolved, errors) ∧
  (∀ link bound, resolved !! link = Some bound ↔
     ∃ slot, slots !! link = Some slot ∧ slot_resolves context instance link slot bound) ∧
  (errors = [] ↔ ∀ link slot, slots !! link = Some slot →
     ∃ bound, slot_resolves context instance link slot bound ∧
       addressed (bi_addressing item) link bound).
Proof.
  intros Hwf. destruct (resolve_slots_spec context instance slots Hwf) as (linked & Hl & Hm & He).
  unfold resolve_instance_slots. rewrite Hl. cbn [mbind option_bind].
  destruct (resolve_unlinked_slots instance slots linked) as [resolved errors]. cbn [fst snd] in *.
  eexists _, _. split; [reflexivity|]. split; [done|]. rewrite app_nil, He.
  destruct (bi_addressing item) as [|one]; [cbn; naive_solver|].
  assert (Hc : check_copy_addressing one instance slots resolved = [] ↔
    ∀ link slot bound, slots !! link = Some slot → slot_resolves context instance link slot bound →
      addressed (ByCopy one) link bound).
  { unfold check_copy_addressing. rewrite flat_map_nil. split.
    - intros H link slot b Hs Hb. specialize (H (link, slot) ltac:(by apply elem_of_btree_iter)).
      cbn in H. rewrite (proj2 (Hm link b)) in H by eauto. by apply check_slot_addressing_nil in H.
    - intros H [link slot] Hs%elem_of_btree_iter.
      destruct (resolved !! link) as [b|] eqn:Eb; [|done].
      apply Hm in Eb as (slot' & Hs' & Hb). apply check_slot_addressing_nil. by eapply H. }
  rewrite Hc. split.
  - intros [Hall Had] link slot Hs. destruct (Hall link slot Hs) as [b Hb]. eauto.
  - intros H. split; [intros link slot Hs; destruct (H link slot Hs) as (b & ? & _); eauto|].
    intros link slot b Hs Hb. destruct (H link slot Hs) as (b' & Hb' & Ha).
    by rewrite (slot_resolves_fun context instance link slot b b').
Qed.

(** ** The whole plan *)

Lemma uniqueness_nil items :
  check_stack_wide_instance_id_uniqueness items = [] ↔
  NoDup (map (λ e, di_instance_id e.1) (deployed items)).
Proof.
  unfold check_stack_wide_instance_id_uniqueness.
  set (step := λ '(seen, errors) '(instance, item), _).
  assert (Hgen : ∀ l seen errors,
    (fold_left step l (seen, errors)).2 = [] ↔
    errors = [] ∧ NoDup (map (λ e, di_instance_id e.1) l) ∧
    ∀ e, e ∈ l → (seen : gmap string (string * string)) !! di_instance_id e.1 = None).
  { induction l as [|[instance item] l IH]; intros seen errors; cbn [fold_left map].
    { cbn. split; [|by intros (-> & _)]. intros ->. split; [done|]. split; [constructor|set_solver]. }
    cbn [step]. destruct (seen !! di_instance_id instance) as [[name_a tag_a]|] eqn:E.
    - rewrite IH. split; [by intros [Hn%app_nil _]; destruct Hn|].
      intros (_ & _ & H). specialize (H (instance, item) ltac:(set_solver)). cbn in H. congruence.
    - rewrite IH, NoDup_cons, elem_of_map. cbn [fst]. split.
      + intros (-> & Hnd & H). split; [done|]. split; [split; [|done]|].
        * intros (e & He & Hin). specialize (H e Hin). rewrite <-He, lookup_insert_eq in H. done.
        * intros e [->|Hin]%elem_of_cons; [done|]. specialize (H e Hin).
          by apply lookup_insert_None in H as [? _].
      + intros (-> & [Hni Hnd] & H). split; [done|]. split; [done|]. intros e Hin.
        rewrite lookup_insert_ne; [apply H; set_solver|]. intros Heq. apply Hni. by exists e. }
  rewrite Hgen. split; [tauto|]. intros ?. split; [done|]. split; [done|]. intros. apply lookup_empty.
Qed.

Lemma build_lookup_some items id item :
  build_instance_lookup items !! id = Some item →
  ∃ instance, (instance, item) ∈ deployed items ∧ di_instance_id instance = id.
Proof.
  unfold build_instance_lookup. intros Hm.
  eapply (fold_keep_first (λ e, di_instance_id e.1) snd) in Hm as [Hm|([instance it] & ? & <- & <-)].
  - by rewrite lookup_empty in Hm.
  - by exists instance.
  - by intros m [].
Qed.

Lemma bind_instances context l out0 :
  Forall (λ e, wf_links e.1) l →
  let slots item := collect_declared_slots (bi_depends_on item) in
  ∃ out, fold_option (bind_instance context) l out0 = Some out ∧
  (vb_errors out = [] ↔ vb_errors out0 = [] ∧
     ∀ instance item link slot, (instance, item) ∈ l → slots item !! link = Some slot →
       ∃ bound, slot_resolves context instance link slot bound ∧
         addressed (bi_addressing item) link bound) ∧
  (NoDup (map (λ e, di_instance_id e.1) l) →
   (∀ e, e ∈ l → vb_slot_bindings out0 !! di_instance_id e.1 = None) →
   (∀ id, (∀ e, e ∈ l → di_instance_id e.1 ≠ id) →
      vb_slot_bindings out !! id = vb_slot_bindings out0 !! id) ∧
   ∀ instance item link bound, (instance, item) ∈ l →
     (vb_slot_bindings out !! di_instance_id instance ≫= (.!! link)) = Some bound ↔
     ∃ slot, slots item !! link = Some slot ∧ slot_resolves context instance link slot bound).
Proof.
  cbn zeta. revert out0. induction l as [|[instance item] l IH]; intros out0 Hwf.
  { exists out0. split; [done|]. split; [set_solver|]. intros _ _. split; [done|]. set_solver. }
  apply Forall_cons in Hwf as [Hi Hwf].
  destruct (resolve_instance_spec item instance (collect_declared_slots (bi_depends_on item)) context Hi)
    as (resolved & errors & Hr & Hm & He).
  set (out1 := mkValidatedBindings (vb_errors out0 ++ errors)
    (if bool_decide (resolved = ∅) then vb_slot_bindings out0
     else <[di_instance_id instance := resolved]> (vb_slot_bindings out0))).
  assert (Hbind : bind_instance context out0 (instance, item) = Some out1)
    by (unfold bind_instance; by rewrite Hr).
  cbn [fold_option]. rewrite Hbind. cbn [mbind option_bind].
  destruct (IH out1 Hwf) as (out & Hout & Herr & Hmap). exists out. split; [done|]. split.
  { rewrite Herr. subst out1. cbn [vb_errors]. rewrite app_nil, He. setoid_rewrite elem_of_cons.
    split; [|naive_solver]. intros [[-> H1] H2]. split; [done|].
    intros ???? [[= -> ->]|?]; eauto. }
  cbn [map fst]. intros [Hni Hnd]%NoDup_cons Hfresh. rewrite elem_of_map in Hni.
  destruct Hmap as [Hother Hin]; [done| |].
  { intros e He'. subst out1. cbn [vb_slot_bindings]. case_bool_decide; [apply Hfresh; set_solver|].
    rewrite lookup_insert_ne; [apply Hfresh; set_solver|]. intros ?. apply Hni. by exists e. }
  assert (Hout1 : ∀ id, id ≠ di_instance_id instance →
    vb_slot_bindings out1 !! id = vb_slot_bindings out0 !! id).
  { intros id Hne. subst out1. cbn. case_bool_decide; [done|]. by rewrite lookup_insert_ne. }
  split.
  - intros id Hid. rewrite Hother by set_solver. apply Hout1.
    intros ->. by eapply (Hid (instance, item)); [set_solver|].
  - intros inst' item' link bound [[= -> ->]|Hl]%elem_of_cons; [|by apply Hin].
    rewrite Hother; [|intros e He' Heq; apply Hni; by exists e]. rewrite <-Hm. subst out1. cbn.
    case_bool_decide as Hem.
    + pose proof (Hfresh (instance, item) ltac:(set_solver)) as Hn. cbn in Hn. rewrite Hn. cbn.
      by rewrite Hem, lookup_empty.
    + by rewrite lookup_insert_eq.
Qed.

(** C36: the binding validator always returns, on links that name no target
    twice. It reports nothing exactly when no two instances of the stack share
    an id and every declared slot of every instance resolves, to a set the
    consumer can address; and then every slot holds exactly that set, each
    member with its machine and its copy, in the order the link wrote. *)
Theorem bindings_exact (items : list BindingValidationItem) (placements : Placements)
    (copies : CopyMembership)
    (Hwf : Forall (λ e, wf_links e.1) (deployed items)) :
  let context := mkBindingContext (build_instance_lookup items) placements copies in
  let slots item := collect_declared_slots (bi_depends_on item) in
  ∃ out, validate_bindings items placements copies = Some out ∧
  (vb_errors out = [] ↔
     NoDup (map (λ e, di_instance_id e.1) (deployed items)) ∧
     ∀ instance item link slot, (instance, item) ∈ deployed items → slots item !! link = Some slot →
       ∃ bound, slot_resolves context instance link slot bound ∧
         addressed (bi_addressing item) link bound) ∧
  (vb_errors out = [] →
     ∀ instance item link bound, (instance, item) ∈ deployed items →
       (vb_slot_bindings out !! di_instance_id instance ≫= (.!! link)) = Some bound ↔
       ∃ slot, slots item !! link = Some slot ∧ slot_resolves context instance link slot bound).
Proof.
  cbn zeta. set (context := mkBindingContext _ _ _).
  destruct (bind_instances context (deployed items)
    (mkValidatedBindings (check_stack_wide_instance_id_uniqueness items) ∅) Hwf)
    as (out & Hout & Herr & Hmap).
  exists out. cbn [vb_errors vb_slot_bindings] in *. rewrite uniqueness_nil in Herr.
  split; [done|]. split; [done|]. intros Hnil. apply Herr in Hnil as [Hnd _].
  apply Hmap; [done|]. intros. apply lookup_empty.
Qed.

(** ** A plan *)

(** Two cameras, the second one copied, and a viewer of both. *)
Definition example_camera_item : BindingValidationItem :=
  mkBindingValidationItem "camera" "v1"
    [DeploymentInstance_empty "front"; DeploymentInstance_empty "rear"] None [] WholeSet.
Definition example_viewer_instance (selection : Selection) : DeploymentInstance :=
  mkDeploymentInstance "viewer" None {[ "cams" := Bound selection ]} None.
Definition example_viewer_item (selection : Selection) : BindingValidationItem :=
  mkBindingValidationItem "viewer" "v1" [example_viewer_instance selection]
    (Some (mkDependsOn [mkNodeDependency "camera" "v1" "cams" OneOrMore] [] [] [] [])) [] WholeSet.
Definition example_placements : Placements := mkPlacements "desk" {[ "rear" := "robot" ]}.
Definition example_items (selection : Selection) : list BindingValidationItem :=
  [example_camera_item; example_viewer_item selection].

Lemma bindings_exact_witness :
  ∃ out, validate_bindings (example_items (Array ["rear"; "front"])) example_placements ∅ = Some out ∧
    (vb_slot_bindings out !! "viewer" ≫= (.!! "cams")) =
    Some [mkBoundMember (mkProducerRef "robot" "rear") None;
          mkBoundMember (mkProducerRef "desk" "front") None].
Proof.
  destruct (bindings_exact (example_items (Array ["rear"; "front"])) example_placements ∅)
    as (out & Hout & _ & Hres).
  - repeat constructor; intros key selection Hkey.
    1,2: vm_compute in Hkey; discriminate Hkey.
    change (({[ "cams" := Bound (Array ["rear"; "front"]) ]} : gmap string LinkValue) !! key =
      Some (Bound selection)) in Hkey.
    apply lookup_singleton_Some in Hkey as [_ Heq]. injection Heq as <-.
    apply (bool_decide_unpack _). vm_compute. exact I.
  - exists out. split; [exact Hout|].
    apply (Hres) with (item := example_viewer_item (Array ["rear"; "front"]))
      (instance := example_viewer_instance (Array ["rear"; "front"])).
    + assert (Hv : vb_errors <$> validate_bindings (example_items (Array ["rear"; "front"]))
        example_placements ∅ = Some []) by (vm_compute; reflexivity).
      rewrite Hout in Hv. injection Hv as Hv. exact Hv.
    + cbn. right. right. left.
    + exists (mkSlotMeta "camera" "v1" Node OneOrMore). split; [vm_compute; reflexivity|].
      unfold slot_resolves. cbn. rewrite lookup_singleton_eq. split; [reflexivity|].
      split; [|vm_compute; reflexivity]. intros target Ht.
      exists example_camera_item. apply elem_of_cons in Ht as [->|Ht];
        [split; vm_compute; reflexivity|].
      apply list_elem_of_singleton in Ht as ->. split; vm_compute; reflexivity.
Defined.
