(* ===== verification/PairPlan.v ===== *)
(** * Planned pairs

    [daemon-config-internal/src/launcher/pairings.rs]: the pairs a plan
    establishes between participant slots, and every rule a declaration
    breaks. *)

From S2P Require Import Prelude Names Config LaunchTypes.
#[local] Open Scope peppy_scope.
Import Parsing.

Record PairingValidationItem : Type := mkPairingValidationItem {
  pi_node_name : string;
  pi_node_tag : string;
  pi_instances : list DeploymentInstance;
  pi_pairing_deps : list PairingSlot;
  pi_observer_deps : list PairingSlot;
  pi_preexisting : bool;
}.

Record PlannedPairEndpoint : Type := mkPlannedPairEndpoint {
  pe_instance_id : string;
  pe_link_id : string;
  pe_role : string;
  pe_cardinality : Cardinality;
}.

Record PlannedPairing : Type := mkPlannedPairing {
  pl_pairing_name : string;
  pl_pairing_tag : string;
  pl_a : PlannedPairEndpoint;
  pl_b : PlannedPairEndpoint;
}.

Record ValidatedPairings : Type := mkValidatedPairings {
  vp_errors : list ParsingError;
  vp_planned : list PlannedPairing;
}.

(** A slot is an instance and a link id. *)
Notation PlanSlot := (string * string)%type.

(** [AlreadyPairedSlots] and [Claims]: the peers of each slot. *)
Notation SlotPeers := (gmap PlanSlot (list PlanSlot)).

Definition plan_shape_error (violation : CardinalityShapeViolation) (owner_id key : string) :
    ParsingError :=
  match violation with
  | ArrayOnScalarSlot _ | SingleSlotMultipleTargets _ _ => LinkTargetNotScalar owner_id key
  | ScalarOnMultiSlot cardinality => PairingScalarOnMultiSlot owner_id key cardinality
  | Unmet => PairingCardinalityUnmet owner_id key
  end.

Record PairDeclaration : Type := mkPairDeclaration {
  decl_owner : string;
  decl_dep : PairingSlot;
  decl_key : string;
  decl_target : string;
}.

(** Every instance with the item that deploys it. *)
Definition plan_deployed (items : list PairingValidationItem) :
    list (DeploymentInstance * PairingValidationItem) :=
  flat_map (λ item, map (λ instance, (instance, item)) (pi_instances item)) items.

Definition plan_instance_lookup (items : list PairingValidationItem) :
    gmap string PairingValidationItem :=
  fold_left
    (λ m '(instance, item),
       match m !! di_instance_id instance with
       | Some _ => m
       | None => <[di_instance_id instance := item]> m
       end)
    (plan_deployed items) ∅.

Definition peer_label (instance_id link_id : string) : string := instance_id +:+ ":" +:+ link_id.

(** [<instance>/<link_id>]. *)
Definition target_label (instance_id link_id : string) : string := instance_id +:+ "/" +:+ link_id.

Definition slots_by_link (deps : list PairingSlot) : gmap string PairingSlot :=
  fold_left (λ m dep, <[pd_link_id dep := dep]> m) deps ∅.

(** The declarations of one link, or its shape error. *)
Definition link_declarations (participants : gmap string PairingSlot) (instance : DeploymentInstance)
    (entry : string * LinkValue) : result ParsingError (list PairDeclaration) :=
  let '(key, value) := entry in
  match participants !! key with
  | None => Ok []
  | Some own_dep =>
      match value_selection value with
      | None => Ok []
      | Some selection =>
          match check_cardinality_shape (pd_cardinality own_dep) selection with
          | Err violation => Err (plan_shape_error violation (di_instance_id instance) key)
          | Ok _ =>
              Ok (map (mkPairDeclaration (di_instance_id instance) own_dep key)
                    (selection_targets selection))
          end
      end
  end.

(** Every link of every planned instance, in the order of the loops. *)
Definition declaration_results (items : list PairingValidationItem) :
    list (result ParsingError (list PairDeclaration)) :=
  flat_map
    (λ item,
       let participants := slots_by_link (pi_pairing_deps item) in
       flat_map (λ instance, map (link_declarations participants instance) (btree_iter (di_links instance)))
         (pi_instances item))
    (List.filter (λ item, negb (pi_preexisting item)) items).

Definition declaration_lt (d e : PairDeclaration) : bool :=
  pair_lt (decl_owner d, decl_key d) (decl_owner e, decl_key e).

Definition peers_of (slot : PlanSlot) (claims already_paired : SlotPeers) : list PlanSlot :=
  default [] (claims !! slot) ++ default [] (already_paired !! slot).

Section resolve.
Context (owner_id : string) (own_dep : PairingSlot) (key target : string).
Context (lookup : gmap string PairingValidationItem) (claims already_paired : SlotPeers).

(** Both-sides agreement: [Some] ends the resolution. *)
Definition check_agreement (target_instance : string) (requested_peer_link : option string) :
    option (result ParsingError (option PlannedPairing)) :=
  match claims !! (owner_id, key) with
  | None => None
  | Some peers =>
      if existsb
           (λ '(claimed_inst, claimed_link),
              bool_decide (claimed_inst = target_instance)
              && match requested_peer_link with
                 | None => true
                 | Some l => bool_decide (l = claimed_link)
                 end)
           peers
      then Some (Ok None)
      else if is_scalar (pd_cardinality own_dep) then
        (* [&peers[0]]: a claimed slot has a peer (see [claims_ok]) *)
        match peers with
        | (claimed_inst, claimed_link) :: _ =>
            Some (Err (PairingConflict claimed_inst claimed_link (target_label owner_id key)
                         owner_id key target))
        | [] => None
        end
      else None
  end.

Definition complementary (target_item : PairingValidationItem) : list PairingSlot :=
  List.filter
    (λ d, bool_decide (pd_name d = pd_name own_dep) && bool_decide (pd_tag d = pd_tag own_dep)
          && negb (bool_decide (pd_role d = pd_role own_dep)))
    (pi_pairing_deps target_item).

Definition slot_open (target_instance : string) (d : PairingSlot) : bool :=
  negb (is_scalar (pd_cardinality d))
  || bool_decide (peers_of (target_instance, pd_link_id d) claims already_paired = []).

Definition not_complementary (target_instance : string) (target_item : PairingValidationItem) :
    ParsingError :=
  PairingTargetNotComplementary owner_id key target_instance (pi_node_name target_item)
    (pi_node_tag target_item) (pd_name own_dep) (pd_tag own_dep) (pd_role own_dep).

(** The slot a target without a link id means: the one open complementary
    slot. *)
Definition implicit_peer_link (target_instance : string) (target_item : PairingValidationItem) :
    result ParsingError string :=
  let candidates := complementary target_item in
  match List.filter (slot_open target_instance) candidates with
  | [] =>
      let first_peer (peers : SlotPeers) d :=
        peer ← (default [] (peers !! (target_instance, pd_link_id d)) : list PlanSlot) !! 0%nat;
        Some (pd_link_id d, peer) in
      match first_some (first_peer claims) candidates with
      | Some (taken_link, (peer_inst, peer_link)) =>
          Err (PairingConflict target_instance taken_link (target_label peer_inst peer_link)
                 owner_id key target)
      | None =>
          match first_some (first_peer already_paired) candidates with
          | Some (taken_link, (inst, link)) =>
              Err (PairingSlotAlreadyPaired target_instance taken_link (peer_label inst link))
          | None => Err (not_complementary target_instance target_item)
          end
      end
  | [single] => Ok (pd_link_id single)
  | multiple =>
      Err (PairingTargetAmbiguous owner_id key target_instance (pd_name own_dep) (pd_tag own_dep)
             (String.concat ", " (map pd_link_id multiple)))
  end.

Definition resolve_peer_link (target_instance : string) (requested_peer_link : option string)
    (target_item : PairingValidationItem) : result ParsingError string :=
  match requested_peer_link with
  | Some peer_link =>
      if existsb (λ d, bool_decide (pd_link_id d = peer_link)) (complementary target_item)
      then Ok peer_link
      else Err (not_complementary target_instance target_item)
  | None => implicit_peer_link target_instance target_item
  end.

(** Exclusivity of the resolved peer slot, then the pair on the own slot. *)
Definition check_held (target_instance resolved_peer_link : string) (peer_dep : PairingSlot) :
    result ParsingError unit :=
  let held := peers_of (target_instance, resolved_peer_link) claims already_paired in
  let own_held := peers_of (owner_id, key) claims already_paired in
  match is_scalar (pd_cardinality peer_dep), held with
  | true, (inst, link) :: _ =>
      Err (PairingSlotAlreadyPaired target_instance resolved_peer_link (peer_label inst link))
  | scalar, _ =>
      if negb scalar && bool_decide ((owner_id, key) ∈ held) then
        Err (PairAlreadyHeld target_instance resolved_peer_link (peer_label owner_id key))
      else if bool_decide ((target_instance, resolved_peer_link) ∈ own_held) then
        Err (PairAlreadyHeld owner_id key (peer_label target_instance resolved_peer_link))
      else Ok tt
  end.

Definition planned_pair (target_instance resolved_peer_link : string) (peer_dep : PairingSlot) :
    PlannedPairing :=
  mkPlannedPairing (pd_name own_dep) (pd_tag own_dep)
    (mkPlannedPairEndpoint owner_id key (pd_role own_dep) (pd_cardinality own_dep))
    (mkPlannedPairEndpoint target_instance resolved_peer_link (pd_role peer_dep)
       (pd_cardinality peer_dep)).

(** [None] is the panic of the [expect] on the peer slot. *)
Definition resolve_pair_declaration : option (result ParsingError (option PlannedPairing)) :=
  let '(target_instance, requested_peer_link) := split_link_target target in
  match lookup !! target_instance with
  | None => Some (Err (UnknownInstanceId owner_id key target_instance))
  | Some target_item =>
      match check_agreement target_instance requested_peer_link with
      | Some r => Some r
      | None =>
          match (if is_scalar (pd_cardinality own_dep)
                 then (default [] (already_paired !! (owner_id, key)) : list PlanSlot) !! 0%nat
                 else None) with
          | Some (inst, link) => Some (Err (PairingSlotAlreadyPaired owner_id key (peer_label inst link)))
          | None =>
              match resolve_peer_link target_instance requested_peer_link target_item with
              | Err e => Some (Err e)
              | Ok resolved_peer_link =>
                  peer_dep ← List.find (λ d, bool_decide (pd_link_id d = resolved_peer_link))
                               (pi_pairing_deps target_item);
                  Some
                    match check_held target_instance resolved_peer_link peer_dep with
                    | Err e => Err e
                    | Ok _ =>
                        let planned := planned_pair target_instance resolved_peer_link peer_dep in
                        match pd_sha256 own_dep, pd_sha256 peer_dep with
                        | Some sha_own, Some sha_peer =>
                            if negb (bool_decide (sha_own = sha_peer))
                            then
                              Err (PairingSha256Mismatch owner_id sha_own target_instance sha_peer
                                     (pd_name own_dep) (pd_tag own_dep))
                            else Ok (Some planned)
                        | _, _ => Ok (Some planned)
                        end
                    end
              end
          end
      end
  end.
End resolve.

Definition end_slot (e : PlannedPairEndpoint) : PlanSlot := (pe_instance_id e, pe_link_id e).

(** [entry(..).or_default().push(..)]. *)
Definition push_peer (slot peer : PlanSlot) (m : SlotPeers) : SlotPeers :=
  <[slot := default [] (m !! slot) ++ [peer]]> m.

Definition record_claims (planned : PlannedPairing) (claims : SlotPeers) : SlotPeers :=
  push_peer (end_slot (pl_b planned)) (end_slot (pl_a planned))
    (push_peer (end_slot (pl_a planned)) (end_slot (pl_b planned)) claims).

(** The loop over the sorted declarations, with its claims. *)
Record PlanState : Type := mkPlanState {
  ps_claims : SlotPeers;
  ps_errors : list ParsingError;
  ps_planned : list PlannedPairing;
}.

Definition plan_declaration (lookup : gmap string PairingValidationItem) (already_paired : SlotPeers)
    (st : PlanState) (d : PairDeclaration) : option PlanState :=
  r ← resolve_pair_declaration (decl_owner d) (decl_dep d) (decl_key d) (decl_target d) lookup
        (ps_claims st) already_paired;
  Some
    match r with
    | Ok (Some planned) =>
        mkPlanState (record_claims planned (ps_claims st)) (ps_errors st) (ps_planned st ++ [planned])
    | Ok None => st
    | Err error => mkPlanState (ps_claims st) (ps_errors st ++ [error]) (ps_planned st)
    end.

Definition slot_covered (claims : SlotPeers) (externally_covered : gset PlanSlot)
    (instance : DeploymentInstance) (dep : PairingSlot) : bool :=
  let slot := (di_instance_id instance, pd_link_id dep) in
  opt_is_some (claims !! slot)
  || bool_decide (slot ∈ externally_covered)
  || opt_is_some (di_links instance !! pd_link_id dep ≫= value_vacancy).

Definition validate_coverage (items : list PairingValidationItem) (claims : SlotPeers)
    (externally_covered : gset PlanSlot) : list ParsingError :=
  flat_map
    (λ item,
       flat_map
         (λ instance,
            flat_map
              (λ dep,
                 if allows_empty (pd_cardinality dep) then []
                 else if slot_covered claims externally_covered instance dep then []
                 else [PairingSlotUncovered (di_instance_id instance) (pd_link_id dep) (pd_name dep)
                         (pd_tag dep) (pd_role dep) (pd_cardinality dep)])
              (pi_pairing_deps item))
         (pi_instances item))
    (List.filter (λ item, negb (pi_preexisting item)) items).

Definition declarations (items : list PairingValidationItem) : list PairDeclaration :=
  stable_sort declaration_lt (mjoin (oks (declaration_results items))).

Definition validate_pairings (items : list PairingValidationItem) (already_paired : SlotPeers)
    (externally_covered : gset PlanSlot) : option ValidatedPairings :=
  st ← fold_option (plan_declaration (plan_instance_lookup items) already_paired) (declarations items)
         (mkPlanState ∅ (errs (declaration_results items)) []);
  Some
    (mkValidatedPairings
       (ps_errors st ++ validate_coverage items (ps_claims st) externally_covered) (ps_planned st)).

(** ** What a declaration plans *)

(** The slot a node declares. *)
Definition item_slot (item : PairingValidationItem) (link_id : string) : option PairingSlot :=
  List.find (λ d, bool_decide (pd_link_id d = link_id)) (pi_pairing_deps item).

Definition slot_dep (lookup : gmap string PairingValidationItem) (slot : PlanSlot) :
    option PairingSlot :=
  item ← lookup !! slot.1; item_slot item slot.2.

(** Both ends pin the same document, if both do. *)
Definition pins_agree (d e : PairingSlot) : Prop :=
  ∀ x y, pd_sha256 d = Some x → pd_sha256 e = Some y → x = y.

(** Slots that can be joined. *)
Definition complement_of (d e : PairingSlot) : Prop :=
  pd_name e = pd_name d ∧ pd_tag e = pd_tag d ∧ pd_role e ≠ pd_role d ∧ pins_agree d e.

Definition unique_links (item : PairingValidationItem) : Prop :=
  NoDup (map pd_link_id (pi_pairing_deps item)).

Lemma item_slot_Some item link d :
  unique_links item → item_slot item link = Some d ↔ d ∈ pi_pairing_deps item ∧ pd_link_id d = link.
Proof.
  intros Hu. unfold item_slot. split.
  - intros [? ?%bool_decide_eq_true]%find_elem_of. done.
  - intros [Hin <-]. destruct (find_Some_exists (λ x, bool_decide (pd_link_id x = pd_link_id d))
      (pi_pairing_deps item) d Hin) as [y Hy]; [by apply bool_decide_eq_true|].
    rewrite Hy. apply find_elem_of in Hy as [Hy ?%bool_decide_eq_true]. f_equal.
    by apply (NoDup_map_inj pd_link_id (pi_pairing_deps item)).
Qed.

Section resolve_facts.
Context (owner : string) (own : PairingSlot) (key target : string).
Context (lookup : gmap string PairingValidationItem) (claims already : SlotPeers).
Context (Hunique : ∀ id item, lookup !! id = Some item → unique_links item).
Context (Hclaims : ∀ slot l, claims !! slot = Some l → l ≠ []).

Lemma elem_of_complementary item d :
  d ∈ complementary own item ↔
  d ∈ pi_pairing_deps item ∧ pd_name d = pd_name own ∧ pd_tag d = pd_tag own ∧ pd_role d ≠ pd_role own.
Proof.
  unfold complementary. rewrite elem_of_retain.
  rewrite !andb_true_iff, negb_true_iff, !bool_decide_eq_true, bool_decide_eq_false. tauto.
Qed.

Lemma resolve_peer_link_ok id req item link :
  unique_links item →
  resolve_peer_link owner own key target claims already id req item = Ok link →
  ∃ d, d ∈ complementary own item ∧ pd_link_id d = link ∧ item_slot item link = Some d ∧
    (∀ l, req = Some l → link = l).
Proof.
  intros Hu Hr.
  assert (∃ d, d ∈ complementary own item ∧ pd_link_id d = link ∧ ∀ l, req = Some l → link = l)
    as (d & Hd & Hl & Hreq).
  { unfold resolve_peer_link in Hr. destruct req as [l|].
    - destruct (existsb _ _) eqn:E; [|done]. injection Hr as <-.
      apply existsb_exists in E as (d & Hd%list_elem_of_In & ?%bool_decide_eq_true).
      exists d. split; [done|]. split; [done|]. by intros ? [= <-].
    - unfold implicit_peer_link in Hr.
      destruct (List.filter _ (complementary own item)) as [|d [|? ?]] eqn:E; cbn zeta in Hr;
        [repeat case_match; done| |done].
      injection Hr as <-. exists d. split; [|done].
      assert (Hin : d ∈ List.filter (slot_open claims already id) (complementary own item))
        by (rewrite E; left). by apply elem_of_retain in Hin as [? _]. }
  exists d. split; [done|]. split; [done|]. split; [|done].
  apply item_slot_Some; [done|]. by apply elem_of_complementary in Hd as [? _].
Qed.

(** A new pair: its peer slot complements its own, both are free for it. *)
Lemma resolve_pair_new p :
  resolve_pair_declaration owner own key target lookup claims already = Some (Ok (Some p)) →
  ∃ id link peer,
    p = planned_pair owner own key id link peer ∧ slot_dep lookup (id, link) = Some peer ∧
    id = (split_link_target target).1 ∧
    (∀ l, (split_link_target target).2 = Some l → link = l) ∧
    complement_of own peer ∧
    (is_scalar (pd_cardinality own) = true → peers_of (owner, key) claims already = []) ∧
    (is_scalar (pd_cardinality peer) = true → peers_of (id, link) claims already = []) ∧
    (id, link) ∉ peers_of (owner, key) claims already ∧
    (owner, key) ∉ peers_of (id, link) claims already.
Proof.
  unfold resolve_pair_declaration. destruct (split_link_target target) as [id req]. cbn [fst snd].
  destruct (lookup !! id) as [item|] eqn:El; [|done].
  destruct (check_agreement _ _ _ _ _ _ _) as [r|] eqn:Ea.
  { unfold check_agreement in Ea. repeat case_match; simplify_eq; done. }
  destruct (if is_scalar (pd_cardinality own) then _ else _) as [[i l]|] eqn:Eal; [done|].
  destruct (resolve_peer_link _ _ _ _ _ _ _ _ _) as [link|e] eqn:Er; [|done].
  apply resolve_peer_link_ok in Er as (d & Hd & Hl & Hs & Hreq); [|by eapply Hunique].
  fold (item_slot item link). rewrite Hs. cbn [mbind option_bind].
  destruct (check_held _ _ _ _ _ _ _) as [[]|e] eqn:Eh; [|done].
  apply elem_of_complementary in Hd as (_ & Hname & Htag & Hrole).
  intros Hp. exists id, link, d.
  assert (Hpins : pins_agree own d ∧ p = planned_pair owner own key id link d).
  { cbn zeta in Hp. unfold pins_agree.
    destruct (pd_sha256 own) as [x|], (pd_sha256 d) as [y|]; simplify_eq; try done.
    case_bool_decide; cbn in Hp; simplify_eq. split; [|done]. by intros ?? [= <-] [= <-]. }
  destruct Hpins as [Hpins ->]. split; [done|]. split; [unfold slot_dep; cbn; by rewrite El|].
  split; [done|]. split; [done|]. split; [done|].
  assert (Hown : is_scalar (pd_cardinality own) = true → peers_of (owner, key) claims already = []).
  { intros Hsc. rewrite Hsc in Eal. unfold peers_of, check_agreement in *. rewrite Hsc in Ea.
    destruct (claims !! (owner, key)) as [peers|] eqn:Ec.
    - destruct (existsb _ peers); [done|]. destruct peers as [|[? ?] ?]; [by apply Hclaims in Ec|done].
    - cbn. by destruct (default [] (already !! (owner, key))) as [|[? ?] ?]. }
  split; [done|]. unfold check_held in Eh. cbn zeta in Eh.
  destruct (is_scalar (pd_cardinality d)); destruct (peers_of (id, link) claims already) as [|[? ?] ?];
    cbn [negb andb] in Eh; repeat case_bool_decide; try done; split_and!;
    first [done | by intros ? | by apply not_elem_of_nil].
Qed.
End resolve_facts.

(** ** The plan so far *)

Definition touches (p : PlannedPairing) (slot : PlanSlot) : bool :=
  bool_decide (end_slot (pl_a p) = slot) || bool_decide (end_slot (pl_b p) = slot).

Definition joins (p : PlannedPairing) (s t : PlanSlot) : bool :=
  (bool_decide (end_slot (pl_a p) = s) && bool_decide (end_slot (pl_b p) = t))
  || (bool_decide (end_slot (pl_a p) = t) && bool_decide (end_slot (pl_b p) = s)).

(** How many planned pairs hold a slot, and how many join two slots. *)
Definition planned_on (slot : PlanSlot) (l : list PlannedPairing) : nat :=
  length (List.filter (λ p, touches p slot) l).
Definition planned_between (s t : PlanSlot) (l : list PlannedPairing) : nat :=
  length (List.filter (λ p, joins p s t) l).

Lemma joins_iff p s t :
  joins p s t = true ↔
  (end_slot (pl_a p) = s ∧ end_slot (pl_b p) = t) ∨ (end_slot (pl_a p) = t ∧ end_slot (pl_b p) = s).
Proof. unfold joins. by rewrite orb_true_iff, !andb_true_iff, !bool_decide_eq_true. Qed.

Lemma touches_iff p s :
  touches p s = true ↔ end_slot (pl_a p) = s ∨ end_slot (pl_b p) = s.
Proof. unfold touches. by rewrite orb_true_iff, !bool_decide_eq_true. Qed.

Lemma filter_count_zero {A} (f : A → bool) l :
  length (List.filter f l) = 0 ↔ ∀ x, x ∈ l → f x = false.
Proof.
  induction l as [|x l IH]; cbn; [set_solver|]. destruct (f x) eqn:E; cbn.
  - split; [done|]. intros H. rewrite (H x) in E; [done|set_solver].
  - rewrite IH. set_solver.
Qed.

Lemma planned_on_snoc s l p :
  planned_on s (l ++ [p]) = planned_on s l + if touches p s then 1 else 0.
Proof. unfold planned_on. rewrite List.filter_app, length_app. cbn. by destruct (touches p s). Qed.

Lemma planned_between_snoc s t l p :
  planned_between s t (l ++ [p]) = planned_between s t l + if joins p s t then 1 else 0.
Proof. unfold planned_between. rewrite List.filter_app, length_app. cbn. by destruct (joins p s t). Qed.

Lemma planned_on_pos s t p l : p ∈ l → joins p s t = true → planned_on s l > 0.
Proof.
  intros Hp Hj. destruct (decide (planned_on s l = 0)) as [H0|]; [|lia].
  unfold planned_on in H0. rewrite filter_count_zero in H0. specialize (H0 p Hp).
  apply joins_iff in Hj. assert (touches p s = true) by (apply touches_iff; tauto). congruence.
Qed.

Section plan.
Context (lookup : gmap string PairingValidationItem) (already : SlotPeers).

(** A pair of two declared, complementary slots. *)
Definition pair_declared (p : PlannedPairing) : Prop :=
  ∃ own peer,
    slot_dep lookup (end_slot (pl_a p)) = Some own ∧ slot_dep lookup (end_slot (pl_b p)) = Some peer ∧
    complement_of own peer ∧
    p = planned_pair (pe_instance_id (pl_a p)) own (pe_link_id (pl_a p))
          (pe_instance_id (pl_b p)) (pe_link_id (pl_b p)) peer.

(** A scalar slot is in one pair, planned or held; no two slots are joined
    twice. *)
Record plan_exclusive (planned : list PlannedPairing) : Prop := {
  plan_scalar : ∀ slot d, slot_dep lookup slot = Some d → is_scalar (pd_cardinality d) = true →
    planned_on slot planned = 0 ∨
    (planned_on slot planned = 1 ∧ default [] (already !! slot) = []);
  plan_once : ∀ s t, planned_between s t planned ≤ 1;
  plan_new : ∀ s t, planned_between s t planned = 1 → t ∉ default [] (already !! s);
}.

Record plan_inv (claims : SlotPeers) (planned : list PlannedPairing) : Prop := {
  inv_claims : ∀ slot peer,
    peer ∈ default [] (claims !! slot) ↔ ∃ p, p ∈ planned ∧ joins p slot peer = true;
  inv_nonempty : ∀ slot l, claims !! slot = Some l → l ≠ [];
  inv_declared : ∀ p, p ∈ planned → pair_declared p;
  inv_exclusive : plan_exclusive planned;
}.

Lemma plan_inv_empty : plan_inv ∅ [].
Proof.
  split.
  - intros slot peer. rewrite lookup_empty. cbn. set_solver.
  - intros slot l. by rewrite lookup_empty.
  - set_solver.
  - split; [by left|cbn; lia|done].
Qed.

Lemma claims_empty claims planned slot :
  plan_inv claims planned → default [] (claims !! slot) = [] → planned_on slot planned = 0.
Proof.
  intros Hinv Hc. apply filter_count_zero. intros p Hp. apply not_true_iff_false. intros Ht.
  assert (∃ peer, joins p slot peer = true) as [peer Hj].
  { apply touches_iff in Ht as [Ht|Ht]; [exists (end_slot (pl_b p))|exists (end_slot (pl_a p))];
      apply joins_iff; auto. }
  assert (Hin : peer ∈ default [] (claims !! slot)) by (apply (inv_claims _ _ Hinv); eauto).
  rewrite Hc in Hin. set_solver.
Qed.

Lemma record_claims_lookup p claims slot :
  end_slot (pl_a p) ≠ end_slot (pl_b p) →
  record_claims p claims !! slot =
  if decide (slot = end_slot (pl_a p))
  then Some (default [] (claims !! slot) ++ [end_slot (pl_b p)])
  else if decide (slot = end_slot (pl_b p))
  then Some (default [] (claims !! slot) ++ [end_slot (pl_a p)])
  else claims !! slot.
Proof.
  intros Hne. unfold record_claims, push_peer. rewrite !lookup_insert.
  repeat case_decide; subst; try done; congruence.
Qed.

Lemma elem_of_record_claims p claims slot peer :
  end_slot (pl_a p) ≠ end_slot (pl_b p) →
  peer ∈ default [] (record_claims p claims !! slot) ↔
  peer ∈ default [] (claims !! slot) ∨ joins p slot peer = true.
Proof.
  intros Hne. rewrite joins_iff, (record_claims_lookup p claims slot Hne).
  destruct (decide (slot = end_slot (pl_a p))) as [->|H1].
  { cbn. rewrite elem_of_app, list_elem_of_singleton. naive_solver congruence. }
  destruct (decide (slot = end_slot (pl_b p))) as [->|H2].
  { cbn. rewrite elem_of_app, list_elem_of_singleton. naive_solver congruence. }
  naive_solver congruence.
Qed.

(** Adding a pair of free slots keeps the plan. *)
Lemma plan_inv_add claims planned p own peer :
  plan_inv claims planned →
  slot_dep lookup (end_slot (pl_a p)) = Some own →
  slot_dep lookup (end_slot (pl_b p)) = Some peer →
  complement_of own peer →
  p = planned_pair (pe_instance_id (pl_a p)) own (pe_link_id (pl_a p))
        (pe_instance_id (pl_b p)) (pe_link_id (pl_b p)) peer →
  (is_scalar (pd_cardinality own) = true → peers_of (end_slot (pl_a p)) claims already = []) →
  (is_scalar (pd_cardinality peer) = true → peers_of (end_slot (pl_b p)) claims already = []) →
  end_slot (pl_b p) ∉ peers_of (end_slot (pl_a p)) claims already →
  end_slot (pl_a p) ∉ peers_of (end_slot (pl_b p)) claims already →
  plan_inv (record_claims p claims) (planned ++ [p]).
Proof.
  intros Hinv Ha Hb Hcomp Hp Hsa Hsb Hab Hba.
  assert (Hne : end_slot (pl_a p) ≠ end_slot (pl_b p)).
  { intros Heq. rewrite Heq, Hb in Ha. injection Ha as ->. by destruct Hcomp as (_ & _ & ? & _). }
  assert (Hfree : ∀ slot d, slot_dep lookup slot = Some d → is_scalar (pd_cardinality d) = true →
    touches p slot = true → planned_on slot planned = 0 ∧ default [] (already !! slot) = []).
  { intros slot d Hd Hsc [<- | <-]%touches_iff.
    - rewrite Ha in Hd. injection Hd as <-. specialize (Hsa Hsc). unfold peers_of in Hsa.
      apply app_nil in Hsa as [Hc ?]. split; [by eapply claims_empty|done].
    - rewrite Hb in Hd. injection Hd as <-. specialize (Hsb Hsc). unfold peers_of in Hsb.
      apply app_nil in Hsb as [Hc ?]. split; [by eapply claims_empty|done]. }
  assert (Hnew : ∀ s t, joins p s t = true →
    planned_between s t planned = 0 ∧ t ∉ default [] (already !! s)).
  { intros s t Hj. assert (Hno : t ∉ peers_of s claims already).
    { by apply joins_iff in Hj as [[<- <-] | [<- <-]]. }
    unfold peers_of in Hno. rewrite elem_of_app, (inv_claims _ _ Hinv) in Hno. split; [|tauto].
    apply filter_count_zero. intros q Hq. apply not_true_iff_false. intros ?. apply Hno. eauto. }
  destruct (inv_exclusive _ _ Hinv) as [Hscalar Honce Hheld]. split.
  - intros slot peer'. rewrite elem_of_record_claims, (inv_claims _ _ Hinv) by done.
    setoid_rewrite elem_of_app. setoid_rewrite list_elem_of_singleton. naive_solver.
  - intros slot l. rewrite record_claims_lookup by done.
    repeat case_decide; [intros [= <-] [_ [=]]%app_nil..|apply (inv_nonempty _ _ Hinv)].
  - intros q [Hq | ->%list_elem_of_singleton]%elem_of_app; [by apply (inv_declared _ _ Hinv)|].
    by exists own, peer.
  - split.
    + intros slot d Hd Hsc. rewrite planned_on_snoc. destruct (touches p slot) eqn:Et.
      * destruct (Hfree slot d Hd Hsc Et) as [-> ->]. by right.
      * rewrite Nat.add_0_r. by apply (Hscalar slot d).
    + intros s t. rewrite planned_between_snoc. destruct (joins p s t) eqn:Ej.
      * destruct (Hnew s t Ej) as [-> _]. lia.
      * rewrite Nat.add_0_r. apply Honce.
    + intros s t. rewrite planned_between_snoc. destruct (joins p s t) eqn:Ej.
      * by destruct (Hnew s t Ej).
      * rewrite Nat.add_0_r. apply Hheld.
Qed.
End plan.

(** ** The whole plan *)

Section lookup.
Context (items : list PairingValidationItem).

Lemma plan_lookup_some id item :
  plan_instance_lookup items !! id = Some item →
  ∃ instance, (instance, item) ∈ plan_deployed items ∧ di_instance_id instance = id.
Proof.
  unfold plan_instance_lookup. intros Hm.
  eapply (fold_keep_first (λ e, di_instance_id e.1) snd) in Hm as [Hm|([instance it] & ? & <- & <-)].
  - by rewrite lookup_empty in Hm.
  - by exists instance.
  - by intros m [].
Qed.

Context (Hids : NoDup (map (λ e, di_instance_id e.1) (plan_deployed items))).

Lemma plan_lookup_deployed instance item :
  (instance, item) ∈ plan_deployed items →
  plan_instance_lookup items !! di_instance_id instance = Some item.
Proof.
  intros Hin. destruct (plan_instance_lookup items !! di_instance_id instance) as [item'|] eqn:E.
  - apply plan_lookup_some in E as (instance' & Hin' & Heq).
    assert (Hpair : (instance', item') = (instance, item)).
    { by apply (NoDup_map_inj (λ e, di_instance_id e.1) (plan_deployed items)). }
    congruence.
  - exfalso. revert E Hin. clear Hids. unfold plan_instance_lookup. set (step := λ m '(instance, item), _).
    assert (Hkeep : ∀ l m k, is_Some (m !! k) → is_Some (fold_left step l m !! k)).
    { induction l as [|[i it] l IH]; intros m k Hm; cbn [fold_left]; [done|]. apply IH. cbn [step].
      destruct (m !! di_instance_id i); [done|]. rewrite lookup_insert_is_Some.
      destruct (decide (di_instance_id i = k)); auto. }
    generalize (∅ : gmap string PairingValidationItem).
    induction (plan_deployed items) as [|[i it] l IH]; intros m Hn; [set_solver|].
    cbn [fold_left] in Hn. intros [[= -> ->]|Hin]%elem_of_cons; [|by eapply IH].
    assert (Hs : is_Some (fold_left step l (step m (i, it)) !! di_instance_id i)); [|by rewrite Hn in Hs; destruct Hs].
    apply Hkeep. cbn [step]. destruct (m !! di_instance_id i) eqn:E; [by rewrite E|].
    rewrite lookup_insert_eq. eauto.
Qed.

Context (Hlinks : ∀ item, item ∈ items → unique_links item).

Lemma deployed_item instance item : (instance, item) ∈ plan_deployed items → item ∈ items.
Proof.
  unfold plan_deployed. intros (it & Hit & Hin)%elem_of_flat_map.
  by apply elem_of_map in Hin as (? & [= _ ->] & _).
Qed.

Lemma plan_lookup_links id item : plan_instance_lookup items !! id = Some item → unique_links item.
Proof. intros (? & Hin & _)%plan_lookup_some. by eapply Hlinks, deployed_item. Qed.

(** A pair a planned instance declares, in a shape its slot takes. *)
Definition declares (instance : DeploymentInstance) (item : PairingValidationItem) (dep : PairingSlot)
    (target : string) : Prop :=
  (instance, item) ∈ plan_deployed items ∧ pi_preexisting item = false ∧
  dep ∈ pi_pairing_deps item ∧
  ∃ selection, di_links instance !! pd_link_id dep = Some (Bound selection) ∧
    check_cardinality_shape (pd_cardinality dep) selection = Ok tt ∧
    target ∈ selection_targets selection.

Lemma slots_by_link_spec item k d :
  item ∈ items → slots_by_link (pi_pairing_deps item) !! k = Some d ↔
  d ∈ pi_pairing_deps item ∧ pd_link_id d = k.
Proof. intros Hin. apply fold_insert_lookup. by apply Hlinks. Qed.

Lemma elem_of_declaration_results r :
  r ∈ declaration_results items ↔
  ∃ instance item key value, (instance, item) ∈ plan_deployed items ∧ pi_preexisting item = false ∧
    di_links instance !! key = Some value ∧
    r = link_declarations (slots_by_link (pi_pairing_deps item)) instance (key, value).
Proof.
  unfold declaration_results. rewrite elem_of_flat_map. split.
  - intros (item & [Hin Hp]%elem_of_retain & Hr). apply negb_true_iff in Hp. cbn zeta in Hr.
    apply elem_of_flat_map in Hr as (instance & Hi & Hr).
    apply elem_of_map in Hr as ([key value] & -> & Hkv%elem_of_btree_iter).
    exists instance, item, key, value. split; [|done]. unfold plan_deployed. apply elem_of_flat_map.
    exists item. split; [done|]. apply elem_of_map. eauto.
  - intros (instance & item & key & value & Hin & Hp & Hl & ->). exists item.
    unfold plan_deployed in Hin. apply elem_of_flat_map in Hin as (it & Hit & Hin).
    apply elem_of_map in Hin as (? & [= <- <-] & Hi). split.
    { apply elem_of_retain. by rewrite Hp. }
    apply elem_of_flat_map. exists instance. split; [done|]. apply elem_of_map.
    exists (key, value). by rewrite elem_of_btree_iter.
Qed.

Lemma elem_of_declarations d :
  d ∈ declarations items ↔
  ∃ instance item, declares instance item (decl_dep d) (decl_target d) ∧
    decl_owner d = di_instance_id instance ∧ decl_key d = pd_link_id (decl_dep d).
Proof.
  unfold declarations. rewrite stable_sort_perm. rewrite list_elem_of_join. unfold oks.
  setoid_rewrite list_elem_of_omap. split.
  - intros (ds & Hd & r & Hr & Hok). destruct r as [ds'|]; [|done]. injection Hok as ->.
    apply elem_of_declaration_results in Hr as (instance & item & key & value & Hin & Hp & Hl & Hr).
    assert (Hit := deployed_item _ _ Hin). unfold link_declarations in Hr.
    destruct (slots_by_link (pi_pairing_deps item) !! key) as [dep|] eqn:Ed; [|by simplify_eq; set_solver].
    apply (slots_by_link_spec item) in Ed as [Hdep <-]; [|done].
    destruct value as [selection|]; cbn [value_selection] in Hr; [|by simplify_eq; set_solver].
    destruct (check_cardinality_shape _ _) as [[]|] eqn:Ec; [|done]. injection Hr as ->.
    apply elem_of_map in Hd as (t & -> & Ht). cbn. exists instance, item. split; [|done].
    split; [done|]. split; [done|]. split; [done|]. eauto.
  - intros (instance & item & (Hin & Hp & Hdep & selection & Hl & Hc & Ht) & Ho & Hk).
    assert (Hit := deployed_item _ _ Hin).
    exists (map (mkPairDeclaration (di_instance_id instance) (decl_dep d) (pd_link_id (decl_dep d)))
      (selection_targets selection)). split.
    { apply elem_of_map. exists (decl_target d). split; [|done]. destruct d. cbn in *. congruence. }
    eexists. split; [apply elem_of_declaration_results; eauto 10|].
    unfold link_declarations. rewrite (proj2 (slots_by_link_spec item _ (decl_dep d) Hit)) by done.
    cbn [value_selection]. by rewrite Hc.
Qed.

Lemma declared_slot_dep instance item dep target :
  declares instance item dep target →
  slot_dep (plan_instance_lookup items) (di_instance_id instance, pd_link_id dep) = Some dep.
Proof.
  intros (Hin & _ & Hdep & _). unfold slot_dep. cbn [fst snd].
  rewrite (plan_lookup_deployed _ _ Hin). cbn. apply item_slot_Some; [|done].
  by eapply Hlinks, deployed_item.
Qed.
End lookup.

(** What a run of the loop leaves. *)
Section run.
Context (items : list PairingValidationItem) (already : SlotPeers).
Context (Hids : NoDup (map (λ e, di_instance_id e.1) (plan_deployed items))).
Context (Hlinks : ∀ item, item ∈ items → unique_links item).
Let lookup := plan_instance_lookup items.

(** Some pair of the plan fulfils a declaration. *)
Definition fulfilled (planned : list PlannedPairing) (d : PairDeclaration) : Prop :=
  ∃ p link, p ∈ planned ∧
    joins p (decl_owner d, decl_key d) ((split_link_target (decl_target d)).1, link) = true ∧
    ∀ l, (split_link_target (decl_target d)).2 = Some l → link = l.

Lemma resolve_pair_agreed owner own key target claims :
  resolve_pair_declaration owner own key target lookup claims already = Some (Ok None) →
  ∃ link, ((split_link_target target).1, link) ∈ default [] (claims !! (owner, key)) ∧
    ∀ l, (split_link_target target).2 = Some l → link = l.
Proof.
  unfold resolve_pair_declaration. destruct (split_link_target target) as [id req]. cbn [fst snd].
  destruct (lookup !! id) as [item|]; [|done].
  destruct (check_agreement _ _ _ _ _ _ _) as [r|] eqn:Ea.
  - intros [= ->]. unfold check_agreement in Ea. destruct (claims !! (owner, key)) as [peers|]; [|done].
    destruct (existsb _ peers) eqn:Ex; [|by repeat case_match].
    apply existsb_exists in Ex as ([inst link] & Hin%list_elem_of_In & [Hi Hl]%andb_true_iff).
    apply bool_decide_eq_true in Hi as ->. exists link. split; [done|]. intros l ->.
    by apply bool_decide_eq_true in Hl.
  - repeat case_match; intros; simplify_eq; try done;
      match goal with E : _ ≫= _ = Some _ |- _ => apply bind_Some in E as (? & _ & E) end;
      repeat case_match; simplify_eq.
Qed.

Lemma resolve_pair_total owner own key target claims :
  is_Some (resolve_pair_declaration owner own key target lookup claims already).
Proof.
  unfold resolve_pair_declaration. destruct (split_link_target target) as [id req].
  destruct (lookup !! id) as [item|] eqn:El; [|eauto].
  destruct (check_agreement _ _ _ _ _ _ _); [eauto|].
  destruct (if is_scalar _ then _ else _) as [[? ?]|]; [eauto|].
  destruct (resolve_peer_link _ _ _ _ _ _ _ _ _) as [link|] eqn:Er; [|eauto].
  apply resolve_peer_link_ok in Er as (d & _ & _ & Hs & _); [|by eapply plan_lookup_links].
  fold (item_slot item link). rewrite Hs. cbn. eauto.
Qed.

Lemma plan_declarations l claims errors planned :
  (∀ d, d ∈ l → slot_dep lookup (decl_owner d, decl_key d) = Some (decl_dep d)) →
  plan_inv lookup already claims planned →
  ∃ st, fold_option (plan_declaration lookup already) l (mkPlanState claims errors planned) = Some st ∧
    plan_inv lookup already (ps_claims st) (ps_planned st) ∧ planned `prefix_of` ps_planned st ∧
    (ps_errors st = [] → errors = [] ∧ ∀ d, d ∈ l → fulfilled (ps_planned st) d).
Proof.
  revert claims errors planned. induction l as [|d l IH]; intros claims errors planned Hdep Hinv.
  { eexists. split; [reflexivity|]. split; [done|]. split; [done|]. intros He. split; [done|set_solver]. }
  destruct (resolve_pair_total (decl_owner d) (decl_dep d) (decl_key d) (decl_target d) claims) as [r Hr].
  assert (Hstep : plan_declaration lookup already (mkPlanState claims errors planned) d =
    Some match r with
         | Ok (Some p) => mkPlanState (record_claims p claims) errors (planned ++ [p])
         | Ok None => mkPlanState claims errors planned
         | Err e => mkPlanState claims (errors ++ [e]) planned
         end) by (unfold plan_declaration; cbn [ps_claims ps_errors ps_planned]; by rewrite Hr).
  cbn [fold_option]. rewrite Hstep. cbn [mbind option_bind]. clear Hstep.
  assert (Hdep' : ∀ d', d' ∈ l → slot_dep lookup (decl_owner d', decl_key d') = Some (decl_dep d'))
    by set_solver.
  destruct r as [[p|]|e].
  - assert (Hr' := Hr). apply resolve_pair_new in Hr' as
      (id & link & peer & -> & Hpeer & Hid & Hreq & Hcomp & Hs1 & Hs2 & Hn1 & Hn2);
      [|intros ???; by eapply plan_lookup_links|apply (inv_nonempty _ _ _ _ Hinv)].
    set (p := planned_pair _ _ _ _ _ _) in *.
    assert (Hinv' : plan_inv lookup already (record_claims p claims) (planned ++ [p])).
    { eapply plan_inv_add; try done. apply Hdep. left. }
    destruct (IH _ errors _ Hdep' Hinv') as (st & Hst & Hfin & Hpre & Herr). exists st. split; [done|].
    split; [done|]. split; [etrans; [|done]; by apply prefix_app_r|]. intros He.
    destruct (Herr He) as [-> Hf]. split; [done|]. intros d' [->|Hd']%elem_of_cons; [|by apply Hf].
    exists p, link. split; [eapply elem_of_prefix; [|done]; set_solver|]. split; [|done].
    apply joins_iff. left. rewrite <-Hid. done.
  - destruct (IH claims errors planned Hdep' Hinv) as (st & Hst & Hfin & Hpre & Herr). exists st.
    split; [done|]. split; [done|]. split; [done|]. intros He. destruct (Herr He) as [-> Hf].
    split; [done|]. intros d' [->|Hd']%elem_of_cons; [|by apply Hf].
    apply resolve_pair_agreed in Hr as (link & Hin & Hreq).
    apply (inv_claims _ _ _ _ Hinv) in Hin as (p & Hp & Hj). exists p, link.
    split; [by eapply elem_of_prefix|done].
  - destruct (IH claims (errors ++ [e]) planned Hdep' Hinv) as (st & Hst & Hfin & Hpre & Herr).
    exists st. split; [done|]. split; [done|]. split; [done|]. intros He.
    destruct (Herr He) as [[_ [=]]%app_nil _].
Qed.

(** A slot the coverage check lets through. *)
Lemma coverage_planned claims planned externally_covered instance item dep :
  plan_inv lookup already claims planned → validate_coverage items claims externally_covered = [] →
  (instance, item) ∈ plan_deployed items → pi_preexisting item = false → dep ∈ pi_pairing_deps item →
  allows_empty (pd_cardinality dep) = false →
  planned_on (di_instance_id instance, pd_link_id dep) planned > 0 ∨
  (di_instance_id instance, pd_link_id dep) ∈ externally_covered ∨
  ∃ reason, di_links instance !! pd_link_id dep = Some (Vacant reason).
Proof.
  intros Hinv Hcov Hin Hpre Hdep Hne. unfold validate_coverage in Hcov.
  apply elem_of_flat_map in Hin as (it & Hit & Hin). apply elem_of_map in Hin as (? & [= <- <-] & Hi).
  rewrite flat_map_nil in Hcov. specialize (Hcov item ltac:(apply elem_of_retain; by rewrite Hpre)).
  rewrite flat_map_nil in Hcov. specialize (Hcov instance Hi).
  rewrite flat_map_nil in Hcov. specialize (Hcov dep Hdep). cbn beta in Hcov. rewrite Hne in Hcov.
  destruct (slot_covered _ _ _ _) eqn:Es; [|done]. unfold slot_covered in Es. cbn zeta in Es.
  apply orb_true_iff in Es as [Es|Hv]; [apply orb_true_iff in Es as [Hc|Hx%bool_decide_eq_true]|];
    [left|by right; left|right; right].
  - destruct (claims !! _) as [[|peer l]|] eqn:Ec; [by apply (inv_nonempty _ _ _ _ Hinv) in Ec| |done].
    destruct (proj1 (inv_claims _ _ _ _ Hinv (di_instance_id instance, pd_link_id dep) peer))
      as (p & Hp & Hj); [rewrite Ec; left|].
    by eapply planned_on_pos.
  - destruct (di_links instance !! pd_link_id dep) as [[]|]; try done. eauto.
Qed.

Lemma validate_pairings_run externally_covered :
  ∃ st, validate_pairings items already externally_covered =
      Some (mkValidatedPairings
        (ps_errors st ++ validate_coverage items (ps_claims st) externally_covered) (ps_planned st)) ∧
    plan_inv lookup already (ps_claims st) (ps_planned st) ∧
    (ps_errors st = [] → errs (declaration_results items) = [] ∧
       ∀ d, d ∈ declarations items → fulfilled (ps_planned st) d).
Proof.
  assert (Hdep : ∀ d, d ∈ declarations items →
    slot_dep lookup (decl_owner d, decl_key d) = Some (decl_dep d)).
  { intros d Hin. apply elem_of_declarations in Hin as (instance & item & Hd & -> & ->); [|done..].
    by eapply declared_slot_dep. }
  destruct (plan_declarations (declarations items) ∅ (errs (declaration_results items)) [] Hdep
    (plan_inv_empty _ _)) as (st & Hst & Hinv & _ & Herr).
  exists st. unfold validate_pairings. fold lookup. rewrite Hst. done.
Qed.
End run.

(** C37: the pairing validator always returns, on a plan whose instance ids and
    slot ids are unique. Whatever was declared, every pair it plans joins two
    declared slots of one pairing, in opposite roles and with agreeing pins; a
    scalar slot is in one pair at most, counting those that are already held;
    and no two slots are joined twice, in the plan or with a pair held. *)
Theorem pair_plan_exclusive (items : list PairingValidationItem) (already : SlotPeers)
    (externally_covered : gset PlanSlot)
    (Hids : NoDup (map (λ e, di_instance_id e.1) (plan_deployed items)))
    (Hlinks : ∀ item, item ∈ items → unique_links item) :
  ∃ out, validate_pairings items already externally_covered = Some out ∧
    (∀ p, p ∈ vp_planned out → pair_declared (plan_instance_lookup items) p) ∧
    plan_exclusive (plan_instance_lookup items) already (vp_planned out).
Proof.
  destruct (validate_pairings_run items already Hids Hlinks externally_covered) as (st & -> & Hinv & _).
  eexists. split; [reflexivity|]. cbn. destruct Hinv. done.
Qed.

(** A plan without errors leaves nothing out: each pair an instance declares
    is planned, with the slot it names when it names one; and each slot of a
    planned instance that may not be empty is in a planned pair, covered
    outside the plan, or written vacant. *)
Lemma pair_plan_complete (items : list PairingValidationItem) (already : SlotPeers)
    (externally_covered : gset PlanSlot) (out : ValidatedPairings)
    (Hids : NoDup (map (λ e, di_instance_id e.1) (plan_deployed items)))
    (Hlinks : ∀ item, item ∈ items → unique_links item)
    (Hout : validate_pairings items already externally_covered = Some out)
    (Hok : vp_errors out = []) :
  (∀ instance item dep target, declares items instance item dep target →
     ∃ p link, p ∈ vp_planned out ∧
       joins p (di_instance_id instance, pd_link_id dep) ((split_link_target target).1, link) = true ∧
       ∀ l, (split_link_target target).2 = Some l → link = l) ∧
  (∀ instance item dep, (instance, item) ∈ plan_deployed items → pi_preexisting item = false →
     dep ∈ pi_pairing_deps item → allows_empty (pd_cardinality dep) = false →
     planned_on (di_instance_id instance, pd_link_id dep) (vp_planned out) > 0 ∨
     (di_instance_id instance, pd_link_id dep) ∈ externally_covered ∨
     ∃ reason, di_links instance !! pd_link_id dep = Some (Vacant reason)).
Proof.
  destruct (validate_pairings_run items already Hids Hlinks externally_covered)
    as (st & Hst & Hinv & Herr).
  rewrite Hst in Hout. injection Hout as <-. cbn [vp_errors vp_planned] in *. apply app_nil in Hok as [He Hcov].
  destruct (Herr He) as [_ Hful]. split.
  - intros instance item dep target Hdecl.
    set (d := mkPairDeclaration (di_instance_id instance) dep (pd_link_id dep) target).
    apply (Hful d). apply elem_of_declarations; [done|done|]. exists instance, item. done.
  - intros instance item dep Hin Hpre Hdep Hne. by eapply coverage_planned.
Qed.

(** ** A plan *)

(** A controller that declares its arm; the arm declares nothing. *)
Definition example_ctrl_slot : PairingSlot := mkPairingSlot "arm_link" "v1" "controller" "arm" None One.
Definition example_arm_slot : PairingSlot := mkPairingSlot "arm_link" "v1" "arm" "ctl" None One.
Definition example_ctrl : DeploymentInstance :=
  mkDeploymentInstance "ctrl_1" None {[ "arm" := Bound (Scalar "arm_1") ]} None.
Definition example_pair_items : list PairingValidationItem :=
  [mkPairingValidationItem "ctrl" "v1" [example_ctrl] [example_ctrl_slot] [] false;
   mkPairingValidationItem "arm" "v1" [DeploymentInstance_empty "arm_1"] [example_arm_slot] [] false].

Definition example_plan : ValidatedPairings :=
  mkValidatedPairings []
    [planned_pair "ctrl_1" example_ctrl_slot "arm" "arm_1" "ctl" example_arm_slot].

Lemma example_pair_links item : item ∈ example_pair_items → unique_links item.
Proof.
  intros [->|[->|?%elem_of_nil]%elem_of_cons]%elem_of_cons; [..|done];
    apply (bool_decide_unpack _); vm_compute; exact I.
Qed.

Lemma pair_plan_exclusive_witness :
  plan_exclusive (plan_instance_lookup example_pair_items) ∅ (vp_planned example_plan) ∧
  (* the arm is taken by a pair of the running stack *)
  vp_planned <$> validate_pairings example_pair_items
    {[ ("arm_1", "ctl") := [("other", "arm")] ]} ∅ = Some [].
Proof.
  split; [|vm_compute; reflexivity].
  destruct (pair_plan_exclusive example_pair_items ∅ ∅) as (out & Hout & _ & Hex).
  - apply (bool_decide_unpack _). vm_compute. exact I.
  - exact example_pair_links.
  - assert (Hv : validate_pairings example_pair_items ∅ ∅ = Some example_plan)
      by (vm_compute; reflexivity).
    rewrite Hv in Hout. injection Hout as <-. exact Hex.
Defined.

Lemma pair_plan_complete_witness :
  planned_on ("arm_1", "ctl") (vp_planned example_plan) > 0 ∨ ("arm_1", "ctl") ∈ (∅ : gset PlanSlot) ∨
  ∃ reason, di_links (DeploymentInstance_empty "arm_1") !! "ctl" = Some (Vacant reason).
Proof.
  apply (proj2 (pair_plan_complete example_pair_items ∅ ∅ example_plan
    ltac:(apply (bool_decide_unpack _); vm_compute; exact I) example_pair_links
    ltac:(vm_compute; reflexivity) eq_refl) (DeploymentInstance_empty "arm_1")
    (mkPairingValidationItem "arm" "v1" [DeploymentInstance_empty "arm_1"] [example_arm_slot] [] false)
    example_arm_slot).
  - right. left.
  - reflexivity.
  - left.
  - reflexivity.
Defined.
