(* ===== verification/ObservePlan.v ===== *)
(** * Planned observations

    [daemon-config-internal/src/launcher/observations.rs]: the sources each
    observer slot of a plan taps, and every rule a link breaks. *)

From S2P Require Import Prelude Names RestartPolicy Config PairingRegistry Supervision LaunchTypes PairPlan.
#[local] Open Scope peppy_scope.
Import Parsing.

Record PlannedObservation : Type := mkPlannedObservation {
  po_observer_instance_id : string;
  po_observer_link_id : string;
  po_pairing_name : string;
  po_pairing_tag : string;
  po_observed_role : string;
  po_source : ProducerRef;
  po_source_link_id : string;
  po_peer : option (ProducerRef * string);
}.

Definition observation_target (o : PlannedObservation) : ObservationTarget :=
  mkObservationTarget (po_source o) (po_source_link_id o) (po_peer o).

Record ValidatedObservations : Type := mkValidatedObservations {
  vo_errors : list ParsingError;
  vo_planned : list PlannedObservation;
}.

(** The plan's pairs, from both ends, after those already held. *)
Definition observable_pairs (planned : list PlannedPairing) (already_paired : SlotPeers) : SlotPeers :=
  fold_left
    (λ pairs p,
       push_peer (end_slot (pl_b p)) (end_slot (pl_a p))
         (push_peer (end_slot (pl_a p)) (end_slot (pl_b p)) pairs))
    planned already_paired.

Definition observation_shape_error (violation : CardinalityShapeViolation) (owner_id key : string) :
    ParsingError :=
  match violation with
  | ArrayOnScalarSlot c => ObservationArrayOnScalarSlot owner_id key c
  | ScalarOnMultiSlot c => ObservationScalarOnMultiSlot owner_id key c
  | Unmet => ObservationCardinalityUnmet owner_id key
  | SingleSlotMultipleTargets c n => ObservationSingleSlotMultipleTargets owner_id key c n
  end.

Section resolve.
Context (owner_id : string) (own_dep : PairingSlot) (key : string).
Context (lookup : gmap string PairingValidationItem) (placements : Placements) (pairs : SlotPeers).

Definition on_pairing (item : PairingValidationItem) : list PairingSlot :=
  List.filter
    (λ dep, bool_decide (pd_name dep = pd_name own_dep) && bool_decide (pd_tag dep = pd_tag own_dep))
    (pi_pairing_deps item).

(** The end of the pairing a target names. *)
Definition observed_end (target_instance : string) (requested_link : option string)
    (target_item : PairingValidationItem) : result ParsingError PairingSlot :=
  let not_observable :=
    ObservationTargetNotObservable owner_id key target_instance (pi_node_name target_item)
      (pi_node_tag target_item) (pd_name own_dep) (pd_tag own_dep) (pd_role own_dep) in
  match requested_link with
  | Some link =>
      ok_or (List.find (λ dep, bool_decide (pd_link_id dep = link)) (on_pairing target_item))
        not_observable
  | None =>
      let '(sources, far_ends) :=
        partition_list (λ dep, bool_decide (pd_role dep = pd_role own_dep)) (on_pairing target_item) in
      match (match sources with [] => far_ends | _ => sources end) with
      | [] => Err not_observable
      | [single] => Ok single
      | (first :: _) as several =>
          Err (ObservationTargetAmbiguous owner_id key target_instance (pd_name own_dep)
                 (pd_tag own_dep) (pd_role first) (String.concat ", " (map pd_link_id several)))
      end
  end.

(** The source an end names, with its pin and the pair's other end: the end
    itself, or the peer of the one pair the end holds. *)
Definition observed_source (target_instance : string) (e : PairingSlot) :
    result ParsingError (string * string * option string * option (ProducerRef * string)) :=
  if bool_decide (pd_role e = pd_role own_dep)
  then Ok (target_instance, pd_link_id e, pd_sha256 e, None)
  else
    match default [] (pairs !! (target_instance, pd_link_id e)) with
    | [] =>
        Err (ObservationTargetUnpaired owner_id key target_instance (pd_link_id e) (pd_role e)
               (pd_name own_dep) (pd_tag own_dep) (pd_role own_dep))
    | [(peer_instance, peer_link_id)] =>
        Ok (peer_instance, peer_link_id,
            item ← lookup !! peer_instance; dep ← item_slot item peer_link_id; pd_sha256 dep,
            Some (mkProducerRef (core_node_of placements target_instance) target_instance,
                  pd_link_id e))
    | several =>
        Err (ObservationTargetHoldsSeveralPairs owner_id key target_instance (pd_link_id e)
               (length several)
               (String.concat ", " (map (λ '(i, l), target_label i l) several)))
    end.

Definition resolve_observation (target : string) : result ParsingError PlannedObservation :=
  let '(target_instance, requested_link) := split_link_target target in
  match lookup !! target_instance with
  | None => Err (UnknownInstanceId owner_id key target_instance)
  | Some target_item =>
      e ← observed_end target_instance requested_link target_item;
      '(source_instance, source_link_id, source_sha, peer) ← observed_source target_instance e;
      let planned :=
        mkPlannedObservation owner_id key (pd_name own_dep) (pd_tag own_dep) (pd_role own_dep)
          (mkProducerRef (core_node_of placements source_instance) source_instance)
          source_link_id peer in
      match pd_sha256 own_dep, source_sha with
      | Some sha_own, Some sha_source =>
          if negb (bool_decide (sha_own = sha_source))
          then Err (PairingSha256Mismatch owner_id sha_own source_instance sha_source
                      (pd_name own_dep) (pd_tag own_dep))
          else Ok planned
      | _, _ => Ok planned
      end
  end.

(** The first observation that repeats one, then the first pair of a slot that
    is observed whole. *)
Definition observation_overlap (planned : list PlannedObservation) : option PlannedObservation :=
  match first_duplicate (map observation_target planned) with
  | Some t => List.find (λ o, bool_decide (observation_target o = t)) planned
  | None =>
      let whole_slots :=
        map (λ o, (po_source o, po_source_link_id o))
          (List.filter (λ o, bool_decide (po_peer o = None)) planned) in
      List.find
        (λ o, negb (bool_decide (po_peer o = None))
              && bool_decide ((po_source o, po_source_link_id o) ∈ whole_slots))
        planned
  end.

Definition resolve_observation_slot (selection : Selection) :
    result (list ParsingError) (list PlannedObservation) :=
  match check_cardinality_shape (pd_cardinality own_dep) selection with
  | Err violation => Err [observation_shape_error violation owner_id key]
  | Ok _ =>
      let results := map resolve_observation (selection_targets selection) in
      match errs results with
      | [] =>
          match observation_overlap (oks results) with
          | Some o =>
              Err [DuplicateObservationTarget owner_id key (instance_id (po_source o))
                     (po_source_link_id o)]
          | None => Ok (oks results)
          end
      | errors => Err errors
      end
  end.
End resolve.

(** Rule 6. *)
Definition observer_covered (instance : DeploymentInstance) (observer : PairingSlot) : bool :=
  match di_links instance !! pd_link_id observer with
  | Some value =>
      opt_is_some (value_selection value) || bool_decide (pd_cardinality observer = ZeroOrOne)
  | None => false
  end.

Definition observation_coverage (instance : DeploymentInstance) (item : PairingValidationItem) :
    list ParsingError :=
  flat_map
    (λ observer,
       if observer_covered instance observer || allows_empty (pd_cardinality observer) then []
       else [ObservationSlotUncovered (di_instance_id instance) (pd_link_id observer)
               (pd_name observer) (pd_tag observer) (pd_role observer) (pd_cardinality observer)])
    (pi_observer_deps item).

(** The links of one instance, then its coverage. *)
Definition observe_instance (lookup : gmap string PairingValidationItem) (placements : Placements)
    (pairs : SlotPeers) (item : PairingValidationItem) (out : ValidatedObservations)
    (instance : DeploymentInstance) : ValidatedObservations :=
  let observers := slots_by_link (pi_observer_deps item) in
  let out :=
    fold_left
      (λ out '(key, value),
         match observers !! key, value_selection value with
         | Some own_dep, Some selection =>
             match resolve_observation_slot (di_instance_id instance) own_dep key lookup placements
                     pairs selection with
             | Ok planned => mkValidatedObservations (vo_errors out) (vo_planned out ++ planned)
             | Err errors => mkValidatedObservations (vo_errors out ++ errors) (vo_planned out)
             end
         | _, _ => out
         end)
      (btree_iter (di_links instance)) out in
  mkValidatedObservations (vo_errors out ++ observation_coverage instance item) (vo_planned out).

Definition validate_observations (items : list PairingValidationItem) (placements : Placements)
    (pairs : SlotPeers) : ValidatedObservations :=
  fold_left
    (λ out item,
       fold_left (observe_instance (plan_instance_lookup items) placements pairs item)
         (pi_instances item) out)
    (List.filter (λ item, negb (pi_preexisting item)) items) (mkValidatedObservations [] []).

(** ** The loops as concatenations *)

Section flat.
Context (items : list PairingValidationItem) (placements : Placements) (pairs : SlotPeers).
Let lookup := plan_instance_lookup items.

(** The instances of the plan that were not running before it. *)
Definition starting (items : list PairingValidationItem) :
    list (DeploymentInstance * PairingValidationItem) :=
  flat_map (λ item, map (λ instance, (instance, item)) (pi_instances item))
    (List.filter (λ item, negb (pi_preexisting item)) items).

Lemma elem_of_starting instance item :
  (instance, item) ∈ starting items ↔
  (instance, item) ∈ plan_deployed items ∧ pi_preexisting item = false.
Proof.
  unfold starting, plan_deployed. rewrite !elem_of_flat_map. setoid_rewrite elem_of_map.
  setoid_rewrite elem_of_retain. setoid_rewrite negb_true_iff. naive_solver.
Qed.

(** What one link of an instance resolves to. *)
Definition slot_result (instance : DeploymentInstance) (item : PairingValidationItem)
    (entry : string * LinkValue) : result (list ParsingError) (list PlannedObservation) :=
  match slots_by_link (pi_observer_deps item) !! entry.1, value_selection entry.2 with
  | Some own_dep, Some selection =>
      resolve_observation_slot (di_instance_id instance) own_dep entry.1 lookup placements pairs selection
  | _, _ => Ok []
  end.

Definition ok_of {E A} (r : result E (list A)) : list A := match r with Ok l => l | Err _ => [] end.
Definition err_of {E A} (r : result (list E) A) : list E := match r with Ok _ => [] | Err l => l end.

Definition instance_planned (e : DeploymentInstance * PairingValidationItem) : list PlannedObservation :=
  flat_map (λ kv, ok_of (slot_result e.1 e.2 kv)) (btree_iter (di_links e.1)).
Definition instance_errors (e : DeploymentInstance * PairingValidationItem) : list ParsingError :=
  flat_map (λ kv, err_of (slot_result e.1 e.2 kv)) (btree_iter (di_links e.1))
  ++ observation_coverage e.1 e.2.

Lemma observe_instance_flat item out instance :
  observe_instance lookup placements pairs item out instance =
  mkValidatedObservations (vo_errors out ++ instance_errors (instance, item))
    (vo_planned out ++ instance_planned (instance, item)).
Proof.
  unfold observe_instance, instance_errors, instance_planned. cbn [fst snd].
  set (step := λ out '(key, value), _).
  assert (Hstep : ∀ out kv, step out kv =
    mkValidatedObservations (vo_errors out ++ err_of (slot_result instance item kv))
      (vo_planned out ++ ok_of (slot_result instance item kv))).
  { intros [e p] [key value]. unfold step, slot_result. cbn [fst snd vo_errors vo_planned].
    destruct (slots_by_link _ !! key) as [dep|]; [|by cbn; rewrite !app_nil_r].
    destruct (value_selection value) as [sel|]; [|by cbn; rewrite !app_nil_r].
    destruct (resolve_observation_slot _ _ _ _ _ _ _); cbn; by rewrite !app_nil_r. }
  assert (Hgen : ∀ l out, fold_left step l out =
    mkValidatedObservations (vo_errors out ++ flat_map (λ kv, err_of (slot_result instance item kv)) l)
      (vo_planned out ++ flat_map (λ kv, ok_of (slot_result instance item kv)) l)).
  { induction l as [|kv l IH]; intros out'; cbn [fold_left flat_map].
    { rewrite !app_nil_r. by destruct out'. }
    rewrite IH, Hstep. cbn [vo_errors vo_planned]. by rewrite <-!app_assoc. }
  rewrite Hgen. cbn. by rewrite app_assoc.
Qed.

Lemma validate_observations_flat :
  validate_observations items placements pairs =
  mkValidatedObservations (flat_map instance_errors (starting items))
    (flat_map instance_planned (starting items)).
Proof.
  unfold validate_observations. fold lookup.
  assert (Hin : ∀ item l out,
    fold_left (observe_instance lookup placements pairs item) l out =
    mkValidatedObservations
      (vo_errors out ++ flat_map instance_errors (map (λ i, (i, item)) l))
      (vo_planned out ++ flat_map instance_planned (map (λ i, (i, item)) l))).
  { intros item. induction l as [|i l IH]; intros out; cbn [fold_left map flat_map].
    { rewrite !app_nil_r. by destruct out. }
    rewrite IH, observe_instance_flat. cbn. by rewrite <-!app_assoc. }
  assert (Hgen : ∀ l out,
    fold_left (λ out item, fold_left (observe_instance lookup placements pairs item) (pi_instances item) out)
      l out =
    mkValidatedObservations
      (vo_errors out ++ flat_map instance_errors
         (flat_map (λ item, map (λ i, (i, item)) (pi_instances item)) l))
      (vo_planned out ++ flat_map instance_planned
         (flat_map (λ item, map (λ i, (i, item)) (pi_instances item)) l))).
  { induction l as [|item l IH]; intros out; cbn [fold_left flat_map].
    { rewrite !app_nil_r. by destruct out. }
    rewrite IH, Hin. cbn. by rewrite !flat_map_app, <-!app_assoc. }
  apply Hgen.
Qed.
End flat.

(** ** What a plan of observations is *)

Section spec.
Context (items : list PairingValidationItem) (placements : Placements) (pairs : SlotPeers).
Let lookup := plan_instance_lookup items.

Definition same_pairing (a b : PairingSlot) : Prop := pd_name a = pd_name b ∧ pd_tag a = pd_tag b.

(** The end of the pairing a target names. With a link it is the slot of that
    name. Without one it is the only slot of its role, and it plays the other
    role only on an instance that plays the observed role through no slot. *)
Definition named_end (own : PairingSlot) (item : PairingValidationItem) (requested : option string)
    (e : PairingSlot) : Prop :=
  e ∈ pi_pairing_deps item ∧ same_pairing e own ∧
  match requested with
  | Some link => pd_link_id e = link
  | None =>
      (∀ e', e' ∈ on_pairing own item → pd_role e' = pd_role own → e' = e) ∧
      (pd_role e ≠ pd_role own →
       ∀ e', e' ∈ on_pairing own item → pd_role e' ≠ pd_role own ∧ e' = e)
  end.

(** What an end observes: the end itself, over all its pairs, or the peer of
    the one pair it holds. *)
Definition taps (own : PairingSlot) (id : string) (e : PairingSlot) (o : PlannedObservation) : Prop :=
  (pd_role e = pd_role own ∧ po_peer o = None ∧ po_source_link_id o = pd_link_id e ∧
   po_source o = mkProducerRef (core_node_of placements id) id ∧
   ∀ s t, pd_sha256 own = Some s → pd_sha256 e = Some t → s = t) ∨
  (pd_role e ≠ pd_role own ∧
   po_peer o = Some (mkProducerRef (core_node_of placements id) id, pd_link_id e) ∧
   ∃ peer_id peer_link, pairs !! (id, pd_link_id e) = Some [(peer_id, peer_link)] ∧
     po_source_link_id o = peer_link ∧
     po_source o = mkProducerRef (core_node_of placements peer_id) peer_id ∧
     ∀ s t item d, pd_sha256 own = Some s → lookup !! peer_id = Some item →
       item_slot item peer_link = Some d → pd_sha256 d = Some t → s = t).

(** An observation is what a target of a slot asks for. *)
Definition observes (owner : string) (own : PairingSlot) (target : string) (o : PlannedObservation) : Prop :=
  po_observer_instance_id o = owner ∧ po_observer_link_id o = pd_link_id own ∧
  po_pairing_name o = pd_name own ∧ po_pairing_tag o = pd_tag own ∧ po_observed_role o = pd_role own ∧
  ∃ item e, lookup !! (split_link_target target).1 = Some item ∧
    named_end own item (split_link_target target).2 e ∧ taps own (split_link_target target).1 e o.

(** No pair is observed twice by one slot. *)
Definition observed_once (os : list PlannedObservation) : Prop :=
  NoDup (map observation_target os) ∧
  ∀ o o', o ∈ os → o' ∈ os → po_peer o = None →
    (po_source o', po_source_link_id o') = (po_source o, po_source_link_id o) → po_peer o' = None.

Lemma elem_of_on_pairing own item e :
  e ∈ on_pairing own item ↔ e ∈ pi_pairing_deps item ∧ same_pairing e own.
Proof.
  unfold on_pairing, same_pairing. rewrite elem_of_retain, andb_true_iff, !bool_decide_eq_true. done.
Qed.

Lemma observed_end_ok owner own key id requested item e :
  observed_end owner own key id requested item = Ok e → named_end own item requested e.
Proof.
  unfold observed_end, named_end. destruct requested as [link|].
  - intros Hf%ok_or_ok. apply find_elem_of in Hf as [Hin Hl]. apply bool_decide_eq_true in Hl.
    by apply elem_of_on_pairing in Hin as [? ?].
  - unfold partition_list.
    set (src := λ dep, bool_decide (pd_role dep = pd_role own)).
    assert (Hs : ∀ d, d ∈ List.filter src (on_pairing own item) ↔
      d ∈ on_pairing own item ∧ pd_role d = pd_role own).
    { intros d. rewrite elem_of_retain. subst src. cbn beta. by rewrite bool_decide_eq_true. }
    assert (Hf : ∀ d, d ∈ List.filter (λ x, negb (src x)) (on_pairing own item) ↔
      d ∈ on_pairing own item ∧ pd_role d ≠ pd_role own).
    { intros d. rewrite elem_of_retain, negb_true_iff. subst src. cbn beta.
      by rewrite bool_decide_eq_false. }
    assert (Hpick : ∀ d, d ∈ on_pairing own item → d ∈ pi_pairing_deps item ∧ same_pairing d own)
      by (intros d; apply elem_of_on_pairing).
    destruct (List.filter src _) as [|s [|? ?]]; [|intros [= <-]|by intros].
    + destruct (List.filter _ _) as [|s [|? ?]]; [done|intros [= <-]|by intros].
      assert (Hno : ∀ d, d ∈ on_pairing own item → pd_role d ≠ pd_role own ∧ d = s).
      { intros d Hd. assert (Hr : pd_role d ≠ pd_role own)
          by (intros ?; by apply (not_elem_of_nil d), Hs).
        split; [done|]. apply list_elem_of_singleton. by apply Hf. }
      destruct (proj1 (Hf s) ltac:(left)) as [Hin ?]. destruct (Hpick s Hin). split_and!; [done..| |].
      * intros e' He' Hr. by destruct (Hno e' He').
      * intros _. done.
    + destruct (proj1 (Hs s) ltac:(left)) as [Hin Hr]. destruct (Hpick s Hin).
      split_and!; [done..| |by intros].
      intros e' He' Hr'. apply list_elem_of_singleton. by apply Hs.
Qed.

Lemma resolve_observation_ok owner own target o :
  resolve_observation owner own (pd_link_id own) lookup placements pairs target = Ok o →
  observes owner own target o.
Proof.
  unfold resolve_observation, observes. destruct (split_link_target target) as [id requested]. cbn [fst snd].
  destruct (lookup !! id) as [item|] eqn:El; [|done].
  intros (e & He%observed_end_ok & Hr)%result_bind_ok.
  apply result_bind_ok in Hr as ([[[sid slink] ssha] peer] & Hs & Hr). cbv beta iota in Hr.
  assert (Ho : o = mkPlannedObservation owner (pd_link_id own) (pd_name own) (pd_tag own) (pd_role own)
      (mkProducerRef (core_node_of placements sid) sid) slink peer ∧
    ∀ s t, pd_sha256 own = Some s → ssha = Some t → s = t).
  { destruct (pd_sha256 own) as [s|], ssha as [t|]; [|by simplify_eq..].
    case_bool_decide; simplify_eq/=. split; [done|]. congruence. }
  destruct Ho as [-> Hsha]. split_and!; [done..|]. exists item, e. split; [done|]. split; [done|].
  unfold observed_source in Hs. unfold taps. cbn [po_peer po_source_link_id po_source].
  case_bool_decide as Hrole; [injection Hs as <- <- <- <-; by left|]. right. split; [done|].
  destruct (pairs !! (id, pd_link_id e)) as [[|[pid plink] [|? ?]]|] eqn:Ep; try done.
  cbn in Hs. injection Hs as <- <- <- <-. split; [done|]. exists pid, plink. split_and!; [done..|].
  intros s t it d Hs Hit Hd Ht. apply Hsha; [done|]. fold lookup in Hit. rewrite Hit. cbn. by rewrite Hd.
Qed.

Lemma observation_overlap_None os : observation_overlap os = None → observed_once os.
Proof.
  unfold observation_overlap, observed_once.
  destruct (first_duplicate (map observation_target os)) as [t|] eqn:Ed.
  - intros Hf. exfalso. apply first_duplicate_loop_Some in Ed as (l1 & l2 & Hl & _).
    assert (Ht : t ∈ map observation_target os) by (rewrite Hl; set_solver).
    apply elem_of_map in Ht as (o & -> & Ho).
    apply (proj1 (find_None_forall _ _)) with (x := o) in Hf; [|done]. by apply bool_decide_eq_false in Hf.
  - intros Hf. split; [by apply first_duplicate_None|]. intros o o' Ho Ho' Hp Heq.
    apply (proj1 (find_None_forall _ _)) with (x := o') in Hf; [|done].
    destruct (po_peer o') eqn:Ep; [|done]. exfalso.
    apply andb_false_iff in Hf as [Hf | Hf%bool_decide_eq_false].
    + apply negb_false_iff, bool_decide_eq_true in Hf. congruence.
    + apply Hf. apply elem_of_map. exists o. split; [done|]. apply elem_of_retain. split; [done|].
      by apply bool_decide_eq_true.
Qed.

Lemma resolve_observation_slot_ok owner own selection os :
  resolve_observation_slot owner own (pd_link_id own) lookup placements pairs selection = Ok os →
  check_cardinality_shape (pd_cardinality own) selection = Ok tt ∧
  Forall2 (observes owner own) (selection_targets selection) os ∧ observed_once os.
Proof.
  unfold resolve_observation_slot. destruct (check_cardinality_shape _ _) as [[]|]; [|done].
  set (results := map _ _). destruct (errs results) eqn:Ee; [|done].
  destruct (observation_overlap _) eqn:Eo; [done|]. intros [= <-]. split; [done|].
  split; [|by apply observation_overlap_None].
  eapply Forall2_impl; [by apply oks_Forall2|]. intros t o. apply resolve_observation_ok.
Qed.
End spec.

(** ** The plan as a whole *)

Section whole.
Context (items : list PairingValidationItem) (placements : Placements) (pairs : SlotPeers).
Context (Hids : NoDup (map (λ e, di_instance_id e.1) (plan_deployed items))).
Context (Hobs : ∀ item, item ∈ items → NoDup (map pd_link_id (pi_observer_deps item))).
Let result_of := slot_result items placements pairs.

(** The observations of one slot, in the plan's order. *)
Definition members_of (id link : string) (planned : list PlannedObservation) : list PlannedObservation :=
  List.filter (λ o, bool_decide ((po_observer_instance_id o, po_observer_link_id o) = (id, link))) planned.

Lemma observers_by_link item k d :
  item ∈ items → slots_by_link (pi_observer_deps item) !! k = Some d ↔
  d ∈ pi_observer_deps item ∧ pd_link_id d = k.
Proof. intros Hin. apply fold_insert_lookup. by apply Hobs. Qed.

Lemma starting_item instance item : (instance, item) ∈ starting items → item ∈ items.
Proof. intros [Hin _]%elem_of_starting. by eapply deployed_item. Qed.

Lemma starting_ids : NoDup (map (λ e, di_instance_id e.1) (starting items)).
Proof.
  eapply sublist_NoDup; [exact Hids|]. apply (fmap_sublist (λ e, di_instance_id e.1)). unfold starting, plan_deployed.
  generalize items as l. induction l as [|item l IH]; cbn [List.filter flat_map]; [done|].
  destruct (negb _); cbn [flat_map]; [by apply sublist_app|by apply sublist_inserts_l].
Qed.

(** A link's observations are those of its slot. *)
Lemma slot_result_members instance item key value o :
  item ∈ items → o ∈ ok_of (result_of instance item (key, value)) →
  po_observer_instance_id o = di_instance_id instance ∧ po_observer_link_id o = key ∧
  ∃ own, own ∈ pi_observer_deps item ∧ pd_link_id own = key.
Proof.
  intros Hit. unfold result_of, slot_result. cbn [fst snd].
  destruct (slots_by_link _ !! key) as [own|] eqn:Eown; [|by intros ?%elem_of_nil].
  destruct (value_selection value) as [sel|]; [|by intros ?%elem_of_nil].
  apply observers_by_link in Eown as [Hown <-]; [|done].
  destruct (resolve_observation_slot _ _ _ _ _ _ _) as [os|] eqn:Er; [|by intros ?%elem_of_nil].
  apply resolve_observation_slot_ok in Er as (_ & Hall & _). cbn. intros Ho.
  apply list_elem_of_lookup_1 in Ho as [i Hi]. apply (Forall2_lookup_r _ _ _ _ _ Hall) in Hi as (t & _ & Hobs').
  destruct Hobs' as (? & ? & _). eauto.
Qed.

Lemma members_of_planned instance item link :
  (instance, item) ∈ starting items →
  members_of (di_instance_id instance) link (vo_planned (validate_observations items placements pairs)) =
  match di_links instance !! link with
  | Some value => ok_of (result_of instance item (link, value))
  | None => []
  end.
Proof.
  intros Hin. rewrite validate_observations_flat. cbn [vo_planned].
  unfold members_of. rewrite filter_pair_key.
  rewrite (filter_flat_map_key (λ e, di_instance_id e.1) po_observer_instance_id
    (instance_planned items placements pairs) _ (instance, item) starting_ids Hin).
  2: { intros [i it] o Hi%starting_item ([k v] & _ & Ho)%elem_of_flat_map.
       by apply slot_result_members in Ho as [? _]. }
  assert (Hit := starting_item _ _ Hin). unfold instance_planned. cbn [fst snd].
  assert (Hkey : ∀ kv o, kv ∈ btree_iter (di_links instance) →
    o ∈ ok_of (result_of instance item kv) → po_observer_link_id o = kv.1).
  { intros [k v] o _ Ho. by apply slot_result_members in Ho as (_ & ? & _). }
  destruct (di_links instance !! link) as [value|] eqn:El.
  - apply (filter_flat_map_key fst po_observer_link_id (λ kv, ok_of (result_of instance item kv)) _
      (link, value)).
    + apply btree_iter_NoDup.
    + by apply elem_of_btree_iter.
    + exact Hkey.
  - apply nil_length_inv, filter_count_zero. intros o ([k v] & Hkv & Ho)%elem_of_flat_map. apply bool_decide_eq_false.
    rewrite (Hkey _ _ Hkv Ho). intros Heq. cbn in Heq. subst k. apply elem_of_btree_iter in Hkv. congruence.
Qed.

Lemma slot_errors_nonempty owner own key selection :
  resolve_observation_slot owner own key (plan_instance_lookup items) placements pairs selection ≠ Err [].
Proof. unfold resolve_observation_slot. repeat case_match; congruence. Qed.

(** Without an error each link of an observer slot resolved, and each slot
    without one may go without. *)
Lemma no_observation_errors instance item own :
  vo_errors (validate_observations items placements pairs) = [] →
  (instance, item) ∈ starting items → own ∈ pi_observer_deps item →
  (∀ selection, di_links instance !! pd_link_id own = Some (Bound selection) →
     ∃ os, resolve_observation_slot (di_instance_id instance) own (pd_link_id own)
             (plan_instance_lookup items) placements pairs selection = Ok os) ∧
  (observer_covered instance own || allows_empty (pd_cardinality own) = true).
Proof.
  rewrite validate_observations_flat. cbn [vo_errors]. rewrite flat_map_nil. intros Herr Hin Hown.
  specialize (Herr _ Hin). unfold instance_errors in Herr. apply app_nil in Herr as [Hlinks Hcov].
  cbn [fst snd] in *. split.
  - intros selection Hl. rewrite flat_map_nil in Hlinks.
    specialize (Hlinks (pd_link_id own, Bound selection) ltac:(by apply elem_of_btree_iter)).
    unfold slot_result in Hlinks. cbn [fst snd value_selection] in Hlinks.
    rewrite (proj2 (observers_by_link item (pd_link_id own) own (starting_item _ _ Hin))) in Hlinks by done.
    destruct (resolve_observation_slot _ _ _ _ _ _ _) as [os|e] eqn:Er; [eauto|].
    cbn in Hlinks. subst e. by apply slot_errors_nonempty in Er.
  - unfold observation_coverage in Hcov. rewrite flat_map_nil in Hcov. specialize (Hcov own Hown).
    by destruct (_ || _).
Qed.
End whole.

(** C38: a plan of observations without errors is what was declared, no more and
    no less. The members of each observer slot are what its targets ask for, one
    per target and in their order: the slot a target names, over all its pairs,
    when it plays the observed role, else the other end of the one pair it
    holds; on the core node it is placed on, with an agreeing pin. No pair is
    observed twice by a slot, the targets are as many as the slot takes, a slot
    without targets may be empty, and every member belongs to a declared slot. *)
Theorem observe_plan_exact (items : list PairingValidationItem) (placements : Placements)
    (pairs : SlotPeers)
    (Hids : NoDup (map (λ e, di_instance_id e.1) (plan_deployed items)))
    (Hobs : ∀ item, item ∈ items → NoDup (map pd_link_id (pi_observer_deps item)))
    (Hok : vo_errors (validate_observations items placements pairs) = []) :
  (∀ instance item own, (instance, item) ∈ starting items → own ∈ pi_observer_deps item →
     let os := members_of (di_instance_id instance) (pd_link_id own)
                 (vo_planned (validate_observations items placements pairs)) in
     match di_links instance !! pd_link_id own with
     | Some (Bound selection) =>
         check_cardinality_shape (pd_cardinality own) selection = Ok tt ∧ observed_once os ∧
         Forall2 (observes items placements pairs (di_instance_id instance) own)
           (selection_targets selection) os
     | Some (Vacant _) =>
         os = [] ∧ (pd_cardinality own = ZeroOrOne ∨ allows_empty (pd_cardinality own) = true)
     | None => os = [] ∧ allows_empty (pd_cardinality own) = true
     end) ∧
  (∀ o, o ∈ vo_planned (validate_observations items placements pairs) →
     ∃ instance item own, (instance, item) ∈ starting items ∧ own ∈ pi_observer_deps item ∧
       po_observer_instance_id o = di_instance_id instance ∧ po_observer_link_id o = pd_link_id own).
Proof.
  split.
  - intros instance item own Hin Hown os. subst os. rewrite (members_of_planned _ _ _ Hids Hobs _ _ _ Hin).
    destruct (no_observation_errors _ _ _ Hobs _ _ _ Hok Hin Hown) as [Hbound Hcov].
    unfold observer_covered in Hcov.
    destruct (di_links instance !! pd_link_id own) as [[selection|reason]|].
    + destruct (Hbound selection eq_refl) as [os Hos].
      unfold slot_result. cbn [fst snd value_selection].
      rewrite (proj2 (observers_by_link items Hobs item _ own (starting_item _ _ _ Hin))) by done.
      rewrite Hos. apply resolve_observation_slot_ok in Hos as (? & ? & ?). done.
    + cbn in Hcov. split.
      { unfold slot_result. cbn. by destruct (slots_by_link _ !! _). }
      apply orb_true_iff in Hcov as [Hcov|]; [left|by right]. by apply bool_decide_eq_true in Hcov.
    + by split.
  - intros o Ho. rewrite validate_observations_flat in Ho. cbn [vo_planned] in Ho.
    apply elem_of_flat_map in Ho as ([instance item] & Hin & ([k v] & _ & Ho)%elem_of_flat_map).
    apply slot_result_members in Ho as (? & ? & own & ? & ?); [|done|by eapply starting_item].
    exists instance, item, own. split_and!; [done..|congruence].
Qed.

(** ** A plan *)

(** A recorder that watches the arm of a controller, named by the controller. *)
Definition example_observer_slot : PairingSlot :=
  mkPairingSlot "arm_link" "v1" "arm" "watched" None ZeroOrMore.
Definition example_recorder : DeploymentInstance :=
  mkDeploymentInstance "rec_1" None {[ "watched" := Bound (Array ["ctrl_1"]) ]} None.
Definition example_recorder_item : PairingValidationItem :=
  mkPairingValidationItem "recorder" "v1" [example_recorder] [] [example_observer_slot] false.
Definition example_observe_items : list PairingValidationItem :=
  example_recorder_item :: example_pair_items.
Definition example_observable : SlotPeers := observable_pairs (vp_planned example_plan) ∅.
Definition example_placements : Placements := Placements_all_on "core".
Definition example_observation : PlannedObservation :=
  mkPlannedObservation "rec_1" "watched" "arm_link" "v1" "arm" (mkProducerRef "core" "arm_1") "ctl"
    (Some (mkProducerRef "core" "ctrl_1", "arm")).

Lemma example_observe_run :
  validate_observations example_observe_items example_placements example_observable =
  mkValidatedObservations [] [example_observation].
Proof. vm_compute. reflexivity. Qed.

Lemma observe_plan_exact_witness :
  Forall2 (observes example_observe_items example_placements example_observable "rec_1" example_observer_slot)
    ["ctrl_1"] [example_observation].
Proof.
  destruct (observe_plan_exact example_observe_items example_placements example_observable) as [Hslots _].
  - apply (bool_decide_unpack _). vm_compute. exact I.
  - intros item [->|[->|[->|?%elem_of_nil]%elem_of_cons]%elem_of_cons]%elem_of_cons; [..|done];
      apply (bool_decide_unpack _); vm_compute; exact I.
  - rewrite example_observe_run. reflexivity.
  - assert (Hin : (example_recorder, example_recorder_item) ∈ starting example_observe_items) by (cbn; left).
    specialize (Hslots example_recorder example_recorder_item example_observer_slot Hin ltac:(cbn; left)).
    rewrite example_observe_run in Hslots. vm_compute in Hslots. exact (proj2 (proj2 Hslots)).
Defined.
