(* ===== verification/Clocks.v ===== *)
(** * Clocks of a plan

    [daemon-config-internal/src/launcher/clocks.rs]: the lifetimes a launch
    mints for its clock domains, the clock each instance of a plan reads, and
    the rule that a connection joins two instances that read the same one. *)

From stdpp Require Import sorting.
From S2P Require Import Prelude Names RestartPolicy Config PairingRegistry Supervision LaunchTypes PairPlan ObservePlan.
#[local] Open Scope peppy_scope.
#[local] Open Scope Z_scope.
Import Parsing.

(** ** Lifetimes

    [MINTED] is shared by every thread. A call reads the time, raises the
    counter to it, then takes the counter's next value: two atomic operations,
    between which other calls may run. *)

(** [SystemTime::now] since the epoch, in milliseconds: [None] before it. *)
Definition mint_seed (since_epoch : option Z) : Z := default 0 (wrap64 <$> since_epoch).

(** [MINTED.fetch_max(seed)]. *)
Definition mint_raise (seed minted : Z) : Z := Z.max minted seed.

(** [MINTED.fetch_add(1) + 1], and the counter after it. A value that is no
    lifetime is a panic. *)
Definition mint_take (minted : Z) : option Z * Z :=
  (match ClockIncarnation_try_from (wrap64 (minted + 1)) with Ok v => Some v | Err _ => None end,
   wrap64 (minted + 1)).

(** One call that no other call runs beside. *)
Definition mint_incarnation (since_epoch : option Z) (minted : Z) : option Z * Z :=
  mint_take (mint_raise (mint_seed since_epoch) minted).

(** The calls in flight, by thread, with the seed each raised the counter to;
    and the finished ones, latest first, with their seed and what they returned. *)
Record MintState : Type := mkMintState {
  ms_minted : Z;
  ms_in_flight : gmap nat Z;
  ms_done : list (Z * option Z);
}.

Definition mint_initial : MintState := mkMintState 0 ∅ [].

Inductive mint_step : MintState → MintState → Prop :=
| step_raise thread since_epoch minted in_flight finished :
    in_flight !! thread = None →
    mint_step (mkMintState minted in_flight finished)
      (mkMintState (mint_raise (mint_seed since_epoch) minted)
         (<[thread := mint_seed since_epoch]> in_flight) finished)
| step_take thread seed minted in_flight finished :
    in_flight !! thread = Some seed →
    mint_step (mkMintState minted in_flight finished)
      (mkMintState (snd (mint_take minted)) (delete thread in_flight)
         ((seed, fst (mint_take minted)) :: finished)).

(** ** Declarations *)

Inductive ClockDeclaration : Type := DeclWall | DeclSim (publisher : string).

Definition WALL_CLOCK : string := "wall".
Definition PREVIEW_INCARNATION : Z := 1.

Definition declaration_publisher (d : ClockDeclaration) : option string :=
  match d with DeclWall => None | DeclSim publisher => Some publisher end.

(** What the resolution reads of a launcher. *)
Record PeppyLauncher : Type := mkPeppyLauncher {
  launcher_clocks : gmap string ClockDeclaration;
  launcher_deployments : list (list DeploymentInstance);
}.

Notation ClockIncarnations := (gmap string Z) (only parsing).

(** [ResolvedClocks], and its operations. *)
Notation ResolvedClocks := (gmap string ClockBinding) (only parsing).

Definition of_running (entries : list (string * ClockBinding)) : ResolvedClocks :=
  fold_left (λ m '(id, binding), <[id := binding]> m) entries ∅.

Definition clock_of (clocks : ResolvedClocks) (instance_id : string) : ClockBinding :=
  default Wall (clocks !! instance_id).

Definition simulated (clocks : ResolvedClocks) : list (string * ClockDomainId) :=
  omap (λ '(instance, binding), pair instance <$> ClockBinding_domain binding) (btree_iter clocks).

Definition ClockBinding_publisher (domain : ClockDomainId) : ClockBinding := Sim domain Publisher.
Definition ClockBinding_consumer (domain : ClockDomainId) (publisher : ProducerRef) : ClockBinding :=
  Sim domain (Consumer publisher).

Definition ClockDomainId_text (d : ClockDomainId) : string :=
  domain_name d +:+ ("@" +:+ domain_core_node d).

Definition ClockBinding_label (b : ClockBinding) : string :=
  match b with Wall => "wall" | Sim domain _ => ClockDomainId_text domain end.

(** ** Resolution *)

Definition format_quoted_list (items : list string) : string :=
  String.concat ", " (map (λ item, "`" +:+ (item +:+ "`")) items).

Section resolve.
Context (launcher : PeppyLauncher) (placements : Placements) (incarnations : ClockIncarnations).
Let declared := launcher_clocks launcher.
Let declared_names := map fst (btree_iter declared).

Definition launcher_instances : list DeploymentInstance := List.concat (launcher_deployments launcher).

(** [BTreeSet] of the instance ids. *)
Definition instance_ids : gmap string unit :=
  fold_left (λ m instance, <[di_instance_id instance := tt]> m) launcher_instances ∅.

(** The domains of each publisher, after the errors so far. *)
Definition record_publisher (acc : list ParsingError * gmap string (list string))
    (entry : string * ClockDeclaration) : list ParsingError * gmap string (list string) :=
  let '(errors, publishes) := acc in
  let '(domain, declaration) := entry in
  match declaration_publisher declaration with
  | None => acc
  | Some publisher =>
      if negb (bool_decide (is_Some (instance_ids !! publisher)))
      then (errors ++
              [if bool_decide (instance_ids = ∅)
               then ClockPublisherWithoutDeployments domain publisher
               else ClockPublisherUnknown domain publisher
                      (format_quoted_list (map fst (btree_iter instance_ids)))],
            publishes)
      else (errors, <[publisher := default [] (publishes !! publisher) ++ [domain]]> publishes)
  end.

Definition several_domains (publishes : gmap string (list string)) : list ParsingError :=
  flat_map
    (λ '(publisher, domains),
       if (1 <? length domains)%nat
       then [ClockPublisherOfSeveral publisher (format_quoted_list domains)]
       else [])
    (btree_iter publishes).

Definition domain_id (domain publisher : string) : ClockDomainId :=
  mkClockDomainId domain (core_node_of placements publisher)
    (default PREVIEW_INCARNATION (incarnations !! domain)).

(** The body of the loop over the instances: what is inserted, or pushed. *)
Definition resolve_instance_clock (publishes : gmap string (list string))
    (instance : DeploymentInstance) : result ParsingError ClockBinding :=
  let id := di_instance_id instance in
  match publishes !! id ≫= head with
  | Some domain =>
      match di_clock instance with
      | Some bound => Err (ClockPublisherBound id domain bound)
      | None => Ok (ClockBinding_publisher (domain_id domain id))
      end
  | None =>
      match di_clock instance with
      | None => Ok Wall
      | Some bound =>
          if bool_decide (bound = WALL_CLOCK) then Ok Wall
          else
            match declared !! bound with
            | None =>
                Err (ClockDomainUnknown id bound (format_quoted_list (WALL_CLOCK :: declared_names)))
            | Some DeclWall => Ok Wall
            | Some (DeclSim publisher) =>
                Ok (ClockBinding_consumer (domain_id bound publisher)
                      (mkProducerRef (core_node_of placements publisher) publisher))
            end
      end
  end.

Definition resolve_clock_step (publishes : gmap string (list string))
    (acc : list ParsingError * ResolvedClocks) (instance : DeploymentInstance) :
    list ParsingError * ResolvedClocks :=
  let '(errors, resolved) := acc in
  match resolve_instance_clock publishes instance with
  | Ok binding => (errors, <[di_instance_id instance := binding]> resolved)
  | Err e => (errors ++ [e], resolved)
  end.

Definition resolve_clocks : result (list ParsingError) ResolvedClocks :=
  let reserved :=
    if existsb (λ domain, bool_decide (domain = WALL_CLOCK)) declared_names
    then [ClockDomainReserved (format_quoted_list declared_names)] else [] in
  let '(errors, publishes) := fold_left record_publisher (btree_iter declared) (reserved, ∅) in
  let errors := errors ++ several_domains publishes in
  let '(errors, resolved) :=
    fold_left (resolve_clock_step publishes) launcher_instances (errors, ∅) in
  match errors with [] => Ok resolved | _ => Err errors end.
End resolve.

(** ** Connections *)

Section connections.
Context (clocks : ResolvedClocks).

Definition refuse_clocks (a b via : string) : list ParsingError :=
  if is_compatible_with (clock_of clocks a) (clock_of clocks b) then []
  else [ClockMismatch a (ClockBinding_label (clock_of clocks a)) b
          (ClockBinding_label (clock_of clocks b)) via].

Definition validate_clock_connections (slot_bindings : gmap string (gmap string BoundProducers))
    (pairings : list PlannedPairing) (observations : list PlannedObservation) : list ParsingError :=
  flat_map
    (λ '(consumer, slots),
       flat_map
         (λ '(link_id, producers),
            flat_map
              (λ m, refuse_clocks consumer (instance_id (producer m))
                      ("binding `" +:+ (link_id +:+ "`")))
              producers)
         (btree_iter slots))
    (btree_iter slot_bindings)
  ++ flat_map
       (λ p, refuse_clocks (pe_instance_id (pl_a p)) (pe_instance_id (pl_b p))
               ("pairing `" +:+ (pe_link_id (pl_a p) +:+ "`")))
       pairings
  ++ flat_map
       (λ o, refuse_clocks (po_observer_instance_id o) (instance_id (po_source o))
               ("observation `" +:+ (po_observer_link_id o +:+ "`")))
       observations.

(** Every connection joins two instances that read one timeline. *)
Definition clocks_agree (slot_bindings : gmap string (gmap string BoundProducers))
    (pairings : list PlannedPairing) (observations : list PlannedObservation) : Prop :=
  (∀ consumer slots link_id producers m, slot_bindings !! consumer = Some slots →
     slots !! link_id = Some producers → m ∈ producers →
     is_compatible_with (clock_of clocks consumer) (clock_of clocks (instance_id (producer m))) = true) ∧
  (∀ p, p ∈ pairings →
     is_compatible_with (clock_of clocks (pe_instance_id (pl_a p)))
       (clock_of clocks (pe_instance_id (pl_b p))) = true) ∧
  (∀ o, o ∈ observations →
     is_compatible_with (clock_of clocks (po_observer_instance_id o))
       (clock_of clocks (instance_id (po_source o))) = true).

Lemma clock_connections_nil slot_bindings pairings observations :
  validate_clock_connections slot_bindings pairings observations = [] ↔
  clocks_agree slot_bindings pairings observations.
Proof.
  assert (Href : ∀ a b via, refuse_clocks a b via = [] ↔
    is_compatible_with (clock_of clocks a) (clock_of clocks b) = true).
  { intros. unfold refuse_clocks. by destruct (is_compatible_with _ _). }
  unfold validate_clock_connections, clocks_agree. rewrite !app_nil, !flat_map_nil. setoid_rewrite Href. f_equiv.
  split.
  - intros H consumer slots link_id producers m Hs Hp Hm. eapply Href.
    assert (H' := H (consumer, slots) ltac:(by apply elem_of_btree_iter)). cbv beta iota in H'.
    rewrite flat_map_nil in H'.
    specialize (H' (link_id, producers) ltac:(by apply elem_of_btree_iter)). cbv beta iota in H'.
    rewrite flat_map_nil in H'. apply (H' m Hm).
  - intros H [consumer slots] Hs%elem_of_btree_iter. apply flat_map_nil.
    intros [link_id producers] Hp%elem_of_btree_iter. apply flat_map_nil. intros m Hm. apply Href. eauto.
Qed.
End connections.

(** ** Lifetimes rise *)

Definition seeds_up_to (S : Z) (s : MintState) : Prop :=
  (∀ thread seed, ms_in_flight s !! thread = Some seed → seed ≤ S) ∧
  (∀ e, e ∈ ms_done s → e.1 ≤ S).

(** What the counter and the finished calls are, while the counter is in range. *)
Record mint_inv (S : Z) (s : MintState) (values : list Z) : Prop := mkMintInv {
  mint_range : 0 ≤ ms_minted s ≤ S + Z.of_nat (length (ms_done s));
  mint_pending : ∀ thread seed, ms_in_flight s !! thread = Some seed → seed ≤ ms_minted s;
  mint_values : map snd (ms_done s) = map Some values;
  mint_sorted : StronglySorted Z.gt values;
  mint_below : Forall (λ v, 1 ≤ v ≤ ms_minted s) values;
  mint_seeds : Forall2 (λ e v, e.1 < v) (ms_done s) values;
}.

Lemma mint_seed_nonneg since_epoch : 0 ≤ mint_seed since_epoch.
Proof. destruct since_epoch; cbn; [|done]. apply Z.mod_pos_bound. done. Qed.

Lemma mint_take_in_range minted :
  0 ≤ minted < CLOCK_INCARNATION_MAX → mint_take minted = (Some (minted + 1), minted + 1).
Proof.
  unfold CLOCK_INCARNATION_MAX. intros Hr. unfold mint_take, wrap64.
  rewrite Z.mod_small by lia. unfold ClockIncarnation_try_from, CLOCK_INCARNATION_MAX.
  rewrite (proj2 (Z.ltb_ge _ _)) by lia. by rewrite (proj2 (Z.eqb_neq _ _)) by lia.
Qed.

Lemma mint_inv_raise S minted in_flight finished values thread seed :
  0 ≤ seed ≤ S →
  mint_inv S (mkMintState minted in_flight finished) values →
  mint_inv S (mkMintState (mint_raise seed minted) (<[thread := seed]> in_flight) finished) values.
Proof.
  intros Hseed [Hr Hp Hv Hs Hb Hf]. unfold mint_raise. cbn in *. split; cbn; [lia| |done|done| |done].
  - intros t x [[_ <-]|[_ Hx]]%lookup_insert_Some; [lia|]. specialize (Hp t x Hx). lia.
  - eapply Forall_impl; [exact Hb|]. cbn. lia.
Qed.

Lemma mint_inv_take S minted in_flight finished values thread seed :
  in_flight !! thread = Some seed →
  S + Z.of_nat (length finished) < CLOCK_INCARNATION_MAX →
  mint_inv S (mkMintState minted in_flight finished) values →
  mint_inv S (mkMintState (snd (mint_take minted)) (delete thread in_flight)
                ((seed, fst (mint_take minted)) :: finished)) ((minted + 1) :: values).
Proof.
  intros Ht Hmax [Hr Hp Hv Hs Hb Hf]. cbn [ms_minted ms_in_flight ms_done] in *.
  rewrite mint_take_in_range by lia. split; cbn.
  - lia.
  - intros t x [_ Hx]%lookup_delete_Some. specialize (Hp t x Hx). lia.
  - by rewrite Hv.
  - constructor; [done|]. eapply Forall_impl; [exact Hb|]. cbn. lia.
  - constructor; [lia|]. eapply Forall_impl; [exact Hb|]. cbn. lia.
  - constructor; [|done]. cbn. specialize (Hp thread seed Ht). lia.
Qed.

Lemma mint_reachable S s :
  rtc mint_step mint_initial s → 0 ≤ S → seeds_up_to S s →
  S + Z.of_nat (length (ms_done s)) ≤ CLOCK_INCARNATION_MAX → ∃ values, mint_inv S s values.
Proof.
  intros Hreach HS. revert s Hreach. refine (rtc_ind_r _ mint_initial _ _).
  { intros _ _. exists []. split; cbn; try constructor; try lia. intros ?? H. by rewrite lookup_empty in H. }
  intros s s' _ Hstep IH [Hfl Hdone] Hmax. inversion Hstep as [thread since minted fl fin Hth|thread seed minted fl fin Hth];
    subst; cbn [ms_in_flight ms_done length] in *.
  - destruct IH as [values Hinv]; [split; [|done]|done|].
    { cbn. intros t x Hx. apply (Hfl t). rewrite lookup_insert_ne; [done|]. intros <-. congruence. }
    exists values. apply mint_inv_raise; [|done]. split; [apply mint_seed_nonneg|].
    apply (Hfl thread). apply lookup_insert_eq.
  - destruct IH as [values Hinv]; [split; cbn|cbn; lia|].
    { intros t x Hx. destruct (decide (t = thread)) as [->|Hne].
      - rewrite Hth in Hx. injection Hx as <-. apply (Hdone (seed, fst (mint_take minted))). left.
      - apply (Hfl t). by rewrite lookup_delete_ne. }
    { intros e He. apply Hdone. by right. }
    exists (minted + 1 :: values). apply (mint_inv_take _ _ _ _ _ thread); [done|lia|done].
Qed.

(** However the calls of any number of threads interleave, as long as the
    time they read and the number of calls leave the counter in the range of a
    lifetime: no call panics, each call returns more than every call that took
    its value before it, so no lifetime is handed out twice, and more than the
    time it read itself. *)
Lemma minted_lifetimes_rise (s : MintState) (S : Z)
    (Hreach : rtc mint_step mint_initial s) (HS : 0 ≤ S) (Hseeds : seeds_up_to S s)
    (Hmax : S + Z.of_nat (length (ms_done s)) ≤ CLOCK_INCARNATION_MAX) :
  ∃ values, map snd (ms_done s) = map Some values ∧ StronglySorted Z.gt values ∧ NoDup values ∧
    Forall (λ v, ClockIncarnation_try_from v = Ok v) values ∧
    Forall2 (λ e v, e.1 < v) (ms_done s) values.
Proof.
  destruct (mint_reachable S s) as [values [Hr _ Hv Hs Hb Hf]]; [done..|].
  exists values. split_and!; try done.
  - clear -Hs. induction Hs as [|v l Hs IH Hall]; constructor; [|done]. intros Hin.
    rewrite Forall_forall in Hall. specialize (Hall v Hin). lia.
  - eapply Forall_impl; [exact Hb|]. cbn. intros v Hv'. unfold ClockIncarnation_try_from.
    rewrite (proj2 (Z.ltb_ge _ _)) by lia. by rewrite (proj2 (Z.eqb_neq _ _)) by lia.
Qed.

(** Two calls that read the same millisecond, the second one's raise between
    the two operations of the first. *)
Definition example_minted : MintState := mkMintState 1002 ∅ [(1000, Some 1002); (1000, Some 1001)].

Lemma minted_lifetimes_rise_witness : NoDup [1002; 1001].
Proof.
  destruct (minted_lifetimes_rise example_minted 1000) as (values & Hv & _ & Hnd & _).
  - eapply rtc_l; [apply (step_raise 1 (Some 1000)), lookup_empty|].
    eapply rtc_l; [apply (step_raise 2 (Some 1000)); vm_compute; reflexivity|].
    eapply rtc_l; [apply (step_take 1 1000); vm_compute; reflexivity|].
    eapply rtc_l; [apply (step_take 2 1000); vm_compute; reflexivity|].
    vm_compute. apply rtc_refl.
  - lia.
  - split; [intros t x H; vm_compute in H; destruct t; discriminate H|].
    intros e [->|[->|He%elem_of_nil]%elem_of_cons]%elem_of_cons; [cbn; lia..|done].
  - vm_compute. discriminate.
  - cbn in Hv. destruct values as [|a [|b [|? ?]]]; try discriminate Hv. cbn in Hv.
    injection Hv as <- <-. exact Hnd.
Defined.

(** ** The clocks of a plan *)

Section clocks.
Context (launcher : PeppyLauncher) (placements : Placements) (incarnations : ClockIncarnations).
Let declared := launcher_clocks launcher.
Let known (p : string) : Prop := is_Some (instance_ids launcher !! p).

(** What a launcher may declare: no domain is called [wall]; each simulated
    domain is supplied by an instance of the plan, that supplies no other and
    names no clock; and each clock an instance names is [wall] or declared. *)
Record clocks_wf : Prop := mkClocksWf {
  wf_reserved : declared !! WALL_CLOCK = None;
  wf_known : ∀ d p, declared !! d = Some (DeclSim p) →
    ∃ i, i ∈ launcher_instances launcher ∧ di_instance_id i = p;
  wf_single : ∀ d e p, declared !! d = Some (DeclSim p) → declared !! e = Some (DeclSim p) → d = e;
  wf_unbound : ∀ d i, i ∈ launcher_instances launcher →
    declared !! d = Some (DeclSim (di_instance_id i)) → di_clock i = None;
  wf_declared : ∀ i c, i ∈ launcher_instances launcher → di_clock i = Some c →
    c = WALL_CLOCK ∨ is_Some (declared !! c);
}.

(** The clock an instance reads. *)
Definition reads_clock (i : DeploymentInstance) (b : ClockBinding) : Prop :=
  (∃ d, declared !! d = Some (DeclSim (di_instance_id i)) ∧
     b = ClockBinding_publisher (domain_id placements incarnations d (di_instance_id i))) ∨
  ((∀ d, declared !! d ≠ Some (DeclSim (di_instance_id i))) ∧
   ((∃ d p, di_clock i = Some d ∧ d ≠ WALL_CLOCK ∧ declared !! d = Some (DeclSim p) ∧
       b = ClockBinding_consumer (domain_id placements incarnations d p)
             (mkProducerRef (core_node_of placements p) p)) ∨
    (b = Wall ∧ ∀ d, di_clock i = Some d → d = WALL_CLOCK ∨ declared !! d = Some DeclWall))).

(** The domains an instance supplies, in the order of the declarations. *)
Definition domains_of (l : list (string * ClockDeclaration)) (p : string) : list string :=
  map fst (List.filter (λ e, bool_decide (declaration_publisher e.2 = Some p)) l).

Lemma elem_of_domains_of d p :
  d ∈ domains_of (btree_iter declared) p ↔ declared !! d = Some (DeclSim p).
Proof.
  unfold domains_of. rewrite elem_of_map. setoid_rewrite elem_of_retain.
  setoid_rewrite bool_decide_eq_true. split.
  - intros ([d' decl] & -> & Hin%elem_of_btree_iter & Hp). cbn in *. destruct decl; simplify_eq/=. done.
  - intros H. exists (d, DeclSim p). by rewrite elem_of_btree_iter.
Qed.

Lemma domains_of_NoDup p : NoDup (domains_of (btree_iter declared) p).
Proof.
  unfold domains_of. eapply sublist_NoDup; [apply (btree_iter_NoDup declared)|].
  apply (fmap_sublist fst). induction (btree_iter declared) as [|e l IH]; cbn; [done|].
  destruct (bool_decide _); by constructor.
Qed.

Lemma known_instance p : known p ↔ ∃ i, i ∈ launcher_instances launcher ∧ di_instance_id i = p.
Proof.
  unfold known, instance_ids.
  assert (Hgen : ∀ l (m : gmap string unit),
    is_Some (fold_left (λ m i, <[di_instance_id i := tt]> m) l m !! p) ↔
    is_Some (m !! p) ∨ ∃ i, i ∈ l ∧ di_instance_id i = p).
  { induction l as [|i l IH]; intros m; cbn [fold_left]; [set_solver|].
    rewrite IH, lookup_insert_is_Some. split.
    - intros [[<-|[_ ?]]|(j & ? & ?)]; [right; exists i; set_solver|by left|right; exists j; set_solver].
    - intros [?|(j & [->|?]%elem_of_cons & ?)]; [|by left; left|right; eauto].
      destruct (decide (di_instance_id i = p)); auto. }
  rewrite Hgen, lookup_empty. split; [intros [[? [=]]|?]; done|by right].
Qed.

Lemma reserved_domain :
  existsb (λ domain, bool_decide (domain = WALL_CLOCK)) (map fst (btree_iter declared)) = false ↔
  declared !! WALL_CLOCK = None.
Proof.
  rewrite <-not_true_iff_false, existsb_exists, eq_None_not_Some. apply not_iff_compat.
  setoid_rewrite <-list_elem_of_In. setoid_rewrite elem_of_map. setoid_rewrite bool_decide_eq_true. split.
  - intros (d & ([k decl] & Hd & Hin%elem_of_btree_iter) & Heq). exists decl. by rewrite <-Heq, Hd.
  - intros [decl Hd]. exists WALL_CLOCK. split; [|done]. exists (WALL_CLOCK, decl).
    by rewrite elem_of_btree_iter.
Qed.

(** The publishers of a list of declarations, and its errors. *)
Lemma record_publishers l es m :
  let r := fold_left (record_publisher launcher) l (es, m) in
  (r.1 = [] ↔ es = [] ∧ ∀ d p, (d, DeclSim p) ∈ l → known p) ∧
  ∀ p, default [] (r.2 !! p) =
    default [] (m !! p) ++ (if decide (known p) then domains_of l p else []).
Proof.
  cbn zeta. revert es m. induction l as [|[d decl] l IH]; intros es m; cbn [fold_left].
  { cbn. split; [set_solver|]. intros p. destruct (decide _); by rewrite app_nil_r. }
  destruct (record_publisher launcher (es, m) (d, decl)) as [es' m'] eqn:Er.
  destruct (IH es' m') as [He Hm]. rewrite He. setoid_rewrite Hm. clear IH He Hm.
  unfold record_publisher in Er. destruct decl as [|q]; cbn [declaration_publisher] in Er.
  { injection Er as <- <-. split; [set_solver|done]. }
  unfold domains_of. cbn [List.filter snd declaration_publisher].
  case_bool_decide as Hk; cbn [negb] in Er; injection Er as <- <-.
  - split; [set_solver|]. intros p. rewrite lookup_insert.
    case_decide as Hp; [subst q; rewrite bool_decide_true by done|].
    + rewrite !(decide_True (P := known p)) by done. cbn. by rewrite <-app_assoc.
    + by rewrite bool_decide_false by congruence.
  - split.
    { split; [by intros [[_ [=]]%app_nil _]|]. intros [_ H]. exfalso. apply Hk, (H d q). left. }
    intros p. case_decide as Hp; [|done]. by rewrite bool_decide_false by (intros [= ->]; done).
Qed.

(** The loop over the instances. *)
Lemma resolve_clock_steps publishes l es m :
  let f := resolve_instance_clock launcher placements incarnations publishes in
  let r := fold_left (resolve_clock_step launcher placements incarnations publishes) l (es, m) in
  r.1 = es ++ errs (map f l) ∧
  (∀ id, (∀ i, i ∈ l → di_instance_id i ≠ id) → r.2 !! id = m !! id) ∧
  (NoDup (map di_instance_id l) → ∀ i b, i ∈ l → f i = Ok b → r.2 !! di_instance_id i = Some b).
Proof.
  cbn zeta. revert es m. induction l as [|i l IH]; intros es m; cbn [fold_left].
  { cbn. rewrite app_nil_r. set_solver. }
  cbn [map]. unfold errs. cbn [omap list_omap]. fold (errs (E := ParsingError) (A := ClockBinding)).
  destruct (resolve_clock_step launcher placements incarnations publishes (es, m) i) as [es' m'] eqn:Er.
  destruct (IH es' m') as (He & Ho & Hl). rewrite He. clear IH He. unfold resolve_clock_step in Er.
  destruct (resolve_instance_clock _ _ _ publishes i) as [b|e] eqn:Ef; injection Er as <- <-.
  - split; [done|]. split.
    + intros id Hid. rewrite Ho by set_solver. apply lookup_insert_ne. apply Hid. left.
    + intros [Hni Hnd]%NoDup_cons j c [->|Hj]%elem_of_cons Hf; [|by apply Hl].
      rewrite Ho, lookup_insert_eq; [congruence|]. intros j' Hj' Heq. apply Hni. apply elem_of_map. eauto.
  - split; [by rewrite <-app_assoc|]. split.
    + intros id Hid. apply Ho. set_solver.
    + intros [Hni Hnd]%NoDup_cons j c [->|Hj]%elem_of_cons Hf; [congruence|by apply Hl].
Qed.

Context (publishes : gmap string (list string)).
Context (Hpub : ∀ p, default [] (publishes !! p) =
  if decide (known p) then domains_of (btree_iter declared) p else []).

Lemma several_domains_nil :
  (∀ d p, declared !! d = Some (DeclSim p) → known p) →
  several_domains publishes = [] ↔
  ∀ d e p, declared !! d = Some (DeclSim p) → declared !! e = Some (DeclSim p) → d = e.
Proof.
  intros Hk. unfold several_domains. rewrite flat_map_nil. split.
  - intros H d e p Hd He. assert (Hp := Hpub p). rewrite decide_True in Hp by eauto.
    assert (Hin : d ∈ default [] (publishes !! p) ∧ e ∈ default [] (publishes !! p))
      by (rewrite Hp, !elem_of_domains_of; done).
    destruct (publishes !! p) as [ds|] eqn:Eds; [|set_solver]. cbn in Hin.
    specialize (H (p, ds) ltac:(by apply elem_of_btree_iter)). cbv beta iota in H.
    destruct ds as [|x [|y ds]]; [set_solver|set_solver|done].
  - intros H [p ds] Hin%elem_of_btree_iter. assert (Hp := Hpub p). rewrite Hin in Hp. cbn in Hp.
    destruct ds as [|x [|y ds]]; [done..|]. exfalso. destruct (decide (known p)); [|done].
    assert (Hnd := domains_of_NoDup p). rewrite <-Hp in Hnd. apply NoDup_cons in Hnd as [Hx _].
    apply Hx. rewrite (H x y p); [left|apply elem_of_domains_of; rewrite <-Hp; set_solver..].
Qed.

Lemma instance_clock i :
  i ∈ launcher_instances launcher →
  match resolve_instance_clock launcher placements incarnations publishes i with
  | Ok b => reads_clock i b ∧ (∀ d, declared !! d = Some (DeclSim (di_instance_id i)) → di_clock i = None) ∧
      ∀ c, di_clock i = Some c → c = WALL_CLOCK ∨ is_Some (declared !! c)
  | Err _ =>
      (∃ d, declared !! d = Some (DeclSim (di_instance_id i)) ∧ di_clock i ≠ None) ∨
      (∃ c, di_clock i = Some c ∧ c ≠ WALL_CLOCK ∧ declared !! c = None)
  end.
Proof.
  intros Hi. assert (Hk : known (di_instance_id i)) by (apply known_instance; eauto).
  assert (Hp := Hpub (di_instance_id i)). rewrite decide_True in Hp by done.
  unfold resolve_instance_clock. fold declared.
  assert (Hh : (publishes !! di_instance_id i ≫= head) = head (default [] (publishes !! di_instance_id i)))
    by (by destruct (publishes !! di_instance_id i)).
  rewrite Hh, Hp. clear Hh. destruct (domains_of _ _) as [|d ds] eqn:Ed; cbn [head].
  - assert (Hno : ∀ d, declared !! d ≠ Some (DeclSim (di_instance_id i))).
    { intros d Hd%elem_of_domains_of. rewrite Ed in Hd. by apply elem_of_nil in Hd. }
    destruct (di_clock i) as [c|] eqn:Ec; [|split; [right; split; [done|right; naive_solver]|naive_solver]].
    case_bool_decide as Hc; [subst c; split; [right; split; [done|right; naive_solver]|]; split; [naive_solver|]; naive_solver|].
    destruct (declared !! c) as [[|p]|] eqn:Edc; [..|right; eauto].
    + split; [right; split; [done|right; naive_solver]|]. split; [naive_solver|]. intros ? [= <-]. eauto.
    + split; [right; split; [done|left; eauto 10]|]. split; [naive_solver|]. intros ? [= <-]. eauto.
  - assert (Hd : declared !! d = Some (DeclSim (di_instance_id i))).
    { apply elem_of_domains_of. rewrite Ed. left. }
    destruct (di_clock i) as [c|] eqn:Ec; [left; eauto|]. split; [left; eauto|]. done.
Qed.

(** The three groups of errors are empty exactly on well-formed declarations. *)
Lemma clock_errors_nil :
  (declared !! WALL_CLOCK = None ∧ ∀ d p, declared !! d = Some (DeclSim p) → known p) ∧
  several_domains publishes = [] ∧
  errs (map (resolve_instance_clock launcher placements incarnations publishes)
    (launcher_instances launcher)) = [] ↔ clocks_wf.
Proof.
  rewrite errs_nil. split.
  - intros ([H1 H2] & H3 & H4). rewrite (several_domains_nil H2) in H3. split; try done.
    + intros d p Hd. by apply known_instance, (H2 d).
    + intros d i Hi Hd. destruct (H4 i Hi) as [b Hb]. assert (Hc := instance_clock i Hi).
      rewrite Hb in Hc. destruct Hc as (_ & Hc & _). eauto.
    + intros i c Hi Hci. destruct (H4 i Hi) as [b Hb]. assert (Hc := instance_clock i Hi).
      rewrite Hb in Hc. destruct Hc as (_ & _ & Hc). eauto.
  - intros [H1 H2 H3 H4 H5].
    assert (Hk : ∀ d p, declared !! d = Some (DeclSim p) → known p)
      by (intros d p Hd; apply known_instance; eauto).
    split; [done|]. split; [by apply several_domains_nil|]. intros i Hi.
    assert (Hc := instance_clock i Hi).
    destruct (resolve_instance_clock _ _ _ _ i) as [b|]; [eauto|]. exfalso.
    destruct Hc as [(d & Hd & Hc)|(c & Hc & Hne & Hn)]; [by apply Hc, (H4 d)|].
    destruct (H5 i c Hi Hc) as [?|[? ?]]; congruence.
Qed.
End clocks.

(** The clocks of a launcher resolve exactly when its declarations are well
    formed, and then every instance of the plan reads the clock they say: the
    publisher of a domain its own, an instance that names a simulated domain
    that domain, with the publisher it is to hear and under the same identity,
    and every other one wall time. *)
Lemma clocks_resolve_exact (launcher : PeppyLauncher) (placements : Placements)
    (incarnations : ClockIncarnations)
    (Hids : NoDup (map di_instance_id (launcher_instances launcher))) :
  match resolve_clocks launcher placements incarnations with
  | Ok clocks =>
      clocks_wf launcher ∧
      ∀ i, i ∈ launcher_instances launcher →
        reads_clock launcher placements incarnations i (clock_of clocks (di_instance_id i))
  | Err errors => ¬ clocks_wf launcher ∧ errors ≠ []
  end.
Proof.
  unfold resolve_clocks. set (reserved := if existsb _ _ then _ else _).
  destruct (record_publishers launcher (btree_iter (launcher_clocks launcher)) reserved ∅) as [He Hm].
  destruct (fold_left (record_publisher launcher) _ _) as [errors publishes]. cbn [fst snd] in *.
  assert (Hpub : ∀ p, default [] (publishes !! p) = if decide (is_Some (instance_ids launcher !! p))
    then domains_of (btree_iter (launcher_clocks launcher)) p else []).
  { intros p. by rewrite Hm, lookup_empty. }
  destruct (resolve_clock_steps launcher placements incarnations publishes (launcher_instances launcher)
    (errors ++ several_domains publishes) ∅) as (Hr & _ & Hok).
  destruct (fold_left (resolve_clock_step _ _ _ publishes) _ _) as [errors' resolved]. cbn [fst snd] in *.
  assert (Hres : reserved = [] ↔ launcher_clocks launcher !! WALL_CLOCK = None).
  { rewrite <-reserved_domain. subst reserved. by destruct (existsb _ _). }
  assert (Hwf : errors' = [] ↔ clocks_wf launcher).
  { rewrite <-(clock_errors_nil launcher placements incarnations publishes Hpub).
    rewrite Hr, !app_nil, He, Hres. setoid_rewrite elem_of_btree_iter. tauto. }
  destruct errors' as [|e es]; [|by split; [rewrite <-Hwf|]].
  assert (Hw := proj1 Hwf eq_refl). split; [done|]. intros i Hi.
  symmetry in Hr. apply app_nil in Hr as [_ Hr]. rewrite errs_nil in Hr. destruct (Hr i Hi) as [b Hb].
  unfold clock_of. rewrite (Hok Hids i b Hi Hb). cbn.
  assert (Hc := instance_clock launcher placements incarnations publishes Hpub i Hi). rewrite Hb in Hc. tauto.
Qed.

(** A simulator that supplies a domain, and a robot that reads it. *)
Definition example_robot : DeploymentInstance := mkDeploymentInstance "robot" (Some "world") ∅ None.
Definition example_launcher : PeppyLauncher :=
  mkPeppyLauncher {[ "world" := DeclSim "simulator" ]}
    [[DeploymentInstance_empty "simulator"]; [example_robot]].

Lemma clocks_resolve_exact_witness :
  clocks_wf example_launcher ∧
  reads_clock example_launcher (Placements_all_on "desk") ∅ example_robot
    (Sim (mkClockDomainId "world" "desk" 1) (Consumer (mkProducerRef "desk" "simulator"))).
Proof.
  assert (H := clocks_resolve_exact example_launcher (Placements_all_on "desk") ∅
    ltac:(apply (bool_decide_unpack _); vm_compute; exact I)).
  destruct (resolve_clocks _ _ _) as [clocks|] eqn:E; [|vm_compute in E; discriminate E].
  split; [exact (proj1 H)|]. specialize (proj2 H example_robot ltac:(cbn; right; left)) as Hr.
  vm_compute in E. injection E as <-. exact Hr.
Defined.
