(* ===== verification/LinkPlan.v ===== *)
(** * The links of a plan

    [daemon-config-internal/src/launcher/links.rs]: the checks on link keys and
    vacancies over the slots of all three families, and the pipeline that runs
    them, then the producer bindings, the pairs, the observations and the
    clocks, in that order. *)

From S2P Require Import Prelude Names RestartPolicy Config PairingRegistry Supervision LaunchTypes Bindings PairPlan ObservePlan Clocks.
#[local] Open Scope peppy_scope.
Import Parsing.

(** ** Vacancies *)

Definition in_quotes (s : string) : string := String quote_char (s +:+ String quote_char "").

Definition PARTICIPANT_EMPTIABLE_KEY : string :=
  "`cardinality: " +:+ (in_quotes "zero_or_one" +:+ "` on its `depends_on.pairings` entry").
Definition OBSERVER_EMPTIABLE_KEY : string :=
  "`cardinality: " +:+ (in_quotes "zero_or_one" +:+ "` on its `depends_on.pairing_observers` entry").
Definition BINDING_EMPTIABLE_KEY : string :=
  "`cardinality: " +:+
  (in_quotes "zero_or_one" +:+ "` on its `depends_on.nodes` / `depends_on.contracts` entry").

Inductive LinkSlotKind : Type :=
| SlotBinding (c : Cardinality)
| SlotParticipant (c : Cardinality)
| SlotObserver (c : Cardinality).

Definition slot_kind_cardinality (k : LinkSlotKind) : Cardinality :=
  match k with SlotBinding c | SlotParticipant c | SlotObserver c => c end.

Definition refuse_vacancy (k : LinkSlotKind) : option VacancyRefusal :=
  let multi_slot_empty_set :=
    Some (SpelledDifferently "an empty array `[]`, or omitting the key entirely") in
  let zero_or_more := "`cardinality: " +:+ (in_quotes "zero_or_more" +:+ "` on ") in
  match k with
  | SlotParticipant ZeroOrOne | SlotObserver ZeroOrOne | SlotBinding ZeroOrOne => None
  | SlotParticipant One => Some (ManifestRequires PARTICIPANT_EMPTIABLE_KEY)
  | SlotParticipant ZeroOrMore => multi_slot_empty_set
  | SlotParticipant OneOrMore =>
      Some (NoEmptyState
              ("at least one peer, or " +:+ (zero_or_more +:+ "its `depends_on.pairings` entry")))
  | SlotObserver One => Some (ManifestRequires OBSERVER_EMPTIABLE_KEY)
  | SlotBinding One => Some (ManifestRequires BINDING_EMPTIABLE_KEY)
  | SlotObserver ZeroOrMore | SlotBinding ZeroOrMore => multi_slot_empty_set
  | SlotObserver OneOrMore =>
      Some (NoEmptyState
              ("at least one source, or " +:+
               (zero_or_more +:+ "its `depends_on.pairing_observers` entry")))
  | SlotBinding OneOrMore =>
      Some (NoEmptyState
              ("at least one bound producer, or " +:+
               (zero_or_more +:+ "its `depends_on.nodes` / `depends_on.contracts` entry")))
  end.

Definition describe_slot (k : LinkSlotKind) : string :=
  (match k with
   | SlotBinding _ => "a producer-binding slot"
   | SlotParticipant _ => "a participant pairing slot"
   | SlotObserver _ => "an observer slot"
   end) +:+ (" (cardinality `" +:+ (Cardinality_as_str (slot_kind_cardinality k) +:+ "`)")).

(** ** Declared slots *)

Notation DeclaredLinkSlots := (gmap string LinkSlotKind).

Definition declare_all {A} (key : A → string) (kind : A → LinkSlotKind) (deps : list A)
    (by_id : DeclaredLinkSlots) : DeclaredLinkSlots :=
  fold_left (λ m dep, <[key dep := kind dep]> m) deps by_id.

Definition DeclaredLinkSlots_from (d : DependsOn) : DeclaredLinkSlots :=
  declare_all pd_link_id (SlotObserver ∘ pd_cardinality) (pairing_observers d)
    (declare_all pd_link_id (SlotParticipant ∘ pd_cardinality) (pairings d)
       (declare_all cd_link_id (SlotBinding ∘ cd_cardinality) (contracts d)
          (declare_all nd_link_id (SlotBinding ∘ nd_cardinality) (nodes d) ∅))).

Definition declared_csv (slots : DeclaredLinkSlots) : string :=
  String.concat ", " (map fst (btree_iter slots)).

(** The checks of one link. *)
Definition link_slot_errors (depends_on : DependsOn) (slots : DeclaredLinkSlots) (owner_id : string)
    (entry : string * LinkValue) : list ParsingError :=
  let '(link, value) := entry in
  if existsb (λ target, bool_decide (dt_link_id target = link)) (daemon depends_on)
  then [LinkToDaemonTarget owner_id link]
  else
    match slots !! link with
    | None => [LinkUnknownSlot owner_id link (declared_csv slots)]
    | Some kind =>
        match value_vacancy value with
        | None => []
        | Some _ =>
            match refuse_vacancy kind with
            | Some refusal => [LinkVacantInvalid owner_id link (describe_slot kind) refusal]
            | None => []
            end
        end
    end.

Definition validate_link_slots (items : list BindingValidationItem) : list ParsingError :=
  flat_map
    (λ item,
       match bi_depends_on item with
       | None => []
       | Some depends_on =>
           let slots := DeclaredLinkSlots_from depends_on in
           flat_map
             (λ instance,
                flat_map (link_slot_errors depends_on slots (di_instance_id instance))
                  (btree_iter (di_links instance)))
             (bi_instances item)
       end)
    items.

(** ** The pipeline *)

Record ValidatedLinkPlan : Type := mkValidatedLinkPlan {
  lp_errors : list ParsingError;
  lp_slot_bindings : gmap string Resolution;
  lp_planned_pairings : list PlannedPairing;
  lp_planned_observations : list PlannedObservation;
}.

(** [None] is a panic of one of the validators. *)
Definition validate_link_plan (binding_items : list BindingValidationItem)
    (pairing_items : list PairingValidationItem) (already_paired : SlotPeers)
    (externally_covered : gset PlanSlot) (placements : Placements) (copies : CopyMembership)
    (clocks : gmap string ClockBinding) : option ValidatedLinkPlan :=
  match validate_link_slots binding_items with
  | (_ :: _) as errors => Some (mkValidatedLinkPlan errors ∅ [] [])
  | [] =>
      bindings ← validate_bindings binding_items placements copies;
      match vb_errors bindings with
      | (_ :: _) as errors => Some (mkValidatedLinkPlan errors ∅ [] [])
      | [] =>
          pairings ← validate_pairings pairing_items already_paired externally_covered;
          let observable := observable_pairs (vp_planned pairings) already_paired in
          let observations := validate_observations pairing_items placements observable in
          match vp_errors pairings ++ vo_errors observations with
          | (_ :: _) as errors =>
              Some (mkValidatedLinkPlan errors (vb_slot_bindings bindings) [] [])
          | [] =>
              match validate_clock_connections clocks (vb_slot_bindings bindings)
                      (vp_planned pairings) (vo_planned observations) with
              | (_ :: _) as errors =>
                  Some (mkValidatedLinkPlan errors (vb_slot_bindings bindings) [] [])
              | [] =>
                  Some (mkValidatedLinkPlan [] (vb_slot_bindings bindings) (vp_planned pairings)
                          (vo_planned observations))
              end
          end
      end
  end.

(** ** What the checks let through *)

(** The slots of one node, with their cardinality. *)
Definition producer_slot (d : DependsOn) (link : string) (c : Cardinality) : Prop :=
  (∃ dep, dep ∈ nodes d ∧ nd_link_id dep = link ∧ nd_cardinality dep = c) ∨
  (∃ dep, dep ∈ contracts d ∧ cd_link_id dep = link ∧ cd_cardinality dep = c).

Definition declared_link (d : DependsOn) (link : string) : Prop :=
  (∃ c, producer_slot d link c) ∨ link ∈ pairing_link_ids d.

Section slots.
Context (d : DependsOn) (Hlinks : NoDup (link_ids d)).

Lemma link_ids_apart :
  NoDup (map nd_link_id (nodes d)) ∧ NoDup (map cd_link_id (contracts d)) ∧
  NoDup (map pd_link_id (pairings d)) ∧ NoDup (map pd_link_id (pairing_observers d)) ∧
  (∀ k, k ∈ map nd_link_id (nodes d) → k ∉ map cd_link_id (contracts d)) ∧
  (∀ k, k ∈ map nd_link_id (nodes d) ∨ k ∈ map cd_link_id (contracts d) →
     k ∉ pairing_link_ids d) ∧
  (∀ k, k ∈ map pd_link_id (pairings d) → k ∉ map pd_link_id (pairing_observers d)).
Proof.
  unfold link_ids, producer_slots in Hlinks. rewrite !map_app, !map_map in Hlinks. cbn [fst] in Hlinks.
  apply NoDup_app in Hlinks as (Hprod & Hapart & Hpair). apply NoDup_app in Hprod as (H1 & H2 & H3).
  apply NoDup_app in H3 as (H3 & _ & _). apply NoDup_app in Hpair as (H4 & H5 & H6).
  split_and!; try done; intros k Hk.
  - specialize (H2 k Hk). set_solver.
  - apply Hapart. rewrite !elem_of_app. tauto.
Qed.

Lemma declared_kind k kind :
  DeclaredLinkSlots_from d !! k = Some kind ↔
  (∃ c, producer_slot d k c ∧ kind = SlotBinding c) ∨
  (∃ dep, dep ∈ pairings d ∧ pd_link_id dep = k ∧ kind = SlotParticipant (pd_cardinality dep)) ∨
  (∃ dep, dep ∈ pairing_observers d ∧ pd_link_id dep = k ∧ kind = SlotObserver (pd_cardinality dep)).
Proof.
  destruct link_ids_apart as (H1 & H2 & H3 & H4 & Hnc & Hprod & Hpair).
  assert (Hprod1 : ∀ k, k ∈ map nd_link_id (nodes d) ∨ k ∈ map cd_link_id (contracts d) →
    k ∉ map pd_link_id (pairing_observers d) ∧ k ∉ map pd_link_id (pairings d)).
  { intros k' Hk. specialize (Hprod k' Hk). unfold pairing_link_ids in Hprod. set_solver. }
  assert (Hn : ∀ dep, dep ∈ nodes d → nd_link_id dep ∈ map nd_link_id (nodes d))
    by (intros; apply elem_of_map; eauto).
  assert (Hc : ∀ dep, dep ∈ contracts d → cd_link_id dep ∈ map cd_link_id (contracts d))
    by (intros; apply elem_of_map; eauto).
  assert (Hp : ∀ dep, dep ∈ pairings d → pd_link_id dep ∈ map pd_link_id (pairings d))
    by (intros; apply elem_of_map; eauto).
  unfold DeclaredLinkSlots_from, declare_all, producer_slot.
  rewrite !fold_inserts_lookup, lookup_empty by done. unfold compose.
  split.
  - intros [(a & ? & ? & <-)|[_ [(a & ? & ? & <-)|[_ [(a & ? & ? & <-)|[_ [(a & ? & ? & <-)|[_ [=]]]]]]]]];
      naive_solver.
  - intros [(c & [(a & Ha & <- & <-)|(a & Ha & <- & <-)] & ->)|[(a & Ha & <- & ->)|(a & Ha & <- & ->)]].
    + right. split; [apply Hprod1; auto|]. right. split; [apply Hprod1; auto|].
      right. split; [auto|]. left. eauto.
    + right. split; [apply Hprod1; auto|]. right. split; [apply Hprod1; auto|].
      left. eauto.
    + right. split; [auto|]. left. eauto.
    + left. eauto.
Qed.

Lemma collect_slots_lookup k slot :
  collect_declared_slots (Some d) !! k = Some slot ↔
  (∃ dep, dep ∈ nodes d ∧ nd_link_id dep = k ∧
     slot = mkSlotMeta (nd_name dep) (nd_tag dep) Node (nd_cardinality dep)) ∨
  (∃ dep, dep ∈ contracts d ∧ cd_link_id dep = k ∧
     slot = mkSlotMeta (cd_name dep) (cd_tag dep) Contract (cd_cardinality dep)).
Proof.
  destruct link_ids_apart as (H1 & H2 & _ & _ & Hnc & _). unfold collect_declared_slots.
  rewrite !fold_inserts_lookup, lookup_empty by done. split.
  - intros [(a & ? & ? & <-)|[_ [(a & ? & ? & <-)|[_ [=]]]]]; eauto 10.
  - intros [(a & Ha & <- & ->)|(a & Ha & <- & ->)]; [right|left; eauto].
    split; [apply Hnc, elem_of_map; eauto|]. left. eauto.
Qed.

Lemma declared_slot_producer k slot :
  collect_declared_slots (Some d) !! k = Some slot → producer_slot d k (sm_cardinality slot).
Proof.
  intros [(a & ? & ? & ->)|(a & ? & ? & ->)]%collect_slots_lookup; [left|right]; exists a; done.
Qed.
End slots.

(** A link the checks let through names a slot of the node, and leaves it
    vacant only where the node declares that it may run empty. *)
Lemma link_slots_checked items item d instance k value :
  validate_link_slots items = [] → item ∈ items → bi_depends_on item = Some d → NoDup (link_ids d) →
  instance ∈ bi_instances item → di_links instance !! k = Some value →
  ∃ kind, DeclaredLinkSlots_from d !! k = Some kind ∧
    (value_vacancy value ≠ None → slot_kind_cardinality kind = ZeroOrOne).
Proof.
  unfold validate_link_slots. rewrite flat_map_nil. intros H Hitem Hd Hnd Hinst Hk.
  specialize (H item Hitem). rewrite Hd in H. rewrite flat_map_nil in H. specialize (H instance Hinst).
  rewrite flat_map_nil in H. specialize (H (k, value) ltac:(by apply elem_of_btree_iter)).
  unfold link_slot_errors in H. destruct (existsb _ _); [done|].
  destruct (DeclaredLinkSlots_from d !! k) as [kind|]; [|done]. exists kind. split; [done|].
  destruct (value_vacancy value); [|done]. intros _. by destruct kind as [[]|[]|[]].
Qed.

(** ** One plan *)

(** Two item lists of one plan, as their callers build them: the instances of
    the pairing items are instances of the binding items, and each node with
    slots has its pairing item. *)
Record same_plan (binding_items : list BindingValidationItem)
    (pairing_items : list PairingValidationItem) : Prop := mkSamePlan {
  sp_instances : sublist (map pi_instances pairing_items) (map bi_instances binding_items);
  sp_slots : ∀ item d, item ∈ binding_items → bi_depends_on item = Some d →
    ∃ pitem, pitem ∈ pairing_items ∧ pi_instances pitem = bi_instances item ∧
      pi_pairing_deps pitem = pairings d ∧ pi_observer_deps pitem = pairing_observers d ∧
      pi_preexisting pitem = false;
  sp_links : ∀ item d, item ∈ binding_items → bi_depends_on item = Some d → NoDup (link_ids d);
  sp_pairing_links : ∀ pitem, pitem ∈ pairing_items →
    unique_links pitem ∧ NoDup (map pd_link_id (pi_observer_deps pitem));
}.

Section pipeline.
Context (binding_items : list BindingValidationItem) (pairing_items : list PairingValidationItem).
Context (already : SlotPeers) (external : gset PlanSlot).
Context (placements : Placements) (copies : CopyMembership) (clocks : gmap string ClockBinding).

(** The stages of a run without errors. *)
Lemma validate_link_plan_ok out :
  validate_link_plan binding_items pairing_items already external placements copies clocks = Some out →
  lp_errors out = [] →
  ∃ bindings pairings,
    let observations := validate_observations pairing_items placements
      (observable_pairs (vp_planned pairings) already) in
    validate_link_slots binding_items = [] ∧
    validate_bindings binding_items placements copies = Some bindings ∧ vb_errors bindings = [] ∧
    validate_pairings pairing_items already external = Some pairings ∧ vp_errors pairings = [] ∧
    vo_errors observations = [] ∧
    validate_clock_connections clocks (vb_slot_bindings bindings) (vp_planned pairings)
      (vo_planned observations) = [] ∧
    out = mkValidatedLinkPlan [] (vb_slot_bindings bindings) (vp_planned pairings)
            (vo_planned observations).
Proof.
  unfold validate_link_plan. destruct (validate_link_slots _) eqn:E1; [|by intros [= <-]].
  destruct (validate_bindings _ _ _) as [bindings|] eqn:E2; [|done]. cbn [mbind option_bind].
  destruct (vb_errors bindings) eqn:E3; [|by intros [= <-]].
  destruct (validate_pairings _ _ _) as [pairings|] eqn:E4; [|done]. cbn [mbind option_bind].
  destruct (vp_errors pairings ++ _) eqn:E5; [|by intros [= <-]]. apply app_nil in E5 as [E5 E6].
  destruct (validate_clock_connections _ _ _ _) eqn:E7; [|by intros [= <-]].
  intros [= <-] _. exists bindings, pairings. cbn zeta. done.
Qed.

Context (Hsame : same_plan binding_items pairing_items).

Lemma deployed_flat : map fst (deployed binding_items) = List.concat (map bi_instances binding_items).
Proof.
  unfold deployed. rewrite flat_map_concat_map, concat_map, map_map. f_equal. apply map_ext. intros item.
  rewrite map_map. apply map_id.
Qed.

Lemma plan_deployed_flat :
  map fst (plan_deployed pairing_items) = List.concat (map pi_instances pairing_items).
Proof.
  unfold plan_deployed. rewrite flat_map_concat_map, concat_map, map_map. f_equal. apply map_ext.
  intros item. rewrite map_map. apply map_id.
Qed.

(** The ids of the pairing items are unique when those of the plan are. *)
Lemma same_plan_ids :
  NoDup (map (λ e, di_instance_id e.1) (deployed binding_items)) →
  NoDup (map (λ e, di_instance_id e.1) (plan_deployed pairing_items)).
Proof.
  rewrite <-(map_map fst di_instance_id), <-(map_map fst di_instance_id (plan_deployed _)).
  rewrite deployed_flat, plan_deployed_flat. intros Hnd. eapply sublist_NoDup; [exact Hnd|].
  apply (fmap_sublist di_instance_id). destruct Hsame as [Hsub _ _ _]. clear -Hsub.
  induction Hsub; cbn; [done|by apply sublist_app|by apply sublist_inserts_l].
Qed.

Context (Hwf : Forall (λ e, wf_links e.1) (deployed binding_items)).

Definition plan_context : BindingContext :=
  mkBindingContext (build_instance_lookup binding_items) placements copies.

(** What the binding stage leaves in a slot. *)
Lemma bindings_fulfil bindings item d instance link slot :
  validate_link_slots binding_items = [] →
  validate_bindings binding_items placements copies = Some bindings → vb_errors bindings = [] →
  item ∈ binding_items → bi_depends_on item = Some d → instance ∈ bi_instances item →
  producer_slot d link (sm_cardinality slot) → collect_declared_slots (Some d) !! link = Some slot →
  ∃ bound, (vb_slot_bindings bindings !! di_instance_id instance ≫= (.!! link)) = Some bound ∧
    slot_resolves plan_context instance link slot bound ∧ admits (sm_cardinality slot) (length bound) = true.
Proof.
  intros Hslots Hb Herr Hitem Hd Hi Hprod Hslot. assert (Hnd := sp_links _ _ Hsame item d Hitem Hd).
  destruct (bind_instances plan_context (deployed binding_items)
    (mkValidatedBindings (check_stack_wide_instance_id_uniqueness binding_items) ∅) Hwf)
    as (out & Hout & Hnil & Hmap).
  unfold validate_bindings in Hb. fold plan_context in Hb. rewrite Hout in Hb. injection Hb as <-.
  apply Hnil in Herr as [Huniq Hall]. cbn [vb_errors] in Huniq. apply uniqueness_nil in Huniq.
  assert (Hdep : (instance, item) ∈ deployed binding_items).
  { unfold deployed. apply elem_of_flat_map. exists item. split; [done|]. apply elem_of_map. eauto. }
  rewrite <-Hd in Hslot. destruct (Hall instance item link slot Hdep Hslot) as (bound & Hres & _).
  destruct Hmap as [_ Hin]; [done|intros; apply lookup_empty|]. exists bound.
  split; [apply (Hin instance item link bound Hdep); eauto|]. split; [done|].
  unfold slot_resolves in Hres. destruct (di_links instance !! link) as [[selection|reason]|] eqn:El.
  - destruct Hres as (Hshape & _ & ->). rewrite length_map. by apply check_cardinality_shape_admits.
  - subst bound. destruct (link_slots_checked binding_items item d instance link (Vacant reason))
      as (kind & Hkind & Hv); [done..|].
    rewrite (proj2 (declared_kind d Hnd link (SlotBinding (sm_cardinality slot)))) in Hkind by eauto.
    injection Hkind as <-. cbn in Hv. by rewrite Hv.
  - destruct Hres as [Hempty ->]. by destruct (sm_cardinality slot).
Qed.

(** The binding stage returns, and lets through only unique ids. *)
Lemma bindings_run :
  ∃ bindings, validate_bindings binding_items placements copies = Some bindings ∧
    (vb_errors bindings = [] → NoDup (map (λ e, di_instance_id e.1) (plan_deployed pairing_items))).
Proof.
  destruct (bind_instances (mkBindingContext (build_instance_lookup binding_items) placements copies)
    (deployed binding_items) (mkValidatedBindings (check_stack_wide_instance_id_uniqueness binding_items) ∅)
    Hwf) as (out & Hout & Hnil & _).
  exists out. split; [done|]. intros [Huniq _]%Hnil. by apply same_plan_ids, uniqueness_nil.
Qed.

Lemma same_plan_deployed item d instance pitem :
  item ∈ binding_items → bi_depends_on item = Some d → instance ∈ bi_instances item →
  pitem ∈ pairing_items → pi_instances pitem = bi_instances item →
  (instance, pitem) ∈ plan_deployed pairing_items.
Proof.
  intros Hitem Hd Hi Hp Heq. unfold plan_deployed. apply elem_of_flat_map. exists pitem. split; [done|].
  apply elem_of_map. exists instance. by rewrite Heq.
Qed.

(** What the pairing stage leaves on a slot. *)
Lemma pairings_fulfil pairings item d instance dep :
  validate_link_slots binding_items = [] →
  NoDup (map (λ e, di_instance_id e.1) (plan_deployed pairing_items)) →
  validate_pairings pairing_items already external = Some pairings → vp_errors pairings = [] →
  item ∈ binding_items → bi_depends_on item = Some d → instance ∈ bi_instances item →
  dep ∈ Config.pairings d → (di_instance_id instance, pd_link_id dep) ∉ external →
  admits (pd_cardinality dep)
    (planned_on (di_instance_id instance, pd_link_id dep) (vp_planned pairings)) = true.
Proof.
  intros Hslots Hids Hv Herr Hitem Hd Hi Hdep Hext. assert (Hnd := sp_links _ _ Hsame item d Hitem Hd).
  destruct (sp_slots _ _ Hsame item d Hitem Hd) as (pitem & Hp & Heq & Hpd & _ & Hpre).
  assert (Hin := same_plan_deployed item d instance pitem Hitem Hd Hi Hp Heq).
  assert (Hlinks : ∀ it, it ∈ pairing_items → unique_links it)
    by (intros it Hit; apply (sp_pairing_links _ _ Hsame it Hit)).
  destruct (validate_pairings_run pairing_items already Hids Hlinks external) as (st & Hst & Hinv & _).
  rewrite Hst in Hv. injection Hv as <-. cbn [vp_errors vp_planned] in *. apply app_nil in Herr as [_ Hcov].
  set (n := planned_on _ _).
  assert (Hscalar : is_scalar (pd_cardinality dep) = true → n = 0 ∨ n = 1).
  { intros Hs. destruct (plan_scalar _ _ _ (inv_exclusive _ _ _ _ Hinv)
      (di_instance_id instance, pd_link_id dep) dep) as [H|[H _]]; [|done|by left|by right].
    unfold slot_dep. cbn [fst snd]. rewrite (plan_lookup_deployed _ Hids _ _ Hin). cbn.
    apply item_slot_Some; [by apply Hlinks|]. by rewrite Hpd. }
  assert (Hcovered : pd_cardinality dep = One ∨ pd_cardinality dep = OneOrMore → n > 0).
  { intros Hc. destruct (coverage_planned pairing_items already _ _ external instance pitem dep Hinv Hcov Hin Hpre)
      as [H|[H|[reason Hvac]]]; [by rewrite Hpd|by destruct Hc as [-> | ->]|done|done|].
    destruct (link_slots_checked binding_items item d instance (pd_link_id dep) (Vacant reason))
      as (kind & Hkind & Hz); [done..|].
    rewrite (proj2 (declared_kind d Hnd _ (SlotParticipant (pd_cardinality dep)))) in Hkind
      by (right; left; eauto).
    injection Hkind as <-. cbn in Hz. destruct Hc as [Hc|Hc]; rewrite Hc in Hz; by specialize (Hz ltac:(done)). }
  clearbody n. clear -Hscalar Hcovered. destruct (pd_cardinality dep); cbn in *; [| | |done].
  - destruct (Hscalar eq_refl) as [-> | ->]; [|done]. specialize (Hcovered ltac:(by left)). lia.
  - by destruct (Hscalar eq_refl) as [-> | ->].
  - specialize (Hcovered ltac:(by right)). destruct n; [lia|done].
Qed.

(** What the observation stage leaves in a slot. *)
Lemma observations_fulfil pairs item d instance dep :
  validate_link_slots binding_items = [] →
  NoDup (map (λ e, di_instance_id e.1) (plan_deployed pairing_items)) →
  vo_errors (validate_observations pairing_items placements pairs) = [] →
  item ∈ binding_items → bi_depends_on item = Some d → instance ∈ bi_instances item →
  dep ∈ pairing_observers d →
  admits (pd_cardinality dep)
    (length (members_of (di_instance_id instance) (pd_link_id dep)
       (vo_planned (validate_observations pairing_items placements pairs)))) = true.
Proof.
  intros Hslots Hids Herr Hitem Hd Hi Hdep. assert (Hnd := sp_links _ _ Hsame item d Hitem Hd).
  destruct (sp_slots _ _ Hsame item d Hitem Hd) as (pitem & Hp & Heq & _ & Hod & Hpre).
  assert (Hin := same_plan_deployed item d instance pitem Hitem Hd Hi Hp Heq).
  assert (Hobs : ∀ it, it ∈ pairing_items → NoDup (map pd_link_id (pi_observer_deps it)))
    by (intros it Hit; apply (sp_pairing_links _ _ Hsame it Hit)).
  assert (Hst : (instance, pitem) ∈ starting pairing_items) by (by apply elem_of_starting).
  rewrite <-Hod in Hdep. rewrite (members_of_planned _ _ _ Hids Hobs _ _ _ Hst).
  destruct (no_observation_errors _ _ _ Hobs _ _ _ Herr Hst Hdep) as [Hbound Hcov].
  unfold observer_covered in Hcov. destruct (di_links instance !! pd_link_id dep) as [[selection|reason]|] eqn:El.
  - destruct (Hbound selection eq_refl) as [os Hos]. unfold slot_result. cbn [fst snd value_selection].
    rewrite (proj2 (observers_by_link pairing_items Hobs pitem _ dep Hp)) by done. rewrite Hos. cbn [ok_of].
    apply resolve_observation_slot_ok in Hos as (Hshape & Hall & _).
    rewrite <-(Forall2_length _ _ _ Hall). by apply check_cardinality_shape_admits.
  - destruct (link_slots_checked binding_items item d instance (pd_link_id dep) (Vacant reason))
      as (kind & Hkind & Hz); [done..|].
    rewrite (proj2 (declared_kind d Hnd _ (SlotObserver (pd_cardinality dep)))) in Hkind
      by (right; right; rewrite <-Hod; eauto).
    injection Hkind as <-. cbn in Hz. rewrite Hz by done.
    unfold slot_result. cbn. by destruct (slots_by_link _ !! _).
  - cbn in Hcov. by destruct (pd_cardinality dep).
Qed.
End pipeline.

(** ** The pipeline

    It always returns on the two views of one plan, and a plan without errors
    fulfils every slot its nodes declare. Each link names a declared slot. Each
    node or contract slot resolves, to as many producers as its cardinality
    admits; each pairing slot that is not covered elsewhere is in that many
    pairs, and each observer slot has that many members. And every connection,
    of any family, joins two instances that read the same clock. *)

Record plan_fulfils (context : BindingContext) (binding_items : list BindingValidationItem)
    (external : gset PlanSlot) (clocks : gmap string ClockBinding) (out : ValidatedLinkPlan) : Prop := {
  fulfils_links : ∀ item d instance link value, item ∈ binding_items → bi_depends_on item = Some d →
    instance ∈ bi_instances item → di_links instance !! link = Some value → declared_link d link;
  fulfils_producers : ∀ item d instance link slot, item ∈ binding_items → bi_depends_on item = Some d →
    instance ∈ bi_instances item → collect_declared_slots (Some d) !! link = Some slot →
    ∃ bound, (lp_slot_bindings out !! di_instance_id instance ≫= (.!! link)) = Some bound ∧
      slot_resolves context instance link slot bound ∧ admits (sm_cardinality slot) (length bound) = true;
  fulfils_pairs : ∀ item d instance dep, item ∈ binding_items → bi_depends_on item = Some d →
    instance ∈ bi_instances item → dep ∈ pairings d →
    (di_instance_id instance, pd_link_id dep) ∉ external →
    admits (pd_cardinality dep)
      (planned_on (di_instance_id instance, pd_link_id dep) (lp_planned_pairings out)) = true;
  fulfils_observers : ∀ item d instance dep, item ∈ binding_items → bi_depends_on item = Some d →
    instance ∈ bi_instances item → dep ∈ pairing_observers d →
    admits (pd_cardinality dep)
      (length (members_of (di_instance_id instance) (pd_link_id dep) (lp_planned_observations out))) = true;
  fulfils_clocks :
    clocks_agree clocks (lp_slot_bindings out) (lp_planned_pairings out) (lp_planned_observations out);
}.

Lemma validate_link_plan_run (binding_items : list BindingValidationItem)
    (pairing_items : list PairingValidationItem) (already : SlotPeers) (external : gset PlanSlot)
    (placements : Placements) (copies : CopyMembership) (clocks : gmap string ClockBinding) :
  same_plan binding_items pairing_items → Forall (λ e, wf_links e.1) (deployed binding_items) →
  ∃ out, validate_link_plan binding_items pairing_items already external placements copies clocks = Some out ∧
  (lp_errors out = [] →
   plan_fulfils (plan_context binding_items placements copies) binding_items external clocks out).
Proof.
  intros Hsame Hwf.
  destruct (bindings_run binding_items pairing_items placements copies Hsame Hwf) as (b & Hb & Hids).
  assert (Hlinks : ∀ it, it ∈ pairing_items → unique_links it)
    by (intros it Hit; apply (sp_pairing_links _ _ Hsame it Hit)).
  assert (Htotal : is_Some (validate_link_plan binding_items pairing_items already external placements
    copies clocks)).
  { unfold validate_link_plan. destruct (validate_link_slots _); [|eauto]. rewrite Hb. cbn [mbind option_bind].
    destruct (vb_errors b); [|eauto].
    destruct (validate_pairings_run pairing_items already (Hids eq_refl) Hlinks external) as (st & -> & _).
    cbn [mbind option_bind]. repeat case_match; eauto. }
  destruct Htotal as [out Hout]. exists out. split; [done|]. intros Hok.
  destruct (validate_link_plan_ok _ _ _ _ _ _ _ _ Hout Hok)
    as (b' & p & Hslots & Hb' & Hbe & Hp & Hpe & Hoe & Hce & ->).
  rewrite Hb in Hb'. injection Hb' as <-. specialize (Hids Hbe).
  split; cbn [lp_slot_bindings lp_planned_pairings lp_planned_observations].
  - intros item d instance link value Hitem Hd Hi Hl. assert (Hnd := sp_links _ _ Hsame item d Hitem Hd).
    destruct (link_slots_checked _ _ _ _ _ _ Hslots Hitem Hd Hnd Hi Hl) as (kind & Hkind & _).
    apply declared_kind in Hkind; [|done]. unfold declared_link, pairing_link_ids.
    rewrite elem_of_app, !elem_of_map. naive_solver.
  - intros item d instance link slot Hitem Hd Hi Hslot. eapply bindings_fulfil; try done.
    apply declared_slot_producer; [|done]. by eapply sp_links.
  - intros item d instance dep Hitem Hd Hi Hdep Hext. by eapply pairings_fulfil.
  - intros item d instance dep Hitem Hd Hi Hdep. by eapply observations_fulfil.
  - by apply clock_connections_nil.
Qed.
