(* ===== verification/LaunchOrder.v ===== *)
(** * The start order of a launch

    [core-node-internal/src/services/stack/launch/orchestrate.rs]: the sort
    that puts the nodes of a plan in the order they start in. The source keeps
    its tables in hash maps and hash sets, whose iteration order is arbitrary:
    here it is two functions the definitions take, about which nothing is
    known but that they list the entries once each. *)

From stdpp Require Import sorting.
From S2P Require Import Prelude.
#[local] Open Scope peppy_scope.

Notation NodeKey := (string * string)%type.

Definition key_label (k : NodeKey) : string := k.1 +:+ (":" +:+ k.2).

Definition USIZE_MAX : Z := (2 ^ 64 - 1)%Z.

(** Iteration over a [HashMap] and over a [HashSet]. *)
Class HashOrder : Type := {
  map_iter : ∀ {V}, gmap NodeKey V → list (NodeKey * V);
  set_iter : gset NodeKey → list NodeKey;
}.

Class HashOrderLaws (o : HashOrder) : Prop := {
  map_iter_perm : ∀ {V} (m : gmap NodeKey V), map_iter m ≡ₚ map_to_list m;
  set_iter_perm : ∀ s, set_iter s ≡ₚ elements s;
}.

Section sort.
Context `{HashOrder}.
Context (planned : list NodeKey) (deps_for : gmap NodeKey (gset NodeKey)).

Definition initial_degrees : gmap NodeKey nat :=
  fold_left (λ m e, <[e.1 := size e.2]> m) (map_iter deps_for)
    (fold_left (λ m k, <[k := default 0 (m !! k)]> m) planned ∅).

Definition dependents_of : gmap NodeKey (list NodeKey) :=
  fold_left
    (λ m e,
       fold_left (λ m dep, <[dep := default [] (m !! dep) ++ [e.1]]> m) (set_iter e.2) m)
    (map_iter deps_for)
    (fold_left (λ m k, <[k := default [] (m !! k)]> m) planned ∅).

(** [enumerate] and [collect]: a later entry replaces an earlier one. *)
Definition order_index : gmap NodeKey Z :=
  fold_left (λ m e, <[e.2 := Z.of_nat e.1]> m) (zip (seq 0 (length planned)) planned) ∅.

Definition index_of (k : NodeKey) : Z := default USIZE_MAX (order_index !! k).

Definition sort_by_index (l : list NodeKey) : list NodeKey :=
  stable_sort (λ a b, (index_of a <? index_of b)%Z) l.

(** One child of the node that was placed. *)
Definition relax (st : gmap NodeKey nat * list NodeKey) (child : NodeKey) : gmap NodeKey nat * list NodeKey :=
  let '(in_degree, queue) := st in
  match in_degree !! child with
  | None => st
  | Some deg =>
      let deg := Nat.pred deg in
      (<[child := deg]> in_degree, if bool_decide (deg = 0) then queue ++ [child] else queue)
  end.

(** The loop over the queue; [None] is a run cut short by its fuel. *)
Fixpoint place (fuel : nat) (in_degree : gmap NodeKey nat) (queue ordered : list NodeKey) :
    option (gmap NodeKey nat * list NodeKey) :=
  match fuel with
  | 0 => None
  | S fuel =>
      match queue with
      | [] => Some (in_degree, ordered)
      | node :: queue =>
          match dependents_of !! node with
          | None => place fuel in_degree queue (ordered ++ [node])
          | Some children =>
              let '(in_degree, queue) := fold_left relax children (in_degree, queue) in
              place fuel in_degree (sort_by_index queue) (ordered ++ [node])
          end
      end
  end.

Definition cycle_message (remaining : list string) : string :=
  "unable to resolve dependency order (cycle suspected). Remaining nodes: "
  +:+ String.concat ", " remaining.

(** A node is placed once at most, and one more turn finds the queue empty. *)
Definition topological_sort : option (result string (list NodeKey)) :=
  let in_degree := initial_degrees in
  let ready :=
    sort_by_index
      (map fst (List.filter (λ '(_, deg), bool_decide (deg = 0)) (map_iter in_degree))) in
  '(in_degree, ordered) ← place (S (length planned)) in_degree ready [];
  if negb (bool_decide (length ordered = length planned))
  then
    let remaining :=
      map (λ '(k, _), key_label k) (List.filter (λ '(_, deg), bool_decide (0 < deg)) (map_iter in_degree)) in
    Some (Err (cycle_message (merge_sort String.le remaining)))
  else Some (Ok ordered).
End sort.

(** ** The order, as a choice

    The reference: of the planned nodes that are not placed and whose
    dependencies all are, the first one in plan order is placed next, until
    there is none. *)

Section reference.
Context (planned : list NodeKey) (deps : NodeKey → gset NodeKey).

Definition ready_next (ordered : list NodeKey) : list NodeKey :=
  List.filter (λ k, bool_decide (k ∉ ordered) && bool_decide (deps k ⊆ list_to_set ordered)) planned.

Fixpoint choose (fuel : nat) (ordered : list NodeKey) : list NodeKey :=
  match fuel, ready_next ordered with
  | S fuel, k :: _ => choose fuel (ordered ++ [k])
  | _, _ => ordered
  end.

Definition stuck (ordered : list NodeKey) : list NodeKey :=
  List.filter (λ k, negb (bool_decide (deps k ⊆ list_to_set ordered))) planned.

Definition launch_order : result string (list NodeKey) :=
  let ordered := choose (length planned) [] in
  if bool_decide (length ordered = length planned) then Ok ordered
  else Err (cycle_message (merge_sort String.le (map key_label (stuck ordered)))).
End reference.

(** ** The tables *)

Section tables.
Context `{HashOrderLaws}.
Context (planned : list NodeKey) (deps_for : gmap NodeKey (gset NodeKey)).
Context (Hdom : ∀ k, is_Some (deps_for !! k) ↔ k ∈ planned).

Definition deps_of (k : NodeKey) : gset NodeKey := default ∅ (deps_for !! k).

Lemma map_iter_keys {V} (m : gmap NodeKey V) : NoDup (map fst (map_iter m)).
Proof. rewrite (map_iter_perm m). apply (NoDup_fst_map_to_list m). Qed.

Lemma elem_of_map_iter {V} (m : gmap NodeKey V) k v : (k, v) ∈ map_iter m ↔ m !! k = Some v.
Proof. by rewrite (map_iter_perm m), elem_of_map_to_list. Qed.

Lemma default_entries {V} (v : V) l k :
  fold_left (λ m k, <[k := default v (m !! k)]> m) l (∅ : gmap NodeKey V) !! k =
  if decide (k ∈ l) then Some v else None.
Proof.
  induction l as [|x l IH] using rev_ind.
  { cbn [fold_left]. rewrite lookup_empty, decide_False by set_solver. done. }
  rewrite fold_left_app. cbn [fold_left]. rewrite lookup_insert.
  destruct (decide (x = k)) as [->|Hx].
  - rewrite IH. rewrite (decide_True (P := k ∈ l ++ [k])) by set_solver. by case_decide.
  - rewrite IH. repeat case_decide; set_solver.
Qed.

Lemma initial_degrees_lookup k :
  initial_degrees planned deps_for !! k = if decide (k ∈ planned) then Some (size (deps_of k)) else None.
Proof.
  unfold initial_degrees, deps_of. apply option_eq. intros n.
  rewrite (fold_inserts_lookup fst (λ e, size e.2)) by apply map_iter_keys.
  rewrite default_entries, elem_of_map. split.
  - intros [([k' ds] & Hin%elem_of_map_iter & <- & <-)|[Hno Hd]]; cbn [fst snd].
    + rewrite decide_True by (apply Hdom; eauto). by rewrite Hin.
    + case_decide as Hk; [|done]. exfalso. apply Hno. apply Hdom in Hk as [ds Hds].
      exists (k, ds). by rewrite elem_of_map_iter.
  - case_decide as Hk; [|done]. intros [= <-]. apply Hdom in Hk as [ds Hds]. left. exists (k, ds).
    by rewrite elem_of_map_iter, Hds.
Qed.

Lemma push_dependant (d : NodeKey) (l : list NodeKey) (m : gmap NodeKey (list NodeKey)) (n : NodeKey) :
  NoDup l →
  default [] (fold_left (λ m dep, <[dep := default [] (m !! dep) ++ [d]]> m) l m !! n) =
  default [] (m !! n) ++ (if decide (n ∈ l) then [d] else []) ∧
  (is_Some (m !! n) → is_Some (fold_left (λ m dep, <[dep := default [] (m !! dep) ++ [d]]> m) l m !! n)).
Proof.
  revert m. induction l as [|x l IH]; intros m; cbn [fold_left].
  { intros _. rewrite app_nil_r. done. }
  intros [Hx Hl]%NoDup_cons. destruct (IH (<[x := default [] (m !! x) ++ [d]]> m) Hl) as [He Hs]. split.
  - rewrite He, lookup_insert. destruct (decide (x = n)) as [->|Hne].
    + rewrite decide_False, decide_True by set_solver. cbn. by rewrite app_nil_r.
    + f_equal. repeat case_decide; set_solver.
  - intros Hm. apply Hs. rewrite lookup_insert_is_Some. destruct (decide (x = n)); auto.
Qed.

Lemma dependents_of_lookup n :
  n ∈ planned →
  ∃ children, dependents_of planned deps_for !! n = Some children ∧ NoDup children ∧
    ∀ c, c ∈ children ↔ c ∈ planned ∧ n ∈ deps_of c.
Proof.
  intros Hn. unfold dependents_of. set (m0 := fold_left _ planned ∅).
  set (step := λ m e, fold_left _ (set_iter e.2) m).
  assert (Hset : ∀ s, NoDup (set_iter s) ∧ ∀ x, x ∈ set_iter s ↔ x ∈ s).
  { intros s. rewrite (set_iter_perm s). split; [apply NoDup_elements|]. intros x.
    by rewrite (set_iter_perm s), elem_of_elements. }
  assert (Hgen : ∀ l m, is_Some (m !! n) →
    fold_left step l m !! n =
    Some (default [] (m !! n) ++ map fst (List.filter (λ e, bool_decide (n ∈ e.2)) l))).
  { induction l as [|[d ds] l IH]; intros m Hm; cbn [fold_left].
    { destruct Hm as [x Hx]. rewrite Hx. cbn. by rewrite app_nil_r. }
    destruct (push_dependant d (set_iter ds) m n) as [He Hs]; [apply Hset|].
    change (fold_left _ (set_iter ds) m) with (step m (d, ds)) in He, Hs.
    rewrite IH by (by apply Hs). rewrite He. cbn [List.filter snd].
    destruct (decide (n ∈ set_iter ds)) as [Hin|Hin]; rewrite (proj2 (Hset ds)) in Hin.
    - rewrite bool_decide_true by done. cbn [map fst]. by rewrite <-app_assoc.
    - rewrite bool_decide_false by done. by rewrite app_nil_r. }
  rewrite Hgen by (subst m0; rewrite default_entries, decide_True by done; eauto).
  subst m0. rewrite default_entries, decide_True by done. cbn [from_option id app]. eexists. split; [reflexivity|].
  split.
  - eapply sublist_NoDup; [apply (map_iter_keys deps_for)|]. apply (fmap_sublist fst).
    induction (map_iter deps_for) as [|e l IH]; cbn; [done|]. destruct (bool_decide _); by constructor.
  - intros c. rewrite elem_of_map. setoid_rewrite elem_of_retain. setoid_rewrite bool_decide_eq_true.
    unfold deps_of. split.
    + intros ([k ds] & -> & Hin%elem_of_map_iter & Hd). cbn in *. rewrite Hin. split; [|done].
      apply Hdom. eauto.
    + intros [[ds Hds]%Hdom Hd]. rewrite Hds in Hd. exists (c, ds). by rewrite elem_of_map_iter.
Qed.
End tables.

(** ** Sorting by plan order *)

Section by_index.
Context {A : Type} (key : A → Z).
Let before (a b : A) : Prop := (key a < key b)%Z.

Lemma sorted_insert_sorted x l :
  StronglySorted before l → (∀ y, y ∈ l → key y ≠ key x) →
  StronglySorted before (sorted_insert (λ a b, (key a <? key b)%Z) x l).
Proof.
  induction 1 as [|y l Hl IH Hy]; intros Hne; cbn [sorted_insert]; [by repeat constructor|].
  destruct (key y <? key x)%Z eqn:E.
  - apply Z.ltb_lt in E. constructor; [apply IH; set_solver|].
    apply Forall_forall. intros z. rewrite sorted_insert_perm. intros [->|Hz]%elem_of_cons; [done|].
    by eapply Forall_forall in Hy.
  - apply Z.ltb_ge in E. assert (Hyx := Hne y ltac:(left)).
    assert (Hb : before x y) by (unfold before; lia). constructor; [by constructor|].
    constructor; [done|]. eapply Forall_impl; [exact Hy|]. unfold before in *. intros. lia.
Qed.

Lemma stable_sort_sorted l :
  NoDup l → (∀ x y, x ∈ l → y ∈ l → key x = key y → x = y) →
  StronglySorted before (stable_sort (λ a b, (key a <? key b)%Z) l).
Proof.
  induction l as [|x l IH]; [constructor|]. intros [Hx Hnd]%NoDup_cons Hinj. cbn [stable_sort foldr].
  apply sorted_insert_sorted.
  - apply IH; [done|]. intros. apply Hinj; [by right..|done].
  - intros y Hy Heq. fold (stable_sort (λ a b, (key a <? key b)%Z) l) in Hy.
    rewrite stable_sort_perm in Hy. apply Hx. rewrite <-(Hinj y x); [done|by right|left|done].
Qed.

Lemma indexed_sorted l (off : Z) :
  (∀ i k, l !! i = Some k → key k = (off + Z.of_nat i)%Z) → StronglySorted before l.
Proof.
  revert off. induction l as [|x l IH]; intros off Hl; [constructor|]. constructor.
  - apply (IH (off + 1)%Z). intros i k Hk. rewrite (Hl (S i) k Hk). lia.
  - apply Forall_forall. intros y [i Hi]%list_elem_of_lookup. unfold before.
    rewrite (Hl 0 x eq_refl), (Hl (S i) y Hi). lia.
Qed.

Lemma filter_sorted (p : A → bool) l : StronglySorted before l → StronglySorted before (List.filter p l).
Proof.
  induction 1 as [|x l Hl IH Hx]; cbn; [constructor|]. destruct (p x); [|done]. constructor; [done|].
  apply Forall_forall. intros y [Hy _]%elem_of_retain. by eapply Forall_forall in Hx.
Qed.
End by_index.

Section order.
Context (planned : list NodeKey) (Hnd : NoDup planned).

Lemma index_of_planned i k : planned !! i = Some k → index_of planned k = Z.of_nat i.
Proof.
  intros Hi. unfold index_of, order_index.
  assert (Hlen : length (seq 0 (length planned)) = length planned) by apply length_seq.
  assert (Hkeys : NoDup (map snd (zip (seq 0 (length planned)) planned))).
  { change (NoDup (zip (seq 0 (length planned)) planned).*2). rewrite snd_zip by lia. done. }
  rewrite (proj2 (fold_inserts_lookup snd (λ e, Z.of_nat e.1) _ _ k (Z.of_nat i) Hkeys)); [done|].
  left. exists (i, k). split; [|done]. apply list_elem_of_lookup. exists i.
  rewrite lookup_zip_with, Hi, lookup_seq_lt by (by eapply lookup_lt_Some). done.
Qed.

(** Keys of the plan, sorted, are in plan order. *)
Lemma sort_by_index_planned l p :
  NoDup l → (∀ k, k ∈ l ↔ k ∈ planned ∧ p k = true) → sort_by_index planned l = List.filter p planned.
Proof.
  intros Hl Hin. unfold sort_by_index.
  apply (StronglySorted_unique_strong (λ a b, (index_of planned a < index_of planned b)%Z)).
  - intros. lia.
  - apply stable_sort_sorted; [done|]. intros x y [Hx _]%Hin [Hy _]%Hin Heq.
    apply list_elem_of_lookup in Hx as [i Hi]. apply list_elem_of_lookup in Hy as [j Hj].
    rewrite (index_of_planned i x Hi), (index_of_planned j y Hj) in Heq.
    assert (i = j) as -> by lia. congruence.
  - apply filter_sorted. apply (indexed_sorted _ _ 0). intros i k Hk. by rewrite (index_of_planned i k Hk).
  - rewrite stable_sort_perm. apply NoDup_Permutation; [done|by apply NoDup_retain|]. intros k.
    by rewrite Hin, elem_of_retain.
Qed.
End order.

(** ** The loop *)

Lemma relax_children children in_degree queue :
  NoDup children →
  let r := fold_left relax children (in_degree, queue) in
  (∀ k, r.1 !! k = if decide (k ∈ children) then Nat.pred <$> in_degree !! k else in_degree !! k) ∧
  r.2 = queue ++ List.filter (λ c, bool_decide (Nat.pred <$> in_degree !! c = Some 0)) children.
Proof.
  cbn zeta. revert in_degree queue. induction children as [|c children IH]; intros in_degree queue; cbn [fold_left].
  { intros _. cbn. by rewrite app_nil_r. }
  intros [Hc Hnd]%NoDup_cons. cbn [List.filter].
  assert (Hsame : ∀ m : gmap NodeKey nat, (∀ k, k ∈ children → m !! k = in_degree !! k) →
    List.filter (λ c, bool_decide (Nat.pred <$> m !! c = Some 0)) children =
    List.filter (λ c, bool_decide (Nat.pred <$> in_degree !! c = Some 0)) children).
  { intros m Hm. clear -Hm. induction children as [|x l IH]; cbn; [done|].
    rewrite Hm by set_solver. rewrite IH by set_solver. done. }
  destruct (relax (in_degree, queue) c) as [m q] eqn:Er. destruct (IH m q Hnd) as [Hd Hq].
  rewrite Hq. clear IH Hq. unfold relax in Er.
  destruct (in_degree !! c) as [deg|] eqn:Ec; injection Er as <- <-.
  - rewrite Hsame. 2: { intros k Hk. rewrite lookup_insert_ne; [done|]. by intros ->. }
    split.
    + intros k. rewrite Hd, lookup_insert. destruct (decide (c = k)) as [<-|Hne].
      * rewrite decide_False, decide_True by set_solver. by rewrite Ec.
      * repeat case_decide; set_solver.
    + cbn [fmap option_fmap option_map]. destruct (Nat.pred deg).
      * rewrite !bool_decide_true by done. by rewrite <-app_assoc.
      * by rewrite !bool_decide_false by done.
  - split; [|done]. intros k. rewrite Hd. destruct (decide (c = k)) as [<-|Hne].
    + rewrite decide_False, decide_True by set_solver. by rewrite Ec.
    + repeat case_decide; set_solver.
Qed.

Section loop.
Context `{HashOrderLaws}.
Context (planned : list NodeKey) (deps_for : gmap NodeKey (gset NodeKey)).
Context (Hnd : NoDup planned).
Context (Hdom : ∀ k, is_Some (deps_for !! k) ↔ k ∈ planned).
Let deps := deps_of deps_for.

(** What is left of a node's dependencies, the nodes placed so far, and that
    none was placed before its dependencies. *)
Record placed (in_degree : gmap NodeKey nat) (ordered : list NodeKey) : Prop := {
  placed_degrees : ∀ k, in_degree !! k =
    if decide (k ∈ planned) then Some (size (deps k ∖ list_to_set ordered)) else None;
  placed_once : NoDup ordered;
  placed_planned : ∀ k, k ∈ ordered → k ∈ planned;
  placed_closed : ∀ k, k ∈ ordered → deps k ⊆ list_to_set ordered;
}.

Lemma elem_of_ready_next ordered k :
  k ∈ ready_next planned deps ordered ↔ k ∈ planned ∧ k ∉ ordered ∧ deps k ⊆ list_to_set ordered.
Proof.
  unfold ready_next. rewrite elem_of_retain, andb_true_iff, !bool_decide_eq_true. done.
Qed.

Lemma difference_snoc (X : gset NodeKey) ordered k :
  X ∖ list_to_set (ordered ++ [k]) = (X ∖ list_to_set ordered) ∖ {[k]}.
Proof. apply leibniz_equiv. rewrite list_to_set_app. cbn. set_solver. Qed.

Lemma size_snoc (X : gset NodeKey) ordered k :
  k ∈ X → k ∉ ordered →
  size (X ∖ list_to_set (ordered ++ [k])) = Nat.pred (size (X ∖ list_to_set ordered)).
Proof.
  intros HX Ho. rewrite difference_snoc, size_difference by set_solver. rewrite size_singleton. lia.
Qed.

Lemma size_snoc_other (X : gset NodeKey) ordered k :
  k ∉ X → X ∖ list_to_set (ordered ++ [k]) = X ∖ list_to_set ordered.
Proof. intros HX. rewrite difference_snoc. apply leibniz_equiv. set_solver. Qed.

Lemma subset_snoc (X : gset NodeKey) ordered k :
  X ⊆ list_to_set ordered → X ⊆ list_to_set (ordered ++ [k]).
Proof. rewrite list_to_set_app. set_solver. Qed.

Lemma not_elem_of_snoc (j k : NodeKey) ordered : j ∉ ordered ++ [k] ↔ j ∉ ordered ∧ j ≠ k.
Proof. rewrite elem_of_app, list_elem_of_singleton. tauto. Qed.

(** Placing a ready node: a child whose last dependency this was becomes
    ready, and only such a child. *)
Section ready.
Context (in_degree : gmap NodeKey nat) (ordered : list NodeKey) (k : NodeKey) (rest : list NodeKey).
Context (Hplaced : placed in_degree ordered).
Context (Hready : ready_next planned deps ordered = k :: rest).

Lemma ready_head : k ∈ planned ∧ k ∉ ordered ∧ deps k ⊆ list_to_set ordered.
Proof. apply elem_of_ready_next. rewrite Hready. left. Qed.

Lemma ready_NoDup : k ∉ rest ∧ NoDup rest.
Proof. apply NoDup_cons. rewrite <-Hready. by apply NoDup_retain. Qed.

Lemma elem_of_ready_rest j :
  j ∈ rest ↔ j ≠ k ∧ j ∈ planned ∧ j ∉ ordered ∧ deps j ⊆ list_to_set ordered.
Proof.
  rewrite <-elem_of_ready_next, Hready, elem_of_cons. destruct ready_NoDup as [Hr _].
  split; [|naive_solver]. intros Hj. split; [|by right]. by intros ->.
Qed.

Lemma last_dependency j :
  j ∈ planned → k ∈ deps j →
  Nat.pred <$> in_degree !! j = Some 0 ↔ deps j ⊆ list_to_set (ordered ++ [k]).
Proof.
  intros Hj Hkj. destruct ready_head as (_ & Hko & _).
  rewrite (placed_degrees _ _ Hplaced), decide_True by done. cbn [fmap option_fmap option_map].
  rewrite <-(size_snoc _ _ k) by done. split.
  - intros [= Hz%size_empty_iff]. by apply empty_difference_subseteq.
  - intros Hsub. f_equal. apply size_empty_iff. by apply subseteq_empty_difference.
Qed.

Context (children : list NodeKey) (Hch : NoDup children).
Context (Hchildren : ∀ c, c ∈ children ↔ c ∈ planned ∧ k ∈ deps c).
Let r := fold_left relax children (in_degree, rest).

Lemma place_node_placed : placed r.1 (ordered ++ [k]).
Proof.
  destruct Hplaced as [Hdeg Honce Hpl Hclosed]. destruct ready_head as (Hkp & Hko & Hkd).
  destruct (relax_children children in_degree rest Hch) as [Hd _]. split.
  - intros j. subst r. rewrite Hd, Hdeg.
    destruct (decide (j ∈ children)) as [Hj|Hj]; rewrite Hchildren in Hj.
    + destruct Hj as [Hj Hkj]. rewrite !decide_True by done. cbn [fmap option_fmap option_map].
      by rewrite size_snoc by done.
    + case_decide; [|done]. rewrite size_snoc_other; [done|]. tauto.
  - apply NoDup_app. split; [done|]. split; [|apply NoDup_singleton].
    intros j Hj Hjk%list_elem_of_singleton. by subst.
  - intros j [Hj| ->%list_elem_of_singleton]%elem_of_app; auto.
  - intros j [Hj| ->%list_elem_of_singleton]%elem_of_app; apply subset_snoc; auto.
Qed.

Lemma place_node_ready : sort_by_index planned r.2 = ready_next planned deps (ordered ++ [k]).
Proof.
  destruct ready_head as (Hkp & Hko & Hkd). destruct ready_NoDup as [_ Hr].
  destruct (relax_children children in_degree rest Hch) as [_ Hq]. subst r. rewrite Hq.
  assert (Hopen : ∀ j, k ∈ deps j → ¬ deps j ⊆ list_to_set ordered)
    by (intros j Hkj Hsub; by apply Hko, (elem_of_list_to_set (C := gset NodeKey)), Hsub).
  apply sort_by_index_planned; [done| |].
  - apply NoDup_app. split; [done|]. split; [|by apply NoDup_retain].
    intros j (_ & _ & _ & Hj)%elem_of_ready_rest [[_ Hc]%Hchildren _]%elem_of_retain.
    by apply (Hopen j).
  - intros j. rewrite elem_of_app, elem_of_ready_rest, elem_of_retain, Hchildren, andb_true_iff,
      !bool_decide_eq_true, not_elem_of_snoc. split.
    + intros [(? & ? & ? & ?)|[[? Hkj] Hz]].
      { split; [done|]. split; [done|]. by apply subset_snoc. }
      split; [done|]. split; [|by apply last_dependency].
      split; [intros Hj; by apply (Hopen j), (placed_closed _ _ Hplaced)|intros ->; by apply (Hopen k)].
    + intros (Hjp & [Hjo Hjk] & Hjd). destruct (decide (k ∈ deps j)) as [Hkj|Hkj].
      * right. split; [done|]. by apply last_dependency.
      * left. split; [done|]. split; [done|]. split; [done|]. rewrite list_to_set_app in Hjd.
        intros x Hx. specialize (Hjd x Hx). cbn in Hjd. set_solver.
Qed.
End ready.

Lemma place_node in_degree ordered k rest children :
  placed in_degree ordered → ready_next planned deps ordered = k :: rest →
  NoDup children → (∀ c, c ∈ children ↔ c ∈ planned ∧ k ∈ deps c) →
  let r := fold_left relax children (in_degree, rest) in
  placed r.1 (ordered ++ [k]) ∧ sort_by_index planned r.2 = ready_next planned deps (ordered ++ [k]).
Proof. intros. split; [by eapply place_node_placed|by eapply place_node_ready]. Qed.

Lemma placed_length in_degree ordered : placed in_degree ordered → length ordered ≤ length planned.
Proof. intros [_ Ho Hp _]. apply submseteq_length. by apply NoDup_submseteq. Qed.

(** All are placed when as many are as there are. *)
Lemma placed_all in_degree ordered :
  placed in_degree ordered → length planned ≤ length ordered → ordered ≡ₚ planned.
Proof.
  intros [_ Ho Hp _] Hlen. apply submseteq_length_Permutation; [by apply NoDup_submseteq|done].
Qed.

(** The loop places what the reference chooses, and returns. *)
Lemma place_choose fuel in_degree ordered :
  placed in_degree ordered → length planned ≤ fuel + length ordered →
  ∃ in_degree', place planned deps_for (S fuel) in_degree (ready_next planned deps ordered) ordered =
      Some (in_degree', choose planned deps fuel ordered) ∧
    placed in_degree' (choose planned deps fuel ordered) ∧
    ready_next planned deps (choose planned deps fuel ordered) = [].
Proof.
  revert in_degree ordered. induction fuel as [|fuel IH]; intros in_degree ordered Hpl Hfuel.
  - assert (Hall := placed_all _ _ Hpl Hfuel).
    assert (Hno : ready_next planned deps ordered = []).
    { apply elem_of_nil_inv. intros k (Hk & Hno & _)%elem_of_ready_next. by rewrite Hall in Hno. }
    cbn [choose]. rewrite Hno. eexists. split; [reflexivity|done].
  - cbn [choose]. destruct (ready_next planned deps ordered) as [|k rest] eqn:Er.
    { eexists. split; [reflexivity|done]. }
    assert (Hk : k ∈ planned) by (apply (elem_of_ready_next ordered); rewrite Er; left).
    destruct (dependents_of_lookup planned deps_for Hdom k Hk) as (children & Hch & Hcnd & Hc).
    destruct (place_node in_degree ordered k rest children Hpl Er Hcnd Hc) as [Hpl' Hq].
    assert (Hstep : place planned deps_for (S (S fuel)) in_degree (k :: rest) ordered =
      place planned deps_for (S fuel) (fold_left relax children (in_degree, rest)).1
        (sort_by_index planned (fold_left relax children (in_degree, rest)).2) (ordered ++ [k])).
    { change (place planned deps_for (S (S fuel)) in_degree (k :: rest) ordered) with
        (match dependents_of planned deps_for !! k with
         | None => place planned deps_for (S fuel) in_degree rest (ordered ++ [k])
         | Some children =>
             let '(in_degree, queue) := fold_left relax children (in_degree, rest) in
             place planned deps_for (S fuel) in_degree (sort_by_index planned queue) (ordered ++ [k])
         end). rewrite Hch. by destruct (fold_left relax children (in_degree, rest)). }
    rewrite Hstep, Hq. apply IH; [done|]. rewrite length_app. cbn. lia.
Qed.

Lemma placed_initial : placed (initial_degrees planned deps_for) [].
Proof.
  split.
  - intros k. rewrite (initial_degrees_lookup planned deps_for Hdom). case_decide; [|done].
    do 2 f_equal. apply leibniz_equiv. cbn. set_solver.
  - constructor.
  - by intros k ?%elem_of_nil.
  - by intros k ?%elem_of_nil.
Qed.

Lemma initial_ready :
  sort_by_index planned
    (map fst (List.filter (λ '(_, deg), bool_decide (deg = 0)) (map_iter (initial_degrees planned deps_for)))) =
  ready_next planned deps [].
Proof.
  apply sort_by_index_planned; [done| |].
  - eapply sublist_NoDup; [apply (map_iter_keys (initial_degrees planned deps_for))|].
    apply (fmap_sublist fst). induction (map_iter _) as [|[k d] l IH]; cbn; [done|].
    destruct (bool_decide _); by constructor.
  - intros k. rewrite elem_of_map, andb_true_iff, !bool_decide_eq_true. setoid_rewrite elem_of_retain. split.
    + intros ([k' d] & -> & Hin%elem_of_map_iter & ->%bool_decide_eq_true). cbn.
      rewrite (initial_degrees_lookup planned deps_for Hdom) in Hin. case_decide as Hk; [|done].
      injection Hin as Hs%size_empty_iff. split; [done|]. split; [by apply not_elem_of_nil|]. unfold deps. set_solver.
    + intros (Hk & _ & Hd). exists (k, 0). split; [done|].
      rewrite elem_of_map_iter, (initial_degrees_lookup planned deps_for Hdom), decide_True by done.
      split; [|done]. f_equal. apply size_empty_iff. fold deps. set_solver.
Qed.

(** The remaining labels, sorted, do not depend on the iteration. *)
Lemma remaining_labels in_degree ordered :
  placed in_degree ordered →
  merge_sort String.le
    (map (λ '(k, _), key_label k) (List.filter (λ '(_, deg), bool_decide (0 < deg)) (map_iter in_degree))) =
  merge_sort String.le (map key_label (stuck planned deps ordered)).
Proof.
  intros [Hdeg _ _ _]. apply (Sorted_unique String.le); [apply (Sorted_merge_sort String.le)..|].
  rewrite !merge_sort_Permutation.
  assert (Hmap : ∀ l : list (NodeKey * nat), map (λ '(k, _), key_label k) l = map key_label (map fst l)).
  { intros l. rewrite map_map. apply map_ext. by intros []. }
  rewrite Hmap. apply Permutation_map, NoDup_Permutation.
  - eapply sublist_NoDup; [apply (map_iter_keys in_degree)|].
    apply (fmap_sublist fst). induction (map_iter _) as [|[k d] l IH]; cbn; [done|].
    destruct (bool_decide _); by constructor.
  - by apply NoDup_retain.
  - intros k. unfold stuck. rewrite elem_of_map, elem_of_retain, negb_true_iff, bool_decide_eq_false.
    setoid_rewrite elem_of_retain.
    assert (Hsize : 0 < size (deps k ∖ list_to_set ordered) ↔ ¬ deps k ⊆ list_to_set ordered).
    { split; [intros (x & Hx)%size_pos_elem_of; set_solver|]. intros Hno. apply Nat.neq_0_lt_0.
      intros He%size_empty_iff. apply Hno. intros x Hx. destruct (decide (x ∈ ordered)); [set_solver|].
      exfalso. apply (not_elem_of_empty (C := gset NodeKey) x), He. set_solver. }
    split.
    + intros ([k' d] & -> & Hin%elem_of_map_iter & Hd%bool_decide_eq_true). rewrite Hdeg in Hin.
      case_decide; [|done]. injection Hin as <-. cbn. tauto.
    + intros [Hk Hno%Hsize]. eexists (k, _). split; [done|]. rewrite elem_of_map_iter, Hdeg, decide_True by done.
      split; [reflexivity|]. by apply bool_decide_eq_true.
Qed.
End loop.

(** ** What the order is *)

Section chosen.
Context (planned : list NodeKey) (deps : NodeKey → gset NodeKey).

(** Each node comes after its dependencies. *)
Definition deps_first (ordered : list NodeKey) : Prop :=
  ∀ i k, ordered !! i = Some k → deps k ⊆ list_to_set (take i ordered).

Lemma choose_deps_first fuel ordered :
  deps_first ordered → deps_first (choose planned deps fuel ordered).
Proof.
  revert ordered. induction fuel as [|fuel IH]; intros ordered Ho; cbn [choose]; [done|].
  destruct (ready_next planned deps ordered) as [|k rest] eqn:Er; [done|]. apply IH.
  intros i j Hj. apply lookup_app_Some in Hj as [Hj|[Hi Hj]].
  - rewrite take_app_le by (apply Nat.lt_le_incl; by eapply lookup_lt_Some). by apply Ho.
  - destruct (i - length ordered) as [|n] eqn:En; [|done]. injection Hj as <-.
    rewrite take_app_le by lia. rewrite take_ge by lia.
    assert (Hk : k ∈ ready_next planned deps ordered) by (rewrite Er; left).
    unfold ready_next in Hk. rewrite elem_of_retain, andb_true_iff, !bool_decide_eq_true in Hk. tauto.
Qed.

(** A set of planned nodes that wait for one another. *)
Definition deadlocked (C : gset NodeKey) : Prop :=
  C ≠ ∅ ∧ C ⊆ list_to_set planned ∧ ∀ k, k ∈ C → deps k ∩ C ≠ ∅.

(** None of a deadlocked set is ever placed. *)
Lemma deadlocked_unplaced C ordered k :
  deadlocked C → deps_first ordered → k ∈ ordered → k ∉ C.
Proof.
  intros (_ & _ & HC) Ho Hin HkC. apply list_elem_of_lookup in Hin as [i Hi].
  revert k Hi HkC. induction (lt_wf i) as [i _ IH]. intros k Hi HkC.
  apply (HC k HkC). apply leibniz_equiv. intros d. split; [|set_solver].
  intros [Hd HdC]%elem_of_intersection. exfalso. apply (Ho i k Hi) in Hd.
  apply elem_of_list_to_set, list_elem_of_lookup in Hd as [j Hj].
  apply lookup_take_Some in Hj as [Hj Hlt]. by apply (IH j Hlt d).
Qed.
End chosen.

Lemma topological_sort_choice `{HashOrderLaws} (planned : list NodeKey)
    (deps_for : gmap NodeKey (gset NodeKey)) :
  NoDup planned → (∀ k, is_Some (deps_for !! k) ↔ k ∈ planned) →
  topological_sort planned deps_for = Some (launch_order planned (deps_of deps_for)).
Proof.
  intros Hnd Hdom. unfold topological_sort, launch_order. cbn zeta. rewrite (initial_ready planned deps_for Hnd Hdom).
  destruct (place_choose planned deps_for Hnd Hdom (length planned) (initial_degrees planned deps_for) []
    (placed_initial planned deps_for Hnd Hdom)) as (d & -> & Hpl & _); [cbn; lia|].
  cbn [mbind option_bind]. case_bool_decide; cbn [negb]; [done|].
  rewrite (remaining_labels planned deps_for Hnd Hdom d (choose planned (deps_of deps_for) (length planned) [])); done.
Qed.

Lemma launch_order_sound `{HashOrderLaws} (planned : list NodeKey)
    (deps_for : gmap NodeKey (gset NodeKey)) :
  NoDup planned → (∀ k, is_Some (deps_for !! k) ↔ k ∈ planned) →
  (∀ k, deps_of deps_for k ⊆ list_to_set planned) →
  match launch_order planned (deps_of deps_for) with
  | Ok ordered =>
      ordered ≡ₚ planned ∧ deps_first (deps_of deps_for) ordered ∧
      ∀ C, ¬ deadlocked planned (deps_of deps_for) C
  | Err _ => ∃ C, deadlocked planned (deps_of deps_for) C
  end.
Proof.
  intros Hnd Hdom Hdeps. unfold launch_order. cbn zeta.
  destruct (place_choose planned deps_for Hnd Hdom (length planned) (initial_degrees planned deps_for) []
    (placed_initial planned deps_for Hnd Hdom)) as (d & _ & Hpl & Hready); [cbn; lia|].
  assert (Hfirst := choose_deps_first planned (deps_of deps_for) (length planned) [] ltac:(by intros i k Hi)).
  set (ordered := choose _ _ _ _) in *. case_bool_decide as Hlen.
  - assert (Hall : ordered ≡ₚ planned) by (eapply placed_all; [exact Hpl|lia]). split; [done|]. split; [done|].
    intros C HC. destruct HC as (Hne & Hsub & HC). apply Hne, leibniz_equiv. intros k. split; [|set_solver].
    intros Hk. exfalso. apply (deadlocked_unplaced planned (deps_of deps_for) C ordered k); [done|done| |done].
    rewrite Hall. apply Hsub in Hk. by apply elem_of_list_to_set in Hk.
  - exists (list_to_set planned ∖ list_to_set ordered). split_and!.
    + intros He. apply Hlen. apply (Nat.le_antisymm _ _); [by eapply placed_length|].
      apply submseteq_length, NoDup_submseteq; [done|]. intros k Hk.
      destruct (decide (k ∈ ordered)) as [|Hno]; [done|]. exfalso.
      apply (not_elem_of_empty (C := gset NodeKey) k). rewrite <-He. set_solver.
    + set_solver.
    + intros k [Hk Hko]%elem_of_difference. rewrite elem_of_list_to_set in Hk, Hko. intros He.
      assert (Hr : k ∈ ready_next planned (deps_of deps_for) ordered).
      { apply elem_of_ready_next. split; [done|]. split; [done|]. intros x Hx.
        destruct (decide (x ∈ (list_to_set ordered : gset NodeKey))) as [|Hno]; [done|]. exfalso.
        apply (not_elem_of_empty (C := gset NodeKey) x). rewrite <-He.
        apply elem_of_intersection. split; [done|]. apply elem_of_difference. split; [by eapply Hdeps|done]. }
      rewrite Hready in Hr. by apply elem_of_nil in Hr.
Qed.

(** C35: the sort of a plan always ends, and whatever order the hash tables
    iterate in it gives the order of the reference, where the next node to start
    is the first one of the plan whose dependencies all started. That order
    holds every node of the plan once, each after all it depends on; and it
    fails exactly when some of the nodes wait for one another. *)
Theorem start_order_exact `{HashOrderLaws} (planned : list NodeKey)
    (deps_for : gmap NodeKey (gset NodeKey))
    (Hnd : NoDup planned) (Hdom : ∀ k, is_Some (deps_for !! k) ↔ k ∈ planned)
    (Hdeps : ∀ k, deps_of deps_for k ⊆ list_to_set planned) :
  topological_sort planned deps_for = Some (launch_order planned (deps_of deps_for)) ∧
  match launch_order planned (deps_of deps_for) with
  | Ok ordered =>
      ordered ≡ₚ planned ∧ deps_first (deps_of deps_for) ordered ∧
      ∀ C, ¬ deadlocked planned (deps_of deps_for) C
  | Err _ => ∃ C, deadlocked planned (deps_of deps_for) C
  end.
Proof. split; [by apply topological_sort_choice|by apply launch_order_sound]. Qed.

(** An iteration order: that of the maps and sets of the model. *)
Definition plain_order : HashOrder := Build_HashOrder (λ V m, map_to_list m) elements.

Lemma plain_order_laws : HashOrderLaws plain_order.
Proof. split; [intros V m|intros s]; reflexivity. Qed.

(** A viewer planned before the camera it reads. *)
Definition example_keys : list NodeKey := [("viewer", "v1"); ("camera", "v1")].
Definition example_deps : gmap NodeKey (gset NodeKey) :=
  {[ ("viewer", "v1") := {[ ("camera", "v1") ]}; ("camera", "v1") := ∅ ]}.

Lemma start_order_exact_witness :
  topological_sort (H := plain_order) example_keys example_deps =
  Some (Ok [("camera", "v1"); ("viewer", "v1")]).
Proof.
  destruct (start_order_exact (H := plain_order_laws) example_keys example_deps) as [-> _].
  - apply (bool_decide_unpack _). vm_compute. exact I.
  - intros k. unfold example_deps, example_keys. rewrite lookup_insert_is_Some, lookup_singleton_is_Some. set_solver.
  - intros k. unfold deps_of, example_deps, example_keys.
    destruct (decide (k = ("viewer", "v1"))) as [->|]; [rewrite lookup_insert_eq; cbn; set_solver|].
    rewrite lookup_insert_ne by done.
    destruct (decide (k = ("camera", "v1"))) as [->|]; [rewrite lookup_singleton_eq|rewrite lookup_singleton_ne by done]; cbn; set_solver.
  - vm_compute. reflexivity.
Defined.
