(* ===== verification/LaunchPlan.v ===== *)
(** * The plan of a launch

    [core-node-internal/src/services/stack/launch/orchestrate.rs],
    [validate_and_order_dependencies]: a launch checks the dependencies of its
    nodes, resolves their links, and sorts them in the order they start in.
    What it publishes on the way is not modelled. *)

From S2P Require Import Prelude Names RestartPolicy Config Validation PairingRegistry Supervision LaunchTypes Bindings PairPlan ObservePlan Clocks LinkPlan LaunchOrder.
#[local] Open Scope peppy_scope.
Import Parsing.

(** What planning reads of a deployment. *)
Record PlannedDeployment : Type := mkPlannedDeployment {
  pld_instances : list DeploymentInstance;
  pld_node_name : string;
  pld_node_tag : string;
  pld_config : NodeConfig;
  pld_addressing : MemberAddressing;
}.

Definition planned_key (p : PlannedDeployment) : NodeKey := (pld_node_name p, pld_node_tag p).

Record ValidatedPlan : Type := mkValidatedPlan {
  plan_ordered : list NodeKey;
  plan_slot_bindings : gmap string Resolution;
  plan_pairings : list PlannedPairing;
  plan_observations : list PlannedObservation;
}.

(** Why a launch is refused, before its text. *)
Inductive LaunchRefusal : Type :=
| DependencyRefusal (errors : list DependencyError)
| LinkRefusal (errors : list ParsingError)
| OrderRefusal (message : string).

Definition config_key (c : NodeConfig) : NodeKey := (m_name (manifest c), m_tag (manifest c)).

Definition planned_depends_on (p : PlannedDeployment) : option DependsOn :=
  depends_on (manifest (pld_config p)).

Section plan.
Context `{HashOrder}.
Context (root_config : NodeConfig) (root_instance : option string) (planned : list PlannedDeployment).
Context (placements : Placements) (copies : CopyMembership) (clocks : gmap string ClockBinding).

Definition configs_by_key : gmap NodeKey NodeConfig :=
  fold_left (λ m item, <[planned_key item := pld_config item]> m) planned
    {[ config_key root_config := root_config ]}.

Definition planned_keys : gset NodeKey := list_to_set (map planned_key planned).

Definition dependency_errors : list DependencyError :=
  flat_map
    (λ item,
       validate_dependency_specs AllowAbsentWhenSlotAdmitsEmpty
         (λ name tag, configs_by_key !! (name, tag))
         (manifest (pld_config item)) (interfaces (pld_config item))
         (pld_node_name item) (pld_node_tag item))
    planned.

(** The root takes part with its id and what it implements. *)
Definition root_instances : list DeploymentInstance :=
  match root_instance with
  | Some id =>
      match Name_try_from id with Ok name => [DeploymentInstance_empty name] | Err _ => [] end
  | None => []
  end.

Definition launch_binding_items : list BindingValidationItem :=
  map (λ p, mkBindingValidationItem (pld_node_name p) (pld_node_tag p) (pld_instances p)
              (planned_depends_on p) (implements (manifest (pld_config p))) (pld_addressing p))
    planned
  ++ match root_instances with
     | [] => []
     | _ =>
         [mkBindingValidationItem (m_name (manifest root_config)) (m_tag (manifest root_config))
            root_instances None (implements (manifest root_config)) WholeSet]
     end.

Definition launch_pairing_items : list PairingValidationItem :=
  map (λ p, mkPairingValidationItem (pld_node_name p) (pld_node_tag p) (pld_instances p)
              (match planned_depends_on p with Some d => pairings d | None => [] end)
              (match planned_depends_on p with Some d => pairing_observers d | None => [] end)
              false)
    planned.

Definition launch_deps (item : PlannedDeployment) : gset NodeKey :=
  list_to_set
    (List.filter
       (λ key, negb (bool_decide (key = config_key root_config)) && bool_decide (key ∈ planned_keys))
       (map (λ spec, (spec_name spec, spec_tag spec)) (collect_dependency_specs (pld_config item)))).

Definition launch_deps_for : gmap NodeKey (gset NodeKey) :=
  fold_left (λ m item, <[planned_key item := launch_deps item]> m) planned ∅.

(** [None] is a panic of a validator, or a sort cut short. *)
Definition validate_and_order_dependencies : option (result LaunchRefusal ValidatedPlan) :=
  match dependency_errors with
  | (_ :: _) as errors => Some (Err (DependencyRefusal errors))
  | [] =>
      validated ←
        validate_link_plan launch_binding_items launch_pairing_items ∅ ∅ placements copies clocks;
      match lp_errors validated with
      | (_ :: _) as errors => Some (Err (LinkRefusal errors))
      | [] =>
          sorted ← topological_sort (map planned_key planned) launch_deps_for;
          match sorted with
          | Err message => Some (Err (OrderRefusal message))
          | Ok ordered =>
              Some (Ok (mkValidatedPlan ordered (lp_slot_bindings validated)
                          (lp_planned_pairings validated) (lp_planned_observations validated)))
          end
      end
  end.
End plan.

(** ** The two views of a launch *)

Section launch.
Context (root_config : NodeConfig) (root_instance : option string) (planned : list PlannedDeployment).
Context (Hkeys : NoDup (map planned_key planned)).
Context (Hlinks : ∀ p d, p ∈ planned → planned_depends_on p = Some d → NoDup (link_ids d)).

Lemma launch_items_cases item :
  item ∈ launch_binding_items root_config root_instance planned →
  (∃ p, p ∈ planned ∧ bi_instances item = pld_instances p ∧ bi_depends_on item = planned_depends_on p ∧
     (bi_node_name item, bi_node_tag item) = planned_key p) ∨
  (bi_depends_on item = None ∧ bi_instances item = root_instances root_instance ∧
   (bi_node_name item, bi_node_tag item) = config_key root_config).
Proof.
  unfold launch_binding_items. intros [(p & -> & Hp)%elem_of_map|Hr]%elem_of_app; [left; by exists p|].
  right. destruct (root_instances root_instance); [by apply elem_of_nil in Hr|].
  by apply list_elem_of_singleton in Hr as ->.
Qed.

Lemma launch_item p :
  p ∈ planned →
  ∃ item, item ∈ launch_binding_items root_config root_instance planned ∧
    bi_instances item = pld_instances p ∧ bi_depends_on item = planned_depends_on p.
Proof.
  intros Hp. eexists. split; [|shelve]. unfold launch_binding_items.
  apply elem_of_app. left. apply elem_of_map. exists p. split; [reflexivity|done].
  Unshelve. done.
Qed.

Lemma launch_same_plan :
  same_plan (launch_binding_items root_config root_instance planned) (launch_pairing_items planned).
Proof.
  assert (Hp_item : ∀ pitem, pitem ∈ launch_pairing_items planned → ∃ p, p ∈ planned ∧
    pi_pairing_deps pitem = (match planned_depends_on p with Some d => pairings d | None => [] end) ∧
    pi_observer_deps pitem = (match planned_depends_on p with Some d => pairing_observers d | None => [] end)).
  { intros pitem (p & -> & Hp)%elem_of_map. by exists p. }
  split.
  - unfold launch_binding_items, launch_pairing_items. rewrite map_app, !map_map. cbn [pi_instances bi_instances].
    by apply sublist_inserts_r.
  - intros item d Hitem Hd. apply launch_items_cases in Hitem as [(p & Hp & Hi & Hdep & _)|(Hno & _)]; [|congruence].
    rewrite Hd in Hdep. eexists. split; [apply elem_of_map; by exists p|]. cbn. by rewrite <-Hdep.
  - intros item d Hitem Hd. apply launch_items_cases in Hitem as [(p & Hp & Hi & Hdep & _)|(Hno & _)]; [|congruence].
    apply (Hlinks p); [done|congruence].
  - intros pitem (p & Hp & Hpd & Hod)%Hp_item. unfold unique_links. rewrite Hpd, Hod.
    destruct (planned_depends_on p) as [d|] eqn:Ed; [|split; constructor].
    destruct (link_ids_apart d (Hlinks p d Hp Ed)) as (_ & _ & ? & ? & _). done.
Qed.

Lemma launch_links_wf :
  (∀ p i, p ∈ planned → i ∈ pld_instances p → wf_links i) →
  Forall (λ e, wf_links e.1) (deployed (launch_binding_items root_config root_instance planned)).
Proof.
  intros Hwf. apply Forall_forall. intros [i item] Hin.
  apply elem_of_flat_map in Hin as (item' & Hitem & Hin). apply elem_of_map in Hin as (? & [= <- <-] & Hi).
  cbn. apply launch_items_cases in Hitem as [(p & Hp & Heq & _)|(_ & Heq & _)]; rewrite Heq in Hi.
  - by apply (Hwf p).
  - unfold root_instances in Hi. destruct root_instance as [id|]; [|by apply elem_of_nil in Hi].
    destruct (Name_try_from id); [|by apply elem_of_nil in Hi]. apply list_elem_of_singleton in Hi as ->.
    intros key selection Hk. cbn in Hk. by rewrite lookup_empty in Hk.
Qed.

(** ** The dependencies of a launch *)

Lemma launch_deps_lookup k ds :
  launch_deps_for root_config planned !! k = Some ds ↔
  ∃ p, p ∈ planned ∧ planned_key p = k ∧ launch_deps root_config planned p = ds.
Proof.
  unfold launch_deps_for. rewrite (fold_inserts_lookup planned_key) by done. rewrite lookup_empty. naive_solver.
Qed.

Lemma launch_deps_dom k :
  is_Some (launch_deps_for root_config planned !! k) ↔ k ∈ map planned_key planned.
Proof.
  rewrite elem_of_map. split.
  - intros [ds (p & ? & <- & _)%launch_deps_lookup]. eauto.
  - intros (p & -> & Hp). eexists. apply launch_deps_lookup. eauto.
Qed.

Lemma launch_deps_planned k :
  deps_of (launch_deps_for root_config planned) k ⊆ list_to_set (map planned_key planned).
Proof.
  unfold deps_of. destruct (launch_deps_for root_config planned !! k) as [ds|] eqn:E; [|set_solver].
  apply launch_deps_lookup in E as (p & _ & _ & <-). intros x Hx.
  apply elem_of_list_to_set, elem_of_retain in Hx as [_ [_ Hx]%andb_true_iff].
  by apply bool_decide_eq_true in Hx.
Qed.

(** A planned node that is a dependency of another, and not the root, is among
    those the other one waits for. *)
Lemma launch_deps_nodes p d dep :
  p ∈ planned → planned_depends_on p = Some d → dep ∈ nodes d →
  (nd_name dep, nd_tag dep) ∈ map planned_key planned →
  (nd_name dep, nd_tag dep) ≠ config_key root_config →
  (nd_name dep, nd_tag dep) ∈ deps_of (launch_deps_for root_config planned) (planned_key p).
Proof.
  intros Hp Hd Hdep Hpl Hroot. unfold deps_of.
  rewrite (proj2 (launch_deps_lookup (planned_key p) (launch_deps root_config planned p))) by eauto. cbn.
  apply elem_of_list_to_set, elem_of_retain. split.
  - unfold collect_dependency_specs. fold (planned_depends_on p). rewrite Hd, map_map. apply elem_of_map. by exists dep.
  - apply andb_true_iff. rewrite negb_true_iff, bool_decide_eq_false, bool_decide_eq_true.
    split; [done|]. by apply elem_of_list_to_set.
Qed.
End launch.

(** A producer bound to a node slot starts before its consumer. *)
Lemma bound_producer_first root_config root_instance planned placements copies clocks out ordered
    p d instance dep bound m :
  let items := launch_binding_items root_config root_instance planned in
  NoDup (map planned_key planned) → NoDup (link_ids d) →
  plan_fulfils (plan_context items placements copies) items ∅ clocks out →
  ordered ≡ₚ map planned_key planned → deps_first (deps_of (launch_deps_for root_config planned)) ordered →
  p ∈ planned → planned_depends_on p = Some d → instance ∈ pld_instances p → dep ∈ nodes d →
  (lp_slot_bindings out !! di_instance_id instance ≫= (.!! nd_link_id dep)) = Some bound → m ∈ bound →
  (nd_name dep, nd_tag dep) = config_key root_config ∨
  ∃ q i, q ∈ planned ∧ planned_key q = (nd_name dep, nd_tag dep) ∧ i ∈ pld_instances q ∧
    di_instance_id i = instance_id (producer m) ∧
    ∃ a b, (a < b)%nat ∧ ordered !! a = Some (planned_key q) ∧ ordered !! b = Some (planned_key p).
Proof.
  cbn zeta. intros Hkeys Hnd Hful Hperm Hfirst Hp Hd Hi Hdep Hb Hm.
  destruct (decide ((nd_name dep, nd_tag dep) = config_key root_config)) as [|Hroot]; [by left|]. right.
  destruct (launch_item root_config root_instance planned p Hp) as (item & Hitem & Hii & Hid).
  set (slot := mkSlotMeta (nd_name dep) (nd_tag dep) Node (nd_cardinality dep)).
  destruct (fulfils_producers _ _ _ _ _ Hful item d instance (nd_link_id dep) slot) as (bound' & Hb' & Hres & _);
    [done|congruence|by rewrite Hii|apply collect_slots_lookup; [done|left; by exists dep]|].
  rewrite Hb in Hb'. injection Hb' as <-. unfold slot_resolves in Hres.
  destruct (di_links instance !! nd_link_id dep) as [[selection|]|];
    [|by subst; apply elem_of_nil in Hm|by destruct Hres as [_ ->]; apply elem_of_nil in Hm].
  destruct Hres as (_ & Hconf & ->). apply elem_of_map in Hm as (target & -> & Ht).
  destruct (Hconf target Ht) as (pitem & Hl & Hmatch). cbn [plan_context instance_to_item] in Hl.
  apply build_lookup_some in Hl as (i & Hin & Hit). apply elem_of_flat_map in Hin as (it & Hpit & Hin).
  apply elem_of_map in Hin as (? & [= <- <-] & Hi').
  cbn in Hmatch. apply andb_true_iff in Hmatch as [Hn%bool_decide_eq_true Htag%bool_decide_eq_true].
  apply launch_items_cases in Hpit as [(q & Hq & Hqi & _ & Hqk)|(_ & _ & Hrk)]; [|by rewrite Hn, Htag in Hrk].
  rewrite Hn, Htag in Hqk. exists q, i. split; [done|]. split; [done|]. split; [by rewrite <-Hqi|].
  split; [done|].
  assert (Hpo : planned_key p ∈ ordered) by (rewrite Hperm; apply elem_of_map; eauto).
  apply list_elem_of_lookup in Hpo as [b Hb']. assert (Hdeps := Hfirst b _ Hb' (nd_name dep, nd_tag dep)).
  rewrite elem_of_list_to_set in Hdeps. destruct (list_elem_of_lookup_1 _ _ (Hdeps
    ltac:(eapply launch_deps_nodes; try done; rewrite Hqk; apply elem_of_map; eauto))) as [a Ha].
  apply lookup_take_Some in Ha as [Ha Hlt]. exists a, b. by rewrite <-Hqk.
Qed.

(** C3: planning a launch always returns. A plan it accepts starts every node
    once; every slot its nodes declare, in all three families, is fulfilled by
    as many ends as its cardinality admits, and each connection joins instances
    that read the same clock; and each producer bound to a node slot is an
    instance of the node the slot names, and that node is the root, or it is
    planned and starts before the consumer. A producer bound to a contract slot is
    not ordered ([contract_producer_starts_last]). A refusal for the order means
    that some of the nodes wait for one another. (The planned nodes have distinct
    keys, and the slots of a node and the links of an instance distinct names.) *)
Theorem launch_plan_sound `{HashOrderLaws} (root_config : NodeConfig) (root_instance : option string)
    (planned : list PlannedDeployment) (placements : Placements) (copies : CopyMembership)
    (clocks : gmap string ClockBinding)
    (Hkeys : NoDup (map planned_key planned))
    (Hlinks : ∀ p d, p ∈ planned → planned_depends_on p = Some d → NoDup (link_ids d))
    (Hwf : ∀ p i, p ∈ planned → i ∈ pld_instances p → wf_links i) :
  let items := launch_binding_items root_config root_instance planned in
  ∃ r, validate_and_order_dependencies root_config root_instance planned placements copies clocks = Some r ∧
  match r with
  | Ok plan =>
      plan_ordered plan ≡ₚ map planned_key planned ∧
      plan_fulfils (plan_context items placements copies) items ∅ clocks
        (mkValidatedLinkPlan [] (plan_slot_bindings plan) (plan_pairings plan) (plan_observations plan)) ∧
      (∀ p d instance dep bound m, p ∈ planned → planned_depends_on p = Some d →
         instance ∈ pld_instances p → dep ∈ nodes d →
         (plan_slot_bindings plan !! di_instance_id instance ≫= (.!! nd_link_id dep)) = Some bound →
         m ∈ bound →
         (nd_name dep, nd_tag dep) = config_key root_config ∨
         ∃ q i, q ∈ planned ∧ planned_key q = (nd_name dep, nd_tag dep) ∧ i ∈ pld_instances q ∧
           di_instance_id i = instance_id (producer m) ∧
           ∃ a b, (a < b)%nat ∧ plan_ordered plan !! a = Some (planned_key q) ∧
             plan_ordered plan !! b = Some (planned_key p))
  | Err (OrderRefusal _) =>
      ∃ C, deadlocked (map planned_key planned) (deps_of (launch_deps_for root_config planned)) C
  | Err (DependencyRefusal errors) => errors ≠ []
  | Err (LinkRefusal errors) => errors ≠ []
  end.
Proof.
  cbn zeta. set (items := launch_binding_items root_config root_instance planned).
  unfold validate_and_order_dependencies. fold items.
  destruct (dependency_errors root_config planned); [|by eexists].
  destruct (validate_link_plan_run items (launch_pairing_items planned) ∅ ∅ placements copies clocks)
    as (out & -> & Hful); [by apply launch_same_plan|by apply launch_links_wf|].
  cbn [mbind option_bind]. destruct (lp_errors out) eqn:Eerr; [|by eexists]. specialize (Hful eq_refl).
  assert (Hsort := topological_sort_choice (map planned_key planned) (launch_deps_for root_config planned)
    Hkeys (launch_deps_dom root_config planned Hkeys)). rewrite Hsort. cbn [mbind option_bind].
  assert (Hsound := launch_order_sound (map planned_key planned) (launch_deps_for root_config planned)
    Hkeys (launch_deps_dom root_config planned Hkeys) (launch_deps_planned root_config planned Hkeys Hlinks)).
  destruct (launch_order _ _) as [ordered|msg]; [|by eexists]. eexists. split; [reflexivity|].
  destruct Hsound as (Hperm & Hfirst & _). cbn [plan_ordered plan_slot_bindings plan_pairings plan_observations].
  split; [done|]. destruct out as [errs bindings pairs observations]. cbn in Eerr. subst errs.
  split; [done|]. intros p d instance dep bound m Hp Hd Hi Hdep Hb Hm.
  apply (bound_producer_first root_config root_instance planned placements copies clocks
    (mkValidatedLinkPlan [] bindings pairs observations) ordered p d instance dep bound m); try done.
  by apply (Hlinks p).
Qed.

(** ** A launch *)

(** A viewer, planned before the camera it reads, and an empty root. *)
Definition example_root : NodeConfig :=
  mkNodeConfig (mkManifest "core" "v1" [] None [] None) (mkInterfaces None None None)
    (mkExecution Rust None None None [] None false) (mkNodeFramework None).
Definition example_viewer_deployment : PlannedDeployment :=
  mkPlannedDeployment
    [mkDeploymentInstance "viewer_1" None {[ "cam" := Bound (Scalar "camera_1") ]} None] "viewer" "v1"
    (mkNodeConfig example_viewer example_viewer_interfaces
       (mkExecution Rust None None None [] None false) (mkNodeFramework None)) WholeSet.
Definition example_camera_deployment : PlannedDeployment :=
  mkPlannedDeployment [DeploymentInstance_empty "camera_1"] "camera" "v1" example_camera WholeSet.
Definition example_planned : list PlannedDeployment :=
  [example_viewer_deployment; example_camera_deployment].

Definition example_launch : option (result LaunchRefusal ValidatedPlan) :=
  validate_and_order_dependencies (H := plain_order) example_root (Some "core_1") example_planned
    (Placements_all_on "desk") ∅ ∅.

Lemma launch_plan_sound_witness :
  ∃ plan, example_launch = Some (Ok plan) ∧
    plan_ordered plan = [("camera", "v1"); ("viewer", "v1")] ∧
    plan_fulfils (plan_context (launch_binding_items example_root (Some "core_1") example_planned)
        (Placements_all_on "desk") ∅)
      (launch_binding_items example_root (Some "core_1") example_planned) ∅ ∅
      (mkValidatedLinkPlan [] (plan_slot_bindings plan) (plan_pairings plan) (plan_observations plan)).
Proof.
  destruct (launch_plan_sound (H := plain_order_laws) example_root (Some "core_1") example_planned
    (Placements_all_on "desk") ∅ ∅) as (r & Hr & Hok).
  - apply (bool_decide_unpack _). vm_compute. exact I.
  - intros p d [->|[->|?%elem_of_nil]%elem_of_cons]%elem_of_cons; [| |done]; intros [= <-];
      apply (bool_decide_unpack _); vm_compute; exact I.
  - intros p i [->|[->|?%elem_of_nil]%elem_of_cons]%elem_of_cons; [| |done];
      intros ->%list_elem_of_singleton key selection; cbn.
    + intros [_ [= <-]]%lookup_singleton_Some. apply (bool_decide_unpack _). vm_compute. exact I.
    + by rewrite lookup_empty.
  - assert (Hrun : (λ r, match r with Ok plan => Some (plan_ordered plan) | Err _ => None end) <$> example_launch =
      Some (Some [("camera", "v1"); ("viewer", "v1")])) by (vm_compute; reflexivity).
    unfold example_launch in *. rewrite Hr in Hrun. cbn in Hrun.
    destruct r as [plan|]; [|discriminate Hrun]. injection Hrun as Hord.
    exists plan. split; [exact Hr|]. split; [exact Hord|]. exact (proj1 (proj2 Hok)).
Defined.

(** The viewer reads a camera by a contract: its producer is bound, and starts
    after it. *)
Definition contract_viewer_deployment : PlannedDeployment :=
  mkPlannedDeployment
    [mkDeploymentInstance "viewer_1" None {[ "cam" := Bound (Scalar "camera_1") ]} None] "viewer" "v1"
    (mkNodeConfig
       (mkManifest "viewer" "v1" [] None []
          (Some (mkDependsOn [] [mkContractDependency "vision" "v1" "cam" None One] [] [] [])))
       Interfaces_default (mkExecution Rust None None None [] None false) (mkNodeFramework None)) WholeSet.
Definition contract_camera_deployment : PlannedDeployment :=
  mkPlannedDeployment [DeploymentInstance_empty "camera_1"] "camera" "v1"
    (mkNodeConfig
       (mkManifest "camera" "v1" [] None [mkImplementsEntry "vision" "v1" "own" None] None)
       Interfaces_default (mkExecution Rust None None None [] None false) (mkNodeFramework None)) WholeSet.

Lemma contract_producer_starts_last :
  match validate_and_order_dependencies (H := plain_order) example_root (Some "core_1")
          [contract_viewer_deployment; contract_camera_deployment] (Placements_all_on "desk") ∅ ∅ with
  | Some (Ok plan) =>
      plan_ordered plan = [("viewer", "v1"); ("camera", "v1")] ∧
      (map (λ m, instance_id (producer m)) <$> (plan_slot_bindings plan !! "viewer_1" ≫= (.!! "cam"))) =
        Some ["camera_1"]
  | _ => False
  end.
Proof. vm_compute. split; reflexivity. Qed.
