(* ===== verification/Compose.v ===== *)
(** * Composed launchers

    [daemon-config-internal/src/launcher/composition.rs], [types.rs] and
    [compose/load.rs]: the documents a launch is composed from. A launcher
    declares axes; an option of an axis pulls in fragments, which may declare
    axes of their own. A [BTreeMap] is a [gmap], iterated in key order by
    [btree_iter]. What a fragment file holds is given, once it is read: the
    files, their paths and their text are not modelled. Errors keep what they
    name; the menus and the advice of their texts are dropped. *)

From S2P Require Import Prelude Names RestartPolicy Config PairingRegistry Supervision LaunchTypes PairPlan ObservePlan Clocks.
#[local] Open Scope peppy_scope.

(** ** Equality of arguments *)

Section any_rect.
Context (P : AnyType → Prop).
Context (Hnull : P ANull) (Hbool : ∀ b, P (ABool b)) (Hstring : ∀ s, P (AString s)).
Context (Harray : ∀ l, Forall P l → P (AArray l)).
Context (Hobject : ∀ l, Forall (λ p, P p.2) l → P (AObject l)).
Context (Hint : ∀ n, P (AInt n)) (Huint : ∀ n, P (AUInt n)) (Hfloat : ∀ t, P (AFloat t)).

Fixpoint AnyType_rect' (a : AnyType) : P a :=
  match a with
  | ANull => Hnull
  | ABool b => Hbool b
  | AString s => Hstring s
  | AArray l =>
      Harray l ((fix go l := match l return Forall P l with
                             | [] => Forall_nil_2 _
                             | x :: l => Forall_cons_2 _ _ _ (AnyType_rect' x) (go l)
                             end) l)
  | AObject l =>
      Hobject l ((fix go l := match l return Forall (λ p, P p.2) l with
                              | [] => Forall_nil_2 _
                              | p :: l => Forall_cons_2 _ _ _ (AnyType_rect' p.2) (go l)
                              end) l)
  | AInt n => Hint n
  | AUInt n => Huint n
  | AFloat t => Hfloat t
  end.
End any_rect.

(** The derived [PartialEq]; a float is its text, so a NaN equals itself here. *)
Fixpoint any_eqb (a b : AnyType) : bool :=
  match a, b with
  | ANull, ANull => true
  | ABool x, ABool y => bool_decide (x = y)
  | AString x, AString y => bool_decide (x = y)
  | AArray l, AArray k =>
      (fix go l k := match l, k with
                     | [], [] => true
                     | x :: l, y :: k => any_eqb x y && go l k
                     | _, _ => false
                     end) l k
  | AObject l, AObject k =>
      (fix go l k := match l, k with
                     | [], [] => true
                     | (i, x) :: l, (j, y) :: k => bool_decide (i = j) && any_eqb x y && go l k
                     | _, _ => false
                     end) l k
  | AInt x, AInt y | AUInt x, AUInt y => bool_decide (x = y)
  | AFloat x, AFloat y => bool_decide (x = y)
  | _, _ => false
  end.

Lemma any_eqb_eq a b : any_eqb a b = true ↔ a = b.
Proof.
  revert b. induction a as [|x|x|l IH|l IH|x|x|x] using AnyType_rect'; intros [|y|y|k|k|y|y|y]; cbn;
    try (split; [done|congruence]); try (rewrite bool_decide_eq_true; split; congruence).
  - transitivity (l = k); [|split; congruence]. revert k.
    induction IH as [|x l Hx _ IHl]; intros [|y k]; try (split; [done|congruence]).
    rewrite andb_true_iff, Hx, IHl. split; [intros [-> ->]|intros [= -> ->]]; auto.
  - transitivity (l = k); [|split; congruence]. revert k.
    induction IH as [|[i x] l Hx _ IHl]; intros [|[j y] k]; try (split; [done|congruence]).
    cbn in Hx. rewrite !andb_true_iff, bool_decide_eq_true, Hx, IHl.
    split; [intros [[-> ->] ->]|intros [= -> -> ->]]; auto.
Qed.

#[export] Instance AnyType_eq_dec : EqDecision AnyType.
Proof.
  intros a b. destruct (any_eqb a b) eqn:E; [left; by apply any_eqb_eq|right].
  intros Heq%any_eqb_eq. congruence.
Defined.

#[export] Instance Selection_eq_dec : EqDecision Selection.
Proof. solve_decision. Defined.
#[export] Instance LinkValue_eq_dec : EqDecision LinkValue.
Proof. solve_decision. Defined.
#[export] Instance ClockDeclaration_eq_dec : EqDecision ClockDeclaration.
Proof. solve_decision. Defined.
#[export] Instance CoreNodeTarget_eq_dec : EqDecision CoreNodeTarget.
Proof. solve_decision. Defined.

(** ** Deployments *)

Inductive DeploymentSource : Type :=
| NodeSource (name tag : string)
| ExposuresSource (exposures : list (string * string)).

#[export] Instance DeploymentSource_eq_dec : EqDecision DeploymentSource.
Proof. solve_decision. Defined.

(** An instance of a launcher with all its fields; [LaunchTypes] keeps those the
    link planner reads. *)
Record LaunchInstance : Type := mkLaunchInstance {
  li_instance_id : string;
  li_arguments : gmap string AnyType;
  li_env_vars : gmap string string;
  li_env_from_launch : gset string;
  li_clock : option string;
  li_restart : option RestartDeclaration;
  li_links : gmap string LinkValue;
  li_daemon_scopes : gmap string AnyType;
  li_core_node : option string;
}.

Record Deployment : Type := mkDeployment {
  dp_source : DeploymentSource;
  dp_instances : list LaunchInstance;
}.

Record LauncherFramework : Type := mkFramework {
  fw_clocks : gmap string ClockDeclaration;
  fw_restart : option RestartDeclaration;
}.

(** ** The grammar of a composition *)

(** [SelectionCondition]: the options each named axis may hold. *)
Notation SelectionCondition := (gmap string (list string)).

Record SelectionConstraint : Type := mkConstraint {
  sc_when : option SelectionCondition;
  sc_requires : list SelectionCondition;
  sc_forbids : list SelectionCondition;
  sc_reason : string;
}.

Record FrameworkOverrides : Type := mkFrameworkOverrides {
  fo_clock : option string;
  fo_restart : option RestartDeclaration;
}.

Record Adjustment : Type := mkAdjustment {
  ad_target : string;
  ad_when : option SelectionCondition;
  ad_set_arguments : option (gmap string AnyType);
  ad_set_framework : option FrameworkOverrides;
  ad_set_links : option (gmap string LinkValue);
  ad_add_links : option (gmap string (list string));
  ad_unset_links : option (list string);
  ad_set_daemon_scopes : option (gmap string AnyType);
  ad_set_env_from_launch : option (gset string);
}.

Record OriginatedAdjustment : Type := mkOriginated {
  oa_adjustment : Adjustment;
  oa_origin : string;
}.

Inductive ComponentCardinality : Type := AxisOne | AxisZeroOrOne | AxisOneOrMore | AxisZeroOrMore.

#[export] Instance ComponentCardinality_eq_dec : EqDecision ComponentCardinality.
Proof. solve_decision. Defined.

Definition axis_allows_empty (c : ComponentCardinality) : bool :=
  match c with AxisZeroOrOne | AxisZeroOrMore => true | _ => false end.

Definition is_repeatable (c : ComponentCardinality) : bool :=
  match c with AxisZeroOrMore | AxisOneOrMore => true | _ => false end.

(** An option as its axis declares it, its files and its body apart, which a
    [LoadedOption] holds. *)
Record OptionSpec : Type := mkOptionSpec {
  os_adjustments : list Adjustment;
}.

Record ComponentAxis : Type := mkAxis {
  ax_name : string;
  ax_options : gmap string OptionSpec;
  ax_cardinality : ComponentCardinality;
  ax_provides : list string;
}.

(** [contains_key] of an axis's options. *)
Definition has_option (a : ComponentAxis) (option : string) : bool := opt_is_some (ax_options a !! option).

(** [ArgumentOverrides]: by instance as its fragment writes it, then by argument. *)
Notation ArgumentOverrides := (gmap string (gmap string AnyType)).

Record CopyEntry : Type := mkCopyEntry {
  ce_instance_id : string;
  ce_with : gmap string string;
  ce_arguments : ArgumentOverrides;
  ce_adjustments : list Adjustment;
}.

Record OptionDeployment : Type := mkOptionDeployment {
  od_axis : string;
  od_option : string;
  od_with : gmap string string;
  od_arguments : ArgumentOverrides;
  od_adjustments : list Adjustment;
  od_instances : list CopyEntry;
}.

Record Fragment : Type := mkFragment {
  fg_deployments : list Deployment;
  fg_option_deployments : list OptionDeployment;
  fg_components : list ComponentAxis;
  fg_constraints : list SelectionConstraint;
  fg_adjustments : list Adjustment;
  fg_core_nodes : list string;
  fg_framework : LauncherFramework;
}.

(** A launcher document; its schema and description are carried unread. *)
Record Launcher : Type := mkLauncher {
  la_description : list string;
  la_core_nodes : list string;
  la_deployments : list Deployment;
  la_option_deployments : list OptionDeployment;
  la_components : list ComponentAxis;
  la_adjustments : list Adjustment;
  la_constraints : list SelectionConstraint;
  la_framework : LauncherFramework;
}.

Definition stack_axes (l : Launcher) : list ComponentAxis :=
  List.filter (λ a, negb (is_repeatable (ax_cardinality a))) (la_components l).

Definition repeatable_axes (l : Launcher) : list ComponentAxis :=
  List.filter (λ a, is_repeatable (ax_cardinality a)) (la_components l).

Definition deployed_option (l : Launcher) (axis : string) : option string :=
  od_option <$> List.find (λ e, bool_decide (od_axis e = axis) && bool_decide (length (od_instances e) = 0))
    (la_option_deployments l).

(** The instances of a list of deployments, in order, and their ids. *)
Definition instances_of (ds : list Deployment) : list LaunchInstance := flat_map dp_instances ds.
Definition ids_of (ds : list Deployment) : list string := map li_instance_id (instances_of ds).

(** ** Settings of copies *)

Record CopySettings : Type := mkCopySettings {
  cs_with : gmap string string;
  cs_arguments : ArgumentOverrides;
  cs_adjustments : list OriginatedAdjustment;
}.

(** [extend] of a map: the new values win. *)
Definition extend {A} (m new : gmap string A) : gmap string A := new ∪ m.

Definition overlaid_by (s : CopySettings) (with_ : gmap string string) (arguments : ArgumentOverrides)
    (adjustments : list OriginatedAdjustment) : CopySettings :=
  mkCopySettings (extend (cs_with s) with_)
    (fold_left (λ m '(target, values), <[target := extend (default ∅ (m !! target)) values]> m)
       (btree_iter arguments) (cs_arguments s))
    (cs_adjustments s ++ adjustments).

Definition option_origin (axis option : string) : string :=
  "option `" +:+ (axis +:+ ("." +:+ (option +:+ "`"))).

Definition copy_adjustments_origin (copy : string) : string :=
  "adjustments of copy `" +:+ (copy +:+ "`").

Definition entry_adjustments_origin (e : OptionDeployment) : string :=
  "adjustments of `" +:+ (od_axis e +:+ (": " +:+ (od_option e +:+ "`"))).

Definition entry_settings (e : OptionDeployment) : CopySettings :=
  mkCopySettings (od_with e) (od_arguments e)
    (map (λ a, mkOriginated a (entry_adjustments_origin e)) (od_adjustments e)).

Definition settings_for (e : OptionDeployment) (copy : CopyEntry) : CopySettings :=
  overlaid_by (entry_settings e) (ce_with copy) (ce_arguments copy)
    (map (λ a, mkOriginated a (copy_adjustments_origin (ce_instance_id copy))) (ce_adjustments copy)).

Definition no_settings : CopySettings := mkCopySettings ∅ ∅ [].
