(* ===== verification/ComposeSelect.v ===== *)
(** * Selecting the options of a launch

    [daemon-config-internal/src/launcher/compose/select.rs] and
    [compose/constraints.rs], with the loaded options of [compose/load.rs] they
    read: which option fills each axis of the stack and of a copy, by the words
    of the command line, the file and the cardinality of the axis; and the
    constraints a selection answers to. *)

From S2P Require Import Prelude Names RestartPolicy Config PairingRegistry Supervision LaunchTypes PairPlan ObservePlan Clocks Compose.
#[local] Open Scope peppy_scope.

(** A loop that stops at the first error. *)
Fixpoint fold_result {E A B} (f : B → A → result E B) (l : list A) (b : B) : result E B :=
  match l with [] => Ok b | x :: l => b ← f b x; fold_result f l b end.

(** A [collect] that stops at the first error. *)
Fixpoint map_result {E A B} (f : A → result E B) (l : list A) : result E (list B) :=
  match l with [] => Ok [] | x :: l => y ← f x; ys ← map_result f l; Ok (y :: ys) end.

(** ** Loaded options *)

Record LoadedFragment : Type := mkLoadedFragment {
  lf_id : nat;
  lf_body : Fragment;
  lf_origin : string;
}.

Record LoadedOption : Type := mkLoadedOption {
  lo_name : string;
  lo_fragments : list LoadedFragment;
  lo_axes : list ComponentAxis;
  lo_deployed : gmap string string;
  lo_nested : gmap string (gmap string (list LoadedFragment));
}.

Notation LoadedComposition := (gmap string (gmap string LoadedOption)).

(** ** Words and selections *)

Record OptionChoice : Type := mkChoice {
  oc_axis : option string;
  oc_option : string;
}.

Record SelectionWord : Type := mkWord {
  wd_choice : OptionChoice;
  wd_core_node : option CoreNodeTarget;
}.

Inductive LaunchWord : Type :=
| StackWord (choice : OptionChoice)
| CopyWord (copy : string) (word : SelectionWord).

Record CopyReference : Type := mkCopyReference {
  cf_option : string;
  cf_name : string;
  cf_core_node : CoreNodeTarget;
}.

Inductive WrittenWord : Type :=
| WrittenStack (choice : OptionChoice)
| WrittenCopy (launch_copy : option string) (word : SelectionWord).

Inductive WordOrigin : Type := OriginLaunch | OriginJoin.

Definition written_by (origin : WordOrigin) (copy : string) (word : SelectionWord) : WrittenWord :=
  WrittenCopy match origin with OriginLaunch => Some copy | OriginJoin => None end word.

Inductive SelectionSource : Type := Explicit | Deployed | Unfilled.

Record SelectionEntry : Type := mkEntry {
  se_axis : string;
  se_option : option string;
  se_source : SelectionSource;
}.

(** [UnitSelection], its entries. *)
Notation UnitSelection := (list SelectionEntry).

Definition options_on (s : UnitSelection) (axis : string) : list string :=
  omap se_option (List.filter (λ e, bool_decide (se_axis e = axis)) s).

Definition option_of (s : UnitSelection) (axis : string) : option string :=
  e ← List.find (λ e, bool_decide (se_axis e = axis)) s; se_option e.

Definition is_launcher_axis (l : Launcher) (axis : string) : bool :=
  existsb (λ a, bool_decide (ax_name a = axis)) (la_components l).

Definition launcher_entries (l : Launcher) (s : UnitSelection) : list SelectionEntry :=
  List.filter (λ e, is_launcher_axis l (se_axis e)) s.

Definition own_axes (s : UnitSelection) (parent_axis : string) : list SelectionEntry :=
  List.filter (λ e, negb (bool_decide (se_axis e = parent_axis))) s.

Definition own_choices (s : UnitSelection) (parent_axis : string) : gmap string string :=
  fold_left (λ m e, match se_option e with Some o => <[se_axis e := o]> m | None => m end)
    (own_axes s parent_axis) ∅.

(** ** Errors *)

Inductive AppliedChange : Type :=
| ChArgument (key : string) (old : option AnyType) (new : AnyType)
| ChLinkSet (slot : string) (old : option LinkValue) (new : LinkValue)
| ChLinkAdded (slot target : string)
| ChLinkRemoved (slot : string) (old : LinkValue)
| ChClock (old : option string) (new : string)
| ChDaemonScope (daemon_target : string) (old : option AnyType) (new : AnyType)
| ChRestart (old : option RestartDeclaration) (new : RestartDeclaration)
| ChEnvFromLaunch (old new : gset string).

Inductive CompositionError : Type :=
| WithOnFlatLauncher
| NoRepeatableAxis
| ScopedSelectionUnknownCopy (copy : string)
| RepeatableAxisAtLaunch (word : OptionChoice) (axis : string)
| RepeatableAxisUnknownOption (word : OptionChoice) (axis : string)
| UnknownSelection (word : OptionChoice)
| CopyAxisAtLaunch (word : OptionChoice) (axis parent : string)
| AmbiguousSelection (word : WrittenWord) (axes : list string)
| ConflictingSelection (axis : string) (first second : WrittenWord)
| UnresolvedAxis (axis : string) (owner : option string)
| UnresolvedCopyAxis (copy option axis : string)
| AxisInReachTwice (axis first second : string)
| AxisDeclaredTwice (option axis first second : string)
| AxisDeployedTwice (option axis first second : string)
| NestedComponents (path origin : string)
| CopySelectsUnknownAxis (copy option axis : string)
| CopySelectsUnknownOption (copy option axis selected : string)
| UnknownCopySelection (word : WrittenWord) (option : string)
| PartPlacedTwice (copy axis : string) (first second : WrittenWord)
| PlacedPartBringsNothing (copy axis option : string)
| ConstraintForbidden (origin : string) (matched : SelectionCondition) (reason : string)
| ConstraintUnsatisfied (origin : string) (alternatives : list SelectionCondition) (reason : string)
| DuplicateInstanceId (id first second : string)
| AddLinksOnNonArray (origin target slot : string)
| AddLinksDuplicateTarget (origin target slot added : string)
| VariablesGivenTwoValues (found : list (string * string * option string))
| ClockDomainConflict (domain first_origin second_origin : string)
| FragmentDeclaresRestart (origin : string)
| NameIsCoreNodeLink (name : string)
| CopyFragmentDeclaresClock (origin copy domain : string)
| CopyStartsNothing (copy option : string)
| CopyReusesStackId (option id : string)
| PrefixedIdCollision (copy id : string)
| CopyInstancePlaced (copy instance core_node : string)
| PrefixedLinksCollide (copy instance target : string)
| CopySetsDaemonScope (copy option instance daemon_target : string)
| ArgumentTargetAbsent (copy target : string)
| DuplicateArgumentOverride (target argument : string)
| CopiesConflict (first second instance field : string)
| JoinChangesExisting (name instance : string)
| JoinReleasesUnpairedVacancy (name instance slot : string)
| JoinAddsStackMember (name instance slot target : string)
| JoinUnknownOption (option : string)
| CopyAxisUnfilled (axis : string)
| CopyStillLinked (copy : string) (links : list (string * string * string))
| CopyOfAnotherLauncher (copy axis option : string)
| CopyAxisEmptied (copy axis option : string)
| FlatValidation (what : string)
| Panics (what : string).

(** ** Loaded options, read *)

Definition lo_axis (o : LoadedOption) (name : string) : option ComponentAxis :=
  List.find (λ a, bool_decide (ax_name a = name)) (lo_axes o).

Definition nested_fragments (o : LoadedOption) (axis option : string) : list LoadedFragment :=
  default [] (options ← lo_nested o !! axis; options !! option).

Definition selected_fragments (o : LoadedOption) (own : UnitSelection) :
    list (option string * LoadedFragment) :=
  map (pair None) (lo_fragments o) ++
  flat_map
    (λ axis, map (pair (Some (ax_name axis)))
       match option_of own (ax_name axis) with
       | Some option => nested_fragments o (ax_name axis) option
       | None => []
       end)
    (lo_axes o).

Definition fragments_for (o : LoadedOption) (own : UnitSelection) : list LoadedFragment :=
  map snd (selected_fragments o own).

Definition node_ids (fragments : list LoadedFragment) : list string :=
  flat_map (λ f, ids_of (fg_deployments (lf_body f))) fragments.

(** The map of the ids a run defines to the own axis that brings each. *)
Definition own_axis_by_id (o : LoadedOption) (own : UnitSelection) : gmap string (option string) :=
  fold_left (λ m '(axis, f), fold_left (λ m id, <[id := axis]> m) (node_ids [f]) m)
    (selected_fragments o own) ∅.

Definition brings_instances (o : LoadedOption) (axis option : string) : bool :=
  match node_ids (nested_fragments o axis option) with [] => false | _ => true end.

Definition lo_all_fragments (o : LoadedOption) : list LoadedFragment :=
  lo_fragments o ++
  flat_map (λ '(_, options), flat_map snd (btree_iter options)) (btree_iter (lo_nested o)).

Definition definable_ids (o : LoadedOption) : list string := node_ids (lo_all_fragments o).

(** [LoadedComposition::option], and its panic. *)
Definition loaded_option (l : LoadedComposition) (axis option : string) : result CompositionError LoadedOption :=
  ok_or (options ← l !! axis; options !! option) (Panics "option was loaded with the launcher").

Definition options_of (l : LoadedComposition) (axis : string) : list (string * LoadedOption) :=
  match l !! axis with Some options => btree_iter options | None => [] end.

Definition stack_fragments (l : LoadedComposition) (s : UnitSelection) : list LoadedFragment :=
  flat_map
    (λ e, match option ← se_option e; options ← l !! se_axis e; options !! option with
          | Some o => fragments_for o s
          | None => []
          end)
    s.

(** [load_option], the fragments of the option given as they were read. *)
Definition declared_axes (fragments : list LoadedFragment) : list (string * ComponentAxis) :=
  flat_map (λ f, map (pair (lf_origin f)) (fg_components (lf_body f))) fragments.

Definition load_axis (l : Launcher) (name : string) (loaded : list ComponentAxis * gmap string string)
    (declared : string * ComponentAxis) : result CompositionError (list ComponentAxis * gmap string string) :=
  let '(axes, origins) := loaded in
  let '(origin, axis) := declared in
  if is_launcher_axis l (ax_name axis) then Err (AxisInReachTwice (ax_name axis) "the launcher" origin)
  else
    match origins !! ax_name axis with
    | Some first => Err (AxisDeclaredTwice name (ax_name axis) first origin)
    | None => Ok (axes ++ [axis], <[ax_name axis := origin]> origins)
    end.

Definition load_axes (l : Launcher) (name : string) (fragments : list LoadedFragment) :
    result CompositionError (list ComponentAxis) :=
  fst <$> fold_result (load_axis l name) (declared_axes fragments) ([], ∅).

Definition deployed_entries (fragments : list LoadedFragment) : list (string * OptionDeployment) :=
  flat_map (λ f, map (pair (lf_origin f)) (fg_option_deployments (lf_body f))) fragments.

Definition load_entry (name : string) (loaded : gmap string string * gmap string string)
    (declared : string * OptionDeployment) : result CompositionError (gmap string string * gmap string string) :=
  let '(deployed, origins) := loaded in
  let '(origin, entry) := declared in
  match origins !! od_axis entry with
  | Some first => Err (AxisDeployedTwice name (od_axis entry) first origin)
  | None => Ok (<[od_axis entry := od_option entry]> deployed, <[od_axis entry := origin]> origins)
  end.

Definition load_deployed (name : string) (fragments : list LoadedFragment) :
    result CompositionError (gmap string string) :=
  fst <$> fold_result (load_entry name) (deployed_entries fragments) (∅, ∅).

(** The parts of an option of one of the axes, as [read] reads them. *)
Definition load_parts (read : string → string → result CompositionError (list LoadedFragment))
    (origin axis : string) (loaded : gmap string (list LoadedFragment)) (option : string) :
    result CompositionError (gmap string (list LoadedFragment)) :=
  parts ← read axis option;
  match List.find (λ part, match fg_components (lf_body part) with [] => false | _ => true end) parts with
  | Some part => Err (NestedComponents (lf_origin part) (origin +:+ (", " +:+ option_origin axis option)))
  | None => Ok (<[option := parts]> loaded)
  end.

Definition load_nested_axis (read : string → string → result CompositionError (list LoadedFragment))
    (nested : gmap string (gmap string (list LoadedFragment))) (declared : string * ComponentAxis) :
    result CompositionError (gmap string (gmap string (list LoadedFragment))) :=
  let '(origin, axis) := declared in
  options ← fold_result (load_parts read origin (ax_name axis)) (map fst (btree_iter (ax_options axis))) ∅;
  Ok (<[ax_name axis := options]> nested).

Definition load_option (l : Launcher) (name : string) (fragments : list LoadedFragment)
    (read : string → string → result CompositionError (list LoadedFragment)) :
    result CompositionError LoadedOption :=
  axes ← load_axes l name fragments;
  deployed ← load_deployed name fragments;
  nested ← fold_result (load_nested_axis read) (declared_axes fragments) ∅;
  Ok (mkLoadedOption name fragments axes deployed nested).

(** ** Constraints *)

Definition guard_holds (s : UnitSelection) (when : SelectionCondition) : bool :=
  forallb (λ '(axis, options), existsb (λ o, bool_decide (o ∈ options)) (options_on s axis)) (btree_iter when).

Definition names_axis (condition : option SelectionCondition) (axis : string) : bool :=
  match condition with Some m => opt_is_some (m !! axis) | None => false end.

Definition constraint_names_axis (c : SelectionConstraint) (axis : string) : bool :=
  names_axis (sc_when c) axis ||
  existsb (λ e, opt_is_some (e !! axis)) (sc_requires c ++ sc_forbids c).

Definition constraint_satisfied (s : UnitSelection) (c : SelectionConstraint) : bool :=
  if match sc_when c with Some when => negb (guard_holds s when) | None => false end then true
  else if existsb (guard_holds s) (sc_forbids c) then false
  else match sc_requires c with [] => true | _ => existsb (guard_holds s) (sc_requires c) end.

Inductive ConstraintScope : Type := ScopeStack | ScopeCopy (axis : string).

(** A constraint in play, and the document that declares it. *)
Definition ConstraintInPlay : Type := SelectionConstraint * string.

Definition constraints_in_play (l : Launcher) (fragments : list LoadedFragment) (scope : ConstraintScope) :
    list ConstraintInPlay :=
  map (λ c, (c, "the launcher"))
    (List.filter
       (λ c, match scope with
             | ScopeStack => negb (existsb (λ a, constraint_names_axis c (ax_name a)) (repeatable_axes l))
             | ScopeCopy axis => constraint_names_axis c axis
             end)
       (la_constraints l)) ++
  flat_map (λ f, map (λ c, (c, lf_origin f)) (fg_constraints (lf_body f))) fragments.

Definition constraint_violation (in_play : ConstraintInPlay) (s : UnitSelection) : CompositionError :=
  let '(c, origin) := in_play in
  match List.find (guard_holds s) (sc_forbids c) with
  | Some matched => ConstraintForbidden origin matched (sc_reason c)
  | None => ConstraintUnsatisfied origin (sc_requires c) (sc_reason c)
  end.

Definition check_constraints (constraints : list ConstraintInPlay) (s : UnitSelection) :
    result CompositionError unit :=
  match List.find (λ c, negb (constraint_satisfied s c.1)) constraints with
  | Some violated => Err (constraint_violation violated s)
  | None => Ok tt
  end.

(** ** Resolving the words *)

(** An axis a selection can fill, and the option that declares it. *)
Record AxisInReach : Type := mkInReach {
  ir_axis : ComponentAxis;
  ir_parent_axis : string;
  ir_parent : LoadedOption;
}.

Definition parent_label (axis option : string) : string := "`" +:+ (axis +:+ ("=" +:+ (option +:+ "`"))).

Inductive WordMatch : Type := MatchNothing | MatchOne (axis : ComponentAxis) | MatchSeveral (axes : list string).

Definition named_by (word : OptionChoice) (axis : ComponentAxis) : bool :=
  match oc_axis word with
  | Some name => bool_decide (ax_name axis = name)
  | None => has_option axis (oc_option word)
  end.

Definition match_word (word : OptionChoice) (candidates : list ComponentAxis) : WordMatch :=
  match List.filter (named_by word) candidates with
  | [] => MatchNothing
  | [axis] => MatchOne axis
  | many => MatchSeveral (map ax_name many)
  end.

(** [Chosen]: the option of each axis, and the word that chose it. *)
Notation Chosen := (gmap string (string * WrittenWord)).

Definition choose_option (axis option : string) (word : WrittenWord) (c : Chosen) : result CompositionError Chosen :=
  match c !! axis with
  | Some (first_option, first) =>
      if bool_decide (first_option = option) then Ok c else Err (ConflictingSelection axis first word)
  | None => Ok (<[axis := (option, word)]> c)
  end.

Definition chosen_option (c : Chosen) (axis : string) : option string := fst <$> c !! axis.

Inductive Owner : Type :=
| OwnerLauncher
| OwnerOption (option : string)
| OwnerCopy (copy option : string).

Definition fill (axis : ComponentAxis) (explicit deployed : option string) (owner : Owner) :
    result CompositionError SelectionEntry :=
  match explicit, deployed with
  | Some option, _ => Ok (mkEntry (ax_name axis) (Some option) Explicit)
  | None, Some option => Ok (mkEntry (ax_name axis) (Some option) Deployed)
  | None, None =>
      if axis_allows_empty (ax_cardinality axis) then Ok (mkEntry (ax_name axis) None Unfilled)
      else Err match owner with
               | OwnerLauncher => UnresolvedAxis (ax_name axis) None
               | OwnerOption option => UnresolvedAxis (ax_name axis) (Some option)
               | OwnerCopy copy option => UnresolvedCopyAxis copy option (ax_name axis)
               end
  end.

(** [unknown_selection]: where the word would belong, when a copy's option has it. *)
Definition unknown_selection (word : OptionChoice) (l : Launcher) (loaded : LoadedComposition) :
    CompositionError :=
  let holder '(parent, o) :=
    axis ← List.find
      (λ a, match oc_axis word with
            | Some name => bool_decide (ax_name a = name) && has_option a (oc_option word)
            | None => has_option a (oc_option word)
            end) (lo_axes o);
    Some (CopyAxisAtLaunch word (ax_name axis) parent) in
  default (UnknownSelection word)
    (first_some holder (flat_map (λ a, options_of loaded (ax_name a)) (repeatable_axes l))).

(** The words of the launcher's own axes, and the words that name none of them. *)
Definition stack_word (l : Launcher) (loaded : LoadedComposition) (st : Chosen * list OptionChoice)
    (word : OptionChoice) : result CompositionError (Chosen * list OptionChoice) :=
  let '(chosen, deferred) := st in
  match match_word word (la_components l) with
  | MatchNothing => Ok (chosen, deferred ++ [word])
  | MatchOne axis =>
      if is_repeatable (ax_cardinality axis) then
        Err (if has_option axis (oc_option word) then RepeatableAxisAtLaunch word (ax_name axis)
             else RepeatableAxisUnknownOption word (ax_name axis))
      else if negb (has_option axis (oc_option word)) then Err (unknown_selection word l loaded)
      else
        chosen ← choose_option (ax_name axis) (oc_option word) (WrittenStack word) chosen;
        Ok (chosen, deferred)
  | MatchSeveral axes => Err (AmbiguousSelection (WrittenStack word) axes)
  end.

Definition reach_axis (axis : string) (o : LoadedOption) (reach : list AxisInReach) (own : ComponentAxis) :
    result CompositionError (list AxisInReach) :=
  match List.find (λ i, bool_decide (ax_name (ir_axis i) = ax_name own)) reach with
  | Some holder =>
      Err (AxisInReachTwice (ax_name own) (parent_label (ir_parent_axis holder) (lo_name (ir_parent holder)))
             (parent_label axis (lo_name o)))
  | None => Ok (reach ++ [mkInReach own axis o])
  end.

Definition reach_entry (l : Launcher) (loaded : LoadedComposition) (reach : list AxisInReach)
    (e : SelectionEntry) : result CompositionError (list AxisInReach) :=
  match se_option e with
  | None => Ok reach
  | Some option =>
      if negb (is_launcher_axis l (se_axis e)) then Ok reach
      else
        o ← loaded_option loaded (se_axis e) option;
        fold_result (reach_axis (se_axis e) o) (lo_axes o) reach
  end.

Definition reach_of (l : Launcher) (loaded : LoadedComposition) (entries : list SelectionEntry) :
    result CompositionError (list AxisInReach) :=
  fold_result (reach_entry l loaded) entries [].

(** A deferred word, over the axes of the options selected. *)
Definition nested_word (l : Launcher) (loaded : LoadedComposition) (reach : list AxisInReach)
    (chosen : Chosen) (word : OptionChoice) : result CompositionError Chosen :=
  match match_word word (map ir_axis reach) with
  | MatchOne axis =>
      if has_option axis (oc_option word)
      then choose_option (ax_name axis) (oc_option word) (WrittenStack word) chosen
      else Err (unknown_selection word l loaded)
  | MatchNothing => Err (unknown_selection word l loaded)
  | MatchSeveral axes => Err (AmbiguousSelection (WrittenStack word) axes)
  end.

Definition fill_stack_axis (l : Launcher) (chosen : Chosen) (axis : ComponentAxis) :
    result CompositionError SelectionEntry :=
  fill axis (chosen_option chosen (ax_name axis)) (deployed_option l (ax_name axis)) OwnerLauncher.

Definition fill_nested_axis (chosen : Chosen) (i : AxisInReach) : result CompositionError SelectionEntry :=
  fill (ir_axis i) (chosen_option chosen (ax_name (ir_axis i))) (lo_deployed (ir_parent i) !! ax_name (ir_axis i))
    (OwnerOption (lo_name (ir_parent i))).

Definition resolve_stack (l : Launcher) (loaded : LoadedComposition) (words : list OptionChoice) :
    result CompositionError UnitSelection :=
  '(chosen, deferred) ← fold_result (stack_word l loaded) words (∅, []);
  entries ← map_result (fill_stack_axis l chosen) (stack_axes l);
  reach ← reach_of l loaded entries;
  nested_chosen ← fold_result (nested_word l loaded reach) deferred ∅;
  nested ← map_result (fill_nested_axis nested_chosen) reach;
  Ok (entries ++ nested).

(** *** Copies *)

Definition LaunchWords : Type := gmap string (list SelectionWord) * list OptionChoice.

Definition split_word (copies : list string) (st : LaunchWords) (word : LaunchWord) :
    result CompositionError LaunchWords :=
  let '(scoped, stack) := st in
  match word with
  | StackWord choice => Ok (scoped, stack ++ [choice])
  | CopyWord copy word =>
      if negb (bool_decide (copy ∈ copies)) then Err (ScopedSelectionUnknownCopy copy)
      else Ok (<[copy := default [] (scoped !! copy) ++ [word]]> scoped, stack)
  end.

Definition split_scoped_words (l : Launcher) (words : list LaunchWord) (joins : list CopyReference) :
    result CompositionError LaunchWords :=
  let copies := map ce_instance_id (flat_map od_instances (la_option_deployments l)) ++ map cf_name joins in
  fold_result (split_word copies) words (∅, []).

Definition check_copy_choice (o : LoadedOption) (copy : string) (choice : string * string) :
    result CompositionError unit :=
  let '(axis_name, option) := choice in
  match lo_axis o axis_name with
  | None => Err (CopySelectsUnknownAxis copy (lo_name o) axis_name)
  | Some axis =>
      if has_option axis option then Ok tt
      else Err (CopySelectsUnknownOption copy (lo_name o) axis_name option)
  end.

Definition resolve_copy (o : LoadedOption) (parent_axis copy : string) (with_ : gmap string string) :
    result CompositionError UnitSelection :=
  _ ← map_result (check_copy_choice o copy) (btree_iter with_);
  own ← map_result
    (λ axis, fill axis (with_ !! ax_name axis) (lo_deployed o !! ax_name axis) (OwnerCopy copy (lo_name o)))
    (lo_axes o);
  Ok (mkEntry parent_axis (Some (lo_name o)) Explicit :: own).

(** A copy's words: the word each axis is chosen with. *)
Definition copy_word (o : LoadedOption) (copy : string) (origin : WordOrigin)
    (chosen : gmap string SelectionWord) (word : SelectionWord) : result CompositionError (gmap string SelectionWord) :=
  let written := written_by origin copy in
  let option := oc_option (wd_choice word) in
  let unknown := Err (UnknownCopySelection (written word) (lo_name o)) in
  match match_word (wd_choice word) (lo_axes o) with
  | MatchNothing => unknown
  | MatchSeveral axes => Err (AmbiguousSelection (written word) axes)
  | MatchOne axis =>
      if negb (has_option axis option) then unknown
      else
        match chosen !! ax_name axis with
        | Some first =>
            if negb (bool_decide (oc_option (wd_choice first) = option))
            then Err (ConflictingSelection (ax_name axis) (written first) (written word))
            else if negb (bool_decide (wd_core_node first = wd_core_node word))
            then Err (PartPlacedTwice copy (ax_name axis) (written first) (written word))
            else Ok chosen
        | None =>
            if opt_is_some (wd_core_node word) && negb (brings_instances o (ax_name axis) option)
            then Err (PlacedPartBringsNothing copy (ax_name axis) option)
            else Ok (<[ax_name axis := word]> chosen)
        end
  end.

Notation PartMachines := (gmap string CoreNodeTarget).

(** [CopyWords]: the copy's [with], and the machines of its parts. *)
Definition resolved_words (chosen : gmap string SelectionWord) : gmap string string * PartMachines :=
  ((λ w, oc_option (wd_choice w)) <$> chosen, omap wd_core_node chosen).

Definition copy_words (o : LoadedOption) (copy : string) (origin : WordOrigin) (words : list SelectionWord) :
    result CompositionError (gmap string string * PartMachines) :=
  resolved_words <$> fold_result (copy_word o copy origin) words ∅.

(** ** Loops *)

Lemma fold_result_steps {E A B} (f : B → A → result E B) (P : list A → B → Prop) l b0 b :
  P [] b0 → (∀ done x rest b b', l = done ++ x :: rest → P done b → f b x = Ok b' → P (done ++ [x]) b') →
  fold_result f l b0 = Ok b → P l b.
Proof.
  intros H0 Hstep.
  assert (Hgen : ∀ rest done b0, l = done ++ rest → P done b0 → fold_result f rest b0 = Ok b → P l b).
  { clear b0 H0. intros rest. induction rest as [|x rest IH]; intros done b0 Hl HP; cbn [fold_result].
    - intros [= <-]. by rewrite Hl, app_nil_r.
    - rewrite result_bind_ok. intros (b1 & Hf & Hrest). apply (IH (done ++ [x]) b1); [by rewrite <- app_assoc| |done].
      by eapply Hstep. }
  by apply (Hgen l []).
Qed.

Lemma fold_result_prefix {E A B} (f : B → A → result E B) (P : list A → B → Prop) l b0 b :
  P [] b0 → (∀ done x b b', x ∈ l → P done b → f b x = Ok b' → P (done ++ [x]) b') →
  fold_result f l b0 = Ok b → P l b.
Proof.
  intros H0 Hstep. apply fold_result_steps; [done|]. intros done x rest b1 b2 ->. apply Hstep.
  apply elem_of_app. right. left.
Qed.

Lemma fold_result_err {E A B} (f : B → A → result E B) l b e :
  fold_result f l b = Err e →
  ∃ done x rest b', l = done ++ x :: rest ∧ fold_result f done b = Ok b' ∧ f b' x = Err e.
Proof.
  revert b. induction l as [|x l IH]; intros b; cbn [fold_result]; [done|]. cbn.
  destruct (f b x) as [b'|e'] eqn:Hf; cbn; intros He.
  - apply IH in He as (done & y & rest & b2 & -> & Hd & Hy). exists (x :: done), y, rest, b2.
    split; [done|]. split; [|done]. cbn. by rewrite Hf.
  - injection He as ->. by exists [], x, l, b.
Qed.

Lemma map_result_err {E A B} (f : A → result E B) l e :
  map_result f l = Err e → ∃ x, x ∈ l ∧ f x = Err e.
Proof.
  induction l as [|x l IH]; cbn [map_result]; [done|]. cbn.
  destruct (f x) as [y|e'] eqn:Hf; cbn; [|intros [= ->]; exists x; split; [left|done]].
  destruct (map_result f l); cbn; [done|]. intros [= ->]. destruct IH as (z & Hz & ?); [done|].
  exists z. split; [by right|done].
Qed.

Lemma map_result_Forall2 {E A B} (f : A → result E B) l ys :
  map_result f l = Ok ys ↔ Forall2 (λ x y, f x = Ok y) l ys.
Proof.
  revert ys. induction l as [|x l IH]; intros ys; cbn [map_result].
  - split; [intros [= <-]; constructor|intros H; by inversion H].
  - rewrite result_bind_ok. split.
    + intros (y & Hy & H). apply result_bind_ok in H as (ys' & Hys & [= <-]). constructor; [done|by apply IH].
    + intros H. inversion H as [|? y ? ys' Hy Hys]; subst. exists y. split; [done|].
      apply result_bind_ok. exists ys'. split; [by apply IH|done].
Qed.

(** ** What a selection is *)

(** The word [w] is a choice of the axis [a]. *)
Definition chooses (w : OptionChoice) (a : ComponentAxis) : Prop :=
  named_by w a = true ∧ has_option a (oc_option w) = true.

Lemma match_one w axes a : match_word w axes = MatchOne a → a ∈ axes ∧ named_by w a = true.
Proof.
  unfold match_word. destruct (List.filter (named_by w) axes) as [|b [|? ?]] eqn:Hf; try done.
  intros [= <-]. assert (Hb : In b (List.filter (named_by w) axes)) by (rewrite Hf; by left).
  apply List.filter_In in Hb as [? ?]. split; [by apply list_elem_of_In|done].
Qed.

Lemma choose_ok axis option word c c' :
  choose_option axis option word c = Ok c' →
  chosen_option c' axis = Some option ∧
  (∀ x, chosen_option c' x = if decide (x = axis) then Some option else chosen_option c x) ∧
  (∀ x o, chosen_option c x = Some o → chosen_option c' x = Some o).
Proof.
  unfold choose_option, chosen_option. destruct (c !! axis) as [[o w]|] eqn:Hc.
  - case_bool_decide as Ho; [|done]. intros [= <-]. subst o. split; [by rewrite Hc|].
    split; [|done]. intros x. destruct (decide (x = axis)) as [->|]; [by rewrite Hc|done].
  - intros [= <-]. split; [by rewrite lookup_insert_eq|]. split.
    + intros x. destruct (decide (x = axis)) as [->|]; [by rewrite lookup_insert_eq|by rewrite lookup_insert_ne].
    + intros x o Hx. destruct (decide (x = axis)) as [->|]; [by rewrite Hc in Hx|by rewrite lookup_insert_ne].
Qed.

(** What the words of the launcher's axes chose, and what they left. *)
Lemma stack_words_ok l loaded words chosen deferred :
  fold_result (stack_word l loaded) words (∅, []) = Ok (chosen, deferred) →
  (∀ w, w ∈ words → w ∈ deferred ∨
     ∃ a, a ∈ stack_axes l ∧ chooses w a ∧ chosen_option chosen (ax_name a) = Some (oc_option w)) ∧
  (∀ axis o, chosen_option chosen axis = Some o →
     ∃ w a, w ∈ words ∧ a ∈ stack_axes l ∧ ax_name a = axis ∧ chooses w a ∧ oc_option w = o) ∧
  (∀ w, w ∈ deferred → w ∈ words).
Proof.
  intros Hrun. refine (fold_result_prefix (stack_word l loaded) (λ done st,
    (∀ w, w ∈ done → w ∈ st.2 ∨
       ∃ a, a ∈ stack_axes l ∧ chooses w a ∧ chosen_option st.1 (ax_name a) = Some (oc_option w)) ∧
    (∀ axis o, chosen_option st.1 axis = Some o →
       ∃ w a, w ∈ done ∧ a ∈ stack_axes l ∧ ax_name a = axis ∧ chooses w a ∧ oc_option w = o) ∧
    (∀ w, w ∈ st.2 → w ∈ done))
    words (∅, []) (chosen, deferred) _ _ Hrun).
  - split; [by intros ? ?%elem_of_nil|]. split; [|by intros ? ?%elem_of_nil]. cbn [fst]. intros axis o.
    unfold chosen_option. by rewrite lookup_empty.
  - intros done x [c d] [c' d'] _ (Hw & Hc & Hd). cbn [fst snd] in *. unfold stack_word.
    assert (Hgrow : ∀ axis o, chosen_option c axis = Some o → ∃ w a, w ∈ done ++ [x] ∧ a ∈ stack_axes l ∧
      ax_name a = axis ∧ chooses w a ∧ oc_option w = o).
    { intros axis o (w & a & Hin & Hrest)%Hc. exists w, a. split; [by apply elem_of_app; left|done]. }
    destruct (match_word x (la_components l)) as [|a|axes] eqn:Hm; [|..|done].
    + intros [= <- <-]. split; [|split; [done|]]; intros w; cycle 1.
      { rewrite !elem_of_app. intros [?|?]; [left; auto|by right]. }
      rewrite elem_of_app, list_elem_of_singleton.
      intros [Hin| ->]; [|left; by apply elem_of_app; right; left].
      destruct (Hw w Hin) as [?|?]; [left; by apply elem_of_app; left|by right].
    + apply match_one in Hm as [Ha Hn]. destruct (is_repeatable (ax_cardinality a)) eqn:Hrep; [done|].
      destruct (has_option a (oc_option x)) eqn:Hopt; [|done]. cbn. rewrite result_bind_ok.
      intros (c1 & Hch & [= <- <-]). apply choose_ok in Hch as (Hx & Hall & Hkeep).
      assert (Hstack : a ∈ stack_axes l).
      { apply list_elem_of_In, List.filter_In. split; [by apply list_elem_of_In|by rewrite Hrep]. }
      split; [|split; [|intros w ?; apply elem_of_app; left; auto]].
      * intros w. rewrite elem_of_app, list_elem_of_singleton. intros [Hin| ->].
        -- destruct (Hw w Hin) as [?|(b & Hb & Hwb & Ho)]; [by left|right]. exists b. auto.
        -- right. exists a. done.
      * intros axis o. rewrite Hall. destruct (decide (axis = ax_name a)) as [->|]; [|by apply Hgrow].
        intros [= <-]. exists x, a. split; [by apply elem_of_app; right; left|done].
Qed.

Lemma nested_words_ok l loaded reach words chosen :
  fold_result (nested_word l loaded reach) words ∅ = Ok chosen →
  (∀ w, w ∈ words → ∃ i, i ∈ reach ∧ chooses w (ir_axis i) ∧
     chosen_option chosen (ax_name (ir_axis i)) = Some (oc_option w)) ∧
  (∀ axis o, chosen_option chosen axis = Some o →
     ∃ w i, w ∈ words ∧ i ∈ reach ∧ ax_name (ir_axis i) = axis ∧ chooses w (ir_axis i) ∧ oc_option w = o).
Proof.
  apply (fold_result_prefix (nested_word l loaded reach) (λ done chosen,
    (∀ w, w ∈ done → ∃ i, i ∈ reach ∧ chooses w (ir_axis i) ∧
       chosen_option chosen (ax_name (ir_axis i)) = Some (oc_option w)) ∧
    (∀ axis o, chosen_option chosen axis = Some o →
       ∃ w i, w ∈ done ∧ i ∈ reach ∧ ax_name (ir_axis i) = axis ∧ chooses w (ir_axis i) ∧ oc_option w = o))).
  - split; [by intros ? ?%elem_of_nil|]. intros axis o. unfold chosen_option. by rewrite lookup_empty.
  - intros done x c c' _ [Hw Hc]. unfold nested_word.
    destruct (match_word x (map ir_axis reach)) as [|a|axes] eqn:Hm; [done| |done].
    apply match_one in Hm as [Ha Hn]. apply elem_of_map in Ha as (i & -> & Hi).
    destruct (has_option (ir_axis i) (oc_option x)) eqn:Hopt; [|done].
    intros (Hx & Hall & Hkeep)%choose_ok. split.
    + intros w. rewrite elem_of_app, list_elem_of_singleton. intros [Hin| ->].
      * destruct (Hw w Hin) as (j & Hj & Hwj & Ho). exists j. auto.
      * exists i. done.
    + intros axis o. rewrite Hall. destruct (decide (axis = ax_name (ir_axis i))) as [->|].
      * intros [= <-]. exists x, i. split; [by apply elem_of_app; right; left|done].
      * intros (w & j & Hin & Hrest)%Hc. exists w, j. split; [by apply elem_of_app; left|done].
Qed.

(** The axes a selection must fill, and the option the files deploy on each. *)
Inductive in_reach (l : Launcher) (loaded : LoadedComposition) (s : UnitSelection) :
    ComponentAxis → option string → Prop :=
| reach_stack a : a ∈ stack_axes l → in_reach l loaded s a (deployed_option l (ax_name a))
| reach_nested e option o a :
    e ∈ s → is_launcher_axis l (se_axis e) = true → se_option e = Some option →
    loaded_option loaded (se_axis e) option = Ok o → a ∈ lo_axes o →
    in_reach l loaded s a (lo_deployed o !! ax_name a).

(** What fills an axis: a word, else the option the files deploy, else nothing,
    where the axis may be empty. *)
Definition filled_by (words : list OptionChoice) (a : ComponentAxis) (deployed : option string)
    (e : SelectionEntry) : Prop :=
  se_axis e = ax_name a ∧
  match se_source e with
  | Explicit => ∃ w, w ∈ words ∧ chooses w a ∧ se_option e = Some (oc_option w)
  | Deployed => se_option e = deployed ∧ opt_is_some deployed = true
  | Unfilled => se_option e = None ∧ deployed = None ∧ axis_allows_empty (ax_cardinality a) = true
  end.

Lemma fill_ok words a explicit deployed owner e :
  fill a explicit deployed owner = Ok e →
  (∀ o, explicit = Some o → ∃ w, w ∈ words ∧ chooses w a ∧ oc_option w = o) →
  filled_by words a deployed e ∧ (∀ o, explicit = Some o → e = mkEntry (ax_name a) (Some o) Explicit).
Proof.
  unfold fill, filled_by. intros Hf Hw. destruct explicit as [o|]; [|destruct deployed as [o|]].
  - injection Hf as <-. split; [|by intros ? [= <-]]. split; [done|]. destruct (Hw o eq_refl) as (w & ? & ? & <-).
    by exists w.
  - injection Hf as <-. done.
  - destruct (axis_allows_empty _) eqn:He; [|by destruct owner]. injection Hf as <-. done.
Qed.

(** Axes filled one by one: an entry each, in order. *)
Lemma fills_ok {A} (axis : A → ComponentAxis) (deployed : A → option string) words chosen
    (f : A → result CompositionError SelectionEntry) (l : list A) es :
  (∀ i e, i ∈ l → f i = Ok e → filled_by words (axis i) (deployed i) e ∧
     (∀ o, chosen_option chosen (ax_name (axis i)) = Some o → e = mkEntry (ax_name (axis i)) (Some o) Explicit)) →
  map_result f l = Ok es →
  map se_axis es = map (λ i, ax_name (axis i)) l ∧
  (∀ e, e ∈ es → ∃ i, i ∈ l ∧ filled_by words (axis i) (deployed i) e) ∧
  (∀ i o, i ∈ l → chosen_option chosen (ax_name (axis i)) = Some o →
     mkEntry (ax_name (axis i)) (Some o) Explicit ∈ es).
Proof.
  intros Hf Hall%map_result_Forall2. induction Hall as [|i e l es He _ IH]; cbn.
  { split; [done|]. split; intros ? *; [by intros ?%elem_of_nil|by intros ?%elem_of_nil]. }
  destruct IH as (Hmap & Hfrom & Hto); [intros j e' Hj; apply Hf; by right|].
  destruct (Hf i e) as [[Hax Hfill] Hexp]; [by left|done|].
  split; [by rewrite Hax, Hmap|]. split.
  - intros e'. rewrite elem_of_cons. intros [-> | (j & Hj & ?)%Hfrom]; [exists i|exists j]; (split; [|done]);
      [by left|by right].
  - intros j o. rewrite elem_of_cons. intros [-> | Hj] Ho; [rewrite (Hexp o Ho); by left|right; eauto].
Qed.

Lemma loaded_axes_new l name fragments read o a :
  load_option l name fragments read = Ok o → a ∈ lo_axes o → is_launcher_axis l (ax_name a) = false.
Proof.
  unfold load_option. rewrite result_bind_ok. intros (axes & Hax & H).
  apply result_bind_ok in H as (deployed & _ & H). apply result_bind_ok in H as (? & _ & [= <-]). cbn.
  unfold load_axes in Hax. destruct (fold_result _ _ _) as [[axes' origins]|] eqn:Hf; [|done].
  injection Hax as <-. revert a.
  refine (fold_result_prefix (load_axis l name)
    (λ _ st, ∀ a, a ∈ st.1 → is_launcher_axis l (ax_name a) = false) _ _ (axes', origins) _ _ Hf).
  - by intros a ?%elem_of_nil.
  - intros _ [origin axis] [ax or] [ax' or'] _ HP. unfold load_axis.
    destruct (is_launcher_axis l (ax_name axis)) eqn:Hl; [done|]. destruct (or !! _); [done|].
    intros [= <- <-] a. cbn. rewrite elem_of_app, list_elem_of_singleton. intros [?| ->]; [by apply HP|done].
Qed.

(** The axes in reach: those of the options selected, each name once. *)
Definition reach_sound (l : Launcher) (loaded : LoadedComposition) (entries : list SelectionEntry)
    (i : AxisInReach) : Prop :=
  ∃ e option, e ∈ entries ∧ is_launcher_axis l (se_axis e) = true ∧ se_option e = Some option ∧
    loaded_option loaded (se_axis e) option = Ok (ir_parent i) ∧ ir_axis i ∈ lo_axes (ir_parent i).

Lemma reach_axes_ok axis o reach reach' :
  fold_result (reach_axis axis o) (lo_axes o) reach = Ok reach' →
  NoDup (map (λ i, ax_name (ir_axis i)) reach) →
  NoDup (map (λ i, ax_name (ir_axis i)) reach') ∧
  (∀ i, i ∈ reach' ↔ i ∈ reach ∨ ∃ a, a ∈ lo_axes o ∧ i = mkInReach a axis o).
Proof.
  intros Hf Hnd. refine (fold_result_prefix (reach_axis axis o) (λ done r,
    NoDup (map (λ i, ax_name (ir_axis i)) r) ∧
    (∀ i, i ∈ r ↔ i ∈ reach ∨ ∃ a, a ∈ done ∧ i = mkInReach a axis o)) _ _ _ _ _ Hf).
  - split; [done|]. intros i. split; [by left|]. intros [?|(a & ?%elem_of_nil & _)]; done.
  - intros done a r r' _ [Hn Hin]. unfold reach_axis.
    destruct (List.find _ r) eqn:Hfind; [done|]. intros [= <-]. split.
    + rewrite map_app. apply NoDup_app. split; [done|]. split; [|apply NoDup_singleton].
      intros x (i & -> & Hi)%elem_of_map. cbn. rewrite list_elem_of_singleton.
      apply find_None_forall with (x := i) in Hfind; [|done]. by apply bool_decide_eq_false in Hfind.
    + intros i. rewrite elem_of_app, list_elem_of_singleton, Hin. split.
      * intros [[?|(b & ? & ->)]| ->]; [by left| |]; right; eexists; (split; [|done]);
          apply elem_of_app; [by left|right; by left].
      * intros [?|(b & [Hb|Hb%list_elem_of_singleton]%elem_of_app & ->)]; [by left; left|left; right; eauto|].
        right. by rewrite Hb.
Qed.

Lemma reach_of_ok l loaded entries reach :
  reach_of l loaded entries = Ok reach →
  NoDup (map (λ i, ax_name (ir_axis i)) reach) ∧
  (∀ i, i ∈ reach → reach_sound l loaded entries i) ∧
  (∀ e option o a, e ∈ entries → is_launcher_axis l (se_axis e) = true → se_option e = Some option →
     loaded_option loaded (se_axis e) option = Ok o → a ∈ lo_axes o → mkInReach a (se_axis e) o ∈ reach).
Proof.
  intros Hf. refine (fold_result_prefix (reach_entry l loaded) (λ done reach,
    NoDup (map (λ i, ax_name (ir_axis i)) reach) ∧ (∀ i, i ∈ reach → reach_sound l loaded done i) ∧
    (∀ e option o a, e ∈ done → is_launcher_axis l (se_axis e) = true → se_option e = Some option →
       loaded_option loaded (se_axis e) option = Ok o → a ∈ lo_axes o → mkInReach a (se_axis e) o ∈ reach))
    _ _ _ _ _ Hf).
  - split; [constructor|]. split; [by intros i ?%elem_of_nil|by intros e ? ? ? ?%elem_of_nil].
  - intros done e r r' _ (Hn & Hs & Hc). unfold reach_entry.
    assert (Hgrow : ∀ i, reach_sound l loaded done i → reach_sound l loaded (done ++ [e]) i).
    { intros i (e' & o & He & Hrest). exists e', o. split; [by apply elem_of_app; left|done]. }
    destruct (se_option e) as [option|] eqn:Ho; [destruct (is_launcher_axis l (se_axis e)) eqn:Hl|]; cbn.
    2,3: intros [= <-]; split; [done|]; split; [auto|]; intros e' o' lo a
      [He|He%list_elem_of_singleton]%elem_of_app; [eauto|subst e'; congruence].
    rewrite result_bind_ok. intros (o & Hlo & Hax). apply reach_axes_ok in Hax as [Hn' Hin]; [|done].
    split; [done|]. split.
    + intros i [Hi|(a & Ha & ->)]%Hin; [auto|]. exists e, option. repeat split; try done.
      apply elem_of_app. right. by left.
    + intros e' o' lo a [He|He%list_elem_of_singleton]%elem_of_app Hl' Ho' Hlo' Ha; apply Hin; [left; eauto|].
      subst e'. right. exists a. rewrite Ho in Ho'. injection Ho' as <-. rewrite Hlo in Hlo'. by injection Hlo' as <-.
Qed.

Lemma stack_axis_is_launcher l a : a ∈ stack_axes l → is_launcher_axis l (ax_name a) = true.
Proof.
  intros Ha%list_elem_of_In%List.filter_In. apply existsb_exists. exists a. split; [apply Ha|].
  by apply bool_decide_eq_true.
Qed.

Lemma NoDup_stack_axes l : NoDup (map ax_name (la_components l)) → NoDup (map ax_name (stack_axes l)).
Proof.
  unfold stack_axes. generalize (la_components l). intros axes. induction axes as [|a axes IH]; [done|]. cbn.
  rewrite NoDup_cons. intros [Hn Hnd]. destruct (negb _); [|by apply IH]. cbn. rewrite NoDup_cons.
  split; [|by apply IH]. intros (b & Hb & [Hin _]%list_elem_of_In%List.filter_In)%elem_of_map. apply Hn.
  apply elem_of_map. exists b. split; [done|by apply list_elem_of_In].
Qed.

Lemma stack_axes_inj l a b : NoDup (map ax_name (la_components l)) → a ∈ stack_axes l → b ∈ stack_axes l →
  ax_name a = ax_name b → a = b.
Proof. intros Hnd%NoDup_stack_axes. by apply NoDup_map_inj. Qed.

(** C6: A launch's selection is what its words say over what the files deploy.
    Where [resolve_stack] succeeds, for a launcher whose axes have distinct
    names and whose options came through [load_option], the selection holds one
    entry for each axis in reach (the launcher's own that fill once, and those
    of the options selected) and nothing else; every word is the choice of an
    axis in reach, whose entry it fills; and an entry no word fills holds the
    option the files deploy there, or nothing, on an axis that may be empty. *)
Theorem selection_exact l loaded words s :
  NoDup (map ax_name (la_components l)) →
  (∀ axis option o, loaded_option loaded axis option = Ok o →
     ∃ fragments read, load_option l option fragments read = Ok o) →
  resolve_stack l loaded words = Ok s →
  NoDup (map se_axis s) ∧
  (∀ a deployed, in_reach l loaded s a deployed → ax_name a ∈ map se_axis s) ∧
  (∀ e, e ∈ s → ∃ a deployed, in_reach l loaded s a deployed ∧ filled_by words a deployed e) ∧
  (∀ w, w ∈ words → ∃ a deployed, in_reach l loaded s a deployed ∧ chooses w a ∧
     mkEntry (ax_name a) (Some (oc_option w)) Explicit ∈ s).
Proof.
  intros Hnames Hloaded. unfold resolve_stack. rewrite result_bind_ok. intros ([chosen deferred] & Hw & H).
  apply result_bind_ok in H as (entries & Hfill & H). apply result_bind_ok in H as (reach & Hreach & H).
  apply result_bind_ok in H as (nested_chosen & Hnw & H). apply result_bind_ok in H as (nested & Hnfill & [= <-]).
  apply stack_words_ok in Hw as (Hwords & Hchosen & Hdef). apply nested_words_ok in Hnw as [Hnwords Hnchosen].
  apply reach_of_ok in Hreach as (Hrnd & Hsound & Hcomplete).
  apply (fills_ok id (λ a, deployed_option l (ax_name a)) words chosen) in Hfill as (Hmap & Hfrom & Hto); cycle 1.
  { intros a e Ha He. apply (fill_ok words) in He; [done|].
    intros o (w & b & Hin & Hb & Hab & Hwb & <-)%Hchosen. exists w.
    by rewrite <- (stack_axes_inj l b a Hnames Hb Ha Hab). }
  apply (fills_ok ir_axis (λ i, lo_deployed (ir_parent i) !! ax_name (ir_axis i)) words nested_chosen)
    in Hnfill as (Hnmap & Hnfrom & Hnto); cycle 1.
  { intros i e Hi He. apply (fill_ok words) in He; [done|].
    intros o (w & j & Hin & Hj & Hij & Hwj & <-)%Hnchosen. exists w. split; [by apply Hdef|].
    by rewrite <- (NoDup_map_inj (λ i, ax_name (ir_axis i)) reach j i Hrnd Hj Hi Hij). }
  assert (Hnested : ∀ i, i ∈ reach → is_launcher_axis l (ax_name (ir_axis i)) = false).
  { intros i (e & o & _ & _ & _ & (fr & ne & Hl)%Hloaded & Hi)%Hsound. by eapply loaded_axes_new. }
  assert (Hin : ∀ i, i ∈ reach → in_reach l loaded (entries ++ nested) (ir_axis i)
    (lo_deployed (ir_parent i) !! ax_name (ir_axis i))).
  { intros i (e & o & He & Hl & Ho & Hlo & Hi)%Hsound. eapply reach_nested; try done. by apply elem_of_app; left. }
  rewrite map_app, Hmap, Hnmap. split; [|split; [|split]].
  - apply NoDup_app. split; [by apply NoDup_stack_axes|]. split; [|done].
    intros x (a & -> & Ha%stack_axis_is_launcher)%elem_of_map (i & Hi & Hir)%elem_of_map.
    apply Hnested in Hir. unfold id in Hi. congruence.
  - intros _ _ [a Ha|e o lo a He Hl Ho Hlo Ha]; apply elem_of_app; [left; by apply (list_elem_of_fmap_2 (λ a, ax_name (id a)))|].
    apply elem_of_app in He as [He|He]; [right|].
    + apply (list_elem_of_fmap_2 (λ i, ax_name (ir_axis i)) _ _ (Hcomplete e o lo a He Hl Ho Hlo Ha)).
    + apply Hnfrom in He as (i & Hi & Hax & _). rewrite Hax, (Hnested i Hi) in Hl. done.
  - intros e [(a & Ha & Hf)%Hfrom|(i & Hi & Hf)%Hnfrom]%elem_of_app; eexists _, _; (split; [|done]);
      [by constructor|by apply Hin].
  - intros w Hwin. destruct (Hwords w Hwin) as [(i & Hi & Hwi & Ho)%Hnwords|(a & Ha & Hwa & Ho)].
    + eexists _, _. split; [by apply Hin|]. split; [done|]. apply elem_of_app. right. by apply Hnto.
    + eexists _, _. split; [by constructor|]. split; [done|]. apply elem_of_app. left. by apply (Hto a).
Qed.

(** A launcher with one axis, [sim], which the file fills with [on]; that option
    declares the axis [view], which may be empty. *)
Module SelectSample.

Definition axis (name : string) (options : list string) (c : ComponentCardinality) : ComponentAxis :=
  mkAxis name (list_to_map (map (λ o, (o, mkOptionSpec [])) options)) c [].

Definition no_framework : LauncherFramework := mkFramework ∅ None.

Definition launcher : Launcher :=
  mkLauncher [] [] [] [mkOptionDeployment "sim" "on" ∅ ∅ [] []] [axis "sim" ["on"; "off"] AxisOne] [] []
    no_framework.

Definition body : Fragment := mkFragment [] [] [axis "view" ["rviz"] AxisZeroOrOne] [] [] [] no_framework.

Definition on : LoadedOption :=
  mkLoadedOption "on" [mkLoadedFragment 0 body "sim.json5"] (fg_components body) ∅ {["view" := {["rviz" := []]}]}.

Definition loaded : LoadedComposition := {["sim" := {["on" := on]}]}.

Lemma loaded_ok axis option o :
  loaded_option loaded axis option = Ok o → ∃ fragments read, load_option launcher option fragments read = Ok o.
Proof.
  unfold loaded_option, loaded. intros H%ok_or_ok. apply bind_Some in H as (options & Hx & Ho).
  apply lookup_singleton_Some in Hx as [_ <-]. apply lookup_singleton_Some in Ho as [<- <-].
  exists (lo_fragments on), (λ _ _, Ok []). vm_compute. done.
Qed.

End SelectSample.

Lemma selection_exact_witness :
  let s := [mkEntry "sim" (Some "on") Deployed; mkEntry "view" (Some "rviz") Explicit] in
  resolve_stack SelectSample.launcher SelectSample.loaded [mkChoice None "rviz"] = Ok s ∧
  NoDup (map se_axis s) ∧ ∃ a deployed, chooses (mkChoice None "rviz") a ∧
    in_reach SelectSample.launcher SelectSample.loaded s a deployed.
Proof.
  intros s. assert (Hs : resolve_stack SelectSample.launcher SelectSample.loaded [mkChoice None "rviz"] = Ok s)
    by (vm_compute; done).
  split; [done|]. destruct (selection_exact SelectSample.launcher SelectSample.loaded [mkChoice None "rviz"] s)
    as (Hnd & _ & _ & Hw); [|exact SelectSample.loaded_ok|done|].
  - apply NoDup_singleton.
  - split; [done|]. destruct (Hw (mkChoice None "rviz")) as (a & d & Hr & Hc & _); [by left|]. by exists a, d.
Defined.
