(* ===== verification/ComposeExpand.v ===== *)
(** * Expanding a unit of a launch

    [daemon-config-internal/src/launcher/compose/expand.rs] and
    [compose/adjustments.rs]: the deployments of the stack, or of a copy over
    it, collected and merged by source, and the adjustments that run on them, in
    order. An instance found through [instance_named_mut] is read with
    [find_instance] and written_value back with [put_instance]; the report is the list
    of the changes made. *)

From stdpp Require Import sorting.
From S2P Require Import Prelude Names RestartPolicy Config PairingRegistry Supervision LaunchTypes PairPlan ObservePlan Clocks Compose ComposeSelect.
#[local] Open Scope peppy_scope.

(** A [BTreeSet], in order. *)
Definition btree_set_iter (s : gset string) : list string := merge_sort String.le (elements s).

(** ** The launcher's adjustments *)

Record LauncherAdjustment : Type := mkLauncherAdjustment {
  lj_adjustment : Adjustment;
  lj_origin : string;
  lj_under : option (string * string);
}.

Definition selected_in (a : LauncherAdjustment) (s : UnitSelection) : bool :=
  match lj_under a with
  | None => true
  | Some (axis, option) => bool_decide (option_of s axis = Some option)
  end.

Definition adjustment_names_axis (a : LauncherAdjustment) (axis : string) : bool :=
  match lj_under a with Some (under, _) => bool_decide (under = axis) | None => false end ||
  names_axis (ad_when (lj_adjustment a)) axis.

Definition options_named_on (a : LauncherAdjustment) (axis : string) : list string :=
  let guarded := default [] (when ← ad_when (lj_adjustment a); when !! axis) in
  match lj_under a with
  | Some (under, option) => if bool_decide (under = axis) then [option] else guarded
  | None => guarded
  end.

Definition reaches_copy (a : LauncherAdjustment) (axis : string) (defines : list string) (l : Launcher)
    (stack_ids : list string) : bool :=
  if existsb (λ copy_axis, adjustment_names_axis a (ax_name copy_axis)) (repeatable_axes l)
  then adjustment_names_axis a axis
  else
    let target := ad_target (lj_adjustment a) in
    bool_decide (target ∈ defines) && negb (bool_decide (target ∈ stack_ids)).

Definition originated (a : LauncherAdjustment) : OriginatedAdjustment :=
  mkOriginated (lj_adjustment a) (lj_origin a).

Record CopyAxis : Type := mkCopyAxis { ca_name : string; ca_defines : list string }.

Definition copy_axes (l : Launcher) (loaded : LoadedComposition) : list CopyAxis :=
  map (λ axis, mkCopyAxis (ax_name axis)
         (flat_map (λ '(_, option), definable_ids option) (options_of loaded (ax_name axis))))
    (repeatable_axes l).

Definition is_sibling_of_entry (under : option (string * string)) (axis option : string) : bool :=
  match under with
  | Some (under_axis, under_option) =>
      bool_decide (axis = under_axis) && negb (bool_decide (option = under_option))
  | None => false
  end.

Definition ids_beside (l : Launcher) (loaded : LoadedComposition) (under : option (string * string))
    (axes : list ComponentAxis) : list string :=
  ids_of (la_deployments l) ++
  flat_map
    (λ axis, flat_map
       (λ '(option, o), if is_sibling_of_entry under (ax_name axis) option then [] else definable_ids o)
       (options_of loaded (ax_name axis)))
    axes.

Definition copy_axes_of (a : LauncherAdjustment) (l : Launcher) (stack_ids : list string)
    (axes : list CopyAxis) : list CopyAxis :=
  List.filter (λ axis, reaches_copy a (ca_name axis) (ca_defines axis) l stack_ids) axes.

Definition launcher_adjustments (l : Launcher) (label : string) : list LauncherAdjustment :=
  flat_map
    (λ axis, flat_map
       (λ '(option, spec), map
          (λ a, mkLauncherAdjustment a (label +:+ (", " +:+ option_origin (ax_name axis) option))
                  (Some (ax_name axis, option)))
          (os_adjustments spec))
       (btree_iter (ax_options axis)))
    (la_components l) ++
  map (λ a, mkLauncherAdjustment a (label +:+ ", top-level `adjustments`") None) (la_adjustments l).

Record Routed : Type := mkRouted {
  rt_entry : LauncherAdjustment;
  rt_stack_ids : list string;
  rt_copy_axes : list string;
}.

Definition route (l : Launcher) (loaded : LoadedComposition) (label : string) : list Routed :=
  map
    (λ entry,
       let stack_ids := ids_beside l loaded (lj_under entry) (stack_axes l) in
       mkRouted entry stack_ids (map ca_name (copy_axes_of entry l stack_ids (copy_axes l loaded))))
    (launcher_adjustments l label).

(** ** Units *)

Record AppliedAdjustment : Type := mkApplied {
  aa_target : string;
  aa_change : AppliedChange;
  aa_origin : string;
}.

Inductive SkipReason : Type :=
| TargetAbsent
| GuardNotMet (guard : SelectionCondition)
| RunsInCopies (axis : string).

Record SkippedAdjustment : Type := mkSkipped {
  sk_target : string;
  sk_reason : SkipReason;
  sk_origin : string;
}.

(** A deployment and the document it came from. *)
Notation OriginatedDeployment := (Deployment * string)%type.

Record Unit : Type := mkUnit {
  un_base : list OriginatedDeployment;
  un_fragments : list LoadedFragment;
  un_launcher_adjustments : list OriginatedAdjustment;
  un_copy_adjustments : list OriginatedAdjustment;
  un_selection : UnitSelection;
}.

Record Expanded : Type := mkExpanded {
  ex_deployments : list Deployment;
  ex_core_nodes : list string;
  ex_applied : list AppliedAdjustment;
  ex_skipped : list SkippedAdjustment;
}.

(** *** Collecting *)

Definition collect_deployments (u : Unit) : list OriginatedDeployment :=
  un_base u ++ flat_map (λ f, map (λ d, (d, lf_origin f)) (fg_deployments (lf_body f))) (un_fragments u).

(** The instance ids of a list of deployments, each with its document. *)
Definition originated_ids (collected : list OriginatedDeployment) : list (string * string) :=
  flat_map (λ '(d, origin), map (λ i, (li_instance_id i, origin)) (dp_instances d)) collected.

Definition define_id (first_origin : gmap string string) (entry : string * string) :
    result CompositionError (gmap string string) :=
  match first_origin !! entry.1 with
  | Some first => Err (DuplicateInstanceId entry.1 first entry.2)
  | None => Ok (<[entry.1 := entry.2]> first_origin)
  end.

Definition defined_once (collected : list OriginatedDeployment) : result CompositionError (gmap string string) :=
  fold_result define_id (originated_ids collected) ∅.

Definition same_source (s : DeploymentSource) (d : Deployment) : bool := bool_decide (dp_source d = s).

Definition merge_deployment (ds : list Deployment) (d : Deployment) : list Deployment :=
  if existsb (same_source (dp_source d)) ds
  then update_first (same_source (dp_source d))
         (λ e, mkDeployment (dp_source e) (dp_instances e ++ dp_instances d)) ds
  else ds ++ [d].

Definition merge_by_source (collected : list OriginatedDeployment) : list Deployment :=
  fold_left (λ ds d, merge_deployment ds d.1) collected [].

Definition add_core_node_link (links : list string) (link : string) : list string :=
  if bool_decide (link ∈ links) then links else links ++ [link].

Definition union_core_nodes (u : Unit) (core_nodes : list string) : list string :=
  fold_left add_core_node_link (flat_map (λ f, fg_core_nodes (lf_body f)) (un_fragments u)) core_nodes.

(** *** Planning the adjustments *)

Definition planned_adjustments (u : Unit) : list OriginatedAdjustment :=
  flat_map (λ f, map (λ a, mkOriginated a (lf_origin f)) (fg_adjustments (lf_body f))) (un_fragments u) ++
  un_launcher_adjustments u ++ un_copy_adjustments u.

(** Why a step does not run in a unit, when it does not. *)
Definition skip_reason (s : UnitSelection) (defined : gmap string string) (step : OriginatedAdjustment) :
    option SkipReason :=
  let absent := if opt_is_some (defined !! ad_target (oa_adjustment step)) then None else Some TargetAbsent in
  match ad_when (oa_adjustment step) with
  | Some when => if guard_holds s when then absent else Some (GuardNotMet when)
  | None => absent
  end.

Definition plan_adjustments (u : Unit) (defined : gmap string string) :
    list OriginatedAdjustment * list SkippedAdjustment :=
  fold_left
    (λ '(running, skipped) step,
       match skip_reason (un_selection u) defined step with
       | Some reason =>
           (running, skipped ++ [mkSkipped (ad_target (oa_adjustment step)) reason (oa_origin step)])
       | None => (running ++ [step], skipped)
       end)
    (planned_adjustments u) ([], []).

(** *** Applying them *)

Definition has_id (id : string) (i : LaunchInstance) : bool := bool_decide (li_instance_id i = id).

(** [instance_named_mut], read. *)
Definition find_instance (ds : list Deployment) (id : string) : option LaunchInstance :=
  List.find (has_id id) (instances_of ds).

(** [instance_named_mut], the instance it finds replaced. *)
Fixpoint put_instance (ds : list Deployment) (id : string) (new : LaunchInstance) : list Deployment :=
  match ds with
  | [] => []
  | d :: ds =>
      if existsb (has_id id) (dp_instances d)
      then mkDeployment (dp_source d) (update_first (has_id id) (λ _, new) (dp_instances d)) :: ds
      else d :: put_instance ds id new
  end.

Definition with_arguments (i : LaunchInstance) (arguments : gmap string AnyType) : LaunchInstance :=
  mkLaunchInstance (li_instance_id i) arguments (li_env_vars i) (li_env_from_launch i) (li_clock i)
    (li_restart i) (li_links i) (li_daemon_scopes i) (li_core_node i).

Definition with_links (i : LaunchInstance) (links : gmap string LinkValue) : LaunchInstance :=
  mkLaunchInstance (li_instance_id i) (li_arguments i) (li_env_vars i) (li_env_from_launch i) (li_clock i)
    (li_restart i) links (li_daemon_scopes i) (li_core_node i).

Definition with_instance_clock (i : LaunchInstance) (clock : option string) : LaunchInstance :=
  mkLaunchInstance (li_instance_id i) (li_arguments i) (li_env_vars i) (li_env_from_launch i) clock
    (li_restart i) (li_links i) (li_daemon_scopes i) (li_core_node i).

Definition with_restart (i : LaunchInstance) (restart : option RestartDeclaration) : LaunchInstance :=
  mkLaunchInstance (li_instance_id i) (li_arguments i) (li_env_vars i) (li_env_from_launch i) (li_clock i)
    restart (li_links i) (li_daemon_scopes i) (li_core_node i).

Definition with_env_from_launch (i : LaunchInstance) (variables : gset string) : LaunchInstance :=
  mkLaunchInstance (li_instance_id i) (li_arguments i) (li_env_vars i) variables (li_clock i)
    (li_restart i) (li_links i) (li_daemon_scopes i) (li_core_node i).

Definition with_daemon_scopes (i : LaunchInstance) (scopes : gmap string AnyType) : LaunchInstance :=
  mkLaunchInstance (li_instance_id i) (li_arguments i) (li_env_vars i) (li_env_from_launch i) (li_clock i)
    (li_restart i) (li_links i) scopes (li_core_node i).

Definition append_links (i : LaunchInstance) (slot : string) (additions : list string) (target origin : string) :
    result CompositionError (list string) :=
  existing ← match li_links i !! slot with
             | None => Ok []
             | Some (Bound (Array existing)) => Ok existing
             | Some _ => Err (AddLinksOnNonArray origin target slot)
             end;
  map_err (AddLinksDuplicateTarget origin target slot) (LinkTargets_new (existing ++ additions)).

(** An instance being adjusted, and the changes made to it so far. *)
Notation Adjusted := (LaunchInstance * list AppliedChange)%type.

Definition set_argument (st : Adjusted) (write : string * AnyType) : Adjusted :=
  let '(i, changes) := st in
  (with_arguments i (<[write.1 := write.2]> (li_arguments i)),
   changes ++ [ChArgument write.1 (li_arguments i !! write.1) write.2]).

Definition set_link (st : Adjusted) (write : string * LinkValue) : Adjusted :=
  let '(i, changes) := st in
  (with_links i (<[write.1 := write.2]> (li_links i)),
   changes ++ [ChLinkSet write.1 (li_links i !! write.1) write.2]).

Definition add_link (target origin : string) (st : Adjusted) (write : string * list string) :
    result CompositionError Adjusted :=
  let '(i, changes) := st in
  bound ← append_links i write.1 write.2 target origin;
  Ok (with_links i (<[write.1 := Bound (Array bound)]> (li_links i)),
      changes ++ map (ChLinkAdded write.1) write.2).

Definition unset_link (st : Adjusted) (slot : string) : Adjusted :=
  let '(i, changes) := st in
  match li_links i !! slot with
  | Some old => (with_links i (delete slot (li_links i)), changes ++ [ChLinkRemoved slot old])
  | None => st
  end.

Definition set_daemon_scope (st : Adjusted) (write : string * AnyType) : Adjusted :=
  let '(i, changes) := st in
  (with_daemon_scopes i (<[write.1 := write.2]> (li_daemon_scopes i)),
   changes ++ [ChDaemonScope write.1 (li_daemon_scopes i !! write.1) write.2]).

Definition set_framework (overrides : FrameworkOverrides) (st : Adjusted) : Adjusted :=
  let st :=
    match fo_clock overrides with
    | Some clock => (with_instance_clock st.1 (Some clock), st.2 ++ [ChClock (li_clock st.1) clock])
    | None => st
    end in
  match fo_restart overrides with
  | Some restart => (with_restart st.1 (Some restart), st.2 ++ [ChRestart (li_restart st.1) restart])
  | None => st
  end.

Definition set_env_from_launch (variables : gset string) (st : Adjusted) : Adjusted :=
  (with_env_from_launch st.1 variables, st.2 ++ [ChEnvFromLaunch (li_env_from_launch st.1) variables]).

(** The verbs of an adjustment, in the order the grammar lists them. *)
Definition apply_adjustment (i : LaunchInstance) (step : OriginatedAdjustment) :
    result CompositionError Adjusted :=
  let a := oa_adjustment step in
  let st := fold_left set_argument (default [] (btree_iter <$> ad_set_arguments a)) (i, []) in
  let st := match ad_set_framework a with Some overrides => set_framework overrides st | None => st end in
  let st := fold_left set_link (default [] (btree_iter <$> ad_set_links a)) st in
  st ← fold_result (add_link (ad_target a) (oa_origin step))
    (default [] (btree_iter <$> ad_add_links a)) st;
  let st := fold_left unset_link (default [] (ad_unset_links a)) st in
  let st := match ad_set_env_from_launch a with
            | Some variables => set_env_from_launch variables st
            | None => st
            end in
  Ok (fold_left set_daemon_scope (default [] (btree_iter <$> ad_set_daemon_scopes a)) st).

Definition run_step (st : list Deployment * list AppliedAdjustment) (step : OriginatedAdjustment) :
    result CompositionError (list Deployment * list AppliedAdjustment) :=
  let '(ds, applied) := st in
  let target := ad_target (oa_adjustment step) in
  i ← ok_or (find_instance ds target) (Panics "a running adjustment targets an instance the unit defines");
  '(i', changes) ← apply_adjustment i step;
  Ok (put_instance ds target i', applied ++ map (λ c, mkApplied target c (oa_origin step)) changes).

(** *** Variables given two values *)

Definition given_in (i : LaunchInstance) : list string :=
  List.filter (λ v, opt_is_some (li_env_vars i !! v)) (btree_set_iter (li_env_from_launch i)).

Definition is_env_change (c : AppliedChange) : bool :=
  match c with ChEnvFromLaunch _ _ => true | _ => false end.

(** The adjustment that wrote an instance's list last, or its document. *)
Definition list_origin (defined : gmap string string) (applied : list AppliedAdjustment) (id : string) :
    result CompositionError string :=
  match List.find (λ e, bool_decide (aa_target e = id) && is_env_change (aa_change e)) (rev applied) with
  | Some e => Ok ("the adjustment in " +:+ aa_origin e)
  | None =>
      document ← ok_or (defined !! id) (Panics "every instance of the unit is defined once");
      Ok ("its entry in " +:+ document)
  end.

Definition given_two_values (defined : gmap string string) (applied : list AppliedAdjustment)
    (i : LaunchInstance) : result CompositionError (list (string * string * option string)) :=
  match given_in i with
  | [] => Ok []
  | variables =>
      origin ← list_origin defined applied (li_instance_id i);
      Ok (map (λ v, (li_instance_id i, v, Some origin)) variables)
  end.

Definition refuse_variables_given_two_values (ds : list Deployment) (defined : gmap string string)
    (applied : list AppliedAdjustment) : result CompositionError unit :=
  found ← map_result (given_two_values defined applied) (instances_of ds);
  match concat found with [] => Ok tt | found => Err (VariablesGivenTwoValues found) end.

Definition expand_unit (u : Unit) (core_nodes : list string) : result CompositionError Expanded :=
  let collected := collect_deployments u in
  defined ← defined_once collected;
  let '(running, skipped) := plan_adjustments u defined in
  '(ds, applied) ← fold_result run_step running (merge_by_source collected, []);
  _ ← refuse_variables_given_two_values ds defined applied;
  Ok (mkExpanded ds (union_core_nodes u core_nodes) applied skipped).

(** *** The framework of a launch *)

Definition refuse_fragment_restart (fragments : list LoadedFragment) : result CompositionError unit :=
  match List.find (λ f, opt_is_some (fw_restart (fg_framework (lf_body f)))) fragments with
  | Some f => Err (FragmentDeclaresRestart (lf_origin f))
  | None => Ok tt
  end.

Definition merge_domain (declared : gmap string (string * ClockDeclaration))
    (entry : string * (string * ClockDeclaration)) :
    result CompositionError (gmap string (string * ClockDeclaration)) :=
  let '(origin, (domain, declaration)) := entry in
  match declared !! domain with
  | Some (first_origin, existing) =>
      if bool_decide (existing = declaration) then Ok declared
      else Err (ClockDomainConflict domain first_origin origin)
  | None => Ok (<[domain := (origin, declaration)]> declared)
  end.

Definition merge_framework (base_origin : string) (base : LauncherFramework) (fragments : list LoadedFragment) :
    result CompositionError LauncherFramework :=
  _ ← refuse_fragment_restart fragments;
  let contributions :=
    (base_origin, base) :: map (λ f, (lf_origin f, fg_framework (lf_body f))) fragments in
  declared ← fold_result merge_domain
    (flat_map (λ '(origin, fw), map (pair origin) (btree_iter (fw_clocks fw))) contributions) ∅;
  Ok (mkFramework (snd <$> declared) (fw_restart base)).

(** ** Instances and where they are placed *)

(** The instances of a list of deployments, each with the node it runs. *)
Definition placed (ds : list Deployment) : list (DeploymentSource * LaunchInstance) :=
  flat_map (λ d, map (pair (dp_source d)) (dp_instances d)) ds.

Lemma placed_instances ds : map snd (placed ds) = instances_of ds.
Proof.
  unfold placed, instances_of. induction ds as [|d ds IH]; [done|]. cbn. rewrite map_app, IH, map_map. cbn.
  by rewrite map_id.
Qed.

Lemma placed_ids ds : map (λ p, li_instance_id p.2) (placed ds) = ids_of ds.
Proof. unfold ids_of. by rewrite <- placed_instances, map_map. Qed.

Lemma update_first_app {A} (p : A → bool) f (l k : list A) :
  update_first p f (l ++ k) = if existsb p l then update_first p f l ++ k else l ++ update_first p f k.
Proof. induction l as [|x l IH]; [done|]. cbn. destruct (p x); [done|]. rewrite IH. by destruct (existsb p l). Qed.

Lemma existsb_map {A B} (p : B → bool) (f : A → B) l : existsb p (map f l) = existsb (λ x, p (f x)) l.
Proof. induction l as [|x l IH]; [done|]. cbn. by rewrite IH. Qed.

Lemma update_first_map {A B} (p : B → bool) f (g : A → B) h l :
  (∀ x, f (g x) = g (h x)) → update_first p f (map g l) = map g (update_first (λ x, p (g x)) h l).
Proof. intros Hf. induction l as [|x l IH]; [done|]. cbn. destruct (p (g x)); cbn; [by rewrite Hf|by rewrite IH]. Qed.

Lemma placed_put ds id new :
  placed (put_instance ds id new) = update_first (λ p, has_id id p.2) (λ p, (p.1, new)) (placed ds).
Proof.
  induction ds as [|d ds IH]; [done|]. unfold placed in *. cbn. rewrite update_first_app, existsb_map. cbn.
  destruct (existsb (has_id id) (dp_instances d)) eqn:Hex; cbn; [|by rewrite IH].
  f_equal. by rewrite (update_first_map _ _ _ (λ _, new)).
Qed.

Lemma sources_put ds id new : map dp_source (put_instance ds id new) = map dp_source ds.
Proof. induction ds as [|d ds IH]; [done|]. cbn. destruct (existsb _ _); cbn; [done|by rewrite IH]. Qed.

Lemma merge_placed ds d : placed (merge_deployment ds d) ≡ₚ placed ds ++ placed [d].
Proof.
  unfold merge_deployment, placed. destruct (existsb _ ds) eqn:Hex; [|by rewrite flat_map_app].
  induction ds as [|e ds IH]; [done|]. cbn in *. destruct (same_source (dp_source d) e) eqn:Hs; cbn.
  - apply bool_decide_eq_true in Hs. rewrite map_app, Hs, app_nil_r, <- !app_assoc.
    f_equiv. apply Permutation_app_comm.
  - rewrite IH by done. cbn. by rewrite <- app_assoc.
Qed.

Lemma merge_sources ds d : NoDup (map dp_source ds) → NoDup (map dp_source (merge_deployment ds d)).
Proof.
  intros Hnd. unfold merge_deployment. destruct (existsb _ ds) eqn:Hex.
  - rewrite map_update_first; [done|]. intros e He. done.
  - rewrite map_app. apply NoDup_app. split; [done|]. split; [|apply NoDup_singleton].
    intros s (e & -> & He)%elem_of_map Hs%list_elem_of_singleton.
    assert (existsb (same_source (dp_source d)) ds = true); [|congruence].
    apply existsb_exists. exists e. split; [by apply list_elem_of_In|by apply bool_decide_eq_true].
Qed.

Lemma merge_by_source_ok collected :
  placed (merge_by_source collected) ≡ₚ placed (map fst collected) ∧
  NoDup (map dp_source (merge_by_source collected)).
Proof.
  unfold merge_by_source. rewrite <- (app_nil_l (placed (map fst collected))).
  change (@nil (DeploymentSource * LaunchInstance)) with (placed []).
  assert (Hnd : NoDup (map dp_source [])) by constructor. revert Hnd.
  generalize (@nil Deployment). induction collected as [|[d o] collected IH]; intros ds Hnd; cbn.
  - by rewrite app_nil_r.
  - destruct (IH (merge_deployment ds d) (merge_sources ds d Hnd)) as [Hp Hn]. split; [|done].
    rewrite Hp, merge_placed. unfold placed. cbn. by rewrite app_nil_r, app_assoc.
Qed.

(** ** What an adjustment changes *)

(** An adjustment keeps an instance's id, its variables and its machine. *)
Definition same_instance (i j : LaunchInstance) : Prop :=
  li_instance_id j = li_instance_id i ∧ li_env_vars j = li_env_vars i ∧ li_core_node j = li_core_node i.

#[export] Instance same_instance_equiv : Equivalence same_instance.
Proof.
  unfold same_instance. split; [by intros i|by intros i j (-> & -> & ->)|].
  by intros i j k (-> & -> & ->) (-> & -> & ->).
Qed.

Lemma fold_left_same {A} (f : Adjusted → A → Adjusted) l st :
  (∀ st x, same_instance st.1 (f st x).1) → same_instance st.1 (fold_left f l st).1.
Proof.
  intros Hf. revert st. induction l as [|x l IH]; intros st; cbn; [done|].
  etransitivity; [apply Hf|apply IH].
Qed.

Lemma add_links_same target origin l st st' :
  fold_result (add_link target origin) l st = Ok st' → same_instance st.1 st'.1.
Proof.
  apply (fold_result_prefix _ (λ _ st', same_instance st.1 st'.1)); [done|].
  intros _ x [i c] st1 _ Hst. unfold add_link. rewrite result_bind_ok. intros (bound & _ & [= <-]).
  etransitivity; [exact Hst|done].
Qed.

Lemma apply_adjustment_same i step i' changes :
  apply_adjustment i step = Ok (i', changes) → same_instance i i'.
Proof.
  unfold apply_adjustment. rewrite result_bind_ok. intros (st & Hadd%add_links_same & [= Hst]).
  change i' with (i', changes).1. rewrite <- Hst. clear Hst.
  etransitivity; [|apply fold_left_same; by intros [? ?] ?].
  transitivity st.1; cycle 1.
  { etransitivity; [apply (fold_left_same unset_link (default [] (ad_unset_links (oa_adjustment step))))|].
    - intros [j c] slot. unfold unset_link. by destruct (li_links j !! slot).
    - by destruct (ad_set_env_from_launch _). }
  etransitivity; [|exact Hadd]. etransitivity; [|apply fold_left_same; by intros [? ?] ?].
  transitivity (fold_left set_argument (default [] (btree_iter <$> ad_set_arguments (oa_adjustment step))) (i, [])).1.
  - change i with (i, @nil AppliedChange).1 at 1. apply fold_left_same. by intros [? ?] ?.
  - destruct (ad_set_framework _) as [[[?|] [?|]]|]; done.
Qed.

(** ** Running the plan *)

(** The steps of a list that write one instance, run on it in order. *)
Definition adjust (steps : list OriginatedAdjustment) (i : LaunchInstance) :
    result CompositionError LaunchInstance :=
  fold_result (λ i step, fst <$> apply_adjustment i step)
    (List.filter (λ step, bool_decide (ad_target (oa_adjustment step) = li_instance_id i)) steps) i.

Lemma adjust_cons step steps i i' :
  adjust (step :: steps) i = Ok i' ↔
  if bool_decide (ad_target (oa_adjustment step) = li_instance_id i)
  then ∃ i1 changes, apply_adjustment i step = Ok (i1, changes) ∧ adjust steps i1 = Ok i'
  else adjust steps i = Ok i'.
Proof.
  unfold adjust. cbn. case_bool_decide as Ht; [|done]. cbn [fold_result]. rewrite result_bind_ok. split.
  - intros (i1 & H1 & H2). destruct (apply_adjustment i step) as [[j c]|] eqn:Ha; [|done]. injection H1 as <-.
    exists j, c. split; [done|]. by apply apply_adjustment_same in Ha as (-> & _).
  - intros (i1 & c & Ha & H2). rewrite Ha. exists i1. split; [done|].
    apply apply_adjustment_same in Ha as (Hid & _). by rewrite <- Hid.
Qed.

Lemma update_first_Forall2 {A K} (key : A → K) `{EqDecision K} k f (l : list A) :
  NoDup (map key l) →
  Forall2 (λ x y, y = if bool_decide (key x = k) then f x else x)
    l (update_first (λ x, bool_decide (key x = k)) f l).
Proof.
  induction l as [|x l IH]; [constructor|]. cbn. rewrite NoDup_cons. intros [Hx Hnd].
  case_bool_decide as Hk; constructor; [by case_bool_decide| |by case_bool_decide|by apply IH].
  assert (Hl : Forall (λ y, key y ≠ k) l).
  { apply Forall_forall. intros y Hy Hyk. apply Hx. rewrite Hk, <- Hyk. by apply (list_elem_of_fmap_2 key). }
  clear -Hl. induction Hl as [|y l Hy _ IH]; constructor; [by case_bool_decide|done].
Qed.

Lemma Forall2_elem {A B} (R S : A → B → Prop) l k :
  Forall2 R l k → (∀ x y, x ∈ l → R x y → S x y) → Forall2 S l k.
Proof.
  intros Hall. induction Hall as [|x y l k Hxy _ IH]; intros HS; constructor; [apply HS; [left|done]|].
  apply IH. intros a b Ha. apply HS. by right.
Qed.

Lemma run_step_placed ds applied step ds' applied' :
  NoDup (ids_of ds) → run_step (ds, applied) step = Ok (ds', applied') →
  map dp_source ds' = map dp_source ds ∧
  Forall2 (λ p q, q.1 = p.1 ∧ same_instance p.2 q.2 ∧
    if bool_decide (ad_target (oa_adjustment step) = li_instance_id p.2)
    then ∃ changes, apply_adjustment p.2 step = Ok (q.2, changes) else q.2 = p.2) (placed ds) (placed ds').
Proof.
  intros Hnd. unfold run_step. rewrite result_bind_ok. intros (i & Hfind%ok_or_ok & H).
  apply result_bind_ok in H as ([i' changes] & Ha & [= <- _]). split; [apply sources_put|].
  rewrite placed_put. apply find_elem_of in Hfind as [Hi Hid%bool_decide_eq_true].
  rewrite <- placed_ids in Hnd. pose proof (update_first_Forall2 (λ p, li_instance_id p.2)
    (ad_target (oa_adjustment step)) (λ p, (p.1, i')) _ Hnd) as Hu.
  unfold has_id. eapply Forall2_elem; [exact Hu|]. cbn. intros p q Hp ->.
  rewrite (bool_decide_ext (ad_target (oa_adjustment step) = _) (li_instance_id p.2 = ad_target (oa_adjustment step)))
    by done.
  case_bool_decide as Hk; [|done]. cbn. split; [done|].
  assert (p.2 = i) as ->; [|split; [by eapply apply_adjustment_same|eauto]].
  rewrite <- placed_instances in Hi. apply elem_of_map in Hi as (q & -> & Hq). f_equal.
  eapply (NoDup_map_inj (λ p, li_instance_id p.2)); [exact Hnd|done|done|]. cbn. congruence.
Qed.

Lemma same_ids l k :
  Forall2 (λ p q : DeploymentSource * LaunchInstance, same_instance p.2 q.2) l k →
  map (λ p, li_instance_id p.2) k = map (λ p, li_instance_id p.2) l.
Proof. induction 1 as [|p q l k (Hid & _) _ IH]; [done|]. cbn. by rewrite Hid, IH. Qed.

(** The plan, instance by instance: each holds its own steps, in order. *)
Lemma run_steps_placed steps ds applied ds' applied' :
  NoDup (ids_of ds) → fold_result run_step steps (ds, applied) = Ok (ds', applied') →
  map dp_source ds' = map dp_source ds ∧
  Forall2 (λ p q, q.1 = p.1 ∧ same_instance p.2 q.2 ∧ adjust steps p.2 = Ok q.2) (placed ds) (placed ds').
Proof.
  revert ds applied. induction steps as [|step steps IH]; intros ds applied Hnd; cbn [fold_result].
  - intros [= -> _]. split; [done|]. by apply Forall_Forall2_diag, Forall_true.
  - rewrite result_bind_ok. intros ([ds1 applied1] & Hstep & Hrest).
    apply run_step_placed in Hstep as [Hsrc Hall]; [|done].
    assert (Hids : ids_of ds1 = ids_of ds).
    { rewrite <- !placed_ids. apply same_ids. eapply Forall2_impl; [exact Hall|]. tauto. }
    apply IH in Hrest as [Hsrc' Hall']; [|by rewrite Hids]. split; [by rewrite Hsrc'|].
    eapply Forall2_trans; [|exact Hall|exact Hall']. cbn. intros p q r (Hs & Hi & Hif) (Hs' & Hi' & Ha).
    split; [congruence|]. split; [by etransitivity|]. apply adjust_cons.
    destruct (bool_decide _); [|by rewrite <- Hif]. destruct Hif as [changes Hap]. eauto.
Qed.

Lemma plan_running u defined :
  (plan_adjustments u defined).1 =
  List.filter (λ step, negb (opt_is_some (skip_reason (un_selection u) defined step))) (planned_adjustments u).
Proof.
  unfold plan_adjustments. generalize (planned_adjustments u). intros l.
  assert (H : ∀ running skipped, (fold_left (λ '(running, skipped) step,
    match skip_reason (un_selection u) defined step with
    | Some reason => (running, skipped ++ [mkSkipped (ad_target (oa_adjustment step)) reason (oa_origin step)])
    | None => (running ++ [step], skipped)
    end) l (running, skipped)).1 = running ++
    List.filter (λ step, negb (opt_is_some (skip_reason (un_selection u) defined step))) l); [|apply H].
  induction l as [|step l IH]; intros running skipped; cbn; [by rewrite app_nil_r|].
  destruct (skip_reason _ _ step); rewrite IH; cbn; [done|by rewrite <- app_assoc].
Qed.

Lemma originated_ids_fst collected : map fst (originated_ids collected) = ids_of (map fst collected).
Proof.
  unfold originated_ids, ids_of, instances_of. induction collected as [|[d o] l IH]; [done|]. cbn.
  by rewrite !map_app, IH, map_map.
Qed.

Lemma defined_once_ok collected defined :
  defined_once collected = Ok defined →
  NoDup (ids_of (map fst collected)) ∧
  ∀ id, is_Some (defined !! id) ↔ id ∈ ids_of (map fst collected).
Proof.
  rewrite <- originated_ids_fst. unfold defined_once.
  apply (fold_result_prefix define_id (λ done (m : gmap string string),
    NoDup (map fst done) ∧ ∀ id, is_Some (m !! id) ↔ id ∈ map fst done)).
  - split; [constructor|]. intros id. rewrite lookup_empty. split; [by intros [? ?]|by intros ?%elem_of_nil].
  - intros done [id origin] m m' _ [Hnd Hm]. unfold define_id. cbn.
    destruct (m !! id) eqn:Hid; [done|]. intros [= <-]. rewrite map_app. split.
    + apply NoDup_app. split; [done|]. split; [|apply NoDup_singleton].
      intros x Hx ->%list_elem_of_singleton. apply Hm in Hx as [? ?]. cbn in *. congruence.
    + intros x. rewrite elem_of_app, <- Hm, lookup_insert_is_Some. cbn. rewrite list_elem_of_singleton.
      destruct (decide (id = x)); naive_solver.
Qed.

(** Whether a step's guard lets it run in a unit. *)
Definition guard_met (s : UnitSelection) (step : OriginatedAdjustment) : bool :=
  match ad_when (oa_adjustment step) with Some when => guard_holds s when | None => true end.

Lemma filter_filter_agree {A} (p q r : A → bool) l :
  (∀ x, r x = true → p x = q x) → List.filter r (List.filter p l) = List.filter r (List.filter q l).
Proof.
  intros Hpq. induction l as [|x l IH]; [done|]. cbn. destruct (r x) eqn:Hr.
  - rewrite (Hpq x Hr). destruct (q x); cbn; [by rewrite Hr, IH|done].
  - destruct (p x), (q x); cbn; rewrite ?Hr; done.
Qed.

Lemma adjust_plan u defined i :
  is_Some (defined !! li_instance_id i) →
  adjust (plan_adjustments u defined).1 i = adjust (List.filter (guard_met (un_selection u)) (planned_adjustments u)) i.
Proof.
  intros [o Ho]. unfold adjust. f_equal. rewrite plan_running. apply filter_filter_agree.
  intros step Ht%bool_decide_eq_true. unfold skip_reason, guard_met. rewrite Ht, Ho. cbn.
  destruct (ad_when _) as [when|]; [by destruct (guard_holds _ when)|done].
Qed.

Lemma core_node_links links new link :
  link ∈ fold_left add_core_node_link new links ↔ link ∈ links ∨ link ∈ new.
Proof.
  revert links. induction new as [|x new IH]; intros links; cbn.
  - split; [by left|]. by intros [?|?%elem_of_nil].
  - rewrite IH, elem_of_cons. unfold add_core_node_link. case_bool_decide as Hx.
    + naive_solver.
    + rewrite elem_of_app, list_elem_of_singleton. naive_solver.
Qed.

Lemma no_variable_twice ds defined applied :
  refuse_variables_given_two_values ds defined applied = Ok tt →
  ∀ i, i ∈ instances_of ds → given_in i = [].
Proof.
  unfold refuse_variables_given_two_values. rewrite result_bind_ok. intros (found & Hmap%map_result_Forall2 & Hc) i Hi.
  apply list_elem_of_lookup in Hi as [n Hn]. destruct (Forall2_lookup_l _ _ _ _ _ Hmap Hn) as (vs & Hvs & Hg).
  assert (vs = []) as ->.
  { destruct (concat found) eqn:Hcc; [|done]. apply list_elem_of_lookup_2 in Hvs. destruct vs as [|v vs]; [done|].
    assert (v ∈ concat found) as Hv 
      by (apply list_elem_of_In, in_concat; exists (v :: vs); split; [by apply list_elem_of_In|by left]).
    rewrite Hcc in Hv. by apply elem_of_nil in Hv. }
  unfold given_two_values in Hg. destruct (given_in i); [done|].
  apply result_bind_ok in Hg as (? & _ & [=]).
Qed.

(** No [expect] of an expansion fires. *)
Lemma apply_adjustment_err i step what : apply_adjustment i step ≠ Err (Panics what).
Proof.
  unfold apply_adjustment. destruct (fold_result _ _ _) as [st|e] eqn:Hf; [done|]. cbn. intros [= ->].
  apply fold_result_err in Hf as (? & x & ? & [j c] & _ & _ & Hx). unfold add_link, append_links in Hx.
  destruct (li_links j !! x.1) as [[[?|t|?]|?]|]; cbn in Hx; try done;
    destruct (LinkTargets_new _); done.
Qed.

Lemma run_steps_no_panic steps ds applied what :
  NoDup (ids_of ds) → (∀ step, step ∈ steps → ad_target (oa_adjustment step) ∈ ids_of ds) →
  fold_result run_step steps (ds, applied) ≠ Err (Panics what).
Proof.
  intros Hnd Ht H. apply fold_result_err in H as (done & step & rest & [ds1 a1] & -> & Hdone & Hstep).
  apply run_steps_placed in Hdone as [_ Hall]; [|done].
  assert (Hids : ids_of ds1 = ids_of ds).
  { rewrite <- !placed_ids. apply same_ids. eapply Forall2_impl; [exact Hall|]. tauto. }
  unfold run_step in Hstep. destruct (find_instance ds1 _) as [i|] eqn:Hf; cbn in Hstep.
  - destruct (apply_adjustment i step) as [[? ?]|e] eqn:Ha; cbn in Hstep; [done|]. injection Hstep as ->.
    by apply apply_adjustment_err in Ha.
  - specialize (Ht step). rewrite <- Hids in Ht. unfold ids_of in Ht.
    destruct (elem_of_map li_instance_id (instances_of ds1) (ad_target (oa_adjustment step))) as [Hto _].
    destruct Hto as (i & Hi & Hin); [apply Ht, elem_of_app; right; by left|].
    apply find_None_forall with (x := i) in Hf; [|done]. apply bool_decide_eq_false in Hf. congruence.
Qed.

Lemma refuse_no_panic ds defined applied what :
  (∀ id, id ∈ ids_of ds → is_Some (defined !! id)) →
  refuse_variables_given_two_values ds defined applied ≠ Err (Panics what).
Proof.
  intros Hd H. unfold refuse_variables_given_two_values in H.
  destruct (map_result _ _) as [found|e] eqn:Hm; cbn in H; [by destruct (concat found)|]. injection H as ->.
  apply map_result_err in Hm as (i & Hi & Hg). unfold given_two_values in Hg.
  destruct (given_in i); [done|]. unfold list_origin in Hg.
  destruct (List.find _ _); cbn in Hg; [done|].
  destruct (Hd (li_instance_id i)) as [o Ho]; [by apply (list_elem_of_fmap_2 li_instance_id)|].
  rewrite Ho in Hg. done.
Qed.

(** The steps of a unit that run, in order. *)
Definition running_steps (u : Unit) : list OriginatedAdjustment :=
  List.filter (guard_met (un_selection u)) (planned_adjustments u).

Lemma expand_ids u defined ds applied :
  defined_once (collect_deployments u) = Ok defined →
  fold_result run_step (plan_adjustments u defined).1 (merge_by_source (collect_deployments u), []) = Ok (ds, applied) →
  NoDup (ids_of ds) ∧ (∀ id, is_Some (defined !! id) ↔ id ∈ ids_of ds).
Proof.
  intros [Hnd Hdef]%defined_once_ok Hrun.
  destruct (merge_by_source_ok (collect_deployments u)) as [Hperm _].
  assert (Hids : ids_of (merge_by_source (collect_deployments u)) ≡ₚ
    ids_of (map fst (collect_deployments u))) by (rewrite <- !placed_ids; by f_equiv).
  apply run_steps_placed in Hrun as [_ Hall]; [|by rewrite Hids].
  assert (ids_of ds = ids_of (merge_by_source (collect_deployments u))) as ->.
  { rewrite <- !placed_ids. apply same_ids. eapply Forall2_impl; [exact Hall|]. tauto. }
  split; [by rewrite Hids|]. intros id. by rewrite Hdef, Hids.
Qed.

(** Every change reported is on an instance of the unit. *)
Lemma run_steps_targets steps ds applied ds' applied' :
  NoDup (ids_of ds) → fold_result run_step steps (ds, applied) = Ok (ds', applied') →
  ids_of ds' = ids_of ds ∧ ∀ e, e ∈ applied' → e ∈ applied ∨ aa_target e ∈ ids_of ds.
Proof.
  revert ds applied. induction steps as [|step steps IH]; intros ds applied Hnd; cbn [fold_result].
  { intros [= -> ->]. auto. }
  rewrite result_bind_ok. intros ([ds1 applied1] & Hstep & Hrest).
  pose proof (run_step_placed _ _ _ _ _ Hnd Hstep) as [_ Hall].
  assert (Hids : ids_of ds1 = ids_of ds).
  { rewrite <- !placed_ids. apply same_ids. eapply Forall2_impl; [exact Hall|]. tauto. }
  apply IH in Hrest as [Hids' Hin]; [|by rewrite Hids]. split; [congruence|].
  unfold run_step in Hstep. apply result_bind_ok in Hstep as (i & Hfind%ok_or_ok & Hstep).
  apply result_bind_ok in Hstep as ([i' changes] & _ & [= _ <-]).
  apply find_elem_of in Hfind as [Hi Hid%bool_decide_eq_true].
  intros e [He|He]%Hin; [|right; by rewrite <- Hids]. apply elem_of_app in He as [?|He]; [by left|right].
  apply elem_of_map in He as (c & -> & _). cbn. rewrite <- Hid. by apply (list_elem_of_fmap_2 li_instance_id).
Qed.

Lemma expand_unit_ids u core_nodes ex :
  expand_unit u core_nodes = Ok ex →
  NoDup (ids_of (ex_deployments ex)) ∧
  (∀ id, id ∈ ids_of (ex_deployments ex) ↔ id ∈ ids_of (map fst (collect_deployments u))) ∧
  (∀ e, e ∈ ex_applied ex → aa_target e ∈ ids_of (ex_deployments ex)) ∧
  NoDup (map dp_source (ex_deployments ex)) ∧ ex_core_nodes ex = union_core_nodes u core_nodes.
Proof.
  unfold expand_unit. rewrite result_bind_ok. intros (defined & Hdef & H).
  pose proof (expand_ids u defined) as Hexp.
  destruct (plan_adjustments u defined) as [running skipped].
  apply result_bind_ok in H as ([ds applied] & Hrun & H). apply result_bind_ok in H as (? & _ & [= <-]).
  cbn [ex_deployments ex_core_nodes ex_applied].
  destruct (Hexp ds applied Hdef Hrun) as [Hnd Hd]. split; [done|].
  destruct (defined_once_ok _ _ Hdef) as [Hnd0 Hd0].
  destruct (merge_by_source_ok (collect_deployments u)) as [Hperm Hsrc].
  assert (Hids : ids_of (merge_by_source (collect_deployments u)) ≡ₚ
    ids_of (map fst (collect_deployments u))) by (rewrite <- !placed_ids; by f_equiv).
  rewrite <- Hids in Hnd0. split; [intros id; by rewrite <- Hd, Hd0|].
  pose proof (run_steps_placed _ _ _ _ _ Hnd0 Hrun) as [Hs _].
  apply run_steps_targets in Hrun as [Hrids Hin]; [|done].
  split; [|by rewrite Hs]. intros e He. rewrite Hrids. by destruct (Hin e He) as [?%elem_of_nil|?].
Qed.

(** C7: A unit expands to what its documents and adjustments say, and no
    [expect] on the way fires. Where [expand_unit] succeeds, every instance of
    the base and of the fragments is there once, under the node its document
    deploys it on, with one deployment per node; it is the document's instance
    with the adjustments that target it and whose guard holds applied to it, in
    order, and with nothing else changed; no instance takes from the launch a
    variable it gives a value; and the core node links are those given and those
    of the fragments. *)
Theorem expand_unit_exact u core_nodes :
  match expand_unit u core_nodes with
  | Ok ex =>
      NoDup (ids_of (ex_deployments ex)) ∧ NoDup (map dp_source (ex_deployments ex)) ∧
      (∃ documents, documents ≡ₚ placed (map fst (collect_deployments u)) ∧
         Forall2 (λ p q, q.1 = p.1 ∧ li_instance_id q.2 = li_instance_id p.2 ∧
                    adjust (running_steps u) p.2 = Ok q.2) documents (placed (ex_deployments ex))) ∧
      (∀ i, i ∈ instances_of (ex_deployments ex) → given_in i = []) ∧
      (∀ link, link ∈ ex_core_nodes ex ↔
         link ∈ core_nodes ∨ ∃ f, f ∈ un_fragments u ∧ link ∈ fg_core_nodes (lf_body f))
  | Err e => ∀ what, e ≠ Panics what
  end.
Proof.
  unfold expand_unit. destruct (defined_once (collect_deployments u)) as [defined|e] eqn:Hdef; cbn; cycle 1.
  { intros what ->. apply fold_result_err in Hdef as (? & x & ? & m & _ & _ & Hx). unfold define_id in Hx.
    by destruct (m !! x.1). }
  destruct (merge_by_source_ok (collect_deployments u)) as [Hperm Hsrc].
  pose proof (defined_once_ok _ _ Hdef) as [Hnd Hd].
  assert (Hids : ids_of (merge_by_source (collect_deployments u)) ≡ₚ
    ids_of (map fst (collect_deployments u))) by (rewrite <- !placed_ids; by f_equiv).
  pose proof (expand_ids u defined) as Hexp.
  assert (Hrunning : ∀ step, step ∈ (plan_adjustments u defined).1 → ad_target (oa_adjustment step) ∈
    ids_of (merge_by_source (collect_deployments u))).
  { intros step. rewrite plan_running, Hids, <- Hd, list_elem_of_In, List.filter_In. intros [_ Hs].
    unfold skip_reason in Hs. destruct (defined !! _); [eauto|]. cbn in Hs.
    destruct (ad_when _) as [when|]; [by destruct (guard_holds _ when)|done]. }
  assert (Hplan : ∀ i, is_Some (defined !! li_instance_id i) →
    adjust (plan_adjustments u defined).1 i = adjust (running_steps u) i) by (intros; by apply adjust_plan).
  destruct (plan_adjustments u defined) as [running skipped]. cbn [fst] in *.
  destruct (fold_result run_step running _) as [[ds applied]|e] eqn:Hrun; cbn; cycle 1.
  { intros what ->. apply run_steps_no_panic in Hrun; [done|by rewrite Hids|done]. }
  destruct (Hexp ds applied Hdef eq_refl) as [Hnd' Hd'].
  destruct (refuse_variables_given_two_values ds defined applied) as [[]|e] eqn:Href; cbn; cycle 1.
  { intros what ->. apply refuse_no_panic in Href; [done|]. intros id. by rewrite Hd'. }
  apply run_steps_placed in Hrun as [Hsources Hall]; [|by rewrite Hids].
  split; [done|]. split; [by rewrite Hsources|]. split; [|split; [by eapply no_variable_twice|]].
  - exists (placed (merge_by_source (collect_deployments u))). split; [done|].
    eapply Forall2_elem; [exact Hall|]. cbn. intros p q Hp (Hs & (Hid & _) & Ha). split; [done|]. split; [done|].
    rewrite <- Hplan; [done|]. apply Hd. rewrite <- Hids, <- placed_ids.
    by apply (list_elem_of_fmap_2 (λ p, li_instance_id p.2)).
  - intros link. unfold union_core_nodes. rewrite core_node_links, elem_of_flat_map. done.
Qed.
