(* ===== verification/ComposeCopy.v ===== *)
(** * Copies of an option

    [daemon-config-internal/src/launcher/compose/copy.rs], with the checks of a
    flat document of [types.rs]: an option of a copy axis composed over the
    stack under a name, and the copies folded into the stack at launch, at join
    and at removal.

    The text of a document is written and read again by [serde_json5], which is
    a parameter of the model ([Serde]): what [validate_flat] reads back, and the
    text of a value two copies must agree on. How a link value is written is
    [Serialize for LinkValue] of [types.rs]: a set of the command line reads back
    as an array ([as_document]). *)

From stdpp Require Import sorting pretty.
From S2P Require Import Prelude Names RestartPolicy Config PairingRegistry Supervision LaunchTypes PairPlan ObservePlan Clocks Compose ComposeSelect ComposeExpand.
#[local] Open Scope peppy_scope.

Class Serde : Type := {
  (** [serde_json5::to_string], then the parse of the text, before the document
      is checked. *)
  reread : Launcher → result string Launcher;
  render_any : AnyType → string;
  render_link : LinkValue → string;
  render_variables : gset string → string;
}.

(** A document as its text gives it back. *)
Definition link_document (v : LinkValue) : LinkValue :=
  match v with Bound (Flags targets) => Bound (Array targets) | _ => v end.

Definition instance_document (i : LaunchInstance) : LaunchInstance :=
  with_links i (link_document <$> li_links i).

Definition deployment_document (d : Deployment) : Deployment :=
  mkDeployment (dp_source d) (map instance_document (dp_instances d)).

Definition as_document (l : Launcher) : Launcher :=
  mkLauncher (la_description l) (la_core_nodes l) (map deployment_document (la_deployments l))
    (la_option_deployments l) (la_components l) (la_adjustments l) (la_constraints l) (la_framework l).

(** ** Flat documents *)

Definition DEFAULT_LINK_ID_SENTINEL : string := "_".

Definition check_core_node_link (seen : list string) (link_id : string) : result CompositionError (list string) :=
  if bool_decide (link_id = "") then Err (FlatValidation "an empty core node link name")
  else if bool_decide (link_id = SELF_CORE_NODE) then Err (FlatValidation "a reserved core node link")
  else
    _ ← map_err (λ _, FlatValidation link_id) (CoreNodeName_new link_id);
    if bool_decide (link_id ∈ seen) then Err (FlatValidation "a core node link declared more than once")
    else Ok (link_id :: seen).

Definition validate_core_node_links (core_nodes : list string) : result CompositionError unit :=
  _ ← fold_result check_core_node_link core_nodes []; Ok tt.

(** The targets of a link value; a vacancy has none. *)
Definition value_targets (v : LinkValue) : list string :=
  default [] (selection_targets <$> value_selection v).

Definition check_link (owner : string) (known_ids : list string) (link : string * LinkValue) :
    result CompositionError unit :=
  if bool_decide (link.1 = DEFAULT_LINK_ID_SENTINEL) then Err (FlatValidation "a link named by the sentinel")
  else
    match List.find (λ t, negb (bool_decide ((split_link_target t).1 ∈ known_ids))) (value_targets link.2) with
    | Some t => Err (FlatValidation t)
    | None => Ok tt
    end.

Definition check_instance_links (known_ids : list string) (i : LaunchInstance) : result CompositionError unit :=
  _ ← map_result (check_link (li_instance_id i) known_ids) (btree_iter (li_links i)); Ok tt.

Definition undeclared_placement (core_nodes : list string) (i : LaunchInstance) : bool :=
  match li_core_node i with Some link => negb (bool_decide (link ∈ core_nodes)) | None => false end.

Definition cross_check_flat_document (ds : list Deployment) (core_nodes : list string) :
    result CompositionError unit :=
  match List.find (undeclared_placement core_nodes) (instances_of ds) with
  | Some i => Err (FlatValidation (li_instance_id i))
  | None =>
      _ ← map_result (check_instance_links (ids_of ds)) (instances_of ds);
      match flat_map given_in (instances_of ds) with
      | [] => Ok tt
      | variable :: _ => Err (FlatValidation variable)
      end
  end.

Definition flat_document (l : Launcher) (ds : list Deployment) (core_nodes : list string)
    (framework : LauncherFramework) : Launcher :=
  mkLauncher (la_description l) core_nodes ds [] [] [] [] framework.

(** The checks of a document that selects nothing: of those of a launcher, the
    ones its axes, options, adjustments and constraints do not decide. *)
Definition validate_flat `{Serde} (flat : Launcher) : result CompositionError Launcher :=
  read ← map_err FlatValidation (reread flat);
  _ ← validate_core_node_links (la_core_nodes read);
  _ ← cross_check_flat_document (la_deployments read) (la_core_nodes read);
  Ok read.

(** ** Copies *)

Record CopyInstance : Type := mkCopyInstance {
  ci_instance_id : string;
  ci_in_copy : string;
  ci_own_axis : option string;
}.

Record SetMember : Type := mkSetMember {
  sm_instance_id : string;
  sm_link_id : string;
  sm_target : string;
}.

(** A [CopyRecord], with what a removal reads of it; the link planner reads the
    record of [LaunchTypes]. *)
Record StackCopy : Type := mkStackCopy {
  st_name : string;
  st_axis : string;
  st_option : string;
  st_selection : UnitSelection;
  st_instances : list CopyInstance;
  st_set_members : list SetMember;
}.

Record StackWriteEntry : Type := mkStackWrite {
  sw_instance : string;
  sw_write : AppliedChange;
}.

Record ComposedCopy : Type := mkComposedCopy {
  cc_name : string;
  cc_axis : string;
  cc_option : string;
  cc_selection : UnitSelection;
  cc_instances : list CopyInstance;
  cc_deployments : list Deployment;
  cc_stack_writes : list StackWriteEntry;
  cc_core_nodes : list string;
  cc_part_machines : PartMachines;
  cc_applied : list AppliedAdjustment;
  cc_skipped : list SkippedAdjustment;
}.

Definition names_one_of (instances : list CopyInstance) (target : string) : bool :=
  existsb (λ owned, bool_decide (ci_instance_id owned = (split_link_target target).1)) instances.

Definition owns_instance (c : StackCopy) (instance_id : string) : bool :=
  existsb (λ owned, bool_decide (ci_instance_id owned = instance_id)) (st_instances c).

Definition copy_instance_ids (c : StackCopy) : list string := map ci_instance_id (st_instances c).

Definition owns_target (c : StackCopy) (target : string) : bool := names_one_of (st_instances c) target.

Definition instances_of_own_axis (c : StackCopy) (axis : string) : list CopyInstance :=
  List.filter (λ i, bool_decide (ci_own_axis i = Some axis)) (st_instances c).

(** The machine of each filled own axis that is not the copy's. *)
Definition axis_selections (c : StackCopy) (placements : Placements) (copy_machine : string) :
    list (string * string * option string) :=
  omap
    (λ e, option ← se_option e;
          Some (se_axis e, option,
                List.find (λ machine, negb (bool_decide (machine = copy_machine)))
                  (map (λ i, core_node_of placements (ci_instance_id i)) (instances_of_own_axis c (se_axis e)))))
    (own_axes (st_selection c) (st_axis c)).

Definition owns (c : ComposedCopy) (target : string) : bool := names_one_of (cc_instances c) target.

Definition set_members_of (writes : list StackWriteEntry) : list SetMember :=
  omap (λ e, match sw_write e with
             | ChLinkAdded slot target => Some (mkSetMember (sw_instance e) slot target)
             | _ => None
             end) writes.

Definition record (c : ComposedCopy) : StackCopy :=
  mkStackCopy (cc_name c) (cc_axis c) (cc_option c) (cc_selection c) (cc_instances c)
    (set_members_of (cc_stack_writes c)).

Record CopyRequest : Type := mkCopyRequest {
  rq_axis : string;
  rq_loaded : LoadedOption;
  rq_name : string;
  rq_with : gmap string string;
  rq_parts : PartMachines;
  rq_arguments : ArgumentOverrides;
  rq_adjustments : list OriginatedAdjustment;
  rq_routed : list Routed;
}.

Record CopyOverStack : Type := mkCopyOverStack {
  co_selection : UnitSelection;
  co_fragments : list LoadedFragment;
  co_in_play : list ConstraintInPlay;
}.

Definition copy_over_stack (l : Launcher) (stack : UnitSelection) (loaded : LoadedOption) (axis : string)
    (own : UnitSelection) : CopyOverStack :=
  let fragments := fragments_for loaded own in
  mkCopyOverStack (launcher_entries l stack ++ own) fragments
    (constraints_in_play l fragments (ScopeCopy axis)).

(** The first domain the fragments of a copy declare, and its document. *)
Definition declared_clock (fragments : list LoadedFragment) : option (string * string) :=
  first_some
    (λ f, match btree_iter (fw_clocks (fg_framework (lf_body f))) with
          | (domain, _) :: _ => Some (lf_origin f, domain)
          | [] => None
          end)
    fragments.

(** *** The links of a copy *)

(** A target, its instance under the name the copy mints for it. *)
Definition rewrite (minted : gmap string string) (target : string) : string :=
  match split_link_target target with
  | (id, Some link) => match minted !! id with Some new => new +:+ ("/" +:+ link) | None => target end
  | (id, None) => match minted !! id with Some new => new | None => target end
  end.

Definition rewrite_link (minted : gmap string string) (value : LinkValue) : result string LinkValue :=
  match value with
  | Bound (Scalar target) => Ok (Bound (Scalar (rewrite minted target)))
  | Bound (Array targets) => (λ ts, Bound (Array ts)) <$> LinkTargets_new (map (rewrite minted) targets)
  | Bound (Flags targets) => (λ ts, Bound (Flags ts)) <$> LinkTargets_new (map (rewrite minted) targets)
  | Vacant _ => Ok value
  end.

Definition rewrite_slot (copy instance : string) (minted : gmap string string) (link : string * LinkValue) :
    result CompositionError (string * LinkValue) :=
  value ← map_err (PrefixedLinksCollide copy instance) (rewrite_link minted link.2);
  Ok (link.1, value).

Definition rewrite_links (copy : string) (minted : gmap string string) (i : LaunchInstance) :
    result CompositionError LaunchInstance :=
  links ← map_result (rewrite_slot copy (li_instance_id i) minted) (btree_iter (li_links i));
  Ok (with_links i (list_to_map links)).

Definition rewrite_change (minted : gmap string string) (change : AppliedChange) : result string AppliedChange :=
  match change with
  | ChLinkSet slot old new =>
      old ← match old with Some old => Some <$> rewrite_link minted old | None => Ok None end;
      new ← rewrite_link minted new;
      Ok (ChLinkSet slot old new)
  | ChLinkAdded slot target => Ok (ChLinkAdded slot (rewrite minted target))
  | ChLinkRemoved slot old => ChLinkRemoved slot <$> rewrite_link minted old
  | change => Ok change
  end.

Definition rewrite_entry (copy : string) (minted : gmap string string) (e : AppliedAdjustment) :
    result CompositionError AppliedAdjustment :=
  let target := default (aa_target e) (minted !! aa_target e) in
  change ← map_err (PrefixedLinksCollide copy target) (rewrite_change minted (aa_change e));
  Ok (mkApplied target change (aa_origin e)).

Definition rewrite_report (copy : string) (minted : gmap string string) (applied : list AppliedAdjustment) :
    result CompositionError (list AppliedAdjustment) :=
  map_result (rewrite_entry copy minted) applied.

Definition refuse_daemon_scopes (copy option : string) (applied : list AppliedAdjustment) :
    result CompositionError unit :=
  match first_some
          (λ e, match aa_change e with
                | ChDaemonScope daemon_target _ _ => Some (aa_target e, daemon_target)
                | _ => None
                end) applied with
  | Some (instance, daemon_target) => Err (CopySetsDaemonScope copy option instance daemon_target)
  | None => Ok tt
  end.

Record ArgumentOverride : Type := mkArgumentOverride {
  ao_instance_id : string;
  ao_argument : string;
  ao_value : AnyType;
}.

Definition add_override (overrides : ArgumentOverrides) (o : ArgumentOverride) :
    result CompositionError ArgumentOverrides :=
  let of_instance := default ∅ (overrides !! ao_instance_id o) in
  if opt_is_some (of_instance !! ao_argument o)
  then Err (DuplicateArgumentOverride (ao_instance_id o) (ao_argument o))
  else Ok (<[ao_instance_id o := <[ao_argument o := ao_value o]> of_instance]> overrides).

Definition argument_overrides (arguments : list ArgumentOverride) : result CompositionError ArgumentOverrides :=
  fold_result add_override arguments ∅.

(** *** Composing a copy *)

Definition arguments_origin (copy : string) : string := "arguments of copy `" +:+ (copy +:+ "`").

Definition apply_override (name : string) (owned : list string) (ex : Expanded)
    (override : string * gmap string AnyType) : result CompositionError Expanded :=
  let '(target, arguments) := override in
  if negb (bool_decide (target ∈ owned)) then Err (ArgumentTargetAbsent name target)
  else
    i ← ok_or (find_instance (ex_deployments ex) target)
          (Panics "an owned id is an instance of the expanded copy");
    let '(i', changes) := fold_left set_argument (btree_iter arguments) (i, []) in
    Ok (mkExpanded (put_instance (ex_deployments ex) target i') (ex_core_nodes ex)
          (ex_applied ex ++ map (λ c, mkApplied target c (arguments_origin name)) changes) (ex_skipped ex)).

Definition apply_overrides (name : string) (owned : list string) (arguments : ArgumentOverrides) (ex : Expanded) :
    result CompositionError Expanded :=
  fold_result (apply_override name owned) (btree_iter arguments) ex.

(** The id an instance runs under in the copy; its [expect] is a panic. *)
Definition mint (name id : string) : result CompositionError string :=
  map_err (λ _, Panics "an instance id in a copy is a name") (instance_id_in_copy name id).

Definition mint_one (name : string) (stack_ids : list string) (minted : gmap string string) (id : string) :
    result CompositionError (gmap string string) :=
  new ← mint name id;
  if bool_decide (new ∈ stack_ids) then Err (PrefixedIdCollision name new)
  else Ok (<[id := new]> minted).

Definition mint_all (name : string) (stack_ids owned : list string) : result CompositionError (gmap string string) :=
  fold_result (mint_one name stack_ids) owned ∅.

Definition with_placement (i : LaunchInstance) (id link : string) : LaunchInstance :=
  mkLaunchInstance id (li_arguments i) (li_env_vars i) (li_env_from_launch i) (li_clock i) (li_restart i)
    (li_links i) (li_daemon_scopes i) (Some link).

(** One instance of the expanded unit as the copy runs it; none when it is the
    stack's. *)
Definition copy_instance (name : string) (minted : gmap string string) (own_axis : gmap string (option string))
    (i : LaunchInstance) : result CompositionError (option (CopyInstance * LaunchInstance)) :=
  match minted !! li_instance_id i with
  | None => Ok None
  | Some new =>
      rewritten ← rewrite_links name minted i;
      match li_core_node rewritten with
      | Some core_node => Err (CopyInstancePlaced name (li_instance_id i) core_node)
      | None =>
          let axis := default None (own_axis !! li_instance_id i) in
          Ok (Some (mkCopyInstance new (li_instance_id i) axis, with_placement rewritten new name))
      end
  end.

Definition copy_deployment (name : string) (minted : gmap string string) (own_axis : gmap string (option string))
    (d : Deployment) : result CompositionError (list CopyInstance * list Deployment) :=
  owned ← map_result (copy_instance name minted own_axis) (dp_instances d);
  let owned := omap id owned in
  Ok (map fst owned,
      match owned with [] => [] | _ => [mkDeployment (dp_source d) (map snd owned)] end).

Definition rename_skip (name : string) (definable stack_ids : list string) (e : SkippedAdjustment) :
    result CompositionError SkippedAdjustment :=
  if bool_decide (sk_target e ∈ definable) && negb (bool_decide (sk_target e ∈ stack_ids))
  then target ← mint name (sk_target e); Ok (mkSkipped target (sk_reason e) (sk_origin e))
  else Ok e.

(** The fragments of a copy may start it: they declare no clock and no restart
    policy, and bring an instance the stack does not run. *)
Definition copy_owned (name : string) (loaded : LoadedOption) (fragments : list LoadedFragment)
    (stack_ids : list string) : result CompositionError (list string) :=
  _ ← match declared_clock fragments with
      | Some (origin, domain) => Err (CopyFragmentDeclaresClock origin name domain)
      | None => Ok tt
      end;
  _ ← refuse_fragment_restart fragments;
  let owned := btree_set_iter (list_to_set (node_ids fragments)) in
  match owned with
  | [] => Err (CopyStartsNothing name (lo_name loaded))
  | _ =>
      match List.find (λ id, bool_decide (id ∈ stack_ids)) owned with
      | Some reused => Err (CopyReusesStackId (lo_name loaded) reused)
      | None => Ok owned
      end
  end.

Definition copy_unit (l : Launcher) (bare : Expanded) (rq : CopyRequest) (over : CopyOverStack) : Unit :=
  mkUnit (map (λ d, (d, "the stack")) (ex_deployments bare)) (co_fragments over)
    (map (λ r, originated (rt_entry r))
       (List.filter
          (λ r, selected_in (rt_entry r) (co_selection over) &&
                reaches_copy (rt_entry r) (rq_axis rq) (definable_ids (rq_loaded rq)) l (rt_stack_ids r))
          (rq_routed rq)))
    (rq_adjustments rq) (co_selection over).

(** What the copy writes on the stack's instances. *)
Definition stack_writes_of (minted : gmap string string) (applied : list AppliedAdjustment) : list StackWriteEntry :=
  map (λ e, mkStackWrite (aa_target e) (aa_change e))
    (List.filter (λ e, negb (bool_decide (aa_target e ∈ map snd (map_to_list minted)))) applied).

Definition compose_copy (l : Launcher) (stack : UnitSelection) (bare : Expanded) (rq : CopyRequest)
    (taken : list string) : result CompositionError ComposedCopy :=
  let name := rq_name rq in
  let loaded := rq_loaded rq in
  if bool_decide (name ∈ taken) then Err (NameIsCoreNodeLink name)
  else
    own ← resolve_copy loaded (rq_axis rq) name (rq_with rq);
    let over := copy_over_stack l stack loaded (rq_axis rq) own in
    let stack_ids := ids_of (ex_deployments bare) in
    owned ← copy_owned name loaded (co_fragments over) stack_ids;
    _ ← check_constraints (co_in_play over) (co_selection over);
    expanded ← expand_unit (copy_unit l bare rq over) [];
    expanded ← apply_overrides name owned (rq_arguments rq) expanded;
    minted ← mint_all name stack_ids owned;
    parts ← map_result (copy_deployment name minted (own_axis_by_id loaded own)) (ex_deployments expanded);
    applied ← rewrite_report name minted (ex_applied expanded);
    _ ← refuse_daemon_scopes name (lo_name loaded) applied;
    skipped ← map_result (rename_skip name (definable_ids loaded) stack_ids) (ex_skipped expanded);
    Ok (mkComposedCopy name (rq_axis rq) (lo_name loaded) own (concat (map fst parts)) (concat (map snd parts))
          (stack_writes_of minted applied) (ex_core_nodes expanded ++ [name]) (rq_parts rq) applied skipped).

(** ** Folding copies into the stack *)

Definition launcher_spelling (d : RestartDeclaration) : string :=
  let quote := String (Ascii.ascii_of_nat 34) "" in
  let policy := quote +:+ (RestartPolicy_as_str (policy d) +:+ quote) in
  match max_restarts d with
  | None => policy
  | Some max => "{ policy: " +:+ (policy +:+ (", max_restarts: " +:+ (pretty max +:+ " }")))
  end.

Definition change_field (c : AppliedChange) : string :=
  match c with
  | ChArgument key _ _ => "arguments." +:+ key
  | ChLinkSet slot _ _ | ChLinkAdded slot _ | ChLinkRemoved slot _ => "links." +:+ slot
  | ChClock _ _ => "framework.clock"
  | ChDaemonScope daemon_target _ _ => "daemon_scopes." +:+ daemon_target
  | ChRestart _ _ => "framework.restart"
  | ChEnvFromLaunch _ _ => "env_from_launch"
  end.

Definition written_value `{Serde} (c : AppliedChange) : string :=
  match c with
  | ChArgument _ _ new => render_any new
  | ChLinkSet _ _ new => render_link new
  | ChLinkAdded _ target => "+ " +:+ target
  | ChLinkRemoved _ _ => "(absent)"
  | ChClock _ new => new
  | ChDaemonScope _ _ new => render_any new
  | ChRestart _ new => launcher_spelling new
  | ChEnvFromLaunch _ new => render_variables new
  end.

Definition copy_origin (copy : string) : string := "copy `" +:+ (copy +:+ "`").

Definition apply_write (i : LaunchInstance) (write : AppliedChange) (origin : string) :
    result CompositionError LaunchInstance :=
  match write with
  | ChArgument key _ new => Ok (with_arguments i (<[key := new]> (li_arguments i)))
  | ChLinkSet slot _ new => Ok (with_links i (<[slot := new]> (li_links i)))
  | ChLinkRemoved slot _ => Ok (with_links i (delete slot (li_links i)))
  | ChLinkAdded slot target =>
      bound ← append_links i slot [target] (li_instance_id i) origin;
      Ok (with_links i (<[slot := Bound (Array bound)]> (li_links i)))
  | ChClock _ new => Ok (with_instance_clock i (Some new))
  | ChDaemonScope daemon_target _ new => Ok (with_daemon_scopes i (<[daemon_target := new]> (li_daemon_scopes i)))
  | ChRestart _ new => Ok (with_restart i (Some new))
  | ChEnvFromLaunch _ new => Ok (with_env_from_launch i new)
  end.

Definition add_copy (ds : list Deployment) (core_nodes : list string) (copy : ComposedCopy) :
    result CompositionError (list Deployment * list string) :=
  match List.find (λ owned, bool_decide (ci_instance_id owned ∈ ids_of ds)) (cc_instances copy) with
  | Some owned => Err (PrefixedIdCollision (cc_name copy) (ci_instance_id owned))
  | None =>
      Ok (fold_left merge_deployment (cc_deployments copy) ds,
          fold_left add_core_node_link (cc_core_nodes copy) core_nodes)
  end.

(** *** At launch *)

Inductive Claim : Type :=
| ClaimValue (copy rendered : string)
| ClaimAppended (copy : string).

Notation Claims := (gmap (string * string) Claim).

Definition check_claim `{Serde} (claims : Claims) (copy : string) (e : StackWriteEntry) :
    result CompositionError unit :=
  let conflict first := Err (CopiesConflict first copy (sw_instance e) (change_field (sw_write e))) in
  match claims !! (sw_instance e, change_field (sw_write e)), sw_write e with
  | Some (ClaimValue first rendered), write =>
      if bool_decide (rendered = written_value write) then Ok tt else conflict first
  | Some (ClaimAppended _), ChLinkAdded _ _ => Ok tt
  | Some (ClaimAppended first), _ => conflict first
  | None, _ => Ok tt
  end.

Definition claim_of `{Serde} (copy : string) (write : AppliedChange) : Claim :=
  match write with
  | ChLinkAdded _ _ => ClaimAppended copy
  | write => ClaimValue copy (written_value write)
  end.

Definition combine_write `{Serde} (copy : string) (st : list Deployment * Claims) (e : StackWriteEntry) :
    result CompositionError (list Deployment * Claims) :=
  let '(ds, claims) := st in
  _ ← check_claim claims copy e;
  i ← ok_or (find_instance ds (sw_instance e))
        (Panics "a copy writes only instances of the stack it composed over");
  i' ← apply_write i (sw_write e) (copy_origin copy);
  Ok (put_instance ds (sw_instance e) i',
      <[(sw_instance e, change_field (sw_write e)) := claim_of copy (sw_write e)]> claims).

Definition combine_copy `{Serde} (st : list Deployment * list string * Claims) (copy : ComposedCopy) :
    result CompositionError (list Deployment * list string * Claims) :=
  let '(ds, core_nodes, claims) := st in
  '(ds, claims) ← fold_result (combine_write (cc_name copy)) (cc_stack_writes copy) (ds, claims);
  '(ds, core_nodes) ← add_copy ds core_nodes copy;
  Ok (ds, core_nodes, claims).

Definition combine `{Serde} (l : Launcher) (bare : Expanded) (framework : LauncherFramework)
    (copies : list ComposedCopy) : result CompositionError Launcher :=
  '(ds, core_nodes, _) ← fold_result combine_copy copies (ex_deployments bare, ex_core_nodes bare, ∅);
  validate_flat (flat_document l ds core_nodes framework).

(** *** At join *)

(** Whether one of the copy's instances links into the slot. *)
Definition pairs_into (copy : ComposedCopy) (instance slot : string) : bool :=
  existsb
    (λ t, let '(target_instance, target_slot) := split_link_target t in
          bool_decide (target_instance = instance) &&
          match target_slot with Some named => bool_decide (named = slot) | None => true end)
    (flat_map (λ i, flat_map (λ '(_, v), value_targets v) (btree_iter (li_links i)))
       (instances_of (cc_deployments copy))).

(** The instance a write of a joining copy leaves, where the join may make it. *)
Definition attach_write (copy : ComposedCopy) (running : LaunchInstance) (e : StackWriteEntry) :
    result CompositionError LaunchInstance :=
  let holds (b : bool) :=
    if b then Ok running else Err (JoinChangesExisting (cc_name copy) (sw_instance e)) in
  match sw_write e with
  | ChArgument key _ new => holds (bool_decide (li_arguments running !! key = Some new))
  | ChLinkSet slot _ new => holds (bool_decide (li_links running !! slot = Some new))
  | ChLinkRemoved slot _ =>
      match li_links running !! slot with
      | None => Ok running
      | Some (Vacant _) =>
          if pairs_into copy (sw_instance e) slot
          then Ok (with_links running (delete slot (li_links running)))
          else Err (JoinReleasesUnpairedVacancy (cc_name copy) (sw_instance e) slot)
      | Some (Bound _) => holds false
      end
  | ChLinkAdded slot target =>
      if owns copy target then apply_write running (sw_write e) (copy_origin (cc_name copy))
      else Err (JoinAddsStackMember (cc_name copy) (sw_instance e) slot target)
  | ChClock _ new => holds (bool_decide (li_clock running = Some new))
  | ChRestart _ new => holds (bool_decide (li_restart running = Some new))
  | ChEnvFromLaunch _ new => holds (bool_decide (li_env_from_launch running = new))
  | ChDaemonScope daemon_target _ new => holds (bool_decide (li_daemon_scopes running !! daemon_target = Some new))
  end.

Definition attach_entry (copy : ComposedCopy) (ds : list Deployment) (e : StackWriteEntry) :
    result CompositionError (list Deployment) :=
  running ← ok_or (find_instance ds (sw_instance e)) (JoinChangesExisting (cc_name copy) (sw_instance e));
  running ← attach_write copy running e;
  Ok (put_instance ds (sw_instance e) running).

Definition with_plan (l : Launcher) (ds : list Deployment) (core_nodes : list string) : Launcher :=
  mkLauncher (la_description l) core_nodes ds (la_option_deployments l) (la_components l)
    (la_adjustments l) (la_constraints l) (la_framework l).

Definition attach `{Serde} (existing : Launcher) (copy : ComposedCopy) : result CompositionError Launcher :=
  ds ← fold_result (attach_entry copy) (cc_stack_writes copy) (la_deployments existing);
  '(ds, core_nodes) ← add_copy ds (la_core_nodes existing) copy;
  validate_flat (with_plan existing ds core_nodes).

(** The changes of a join's report, each old value read off the running stack. *)
Definition change_against (running : LaunchInstance) (c : AppliedChange) : option AppliedChange :=
  match c with
  | ChArgument key _ new => Some (ChArgument key (li_arguments running !! key) new)
  | ChLinkSet slot _ new => Some (ChLinkSet slot (li_links running !! slot) new)
  | ChLinkRemoved slot _ => ChLinkRemoved slot <$> li_links running !! slot
  | ChClock _ new => Some (ChClock (li_clock running) new)
  | ChDaemonScope daemon_target _ new =>
      Some (ChDaemonScope daemon_target (li_daemon_scopes running !! daemon_target) new)
  | ChRestart _ new => Some (ChRestart (li_restart running) new)
  | ChEnvFromLaunch _ new => Some (ChEnvFromLaunch (li_env_from_launch running) new)
  | ChLinkAdded _ _ => Some c
  end.

Definition against_running (existing : Launcher) (applied : list AppliedAdjustment) : list AppliedAdjustment :=
  omap
    (λ e, match find_instance (la_deployments existing) (aa_target e) with
          | None => Some e
          | Some running =>
              (λ c, mkApplied (aa_target e) c (aa_origin e)) <$> change_against running (aa_change e)
          end)
    applied.

(** *** At removal *)

Notation Slots := (gset (string * string)).

(** The vacancies a stack declares: the instance, the slot and its value. *)
Definition vacancies_of (ds : list Deployment) : list (string * string * LinkValue) :=
  flat_map
    (λ i, omap (λ '(slot, value), _ ← value_vacancy value; Some (li_instance_id i, slot, value))
            (btree_iter (li_links i)))
    (instances_of ds).

(** [entry(slot).or_insert(value)]. *)
Definition or_insert (slot : string) (value : LinkValue) (i : LaunchInstance) : LaunchInstance :=
  match li_links i !! slot with
  | Some _ => i
  | None => with_links i (<[slot := value]> (li_links i))
  end.

Definition restore_vacancy (ds : list Deployment) (vacancy : string * string * LinkValue) : list Deployment :=
  let '(instance, slot, value) := vacancy in
  match find_instance ds instance with
  | Some running => put_instance ds instance (or_insert slot value running)
  | None => ds
  end.

Definition restore_vacancies (remaining bare : list Deployment) (released : Slots) : list Deployment :=
  fold_left restore_vacancy
    (List.filter (λ '(instance, slot, _), negb (bool_decide ((instance, slot) ∈ released))) (vacancies_of bare))
    remaining.

Definition released_by (writes : list StackWriteEntry) : list (string * string) :=
  omap (λ e, match sw_write e with ChLinkRemoved slot _ => Some (sw_instance e, slot) | _ => None end) writes.

Definition released_vacancies (copy : ComposedCopy) : list (string * string) := released_by (cc_stack_writes copy).

(** Its two [panic]s: the slot holds an array, and what is left repeats no target. *)
Definition drop_member (m : SetMember) (i : LaunchInstance) : result CompositionError LaunchInstance :=
  match li_links i !! sm_link_id m with
  | Some (Bound (Array targets)) =>
      kept ← map_err (λ _, Panics "a subset of a duplicate-free target list is duplicate-free")
        (LinkTargets_new (List.filter (λ t, negb (bool_decide (t = sm_target m))) targets));
      Ok (with_links i (<[sm_link_id m := Bound (Array kept)]> (li_links i)))
  | _ => Err (Panics "a slot that holds a member of a copy holds an array")
  end.

Definition drop_member_of (ds : list Deployment) (m : SetMember) : result CompositionError (list Deployment) :=
  running ← ok_or (find_instance ds (sm_instance_id m))
    (Panics "a copy's members join bare-stack instances, which a removal never drops");
  running ← drop_member m running;
  Ok (put_instance ds (sm_instance_id m) running).

(** The deployments without the instances of a list, and without those left empty. *)
Definition without_instances (removed : list string) (ds : list Deployment) : list Deployment :=
  List.filter (λ d, match dp_instances d with [] => false | _ => true end)
    (map (λ d, mkDeployment (dp_source d)
                 (List.filter (λ i, negb (bool_decide (li_instance_id i ∈ removed))) (dp_instances d))) ds).

(** The links of a plan into the instances of a list. *)
Definition links_into (removed : list string) (ds : list Deployment) : list (string * string * string) :=
  flat_map
    (λ i, flat_map
       (λ '(slot, value), map (λ t, (li_instance_id i, slot, t))
          (List.filter (λ t, bool_decide ((split_link_target t).1 ∈ removed)) (value_targets value)))
       (btree_iter (li_links i)))
    (instances_of ds).

Definition detach `{Serde} (existing : Launcher) (copy : StackCopy) (bare : Launcher) (released : Slots) :
    result CompositionError Launcher :=
  let removed := copy_instance_ids copy in
  let ds := without_instances removed (la_deployments existing) in
  let core_nodes := List.filter (λ link, negb (bool_decide (link = st_name copy))) (la_core_nodes existing) in
  ds ← fold_result drop_member_of (st_set_members copy) ds;
  match links_into removed ds with
  | [] => validate_flat (with_plan existing (restore_vacancies ds (la_deployments bare) released) core_nodes)
  | linked => Err (CopyStillLinked (st_name copy) linked)
  end.

(** ** A hub and its copies

    The stack runs [hub_inst], whose slot [arm] is vacant and whose set [tools]
    is empty; a copy of [real] has an arm that pairs into the slot and joins the
    set, and the entry of the option, which lists no copy, releases the slot; a
    copy of [cam] links to nothing. *)
Module CopySample.

#[export] Instance plain_serde : Serde :=
  { reread := λ d, Ok (as_document d); render_any := λ _, ""; render_link := λ _, ""; render_variables := λ _, "" }.

Definition no_framework : LauncherFramework := mkFramework ∅ None.

Definition mk_instance (id : string) (links : gmap string LinkValue) : LaunchInstance :=
  mkLaunchInstance id ∅ ∅ ∅ None None links ∅ None.

Definition release : Adjustment :=
  mkAdjustment "hub_inst" None None None None (Some {["tools" := ["arm_inst"]]}) (Some ["arm"]) None None.

Definition robots : ComponentAxis :=
  mkAxis "robot" {["real" := mkOptionSpec []; "cam" := mkOptionSpec []]} AxisZeroOrMore [].

Definition hub : Deployment :=
  mkDeployment (NodeSource "hub" "v1")
    [mk_instance "hub_inst" {["arm" := Vacant "no arm"; "tools" := Bound (Array [])]}].

Definition fragment (node : string) (i : LaunchInstance) : LoadedFragment :=
  mkLoadedFragment 0 (mkFragment [mkDeployment (NodeSource node "v1") [i]] [] [] [] [] [] no_framework) node.

Definition real : LoadedOption :=
  mkLoadedOption "real" [fragment "arm" (mk_instance "arm_inst" {["hub" := Bound (Scalar "hub_inst/arm")]})] [] ∅ ∅.

Definition cam : LoadedOption := mkLoadedOption "cam" [fragment "cam" (mk_instance "cam_inst" ∅)] [] ∅ ∅.

Definition entry : OptionDeployment := mkOptionDeployment "robot" "real" ∅ ∅ [release] [].

Definition launcher : Launcher := mkLauncher [] [] [hub] [entry] [robots] [] [] no_framework.

Definition loaded : LoadedComposition := {["robot" := {["real" := real; "cam" := cam]}]}.

(** The stack alone, and the request of a copy [left] of [real]. *)
Definition bare : Expanded := mkExpanded [hub] [] [] [].

Definition flat : Launcher := flat_document launcher [hub] [] no_framework.

Definition left_request : CopyRequest :=
  mkCopyRequest "robot" real "left" ∅ ∅ ∅ (cs_adjustments (entry_settings entry)) [].

Definition no_copy : ComposedCopy := mkComposedCopy "" "" "" [] [] [] [] [] ∅ [] [].

(** The copy [left]. *)
Definition left_copy : ComposedCopy :=
  match compose_copy launcher [] bare left_request [] with Ok c => c | Err _ => no_copy end.

End CopySample.
