(* ===== verification/ComposeMint.v ===== *)
(** * What a composed copy is

    [compose_copy] of [compose/copy.rs]: the copy runs the instances of its
    fragments, each once, under a name of its own that the stack does not use;
    its links follow; and what it writes outside itself is on the stack. *)

From stdpp Require Import sorting.
From S2P Require Import Prelude Names RestartPolicy Config PairingRegistry Supervision LaunchTypes PairPlan ObservePlan Clocks Compose ComposeSelect ComposeExpand ComposeCopy.
#[local] Open Scope peppy_scope.

Lemma elem_of_btree_set_iter s x : x ∈ btree_set_iter s ↔ x ∈ s.
Proof. unfold btree_set_iter. by rewrite merge_sort_Permutation, elem_of_elements. Qed.

Lemma mint_ok name id new : mint name id = Ok new → new = name +:+ ("_" +:+ id).
Proof.
  unfold mint, instance_id_in_copy, Name_try_from. case_decide; [done|]. destruct (forallb _ _); [|done].
  by intros [= <-].
Qed.

Lemma mint_all_ok name stack_ids owned minted :
  mint_all name stack_ids owned = Ok minted →
  (∀ id new, minted !! id = Some new ↔ id ∈ owned ∧ new = name +:+ ("_" +:+ id)) ∧
  (∀ id, id ∈ owned → name +:+ ("_" +:+ id) ∉ stack_ids).
Proof.
  unfold mint_all. apply (fold_result_prefix (mint_one name stack_ids) (λ done (m : gmap string string),
    (∀ id new, m !! id = Some new ↔ id ∈ done ∧ new = name +:+ ("_" +:+ id)) ∧
    (∀ id, id ∈ done → name +:+ ("_" +:+ id) ∉ stack_ids))).
  - split; [|by intros id ?%elem_of_nil]. intros id new. rewrite lookup_empty. split; [done|].
    by intros [?%elem_of_nil _].
  - intros done x m m' _ [Hm Hs]. unfold mint_one. rewrite result_bind_ok. intros (new & ->%mint_ok & H).
    case_bool_decide as Hx; [done|]. injection H as <-. split.
    + intros id new. rewrite elem_of_app, list_elem_of_singleton.
      destruct (decide (x = id)) as [->|Hne]; [rewrite lookup_insert_eq|rewrite lookup_insert_ne, Hm by done].
      * split; [intros [= <-]; auto|]. by intros (_ & ->).
      * naive_solver.
    + intros id. rewrite elem_of_app, list_elem_of_singleton. intros [?| ->]; [auto|done].
Qed.

(** ** Its instances *)

Lemma rewrite_links_same copy minted i j : rewrite_links copy minted i = Ok j → j = with_links i (li_links j).
Proof. unfold rewrite_links. rewrite result_bind_ok. by intros (links & _ & [= <-]). Qed.

Lemma copy_instance_some name minted own i ci j :
  copy_instance name minted own i = Ok (Some (ci, j)) →
  minted !! li_instance_id i = Some (ci_instance_id ci) ∧ ci_in_copy ci = li_instance_id i ∧
  li_instance_id j = ci_instance_id ci ∧ li_core_node j = Some name ∧
  ∃ k, rewrite_links name minted i = Ok k ∧ li_links j = li_links k.
Proof.
  unfold copy_instance. destruct (minted !! li_instance_id i) as [new|] eqn:Hm; [|done].
  rewrite result_bind_ok. intros (k & Hk & H). destruct (li_core_node k); [done|]. injection H as <- <-.
  cbn. repeat split; [done..|]. by exists k.
Qed.

Lemma copy_instance_none name minted own i :
  copy_instance name minted own i = Ok None → minted !! li_instance_id i = None.
Proof.
  unfold copy_instance. destruct (minted !! li_instance_id i); [|done].
  rewrite result_bind_ok. intros (k & _ & H). by destruct (li_core_node k).
Qed.

(** The instances of a copy beside those of the unit it comes from. *)
Definition minted_from (name : string) (minted : gmap string string) (i : LaunchInstance) (ci : CopyInstance)
    (j : LaunchInstance) : Prop :=
  minted !! li_instance_id i = Some (ci_instance_id ci) ∧ ci_in_copy ci = li_instance_id i ∧
  li_instance_id j = ci_instance_id ci ∧ li_core_node j = Some name ∧
  ∃ k, rewrite_links name minted i = Ok k ∧ li_links j = li_links k.

Lemma copy_instances_ok name minted own is_ owned :
  map_result (copy_instance name minted own) is_ = Ok owned →
  Forall2 (λ i o, minted_from name minted i o.1 o.2)
    (List.filter (λ i, opt_is_some (minted !! li_instance_id i)) is_) (omap id owned).
Proof.
  intros H%map_result_Forall2. induction H as [|i o is_ owned Ho _ IH]; [constructor|]. cbn.
  destruct o as [[ci j]|]; cbn.
  - apply copy_instance_some in Ho. destruct (Ho) as [-> _]. cbn. by constructor.
  - apply copy_instance_none in Ho. by rewrite Ho.
Qed.

Lemma copy_deployment_ok name minted own d cis ds :
  copy_deployment name minted own d = Ok (cis, ds) →
  Forall2 (λ i o, minted_from name minted i o.1 o.2)
    (List.filter (λ i, opt_is_some (minted !! li_instance_id i)) (dp_instances d))
    (zip cis (instances_of ds)) ∧
  length cis = length (instances_of ds) ∧
  (∀ e, e ∈ ds → dp_source e = dp_source d ∧ dp_instances e ≠ []).
Proof.
  unfold copy_deployment. rewrite result_bind_ok. intros (owned & Hall%copy_instances_ok & [= <- <-]).
  destruct (omap id owned) as [|o os] eqn:Ho; cbn.
  - split; [done|]. split; [done|]. by intros e ?%elem_of_nil.
  - rewrite app_nil_r. split; [|split; [by rewrite !length_map|]].
    + change (o.1 :: map fst os) with (map fst (o :: os)). change (o.2 :: map snd os) with (map snd (o :: os)).
      by rewrite <- (zip_fst_snd (o :: os)) in Hall.
    + by intros e ->%list_elem_of_singleton.
Qed.

Lemma copy_deployments_ok name minted own ds parts :
  map_result (copy_deployment name minted own) ds = Ok parts →
  Forall2 (λ i o, minted_from name minted i o.1 o.2)
    (List.filter (λ i, opt_is_some (minted !! li_instance_id i)) (instances_of ds))
    (zip (concat (map fst parts)) (instances_of (concat (map snd parts)))) ∧
  length (concat (map fst parts)) = length (instances_of (concat (map snd parts))) ∧
  (∀ e, e ∈ concat (map snd parts) → dp_source e ∈ map dp_source ds ∧ dp_instances e ≠ []).
Proof.
  intros H%map_result_Forall2. induction H as [|d [cis out] ds parts Hd _ (IHall & IHlen & IHne)]; cbn.
  - split; [constructor|]. split; [done|]. by intros e ?%elem_of_nil.
  - apply copy_deployment_ok in Hd as (Hall & Hlen & Hne). unfold instances_of in *.
    rewrite List.filter_app, flat_map_app. split; [|split].
    + rewrite zip_with_app by done. by apply Forall2_app.
    + rewrite !length_app. congruence.
    + intros e [He|He]%elem_of_app; [destruct (Hne e He) as [-> ?]|destruct (IHne e He)]; (split; [|done]);
        [by left|by right].
Qed.

Lemma minted_inj name minted stack_ids owned i j x :
  mint_all name stack_ids owned = Ok minted → minted !! i = Some x → minted !! j = Some x → i = j.
Proof.
  intros [Hm _]%mint_all_ok [_ ->]%Hm [_ Hj]%Hm. by apply (inj (String.append name)), (inj (String.append "_")) in Hj.
Qed.

(** The ids of a copy's instances, as the stack runs them and as they are written. *)
Lemma copy_ids name minted (l : list LaunchInstance) cis js :
  Forall2 (λ i o, minted_from name minted i o.1 o.2) l (zip cis js) → length cis = length js →
  map ci_instance_id cis = map li_instance_id js ∧ map ci_in_copy cis = map li_instance_id l ∧
  Forall2 (λ i ci, minted !! li_instance_id i = Some (ci_instance_id ci)) l cis ∧
  Forall2 (λ i j, ∃ ci, minted_from name minted i ci j) l js.
Proof.
  revert l js. induction cis as [|ci cis IH]; intros l [|j js] Hall Hlen; cbn in *; try done.
  - inversion Hall; subst. by repeat split.
  - inversion Hall as [|i o l' ? Ho Hrest]; subst. apply IH in Hrest as (Hi & Hc & Hm & Hj); [|lia].
    destruct (Ho) as (Hmi & Hci & Hji & _). cbn in *. rewrite Hi, Hc, Hji, Hci. repeat split; constructor; eauto.
Qed.

(** ** The unit it comes from *)

Lemma put_ids ds id new : li_instance_id new = id → ids_of (put_instance ds id new) = ids_of ds.
Proof.
  intros Hid. rewrite <- !placed_ids, placed_put. apply map_update_first.
  cbn. intros p Hp%bool_decide_eq_true. congruence.
Qed.

Lemma apply_overrides_ok name owned arguments ex ex' :
  apply_overrides name owned arguments ex = Ok ex' →
  (∀ e, e ∈ ex_applied ex → aa_target e ∈ ids_of (ex_deployments ex)) →
  ids_of (ex_deployments ex') = ids_of (ex_deployments ex) ∧
  map dp_source (ex_deployments ex') = map dp_source (ex_deployments ex) ∧
  ex_core_nodes ex' = ex_core_nodes ex ∧
  (∀ e, e ∈ ex_applied ex' → aa_target e ∈ ids_of (ex_deployments ex')).
Proof.
  intros Hf Hin. refine (fold_result_prefix (apply_override name owned) (λ _ ex',
    ids_of (ex_deployments ex') = ids_of (ex_deployments ex) ∧
    map dp_source (ex_deployments ex') = map dp_source (ex_deployments ex) ∧
    ex_core_nodes ex' = ex_core_nodes ex ∧
    (∀ e, e ∈ ex_applied ex' → aa_target e ∈ ids_of (ex_deployments ex'))) _ _ _ _ _ Hf); [done|].
  intros _ [target values] ex1 ex2 _ (Hids & Hsrc & Hcn & Happ). unfold apply_override.
  destruct (negb _); [done|]. rewrite result_bind_ok. intros (i & Hfind%ok_or_ok & H).
  destruct (fold_left set_argument (btree_iter values) (i, [])) as [i' changes] eqn:Hset. injection H as <-.
  cbn [ex_deployments ex_core_nodes ex_applied].
  apply find_elem_of in Hfind as [Hi Hid%bool_decide_eq_true].
  assert (Hid' : li_instance_id i' = target).
  { change i' with (i', changes).1. rewrite <- Hset.
    rewrite <- Hid. change i with (i, @nil AppliedChange).1 at 2. apply fold_left_same. by intros [? ?] ?. }
  rewrite put_ids, sources_put by done. repeat split; try done.
  intros e [He|(c & -> & _)%elem_of_map]%elem_of_app; [auto|]. cbn. rewrite <- Hid.
  by apply (list_elem_of_fmap_2 li_instance_id).
Qed.

Lemma copy_owned_ok name loaded fragments stack_ids owned :
  copy_owned name loaded fragments stack_ids = Ok owned →
  (∀ id, id ∈ owned ↔ id ∈ node_ids fragments) ∧ (∀ id, id ∈ owned → id ∉ stack_ids) ∧ owned ≠ [].
Proof.
  unfold copy_owned. rewrite result_bind_ok. intros (? & _ & H). apply result_bind_ok in H as (? & _ & H).
  assert (Hin : ∀ id, id ∈ btree_set_iter (list_to_set (node_ids fragments)) ↔ id ∈ node_ids fragments).
  { intros id. by rewrite elem_of_btree_set_iter, elem_of_list_to_set. }
  destruct (btree_set_iter _) as [|y ys] eqn:Ho; [done|].
  destruct (List.find _ _) eqn:Hf; [done|]. injection H as <-. split; [done|]. split; [|done].
  intros id Hid. apply find_None_forall with (x := id) in Hf; [|done]. by apply bool_decide_eq_false in Hf.
Qed.

Lemma copy_unit_ids l bare rq over id :
  id ∈ ids_of (map fst (collect_deployments (copy_unit l bare rq over))) ↔
  id ∈ ids_of (ex_deployments bare) ∨ id ∈ node_ids (co_fragments over).
Proof.
  unfold collect_deployments, copy_unit, ids_of, instances_of, node_ids. cbn.
  rewrite map_app, flat_map_app, map_app, elem_of_app, map_map. cbn. rewrite map_id.
  apply or_iff_compat_l. induction (co_fragments over) as [|f fs IH]; [done|]. cbn.
  rewrite map_app, flat_map_app, map_app, !elem_of_app, IH, map_map. cbn. by rewrite map_id.
Qed.

(** What [compose_copy] gives, with what it was made of. *)
Lemma compose_copy_facts l stack bare rq taken c :
  compose_copy l stack bare rq taken = Ok c →
  ∃ owned minted expanded,
    rq_name rq ∉ taken ∧ cc_name c = rq_name rq ∧
    (∀ id, id ∈ owned ↔ id ∈ node_ids (fragments_for (rq_loaded rq) (cc_selection c))) ∧
    (∀ id, id ∈ owned → id ∉ ids_of (ex_deployments bare)) ∧ owned ≠ [] ∧
    mint_all (rq_name rq) (ids_of (ex_deployments bare)) owned = Ok minted ∧
    NoDup (ids_of (ex_deployments expanded)) ∧
    (∀ id, id ∈ ids_of (ex_deployments expanded) ↔ id ∈ ids_of (ex_deployments bare) ∨ id ∈ owned) ∧
    length (cc_instances c) = length (instances_of (cc_deployments c)) ∧
    Forall2 (λ i o, minted_from (rq_name rq) minted i o.1 o.2)
      (List.filter (λ i, opt_is_some (minted !! li_instance_id i)) (instances_of (ex_deployments expanded)))
      (zip (cc_instances c) (instances_of (cc_deployments c))) ∧
    (∀ e, e ∈ cc_deployments c → dp_instances e ≠ []) ∧
    (∀ e, e ∈ cc_stack_writes c → sw_instance e ∈ ids_of (ex_deployments bare)) ∧
    cc_core_nodes c =
      fold_left add_core_node_link
        (flat_map (λ f, fg_core_nodes (lf_body f)) (fragments_for (rq_loaded rq) (cc_selection c))) [] ++ [rq_name rq].
Proof.
  unfold compose_copy. case_bool_decide as Htaken; [done|]. rewrite result_bind_ok. intros (own & _ & H).
  apply result_bind_ok in H as (owned & Howned & H). apply result_bind_ok in H as (? & _ & H).
  apply result_bind_ok in H as (ex & Hex & H). apply result_bind_ok in H as (ex' & Hov & H).
  apply result_bind_ok in H as (minted & Hmint & H). apply result_bind_ok in H as (parts & Hparts & H).
  apply result_bind_ok in H as (applied & Hrep & H). apply result_bind_ok in H as (? & _ & H).
  apply result_bind_ok in H as (skipped & _ & [= <-]).
  apply copy_owned_ok in Howned as (Hown & Hfresh & Hne). apply expand_unit_ids in Hex as (Hnd & Hids & Htgt & _ & Hcn).
  apply apply_overrides_ok in Hov as (Hids' & _ & Hcn' & Htgt'); [|done].
  apply copy_deployments_ok in Hparts as (Hall & Hlen & Hnonempty).
  exists owned, minted, ex'. cbn [cc_name cc_selection cc_instances cc_deployments cc_stack_writes cc_core_nodes].
  split; [done|]. split; [done|]. split; [done|]. split; [done|]. split; [done|]. split; [done|].
  rewrite Hids'. split; [done|].
  assert (Hids2 : ∀ id, id ∈ ids_of (ex_deployments ex) ↔ id ∈ ids_of (ex_deployments bare) ∨ id ∈ owned).
  { intros id. by rewrite Hids, copy_unit_ids, <- Hown. }
  split; [done|]. split; [done|]. split; [done|]. split; [intros e He; by apply Hnonempty|].
  split; [|by rewrite Hcn', Hcn].
  intros e (a & -> & [Ha Hnot]%list_elem_of_In%List.filter_In)%elem_of_map. cbn.
  apply negb_true_iff, bool_decide_eq_false in Hnot. unfold rewrite_report in Hrep.
  apply map_result_Forall2 in Hrep. apply list_elem_of_In, list_elem_of_lookup in Ha as [n Hn].
  destruct (Forall2_lookup_r _ _ _ _ _ Hrep Hn) as (b & Hb & Hentry).
  apply list_elem_of_lookup_2, Htgt' in Hb. rewrite Hids', Hids2 in Hb.
  unfold rewrite_entry in Hentry. apply result_bind_ok in Hentry as (ch & _ & [= <-]). cbn in *.
  destruct (minted !! aa_target b) as [new|] eqn:Hm; cbn in *.
  - exfalso. apply Hnot. apply elem_of_map. exists (aa_target b, new). split; [done|]. by apply elem_of_map_to_list.
  - destruct Hb as [?|Hb]; [done|]. exfalso. destruct (mint_all_ok _ _ _ _ Hmint) as [Hok _].
    rewrite (proj2 (Hok (aa_target b) _) (conj Hb eq_refl)) in Hm. done.
Qed.

(** ** Its links *)

Lemma valid_char_no_slash c : is_valid_char c = true → (byte_val c =? 47)%Z = false.
Proof. destruct c as [[] [] [] [] [] [] [] []]; vm_compute; done. Qed.

Lemma split_valid_name s : forallb is_valid_char (chars s) = true →
  split_once_slash s = None ∧ ∀ l, split_once_slash (s +:+ ("/" +:+ l)) = Some (s, l).
Proof.
  induction s as [|c s IH]; cbn; [done|]. rewrite andb_true_iff. intros [Hc%valid_char_no_slash Hs].
  rewrite Hc. destruct (IH Hs) as [-> Hl]. split; [done|]. intros l.
  change (String c s +:+ ("/" +:+ l)) with (String c (s +:+ ("/" +:+ l))). cbn [split_once_slash].
  by rewrite Hc, Hl.
Qed.

Lemma mint_valid name id new : mint name id = Ok new → forallb is_valid_char (chars new) = true.
Proof.
  unfold mint, instance_id_in_copy, Name_try_from. case_decide; [done|]. destruct (forallb _ _) eqn:Hv; [|done].
  by intros [= <-].
Qed.

Lemma minted_valid name stack_ids owned minted id new :
  mint_all name stack_ids owned = Ok minted → minted !! id = Some new → forallb is_valid_char (chars new) = true.
Proof.
  intros Hm. revert id new. refine (fold_result_prefix (mint_one name stack_ids) (λ _ (m : gmap string string),
    ∀ id new, m !! id = Some new → forallb is_valid_char (chars new) = true) _ _ _ _ _ Hm).
  - intros id new. by rewrite lookup_empty.
  - intros _ x m m' _ HP. unfold mint_one. rewrite result_bind_ok. intros (new & Hv%mint_valid & H).
    case_bool_decide; [done|]. injection H as <-. intros id new'.
    destruct (decide (x = id)) as [->|]; [rewrite lookup_insert_eq|rewrite lookup_insert_ne by done; eauto].
    by intros [= <-].
Qed.

(** A rewritten target names an instance the copy mints, or none of its fragments'. *)
Lemma rewrite_instance (minted : gmap string string) (owned : list string) t :
  (∀ id new, minted !! id = Some new → forallb is_valid_char (chars new) = true) →
  (∀ id, id ∈ owned ↔ is_Some (minted !! id)) →
  (∃ id, minted !! id = Some (split_link_target (rewrite minted t)).1) ∨
  (split_link_target (rewrite minted t)).1 ∉ owned.
Proof.
  intros Hv Ho. unfold rewrite. destruct (split_link_target t) as [id suffix] eqn:Ht.
  destruct (minted !! id) as [new|] eqn:Hm.
  - left. exists id. rewrite Hm. f_equal. unfold split_link_target.
    destruct (split_valid_name new (Hv id new Hm)) as [Hn Hs]. destruct suffix; [by rewrite Hs|by rewrite Hn].
  - right. rewrite Ho. destruct suffix; rewrite Ht; cbn; rewrite Hm; by intros [? ?].
Qed.

Lemma rewrite_link_targets minted v v' :
  rewrite_link minted v = Ok v' → value_targets v' = map (rewrite minted) (value_targets v).
Proof.
  destruct v as [[t|ts|ts]|r]; cbn; try (by intros [= <-]);
    destruct (LinkTargets_new _) as [ts'|] eqn:Hl; try done; intros [= <-]; by apply LinkTargets_new_ok in Hl as [-> _].
Qed.

Lemma rewrite_links_targets copy minted i j slot v t :
  rewrite_links copy minted i = Ok j → li_links j !! slot = Some v → t ∈ value_targets v →
  ∃ t0, t = rewrite minted t0.
Proof.
  unfold rewrite_links. rewrite result_bind_ok. intros (links & Hall%map_result_Forall2 & [= <-]). cbn.
  intros Hv%elem_of_list_to_map_2 Ht. apply list_elem_of_lookup in Hv as [n Hn].
  destruct (Forall2_lookup_r _ _ _ _ _ Hall Hn) as (old & _ & Hslot). unfold rewrite_slot in Hslot.
  apply result_bind_ok in Hslot as (v' & Hv' & [= <- <-]).
  destruct (rewrite_link minted old.2) as [w|] eqn:Hw; [|done]. injection Hv' as <-.
  apply rewrite_link_targets in Hw. rewrite Hw in Ht. apply elem_of_map in Ht as (t0 & -> & _). eauto.
Qed.

(** The name a copy gives an id. *)
Definition in_copy_id (name id : string) : string := name +:+ ("_" +:+ id).

#[export] Instance in_copy_id_inj name : Inj (=) (=) (in_copy_id name).
Proof. intros i j H. by apply (inj (String.append name)), (inj (String.append "_")) in H. Qed.

Lemma minted_ids name stack_ids owned minted l cis :
  mint_all name stack_ids owned = Ok minted →
  Forall2 (λ i ci, minted !! li_instance_id i = Some (ci_instance_id ci)) l cis →
  map ci_instance_id cis = map (in_copy_id name) (map li_instance_id l).
Proof.
  intros [Hm _]%mint_all_ok Hall. induction Hall as [|i ci l cis [_ Hi]%Hm _ IH]; [done|]. cbn. by rewrite Hi, IH.
Qed.

Lemma NoDup_map_filter {A B} (g : A → B) p l : NoDup (map g l) → NoDup (map g (List.filter p l)).
Proof.
  induction l as [|x l IH]; [done|]. cbn. rewrite NoDup_cons. intros [Hx Hl]. destruct (p x); [|by apply IH].
  cbn. rewrite NoDup_cons. split; [|by apply IH]. intros (y & Hy & [Hin _]%list_elem_of_In%List.filter_In)%elem_of_map.
  apply Hx, elem_of_map. exists y. split; [done|by apply list_elem_of_In].
Qed.

Lemma filtered_ids (minted : gmap string string) (owned : list string) (l : list LaunchInstance) :
  (∀ id, id ∈ owned ↔ is_Some (minted !! id)) → (∀ id, id ∈ owned → id ∈ map li_instance_id l) →
  ∀ id, id ∈ owned ↔
    id ∈ map li_instance_id (List.filter (λ i, opt_is_some (minted !! li_instance_id i : option string)) l).
Proof.
  intros Ho Hin id. split.
  - intros Hid. destruct (proj1 (elem_of_map _ _ _) (Hin id Hid)) as (i & -> & Hi). apply elem_of_map.
    exists i. split; [done|]. apply list_elem_of_In, List.filter_In. split; [by apply list_elem_of_In|].
    by destruct (proj1 (Ho _) Hid) as [? ->].
  - intros (i & -> & [_ Hi]%list_elem_of_In%List.filter_In)%elem_of_map. apply Ho. by destruct (minted !! _).
Qed.

(** What a plan needs of a copy it takes in. *)
Definition copy_wf (c : ComposedCopy) : Prop :=
  map ci_instance_id (cc_instances c) = ids_of (cc_deployments c) ∧
  NoDup (ids_of (cc_deployments c)) ∧
  (∀ i, i ∈ instances_of (cc_deployments c) → li_core_node i = Some (cc_name c)) ∧
  cc_name c ∈ cc_core_nodes c.

Lemma compose_copy_wf l stack bare rq taken c :
  compose_copy l stack bare rq taken = Ok c →
  copy_wf c ∧ cc_name c = rq_name rq ∧ cc_name c ∉ taken.
Proof.
  intros (owned & minted & ex & Htaken & Hname & _ & _ & _ & Hmint & Hnd & _ & Hlen & Hall & _ & _ & Hcn)%compose_copy_facts.
  destruct (copy_ids _ _ _ _ _ Hall Hlen) as (Hci & _ & Hfrom & Hinst). fold (ids_of (cc_deployments c)) in Hci.
  split; [|by rewrite Hname]. split; [done|]. split; [|split].
  - rewrite <- Hci, (minted_ids _ _ _ _ _ _ Hmint Hfrom). apply NoDup_fmap; [apply _|]. by apply NoDup_map_filter.
  - intros i (n & Hn)%list_elem_of_lookup. destruct (Forall2_lookup_r _ _ _ _ _ Hinst Hn) as (? & _ & ci & Hfr).
    rewrite Hname. apply Hfr.
  - rewrite Hcn, Hname. apply elem_of_app. right. by left.
Qed.

(** C8: A composed copy is its option's instances under its own name. Where
    [compose_copy] succeeds, its name is not a core node link in use; it runs
    exactly the instances its selected fragments define, at least one, each once,
    under the id the copy's name and the fragment's id make, none of which the
    stack runs; each is placed on the copy's link; no link of the copy is left
    naming an instance as its fragment wrote it; and everything the copy's
    adjustments write elsewhere is on instances of the stack. *)
Theorem copy_minted_exact l stack bare rq taken c :
  compose_copy l stack bare rq taken = Ok c →
  let fragments := fragments_for (rq_loaded rq) (cc_selection c) in
  rq_name rq ∉ taken ∧ cc_instances c ≠ [] ∧
  map ci_instance_id (cc_instances c) = ids_of (cc_deployments c) ∧
  NoDup (ids_of (cc_deployments c)) ∧
  (∀ id, id ∈ node_ids fragments ↔ id ∈ map ci_in_copy (cc_instances c)) ∧
  (∀ i, i ∈ cc_instances c →
     ci_instance_id i = rq_name rq +:+ ("_" +:+ ci_in_copy i) ∧
     ci_instance_id i ∉ ids_of (ex_deployments bare)) ∧
  (∀ i, i ∈ instances_of (cc_deployments c) → li_core_node i = Some (rq_name rq)) ∧
  (∀ i slot v t, i ∈ instances_of (cc_deployments c) → li_links i !! slot = Some v → t ∈ value_targets v →
     (split_link_target t).1 ∈ ids_of (cc_deployments c) ∨ (split_link_target t).1 ∉ node_ids fragments) ∧
  (∀ e, e ∈ cc_stack_writes c → sw_instance e ∈ ids_of (ex_deployments bare)).
Proof.
  intros Hc. destruct (compose_copy_wf _ _ _ _ _ _ Hc) as [(_ & Hndc & Hplaced & _) [Hname _]]. rewrite Hname in Hplaced.
  apply compose_copy_facts in Hc as
    (owned & minted & ex & Htaken & _ & Hown & Hfresh & Hne & Hmint & Hnd & Hids & Hlen & Hall & _ & Hw & _).
  cbn zeta. destruct (mint_all_ok _ _ _ _ Hmint) as [Hm Hs].
  destruct (copy_ids _ _ _ _ _ Hall Hlen) as (Hci & Hic & Hfrom & Hinst). fold (ids_of (cc_deployments c)) in Hci.
  assert (Ho : ∀ id, id ∈ owned ↔ is_Some (minted !! id)).
  { intros id. split; [intros Hid; exists (rq_name rq +:+ ("_" +:+ id)); by apply Hm|by intros [? [? _]%Hm]]. }
  assert (Hin : ∀ id, id ∈ owned ↔ id ∈ map ci_in_copy (cc_instances c)).
  { rewrite Hic. apply filtered_ids; [done|]. intros id Hid. apply Hids. by right. }
  assert (Hnew : ∀ i, i ∈ cc_instances c → ci_instance_id i = in_copy_id (rq_name rq) (ci_in_copy i)).
  { intros i Hi. apply list_elem_of_lookup in Hi as [n Hn].
    assert (Hi' : map ci_instance_id (cc_instances c) !! n = map (in_copy_id (rq_name rq)) (map ci_in_copy (cc_instances c)) !! n).
    { rewrite Hic. by rewrite (minted_ids _ _ _ _ _ _ Hmint Hfrom). }
    rewrite !list_lookup_fmap, Hn in Hi'. by injection Hi'. }
  split; [done|]. split; [|split; [done|split; [done|split; [by intros id; rewrite <- Hown|split; [|split; [done|split; [|done]]]]]]].
  - intros Hnil. rewrite Hnil in Hin. destruct owned as [|x ?]; [done|]. apply (elem_of_nil x), Hin. left.
  - intros i Hi. rewrite (Hnew i Hi). split; [done|]. apply Hs, Hin. by apply (list_elem_of_fmap_2 ci_in_copy).
  - intros i slot v t (n & Hn)%list_elem_of_lookup Hv Ht.
    destruct (Forall2_lookup_r _ _ _ _ _ Hinst Hn) as (i0 & _ & ci & _ & _ & _ & _ & k & Hk & Hlk).
    rewrite Hlk in Hv. destruct (rewrite_links_targets _ _ _ _ _ _ _ Hk Hv Ht) as [t0 ->].
    destruct (rewrite_instance minted owned t0) as [[id [Hid Heq]%Hm]|Hnot]; [|done| |right; by rewrite <- Hown].
    + intros id new. by eapply minted_valid.
    + left. rewrite <- Hci, (minted_ids _ _ _ _ _ _ Hmint Hfrom), <- Hic, Heq.
      by apply (list_elem_of_fmap_2 (in_copy_id (rq_name rq))), Hin.
Qed.

Lemma copy_minted_exact_witness :
  ids_of (cc_deployments CopySample.left_copy) = ["left_arm_inst"] ∧
  NoDup (ids_of (cc_deployments CopySample.left_copy)).
Proof.
  split; [vm_compute; done|].
  apply (copy_minted_exact CopySample.launcher [] CopySample.bare CopySample.left_request [] CopySample.left_copy).
  vm_compute. done.
Defined.
