(* ===== verification/ComposeJoin.v ===== *)
(** * A join and the removal that undoes it

    [attach] and [detach] of [compose/copy.rs]: what a join changes on the
    instances that run, slot by slot, and that removing the copy gives back the
    stack as it was. *)

From stdpp Require Import sorting.
From S2P Require Import Prelude Names RestartPolicy Config PairingRegistry Supervision LaunchTypes PairPlan ObservePlan Clocks Compose ComposeSelect ComposeExpand ComposeCopy ComposeMint.
#[local] Open Scope peppy_scope.

#[export] Instance SetMember_eq_dec : EqDecision SetMember.
Proof. solve_decision. Defined.

(** ** Deployments, instance by instance *)

Definition ds_rel (R : LaunchInstance → LaunchInstance → Prop) (ds ds' : list Deployment) : Prop :=
  Forall2 (λ d e, dp_source e = dp_source d ∧ Forall2 R (dp_instances d) (dp_instances e)) ds ds'.

Lemma ds_rel_instances R ds ds' : ds_rel R ds ds' → Forall2 R (instances_of ds) (instances_of ds').
Proof. induction 1 as [|d e ds ds' [_ H] _ IH]; [constructor|]. cbn. by apply Forall2_app. Qed.

Lemma ds_rel_refl (R : LaunchInstance → LaunchInstance → Prop) ds :
  (∀ i, i ∈ instances_of ds → R i i) → ds_rel R ds ds.
Proof.
  intros H. apply Forall_Forall2_diag, Forall_forall. intros d Hd. split; [done|].
  apply Forall_Forall2_diag, Forall_forall. intros i Hi. apply H, elem_of_flat_map. eauto.
Qed.

Lemma ds_rel_impl (R R' : LaunchInstance → LaunchInstance → Prop) ds ds' :
  ds_rel R ds ds' → (∀ i j, i ∈ instances_of ds → R i j → R' i j) → ds_rel R' ds ds'.
Proof.
  intros H HR. eapply Forall2_elem; [exact H|]. cbn. intros d e Hd [Hs Hi]. split; [done|].
  eapply Forall2_elem; [exact Hi|]. intros i j Hin. apply HR, elem_of_flat_map. eauto.
Qed.

Lemma ds_rel_eq ds ds' : ds_rel (λ i j, j = i) ds ds' → ds' = ds.
Proof.
  induction 1 as [|d e ds ds' [Hs Hi] _ IH]; [done|]. f_equal; [|done]. destruct d as [s is_], e as [s' js]. cbn in *.
  subst s'. f_equal. by induction Hi as [|i j is_ js -> _ IHi]; [|f_equal].
Qed.

Lemma ds_rel_trans (R S T : LaunchInstance → LaunchInstance → Prop) ds1 ds2 ds3 :
  (∀ i j k, R i j → S j k → T i k) → ds_rel R ds1 ds2 → ds_rel S ds2 ds3 → ds_rel T ds1 ds3.
Proof.
  intros HT. apply Forall2_trans. intros d e f [Hs Hi] [Hs' Hi']. split; [congruence|]. by eapply Forall2_trans.
Qed.

Lemma ds_rel_ids (R : LaunchInstance → LaunchInstance → Prop) ds ds' :
  (∀ i j, R i j → li_instance_id j = li_instance_id i) → ds_rel R ds ds' → ids_of ds' = ids_of ds.
Proof.
  intros HR H%ds_rel_instances. unfold ids_of. induction H as [|i j l k Hij _ IH]; [done|]. cbn.
  by rewrite (HR _ _ Hij), IH.
Qed.

Lemma put_instance_rel ds id new :
  NoDup (ids_of ds) →
  ds_rel (λ i j, j = if bool_decide (li_instance_id i = id) then new else i) ds (put_instance ds id new).
Proof.
  unfold ids_of, instances_of. induction ds as [|d ds IH]; [constructor|]. cbn. rewrite map_app.
  intros (Hd & Hdisj & Hds)%NoDup_app. destruct (existsb (has_id id) (dp_instances d)) eqn:Hex.
  - constructor; [split; [done|]; by apply (update_first_Forall2 li_instance_id)|].
    apply ds_rel_refl. intros i Hi. case_bool_decide as Hid; [|done]. exfalso.
    apply existsb_exists in Hex as (j & Hj%list_elem_of_In & Hjid%bool_decide_eq_true).
    apply (Hdisj id); [rewrite <- Hjid|rewrite <- Hid]; by apply (list_elem_of_fmap_2 li_instance_id).
  - constructor; [|by apply IH]. split; [done|]. apply Forall_Forall2_diag, Forall_forall. intros i Hi.
    case_bool_decide as Hid; [|done]. exfalso.
    assert (existsb (has_id id) (dp_instances d) = true); [|congruence].
    apply existsb_exists. exists i. split; [by apply list_elem_of_In|by apply bool_decide_eq_true].
Qed.

Lemma Forall2_elem_r {A B} (R : A → B → Prop) l k : Forall2 R l k → Forall2 (λ x y, R x y ∧ y ∈ k) l k.
Proof.
  induction 1 as [|x y l k Hxy _ IH]; constructor; [split; [done|left]|].
  eapply Forall2_impl; [exact IH|]. cbn. intros ? ? [? ?]. split; [done|by right].
Qed.

Lemma ds_rel_elem R ds ds' : ds_rel R ds ds' → ds_rel (λ i j, R i j ∧ j ∈ instances_of ds') ds ds'.
Proof.
  intros H%Forall2_elem_r. eapply Forall2_impl; [exact H|]. cbn. intros d e [[Hs Hi%Forall2_elem_r] He].
  split; [done|]. eapply Forall2_impl; [exact Hi|]. cbn. intros i j [? Hj]. split; [done|]. apply elem_of_flat_map. eauto.
Qed.

Lemma ds_rel_left R ds ds' : ds_rel R ds ds' → ds_rel (λ i j, R i j ∧ i ∈ instances_of ds) ds ds'.
Proof. intros H. eapply ds_rel_impl; [exact H|]. auto. Qed.

(** A relation kept by replacing one instance. *)
Lemma put_rel (R R' : LaunchInstance → LaunchInstance → Prop) ds0 ds id j new :
  (∀ i k, R i k → li_instance_id k = li_instance_id i) → NoDup (ids_of ds0) →
  ds_rel R ds0 ds → find_instance ds id = Some j →
  (∀ i, li_instance_id i = id → R i j → R' i new) →
  (∀ i k, li_instance_id i ≠ id → R i k → R' i k) →
  ds_rel R' ds0 (put_instance ds id new).
Proof.
  intros Hids Hnd Hrel Hfind Hnew Hother. pose proof (ds_rel_ids _ _ _ Hids Hrel) as Heq.
  rewrite <- Heq in Hnd. apply find_elem_of in Hfind as [Hj Hjid%bool_decide_eq_true].
  pose proof (ds_rel_elem _ _ _ Hrel) as Hrel'.
  eapply ds_rel_trans; [|exact Hrel'|by apply put_instance_rel]. cbn. intros i k k' [Hik Hk] ->.
  pose proof (Hids _ _ Hik) as Hki. case_bool_decide as Hkid; [|apply Hother; [congruence|done]].
  apply Hnew; [congruence|]. assert (k = j) as ->; [|done].
  eapply (NoDup_map_inj li_instance_id); [exact Hnd|done|done|congruence].
Qed.

(** ** What a join changes *)

(** A slot of a stack instance beside what it was: a set holds the members of
    the copies that joined and were not dropped, at its end; any other slot is as
    it was, or was vacant and is released. *)
Definition slot_joined (id slot : string) (members dropped : list SetMember) (released : list (string * string))
    (old new : option LinkValue) : Prop :=
  match old with
  | Some (Bound (Array before)) =>
      ∃ added,
        new = Some (Bound (Array (List.filter (λ t, negb (bool_decide (mkSetMember id slot t ∈ dropped)))
                                    (before ++ added)))) ∧
        (added ≠ [] → NoDup (before ++ added)) ∧ (∀ t, t ∈ added ↔ mkSetMember id slot t ∈ members)
  | _ =>
      (∀ t, mkSetMember id slot t ∉ members) ∧
      (new = old ∨ opt_is_some (v ← old; value_vacancy v) = true ∧ new = None ∧ (id, slot) ∈ released)
  end.

(** An instance that differs in its links only. *)
Definition links_only (i j : LaunchInstance) : Prop := j = with_links i (li_links j).

Lemma links_only_refl i : links_only i i.
Proof. by destruct i. Qed.

Lemma links_only_put i j links : links_only i j → links_only i (with_links j links).
Proof. unfold links_only. intros ->. done. Qed.

Lemma links_only_id i j : links_only i j → li_instance_id j = li_instance_id i.
Proof. unfold links_only. intros ->. done. Qed.

Definition joined (members dropped : list SetMember) (released : list (string * string))
    (i j : LaunchInstance) : Prop :=
  links_only i j ∧
  ∀ slot, slot_joined (li_instance_id i) slot members dropped released (li_links i !! slot) (li_links j !! slot).

Lemma slot_joined_mono id slot members members' dropped released released' old new :
  (∀ t, mkSetMember id slot t ∈ members' ↔ mkSetMember id slot t ∈ members) →
  (∀ x, x ∈ released → x ∈ released') →
  slot_joined id slot members dropped released old new → slot_joined id slot members' dropped released' old new.
Proof.
  intros Hm Hr. unfold slot_joined.
  destruct old as [[[t|a|ts]|r]|]; try (intros [Hno Hcase]; split; [intros t'; rewrite Hm; apply Hno|naive_solver]).
  intros (added & Hnew & Hnd & Hadd). exists added. split; [done|]. split; [done|]. intros t. by rewrite Hm.
Qed.

Lemma filter_nothing_dropped id slot (l : list string) :
  List.filter (λ t, negb (bool_decide (mkSetMember id slot t ∈ []))) l = l.
Proof. apply retain_all. intros x _. by rewrite bool_decide_eq_false_2 by apply not_elem_of_nil. Qed.

Lemma joined_refl i : joined [] [] [] i i.
Proof.
  split; [apply links_only_refl|]. intros slot. unfold slot_joined.
  destruct (li_links i !! slot) as [[[t|a|ts]|r]|];
    try (split; [intros ?; apply not_elem_of_nil|by left]).
  exists []. rewrite filter_nothing_dropped, app_nil_r. split; [done|]. split; [done|].
  intros t. by rewrite !elem_of_nil.
Qed.

(** A write that leaves the instance as it runs. *)
Lemma joined_hold members released members' released' i j :
  (∀ slot t, mkSetMember (li_instance_id i) slot t ∈ members' ↔ mkSetMember (li_instance_id i) slot t ∈ members) →
  (∀ x, x ∈ released → x ∈ released') →
  joined members [] released i j → joined members' [] released' i j.
Proof. intros Hm Hr [Hl Hs]. split; [done|]. intros slot. eapply slot_joined_mono; [|done|apply Hs]. auto. Qed.

(** The release of a vacant slot. *)
Lemma joined_release members released i j slot r :
  joined members [] released i j → li_links j !! slot = Some (Vacant r) →
  joined members [] (released ++ [(li_instance_id i, slot)]) i (with_links j (delete slot (li_links j))).
Proof.
  intros [Hl Hs] Hv. split; [by apply links_only_put|]. intros x. cbn.
  destruct (decide (x = slot)) as [->|Hx].
  - rewrite lookup_delete_eq. specialize (Hs slot). rewrite Hv in Hs. unfold slot_joined in *.
    destruct (li_links i !! slot) as [[[t|a|ts]|r']|]; try (destruct Hs as [Hno [[=]|[? [? ?]]]]; done).
    + by destruct Hs as (? & [=] & _).
    + destruct Hs as [Hno _]. split; [done|]. right. split; [done|]. split; [done|]. apply elem_of_app. right. by left.
  - rewrite lookup_delete_ne by done. eapply slot_joined_mono; [|  |apply Hs]; [done|].
    intros y Hy. apply elem_of_app. by left.
Qed.

(** A member appended to a set that was there before. *)
Lemma joined_append members released i j slot t before bound target origin :
  joined members [] released i j → li_links i !! slot = Some (Bound (Array before)) →
  append_links j slot [t] target origin = Ok bound →
  joined (members ++ [mkSetMember (li_instance_id i) slot t]) [] released i
    (with_links j (<[slot := Bound (Array bound)]> (li_links j))).
Proof.
  intros [Hl Hs] Hold Happ. split; [by apply links_only_put|]. intros x. cbn.
  destruct (decide (x = slot)) as [->|Hx].
  - rewrite lookup_insert_eq. specialize (Hs slot). unfold slot_joined in *. rewrite Hold in *.
    destruct Hs as (added & Hnew & _ & Hadd). rewrite filter_nothing_dropped in Hnew.
    unfold append_links in Happ. rewrite Hnew in Happ. cbn in Happ.
    destruct (LinkTargets_new _) as [ts|] eqn:Hlt; [|done]. injection Happ as <-.
    apply LinkTargets_new_ok in Hlt as [-> Hnd]. exists (added ++ [t]). rewrite filter_nothing_dropped, app_assoc.
    split; [done|]. split; [done|]. intros t'. rewrite !elem_of_app, Hadd, !list_elem_of_singleton. naive_solver.
  - rewrite lookup_insert_ne by done. eapply slot_joined_mono; [| |apply Hs]; [|done].
    intros t'. rewrite elem_of_app, list_elem_of_singleton. naive_solver.
Qed.

Lemma set_members_app writes e :
  set_members_of (writes ++ [e]) =
  set_members_of writes ++ match sw_write e with
                           | ChLinkAdded slot t => [mkSetMember (sw_instance e) slot t]
                           | _ => []
                           end.
Proof. unfold set_members_of. rewrite omap_app. cbn. by destruct (sw_write e). Qed.

Lemma released_app writes e :
  released_by (writes ++ [e]) =
  released_by writes ++ match sw_write e with ChLinkRemoved slot _ => [(sw_instance e, slot)] | _ => [] end.
Proof. unfold released_by. rewrite omap_app. cbn. by destruct (sw_write e). Qed.

(** The slots a copy joins were sets of the stack before it. *)
Definition joins_sets (existing : list Deployment) (writes : list StackWriteEntry) : Prop :=
  ∀ e slot t i, e ∈ writes → sw_write e = ChLinkAdded slot t → i ∈ instances_of existing →
    li_instance_id i = sw_instance e → ∃ before, li_links i !! slot = Some (Bound (Array before)).

Lemma attach_write_joined c writes e i j j' :
  li_instance_id i = sw_instance e →
  (∀ slot t, sw_write e = ChLinkAdded slot t → ∃ before, li_links i !! slot = Some (Bound (Array before))) →
  joined (set_members_of writes) [] (released_by writes) i j → attach_write c j e = Ok j' →
  joined (set_members_of (writes ++ [e])) [] (released_by (writes ++ [e])) i j'.
Proof.
  intros Hid Hsets Hj. rewrite set_members_app, released_app. unfold attach_write.
  assert (Hmono : ∀ extra, joined (set_members_of writes ++ []) [] (released_by writes ++ extra) i j).
  { intros extra. eapply joined_hold; [| |exact Hj]; [intros; by rewrite app_nil_r|].
    intros x Hx. apply elem_of_app. by left. }
  destruct (sw_write e) as [key old new|slot old new|slot t|slot old|old new|dt old new|old new|old new] eqn:Hw;
    try (destruct (bool_decide _); [intros [= <-]; apply Hmono|done]).
  - destruct (owns c t); [|done]. unfold apply_write. rewrite result_bind_ok. intros (bound & Happ & [= <-]).
    destruct (Hsets slot t eq_refl) as [before Hb]. rewrite app_nil_r, <- Hid. by eapply joined_append.
  - destruct (li_links j !! slot) as [[s|r]|] eqn:Hv; [done| |intros [= <-]; apply Hmono].
    destruct (pairs_into c _ slot); [|done]. intros [= <-]. rewrite app_nil_r, <- Hid. by eapply joined_release.
Qed.

Lemma joined_other writes e i j :
  li_instance_id i ≠ sw_instance e → joined (set_members_of writes) [] (released_by writes) i j →
  joined (set_members_of (writes ++ [e])) [] (released_by (writes ++ [e])) i j.
Proof.
  intros Hid. apply joined_hold.
  - intros slot t. rewrite set_members_app, elem_of_app. destruct (sw_write e); rewrite ?elem_of_nil; try tauto.
    rewrite list_elem_of_singleton. naive_solver.
  - intros x Hx. rewrite released_app. apply elem_of_app. by left.
Qed.

(** The stack after the writes of a join, beside the stack before. *)
Lemma attach_writes_ok c existing ds :
  fold_result (attach_entry c) (cc_stack_writes c) existing = Ok ds → NoDup (ids_of existing) →
  joins_sets existing (cc_stack_writes c) →
  ds_rel (joined (set_members_of (cc_stack_writes c)) [] (released_by (cc_stack_writes c))) existing ds ∧
  (∀ m, m ∈ set_members_of (cc_stack_writes c) → sm_instance_id m ∈ ids_of existing).
Proof.
  intros Hf Hnd Hsets. refine (fold_result_prefix (attach_entry c) (λ done ds,
    ds_rel (joined (set_members_of done) [] (released_by done)) existing ds ∧
    (∀ m, m ∈ set_members_of done → sm_instance_id m ∈ ids_of existing)) _ _ _ _ _ Hf).
  - split; [apply ds_rel_refl; intros; apply joined_refl|by intros m ?%elem_of_nil].
  - intros done e ds1 ds2 He [Hrel Hmem]. unfold attach_entry. rewrite result_bind_ok.
    intros (j & Hfind%ok_or_ok & H). apply result_bind_ok in H as (j' & Hw & [= <-]).
    assert (Hids : ∀ i k, joined (set_members_of done) [] (released_by done) i k → li_instance_id k = li_instance_id i).
    { intros i k [Hl _]. by apply links_only_id. }
    split.
    + eapply put_rel; [|exact Hnd|exact (ds_rel_left _ _ _ Hrel)|exact Hfind| |].
      * intros i k [Hik _]. by apply Hids.
      * intros i Hid [Hij Hi]. eapply attach_write_joined; [done| |exact Hij|exact Hw].
        intros slot t Hwt. by eapply Hsets.
      * intros i k Hid [Hik _]. by apply joined_other.
    + intros m. rewrite set_members_app, elem_of_app. intros [?|Hm]; [auto|].
      rewrite <- (ds_rel_ids _ _ _ Hids Hrel). apply find_elem_of in Hfind as [Hj Hjid%bool_decide_eq_true].
      destruct (sw_write e); try by apply elem_of_nil in Hm. apply list_elem_of_singleton in Hm as ->. cbn.
      rewrite <- Hjid. by apply (list_elem_of_fmap_2 li_instance_id).
Qed.

(** ** What the removal takes out *)

Lemma without_app removed ds ds' :
  without_instances removed (ds ++ ds') = without_instances removed ds ++ without_instances removed ds'.
Proof. unfold without_instances. by rewrite map_app, List.filter_app. Qed.

Lemma filter_all_removed (removed : list string) (l : list LaunchInstance) :
  (∀ i, i ∈ l → li_instance_id i ∈ removed) →
  List.filter (λ i, negb (bool_decide (li_instance_id i ∈ removed))) l = [].
Proof.
  intros H. induction l as [|i l IH]; [done|]. cbn. rewrite bool_decide_eq_true_2 by (apply H; left).
  apply IH. intros j Hj. apply H. by right.
Qed.

Lemma without_merge removed ds d :
  (∀ i, i ∈ dp_instances d → li_instance_id i ∈ removed) →
  without_instances removed (merge_deployment ds d) = without_instances removed ds.
Proof.
  intros Hd. unfold merge_deployment. destruct (existsb _ ds) eqn:Hex.
  - unfold without_instances. f_equal. clear Hex. induction ds as [|e ds IH]; [done|]. cbn.
    destruct (same_source _ e); cbn; [|by rewrite IH].
    by rewrite List.filter_app, (filter_all_removed removed (dp_instances d) Hd), app_nil_r.
  - rewrite without_app. unfold without_instances at 2. cbn.
    by rewrite (filter_all_removed removed (dp_instances d) Hd), app_nil_r.
Qed.

Lemma without_merges removed ds new :
  (∀ i, i ∈ instances_of new → li_instance_id i ∈ removed) →
  without_instances removed (fold_left merge_deployment new ds) = without_instances removed ds.
Proof.
  revert ds. induction new as [|d new IH]; intros ds Hnew; [done|]. cbn [fold_left]. rewrite IH, without_merge; [done| |].
  - intros i Hi. apply Hnew, elem_of_app. by left.
  - intros i Hi. apply Hnew, elem_of_app. by right.
Qed.

Lemma without_none removed ds :
  (∀ i, i ∈ instances_of ds → li_instance_id i ∉ removed) → (∀ d, d ∈ ds → dp_instances d ≠ []) →
  without_instances removed ds = ds.
Proof.
  intros Hi Hd. unfold without_instances. induction ds as [|d ds IH]; [done|]. cbn.
  rewrite (retain_all (λ i, negb (bool_decide (li_instance_id i ∈ removed))) (dp_instances d)); cycle 1.
  { intros i Hin. rewrite bool_decide_eq_false_2; [done|]. apply Hi, elem_of_app. by left. }
  assert (Hne : dp_instances d ≠ []) by (apply Hd; left). destruct d as [s [|x xs]]; [done|]. cbn.
  f_equal. apply IH; [|intros e He; apply Hd; by right]. intros i Hin. apply Hi, elem_of_app. by right.
Qed.

Lemma filter_drop_one id slot t dropped (l : list string) :
  List.filter (λ x, negb (bool_decide (x = t)))
    (List.filter (λ x, negb (bool_decide (mkSetMember id slot x ∈ dropped))) l) =
  List.filter (λ x, negb (bool_decide (mkSetMember id slot x ∈ dropped ++ [mkSetMember id slot t]))) l.
Proof.
  induction l as [|x l IH]; [done|]. cbn.
  rewrite (bool_decide_ext (_ ∈ dropped ++ _) (mkSetMember id slot x ∈ dropped ∨ x = t)); cycle 1.
  { rewrite elem_of_app, list_elem_of_singleton. naive_solver. }
  rewrite bool_decide_or. destruct (bool_decide (_ ∈ dropped)); cbn; [done|].
  destruct (bool_decide (x = t)); cbn; by rewrite IH.
Qed.

Lemma NoDup_list_filter {A} (p : A → bool) l : NoDup l → NoDup (List.filter p l).
Proof. apply (NoDup_retain p). Qed.

(** A member of the copy out of the set it joined. *)
Lemma drop_member_joined members dropped released m i j :
  li_instance_id i = sm_instance_id m → m ∈ members → joined members dropped released i j →
  ∃ j', drop_member m j = Ok j' ∧ joined members (dropped ++ [m]) released i j'.
Proof.
  destruct m as [id slot t]. cbn. intros Hid Hm [Hl Hs]. pose proof (Hs slot) as Hslot. unfold slot_joined in Hslot.
  rewrite Hid in *. unfold drop_member. cbn.
  destruct (li_links i !! slot) as [[[?|before|?]|?]|] eqn:Hold; try (destruct Hslot as [Hno _]; by destruct (Hno t)).
  destruct Hslot as (added & Hnew & Hnd & Hadd). rewrite Hnew, filter_drop_one.
  assert (Hnd' : NoDup (before ++ added)).
  { apply Hnd. intros ->. by apply Hadd, elem_of_nil in Hm. }
  assert (LinkTargets_new (List.filter
    (λ x, negb (bool_decide (mkSetMember id slot x ∈ dropped ++ [mkSetMember id slot t]))) (before ++ added)) =
    Ok (List.filter (λ x, negb (bool_decide (mkSetMember id slot x ∈ dropped ++ [mkSetMember id slot t])))
          (before ++ added))) as ->.
  { apply LinkTargets_new_ok. split; [done|]. by apply NoDup_list_filter. }
  cbn. eexists. split; [done|]. split; [by apply links_only_put|]. intros x. cbn. rewrite Hid.
  destruct (decide (x = slot)) as [->|Hx].
  - rewrite lookup_insert_eq. unfold slot_joined. rewrite Hold. by exists added.
  - rewrite lookup_insert_ne by done. specialize (Hs x). unfold slot_joined in *.
    destruct (li_links i !! x) as [[[?|b|?]|?]|]; try done. destruct Hs as (added' & -> & ? & ?). exists added'.
    split; [|done]. do 3 f_equal. apply filter_ext. intros y. f_equal. apply bool_decide_ext.
    rewrite elem_of_app, list_elem_of_singleton. naive_solver.
Qed.

Lemma joined_other_dropped members dropped released m i j :
  li_instance_id i ≠ sm_instance_id m → joined members dropped released i j →
  joined members (dropped ++ [m]) released i j.
Proof.
  intros Hid [Hl Hs]. split; [done|]. intros slot. specialize (Hs slot). unfold slot_joined in *.
  destruct (li_links i !! slot) as [[[?|b|?]|?]|]; try done. destruct Hs as (added & -> & ? & ?). exists added.
  split; [|done]. do 3 f_equal. apply filter_ext. intros y. f_equal. apply bool_decide_ext.
  rewrite elem_of_app, list_elem_of_singleton. destruct m. naive_solver.
Qed.

Lemma joined_id members dropped released i j : joined members dropped released i j → li_instance_id j = li_instance_id i.
Proof. intros [Hl _]. by apply links_only_id. Qed.

Lemma drop_members_ok members released ds0 :
  NoDup (ids_of ds0) → (∀ m, m ∈ members → sm_instance_id m ∈ ids_of ds0) →
  ∀ rest dropped ds, members = dropped ++ rest → ds_rel (joined members dropped released) ds0 ds →
  ∃ ds', fold_result drop_member_of rest ds = Ok ds' ∧ ds_rel (joined members members released) ds0 ds'.
Proof.
  intros Hnd Hin rest. induction rest as [|m rest IH]; intros dropped ds Hm Hrel.
  { exists ds. split; [done|]. by rewrite Hm, app_nil_r in *. }
  assert (Hmin : m ∈ members) by (rewrite Hm; apply elem_of_app; right; left).
  pose proof (Hin m Hmin) as Hid. rewrite <- (ds_rel_ids _ _ _ (joined_id _ _ _) Hrel) in Hid.
  apply elem_of_map in Hid as (k & Hk & Hkin).
  destruct (find_Some_exists (has_id (sm_instance_id m)) (instances_of ds) k Hkin) as [j Hfind];
    [by apply bool_decide_eq_true|].
  destruct (find_elem_of _ _ _ Hfind) as [Hj Hjid%bool_decide_eq_true].
  pose proof (ds_rel_instances _ _ _ Hrel) as Hall. apply list_elem_of_lookup in Hj as [n Hn].
  destruct (Forall2_lookup_r _ _ _ _ _ Hall Hn) as (i & _ & Hij).
  destruct (drop_member_joined members dropped released m i j) as (j' & Hdrop & _); [|done|done|].
  { by rewrite <- Hjid, (joined_id _ _ _ _ _ Hij). }
  destruct (IH (dropped ++ [m]) (put_instance ds (sm_instance_id m) j')) as (ds' & Hf & Hrel').
  - by rewrite <- app_assoc.
  - eapply put_rel; [apply joined_id|exact Hnd|exact Hrel|exact Hfind| |].
    + intros i' Hi' Hij'. destruct (drop_member_joined members dropped released m i' j) as (j2 & Hd2 & ?); [done..|].
      congruence.
    + intros i' k' Hi'. by apply joined_other_dropped.
  - exists ds'. split; [|done]. cbn [fold_result]. apply result_bind_ok. eexists. split; [|exact Hf].
    unfold drop_member_of. unfold find_instance. rewrite Hfind. cbn. by rewrite Hdrop.
Qed.

(** ** What is left is the stack, less the slots released *)

Definition given_back (open : list (string * string)) (i j : LaunchInstance) : Prop :=
  links_only i j ∧
  ∀ slot, li_links j !! slot = li_links i !! slot ∨
    ∃ r, li_links i !! slot = Some (Vacant r) ∧ li_links j !! slot = None ∧ (li_instance_id i, slot) ∈ open.

Lemma filter_members id slot (before added : list string) (members : list SetMember) :
  (added ≠ [] → NoDup (before ++ added)) → (∀ t, t ∈ added ↔ mkSetMember id slot t ∈ members) →
  List.filter (λ t, negb (bool_decide (mkSetMember id slot t ∈ members))) (before ++ added) = before.
Proof.
  intros Hnd Hadd. rewrite List.filter_app.
  rewrite (retain_all (λ t, negb (bool_decide (mkSetMember id slot t ∈ members))) before); cycle 1.
  { intros t Ht. rewrite bool_decide_eq_false_2; [done|]. rewrite <- Hadd. intros Ht'.
    assert (added ≠ []) as Hne by (by intros ->; apply elem_of_nil in Ht').
    apply Hnd, NoDup_app in Hne as (_ & Hdisj & _). by apply (Hdisj t). }
  rewrite <- (app_nil_r before) at 2. f_equal.
  assert (H : ∀ t, t ∈ added → mkSetMember id slot t ∈ members) by (intros t; apply Hadd). clear Hnd Hadd.
  induction added as [|t added IH]; [done|]. cbn. rewrite bool_decide_eq_true_2 by (apply H; left).
  apply IH. intros x Hx. apply H. by right.
Qed.

Lemma joined_all_dropped members released i j : joined members members released i j → given_back released i j.
Proof.
  intros [Hl Hs]. split; [done|]. intros slot. specialize (Hs slot). unfold slot_joined in Hs.
  destruct (li_links i !! slot) as [[[?|b|?]|r]|]; try (destruct Hs as [_ [?|(Hv & ? & ?)]]; [by left|]; try done).
  - destruct Hs as (added & -> & Hnd & Hadd). left. by rewrite filter_members.
  - right. by exists r.
Qed.

Lemma given_back_nothing open i j :
  given_back open i j → (∀ slot r, li_links i !! slot = Some (Vacant r) → (li_instance_id i, slot) ∉ open) → j = i.
Proof.
  intros [Hl Hs] Hopen. unfold links_only in Hl. rewrite Hl.
  assert (li_links j = li_links i) as ->; [|by destruct i].
  apply map_eq. intros slot. destruct (Hs slot) as [?|(r & Hv & _ & Hin)]; [done|]. by destruct (Hopen slot r Hv).
Qed.

(** The vacancies of the stack written back. *)
Definition vacancy_slot (v : string * string * LinkValue) : string * string := v.1.

Lemma restore_given_back ds0 open ds v :
  NoDup (ids_of ds0) → ds_rel (given_back open) ds0 ds →
  (∀ i, i ∈ instances_of ds0 → li_instance_id i = v.1.1 →
     li_links i !! v.1.2 = Some v.2 ∨ ∃ s, li_links i !! v.1.2 = Some (Bound s)) →
  ds_rel (given_back (List.filter (λ x, negb (bool_decide (x = vacancy_slot v))) open)) ds0 (restore_vacancy ds v).
Proof.
  intros Hnd Hrel Hv. destruct v as [[id slot] value]. cbn in *. unfold restore_vacancy, vacancy_slot. cbn.
  assert (Hids : ∀ i k, given_back open i k → li_instance_id k = li_instance_id i) by (intros i k [? _]; by apply links_only_id).
  assert (Hkeep : ∀ i k x, given_back open i k → li_links k !! x = li_links i !! x ∨ ∃ r, li_links i !! x = Some (Vacant r) ∧
    li_links k !! x = None ∧ (li_instance_id i, x) ∈ open) by (intros i k x [_ H]; apply H).
  assert (Hmem : ∀ y x, y ∈ open → y ≠ x → y ∈ List.filter (λ z, negb (bool_decide (z = x))) open).
  { intros y x Hy Hne. apply list_elem_of_In, List.filter_In. split; [by apply list_elem_of_In|].
    by rewrite bool_decide_eq_false_2. }
  assert (Hother : ∀ i k, li_instance_id i ≠ id → given_back open i k →
    given_back (List.filter (λ x, negb (bool_decide (x = (id, slot)))) open) i k).
  { intros i k Hne [Hl Hs]. split; [done|]. intros x. destruct (Hs x) as [?|(r & ? & ? & ?)]; [by left|right].
    exists r. split; [done|]. split; [done|]. apply Hmem; [done|]. congruence. }
  destruct (find_instance ds id) as [j|] eqn:Hfind.
  - eapply put_rel; [|exact Hnd|exact (ds_rel_left _ _ _ Hrel)|exact Hfind| |].
    + intros i k [? _]. by apply Hids.
    + intros i Hid [[Hl Hs] Hin]. specialize (Hv i Hin Hid). unfold or_insert.
      destruct (li_links j !! slot) as [w|] eqn:Hj.
      * split; [done|]. intros x. destruct (Hs x) as [?|(r & ? & ? & ?)]; [by left|right]. exists r.
        split; [done|]. split; [done|]. apply Hmem; [done|]. congruence.
      * split; [by apply links_only_put|]. intros x. cbn. destruct (decide (x = slot)) as [->|Hx].
        -- left. rewrite lookup_insert_eq. destruct (Hs slot) as [Heq|(r & Hr & _)]; [|naive_solver].
           rewrite Hj in Heq. destruct Hv as [Hv|[s Hv]]; congruence.
        -- rewrite lookup_insert_ne by done. destruct (Hs x) as [?|(r & ? & ? & ?)]; [by left|right]. exists r.
           split; [done|]. split; [done|]. apply Hmem; [done|]. congruence.
    + intros i k Hid [Hik _]. by apply Hother.
  - eapply ds_rel_impl; [exact (ds_rel_elem _ _ _ Hrel)|]. cbn. intros i k Hi [Hik Hk]. apply Hother; [|done].
    intros Hid. apply find_None_forall with (x := k) in Hfind; [|done]. apply bool_decide_eq_false in Hfind.
    apply Hfind. by rewrite (Hids _ _ Hik).
Qed.

Lemma restores_given_back ds0 vacancies :
  NoDup (ids_of ds0) →
  (∀ v i, v ∈ vacancies → i ∈ instances_of ds0 → li_instance_id i = v.1.1 →
     li_links i !! v.1.2 = Some v.2 ∨ ∃ s, li_links i !! v.1.2 = Some (Bound s)) →
  ∀ open ds, ds_rel (given_back open) ds0 ds →
  ∃ open', ds_rel (given_back open') ds0 (fold_left restore_vacancy vacancies ds) ∧
    (∀ x, x ∈ open' → x ∈ open ∧ x ∉ map vacancy_slot vacancies).
Proof.
  intros Hnd. induction vacancies as [|v vacancies IH]; intros Hv open ds Hrel.
  - exists open. split; [done|]. intros x Hx. split; [done|apply not_elem_of_nil].
  - apply (restore_given_back ds0 open ds v Hnd) in Hrel; [|intros i; apply Hv; left].
    apply IH in Hrel as (open' & Hrel & Hopen); [|intros w i Hw; apply Hv; by right].
    exists open'. split; [done|]. intros x [Hx Hnot]%Hopen.
    apply list_elem_of_In, List.filter_In in Hx as [Hx Hne%negb_true_iff%bool_decide_eq_false].
    split; [by apply list_elem_of_In|]. cbn. rewrite elem_of_cons. tauto.
Qed.

Lemma cross_check_targets ds core_nodes i slot v t :
  cross_check_flat_document ds core_nodes = Ok tt → i ∈ instances_of ds → li_links i !! slot = Some v →
  t ∈ value_targets v → (split_link_target t).1 ∈ ids_of ds.
Proof.
  unfold cross_check_flat_document. destruct (List.find _ _); [done|]. rewrite result_bind_ok.
  intros (? & Hall%map_result_Forall2 & _) Hi Hv Ht. apply list_elem_of_lookup in Hi as [n Hn].
  destruct (Forall2_lookup_l _ _ _ _ _ Hall Hn) as (? & _ & Hlinks). unfold check_instance_links in Hlinks.
  apply result_bind_ok in Hlinks as (? & Hl%map_result_Forall2 & _).
  apply elem_of_btree_iter, list_elem_of_lookup in Hv as [k Hk].
  destruct (Forall2_lookup_l _ _ _ _ _ Hl Hk) as (? & _ & Hlink). unfold check_link in Hlink. cbn in Hlink.
  case_bool_decide; [done|]. destruct (List.find _ (value_targets v)) eqn:Hf; [done|].
  apply find_None_forall with (x := t) in Hf; [|done]. by apply negb_false_iff, bool_decide_eq_true in Hf.
Qed.

Lemma given_back_no_links removed open ds0 ds :
  (∀ i slot v t, i ∈ instances_of ds0 → li_links i !! slot = Some v → t ∈ value_targets v →
     (split_link_target t).1 ∉ removed) →
  ds_rel (given_back open) ds0 ds → links_into removed ds = [].
Proof.
  intros Hno Hrel%ds_rel_left%ds_rel_instances. unfold links_into. apply flat_map_nil. intros j Hj.
  apply list_elem_of_lookup in Hj as [n Hn].
  destruct (Forall2_lookup_r _ _ _ _ _ Hrel Hn) as (i & _ & [_ Hs] & Hi).
  apply flat_map_nil. intros [slot v] Hv%elem_of_btree_iter.
  assert (List.filter (λ t, bool_decide ((split_link_target t).1 ∈ removed)) (value_targets v) = []) as ->; [|done].
  assert (Hiv : li_links i !! slot = Some v) by (destruct (Hs slot) as [<-|(? & _ & ? & _)]; congruence).
  assert (Ht : ∀ t, t ∈ value_targets v → (split_link_target t).1 ∉ removed) by (intros t; by eapply Hno).
  induction (value_targets v) as [|t ts IH]; [done|]. cbn. rewrite bool_decide_eq_false_2 by (apply Ht; left).
  apply IH. intros x Hx. apply Ht. by right.
Qed.

Lemma core_nodes_back name links new :
  name ∉ links → (∀ link, link ∈ new → link = name ∨ link ∈ links) →
  List.filter (λ link, negb (bool_decide (link = name))) (fold_left add_core_node_link new links) = links.
Proof.
  intros Hn Hnew.
  assert (H : ∀ k, (k = links ∨ k = links ++ [name]) →
    fold_left add_core_node_link new k = links ∨ fold_left add_core_node_link new k = links ++ [name]).
  { induction new as [|x new IH]; intros k Hk; [done|]. cbn. apply IH; [intros y Hy; apply Hnew; by right|].
    unfold add_core_node_link. case_bool_decide as Hx; [done|].
    assert (Hxin : x = name ∨ x ∈ links) by (apply Hnew; left). destruct Hk as [Hk|Hk], Hxin as [Hxn|Hin]; subst k.
    - subst x. by right.
    - by destruct Hx.
    - subst x. destruct Hx. apply elem_of_app. right. by left.
    - destruct Hx. apply elem_of_app. by left. }
  assert (Hkeep : List.filter (λ link, negb (bool_decide (link = name))) links = links).
  { apply retain_all. intros x Hx. rewrite bool_decide_eq_false_2; [done|]. congruence. }
  destruct (H links (or_introl eq_refl)) as [->| ->]; [done|]. rewrite List.filter_app, Hkeep. cbn.
  by rewrite bool_decide_eq_true_2, app_nil_r.
Qed.

(** The vacancies of the bare stack stand in the running one, those released
    apart, and those the copy releases are the bare stack's and no other copy's. *)
Definition vacancies_stand (existing bare : list Deployment) (released : Slots) (c : ComposedCopy) : Prop :=
  (∀ id slot v i, (id, slot, v) ∈ vacancies_of bare → (id, slot) ∉ released →
     i ∈ instances_of existing → li_instance_id i = id →
     li_links i !! slot = Some v ∨ ∃ s, li_links i !! slot = Some (Bound s)) ∧
  (∀ i slot r, i ∈ instances_of existing → li_links i !! slot = Some (Vacant r) →
     (li_instance_id i, slot) ∈ released_vacancies c →
     (li_instance_id i, slot) ∉ released ∧ (li_instance_id i, slot, Vacant r) ∈ vacancies_of bare).

Lemma restore_all existing bare released c ds :
  NoDup (ids_of existing) → vacancies_stand existing bare released c →
  ds_rel (given_back (released_vacancies c)) existing ds → restore_vacancies ds bare released = existing.
Proof.
  intros Hnd [Hv Hr] Hrel. unfold restore_vacancies.
  destruct (restores_given_back existing (List.filter
    (λ '(instance, slot, _), negb (bool_decide ((instance, slot) ∈ released))) (vacancies_of bare)) Hnd) with
    (released_vacancies c) ds as (open & Hrel' & Hopen); [|done|].
  - intros [[id slot] v] i [Hin%list_elem_of_In Hnot%negb_true_iff%bool_decide_eq_false]%list_elem_of_In%List.filter_In Hi Hid.
    cbn in *. by apply (Hv id slot v i).
  - apply ds_rel_eq. eapply ds_rel_impl; [exact Hrel'|]. intros i j Hi Hij. apply (given_back_nothing open); [done|].
    intros slot r Hvac [Hrel2 Hnot]%Hopen. destruct (Hr i slot r Hi Hvac Hrel2) as [Hnr Hin]. apply Hnot.
    apply elem_of_map. exists (li_instance_id i, slot, Vacant r). split; [done|].
    apply list_elem_of_In, List.filter_In. split; [by apply list_elem_of_In|].
    by rewrite bool_decide_eq_false_2.
Qed.

(** ** What a plan reads back as *)

Lemma validate_flat_read `{Serde} d d' :
  (∀ d r, reread d = Ok r → r = as_document d) → validate_flat d = Ok d' →
  d' = as_document d ∧ cross_check_flat_document (la_deployments d') (la_core_nodes d') = Ok tt.
Proof.
  intros Hread. unfold validate_flat. rewrite result_bind_ok. intros (r & Hr & Hv).
  destruct (reread d) as [r'|] eqn:E; [|done]. injection Hr as <-. apply Hread in E as ->.
  apply result_bind_ok in Hv as (? & _ & Hv). by apply result_bind_ok in Hv as ([] & ? & [= <-]).
Qed.

Lemma document_instances ds :
  instances_of (map deployment_document ds) = map instance_document (instances_of ds).
Proof. unfold instances_of. induction ds as [|d ds IH]; [done|]. cbn. by rewrite IH, map_app. Qed.

Lemma document_merge ds d :
  map deployment_document (merge_deployment ds d) =
  merge_deployment (map deployment_document ds) (deployment_document d).
Proof.
  unfold merge_deployment. cbn [dp_source deployment_document]. rewrite existsb_map.
  change (λ x, same_source (dp_source d) (deployment_document x)) with (same_source (dp_source d)).
  destruct (existsb (same_source (dp_source d)) ds) eqn:E; [|by rewrite map_app]. clear E.
  induction ds as [|e ds IH]; [done|]. cbn. destruct (same_source (dp_source d) e) eqn:Es.
  - unfold same_source in *. cbn. rewrite Es. cbn. f_equal. unfold deployment_document. cbn. by rewrite map_app.
  - unfold same_source in *. cbn. rewrite Es. cbn. by rewrite IH.
Qed.

Lemma document_merges new ds :
  map deployment_document (fold_left merge_deployment new ds) =
  fold_left merge_deployment (map deployment_document new) (map deployment_document ds).
Proof. revert ds. induction new as [|d new IH]; intros ds; [done|]. cbn. by rewrite IH, document_merge. Qed.

(** A plan that reads back as it is still does so once copies joined its sets
    and released its vacancies. *)
Lemma joined_document members dropped released i j :
  joined members dropped released i j → instance_document i = i → instance_document j = j.
Proof.
  intros [Hl Hslots] Hi. unfold links_only in Hl. unfold instance_document.
  assert (Heq : link_document <$> li_links j = li_links j); [|by rewrite Heq; destruct j].
  apply map_eq. intros slot. rewrite lookup_fmap. specialize (Hslots slot).
  assert (His : link_document <$> (li_links i !! slot) = li_links i !! slot).
  { rewrite <- lookup_fmap. f_equal. by apply (f_equal li_links) in Hi. }
  unfold slot_joined in Hslots. destruct (li_links i !! slot) as [[[t|a|ts]|r]|]; cbn in His; simplify_eq.
  - destruct Hslots as [_ [-> |(_ & -> & _)]]; done.
  - by destruct Hslots as (added & -> & _).
  - destruct Hslots as [_ [-> |(_ & -> & _)]]; done.
  - destruct Hslots as [_ [-> |(_ & -> & _)]]; done.
Qed.

Lemma joined_documents members dropped released ds ds' :
  ds_rel (joined members dropped released) ds ds' → map deployment_document ds = ds →
  map deployment_document ds' = ds'.
Proof.
  induction 1 as [|d e ds ds' [Hsrc Hi] _ IH]; intros E; [done|]. cbn in *. injection E as Ed Eds. f_equal; [|auto].
  destruct e as [src js]. unfold deployment_document in *. cbn in *. f_equal. destruct d as [src0 ks]. cbn in *.
  injection Ed as Eis. clear -Hi Eis. induction Hi as [|i j ks js Hij _ IH]; [done|]. cbn in *. injection Eis as Ei Eis.
  f_equal; [by eapply joined_document|auto].
Qed.

Lemma attach_adds `{Serde} existing c joined :
  (∀ d r, reread d = Ok r → r = as_document d) → attach existing c = Ok joined →
  ∃ ds, fold_result (attach_entry c) (cc_stack_writes c) (la_deployments existing) = Ok ds ∧
    (∀ i, i ∈ cc_instances c → ci_instance_id i ∉ ids_of ds) ∧
    joined = as_document (with_plan existing (fold_left merge_deployment (cc_deployments c) ds)
               (fold_left add_core_node_link (cc_core_nodes c) (la_core_nodes existing))).
Proof.
  intros Hread. unfold attach. rewrite result_bind_ok. intros (ds & Hds & Hv). exists ds. split; [done|].
  apply result_bind_ok in Hv as ([ds' cn] & Hadd & Hv). unfold add_copy in Hadd.
  destruct (List.find _ _) eqn:Hfind; [done|]. injection Hadd as <- <-.
  apply (validate_flat_read _ _ Hread) in Hv as [-> _].
  split; [|done]. intros i Hi. apply find_None_forall with (x := i) in Hfind; [|done].
  by apply bool_decide_eq_false in Hfind.
Qed.

(** C5: A join, undone by the removal of the copy, gives back the stack. A copy
    composed over the stack and attached to a running plan, then detached, leaves
    the plan as it was, deployments, links, vacancies and core node links, and
    neither panic of [detach] fires: provided the plan is a valid one with one
    instance per id and no empty deployment, the copy joins sets that were there
    (not a slot that was absent), brings no core node link but its name, and the
    vacancies of the bare stack stand; where the text of a document reads back as
    the document, a set of links given by flags as an array. *)
Theorem join_then_remove `{Serde} l stack bare rq existing c joined flat released :
  (∀ d r, reread d = Ok r → r = as_document d) →
  validate_flat existing = Ok existing →
  NoDup (ids_of (la_deployments existing)) →
  (∀ d, d ∈ la_deployments existing → dp_instances d ≠ []) →
  compose_copy l stack bare rq (la_core_nodes existing) = Ok c →
  joins_sets (la_deployments existing) (cc_stack_writes c) →
  (∀ link, link ∈ cc_core_nodes c → link = rq_name rq ∨ link ∈ la_core_nodes existing) →
  vacancies_stand (la_deployments existing) (la_deployments flat) released c →
  attach existing c = Ok joined →
  detach joined (record c) flat released = Ok existing.
Proof.
  intros Hread Hvalid Hnd Hne Hcopy Hsets Hlinks Hvac Hattach.
  destruct (validate_flat_read _ _ Hread Hvalid) as [Hdoc Hcross].
  apply compose_copy_facts in Hcopy as (owned & minted & ex & Htaken & Hname & _ & _ & _ & _ & _ & _ & Hlen & Hall & _).
  destruct (copy_ids _ _ _ _ _ Hall Hlen) as (Hci & _). fold (ids_of (cc_deployments c)) in Hci.
  apply (attach_adds _ _ _ Hread) in Hattach as (ds & Hds & Hfresh & ->).
  apply attach_writes_ok in Hds as [Hrel Hmem]; [|done|done].
  pose proof (ds_rel_ids _ _ _ (joined_id _ _ _) Hrel) as Hids.
  pose proof (joined_documents _ _ _ _ _ Hrel (eq_sym (f_equal la_deployments Hdoc))) as Hsame.
  assert (Hout : ∀ id, id ∈ map ci_instance_id (cc_instances c) → id ∉ ids_of (la_deployments existing)).
  { intros id (i & -> & Hi)%elem_of_map. rewrite <- Hids. by apply Hfresh. }
  unfold detach, copy_instance_ids, record. cbn [st_instances st_set_members st_name la_deployments la_core_nodes with_plan as_document].
  rewrite document_merges, Hsame, without_merges, without_none; cycle 1.
  { intros i Hi Hin%Hout. apply Hin. rewrite <- Hids. by apply (list_elem_of_fmap_2 li_instance_id). }
  { intros d (n & Hn)%list_elem_of_lookup. destruct (Forall2_lookup_r _ _ _ _ _ Hrel Hn) as (d0 & Hd0 & _ & Hi).
    apply list_elem_of_lookup_2, Hne in Hd0. intros Hnil. rewrite Hnil in Hi. by inversion Hi. }
  { intros i. rewrite document_instances, Hci. intros (i' & -> & Hi)%list_elem_of_fmap.
    apply (list_elem_of_fmap_2 li_instance_id _ _ Hi). }
  destruct (drop_members_ok _ _ _ Hnd Hmem _ [] ds eq_refl Hrel) as (ds' & -> & Hrel'). cbn [mbind result_bind].
  assert (Hback : ds_rel (given_back (released_vacancies c)) (la_deployments existing) ds').
  { eapply ds_rel_impl; [exact Hrel'|]. intros i j _. apply joined_all_dropped. }
  rewrite (given_back_no_links _ (released_vacancies c) (la_deployments existing) ds'); [|by intros i slot v t; intros; intros Hin%Hout; eapply Hin, cross_check_targets|done].
  rewrite (restore_all _ _ _ c _ Hnd Hvac Hback), Hname, (core_nodes_back (rq_name rq)) by done.
  by destruct existing.
Qed.

(** The copy [left] joins the hub and leaves it. *)
Module JoinSample.
Import CopySample.

Definition after_join : Launcher := match attach flat left_copy with Ok l => l | Err _ => flat end.

Definition hub_inst : LaunchInstance :=
  mk_instance "hub_inst" {["arm" := Vacant "no arm"; "tools" := Bound (Array [])]}.

Lemma writes_are : cc_stack_writes left_copy =
  [mkStackWrite "hub_inst" (ChLinkAdded "tools" "left_arm_inst");
   mkStackWrite "hub_inst" (ChLinkRemoved "arm" (Vacant "no arm"))].
Proof. vm_compute. done. Qed.

Lemma only_hub i : i ∈ instances_of (la_deployments flat) → i = hub_inst.
Proof. intros Hi. by apply list_elem_of_singleton in Hi. Qed.

Lemma joins_the_set : joins_sets (la_deployments flat) (cc_stack_writes left_copy).
Proof.
  intros e slot t i. rewrite writes_are. intros [->|[->|[]%elem_of_nil]%elem_of_cons]%elem_of_cons; cbn; [|done].
  intros [= <- <-] ->%only_hub _. exists []. vm_compute. done.
Qed.

Lemma arm_stands : vacancies_stand (la_deployments flat) (la_deployments flat) ∅ left_copy.
Proof.
  assert (Hv : vacancies_of (la_deployments flat) = [("hub_inst", "arm", Vacant "no arm")]) by (vm_compute; done).
  split; rewrite Hv.
  - intros id slot v i [= -> -> ->]%list_elem_of_singleton _ ->%only_hub _. left. vm_compute. done.
  - intros i slot r ->%only_hub Hslot. unfold released_vacancies. rewrite writes_are. cbn.
    intros [= ->]%list_elem_of_singleton. split; [apply not_elem_of_empty|].
    vm_compute in Hslot. injection Hslot as <-. by left.
Qed.

End JoinSample.

#[local] Existing Instance CopySample.plain_serde.

Lemma join_then_remove_witness :
  ids_of (la_deployments JoinSample.after_join) = ["hub_inst"; "left_arm_inst"] ∧
  detach JoinSample.after_join (record CopySample.left_copy) CopySample.flat ∅ = Ok CopySample.flat.
Proof.
  split; [vm_compute; done|].
  apply (join_then_remove CopySample.launcher [] CopySample.bare CopySample.left_request CopySample.flat
           CopySample.left_copy JoinSample.after_join CopySample.flat ∅).
  - by intros d r [= <-].
  - vm_compute. done.
  - apply NoDup_singleton.
  - by intros d ->%list_elem_of_singleton.
  - vm_compute. done.
  - exact JoinSample.joins_the_set.
  - intros link Hl. left. assert (cc_core_nodes CopySample.left_copy = ["left"]) as Hc by (vm_compute; done).
    rewrite Hc in Hl. by apply list_elem_of_singleton in Hl.
  - exact JoinSample.arm_stands.
  - vm_compute. done.
Defined.
