(* ===== verification/ComposeLaunch.v ===== *)
(** * Launch, join and removal

    [daemon-config-internal/src/launcher/compose/prepared.rs], with the report of
    [compose/report.rs]: a launcher held ready composes a launch of its stack
    and its copies, joins one more copy onto the running stack, and takes one
    out. *)

From stdpp Require Import sorting.
From S2P Require Import Prelude Names RestartPolicy Config PairingRegistry Supervision LaunchTypes PairPlan ObservePlan Clocks Compose ComposeSelect ComposeExpand ComposeCopy.
#[local] Open Scope peppy_scope.

Record PreparedLauncher : Type := mkPrepared {
  pr_launcher : Launcher;
  pr_loaded : LoadedComposition;
  pr_label : string;
}.

(** ** The report *)

Record CompositionReport : Type := mkReport {
  rp_selection : UnitSelection;
  rp_copies : list StackCopy;
  rp_part_machines : gmap string PartMachines;
  rp_applied : list AppliedAdjustment;
  rp_skipped : list SkippedAdjustment;
}.

Definition parts_of (r : CompositionReport) (name : string) : PartMachines :=
  default ∅ (rp_part_machines r !! name).

Definition attributed (copy : StackCopy) (origin target : string) : string :=
  if owns_instance copy target || bool_decide (origin = copy_adjustments_origin (st_name copy)) then origin
  else origin +:+ (", copy `" +:+ (st_name copy +:+ "`")).

Definition report_add_copy (r : CompositionReport) (copy : StackCopy) (parts : PartMachines)
    (applied : list AppliedAdjustment) (skipped : list SkippedAdjustment) : CompositionReport :=
  mkReport (rp_selection r) (rp_copies r ++ [copy])
    (if bool_decide (parts = ∅) then rp_part_machines r else <[st_name copy := parts]> (rp_part_machines r))
    (rp_applied r ++
     map (λ e, mkApplied (aa_target e) (aa_change e) (attributed copy (aa_origin e) (aa_target e))) applied)
    (rp_skipped r ++
     map (λ e, mkSkipped (sk_target e) (sk_reason e) (attributed copy (sk_origin e) (sk_target e))) skipped).

Definition absorb (r joined : CompositionReport) : CompositionReport :=
  mkReport (rp_selection r) (rp_copies r ++ rp_copies joined)
    (extend (rp_part_machines r) (rp_part_machines joined))
    (rp_applied r ++ rp_applied joined) (rp_skipped r ++ rp_skipped joined).

Record ComposedLaunch : Type := mkComposedLaunch {
  cl_launcher : Launcher;
  cl_selection : UnitSelection;
  cl_report : CompositionReport;
}.

Record ComposedJoin : Type := mkComposedJoin {
  cj_launcher : Launcher;
  cj_copy : StackCopy;
  cj_report : CompositionReport;
}.

Record JoinRequest : Type := mkJoinRequest {
  jr_option : string;
  jr_name : string;
  jr_words : list SelectionWord;
  jr_arguments : list ArgumentOverride;
}.

Section prepared.
Context `{Serde} (p : PreparedLauncher).

(** ** The stack *)

Definition top_level_origin (key : string) : string := pr_label p +:+ (", top-level `" +:+ (key +:+ "`")).

Definition routed : list Routed := route (pr_launcher p) (pr_loaded p) (pr_label p).

Definition stack_unit (selection : UnitSelection) : Unit :=
  mkUnit (map (λ d, (d, top_level_origin "deployments")) (la_deployments (pr_launcher p)))
    (stack_fragments (pr_loaded p) selection)
    (map (λ r, originated (rt_entry r))
       (List.filter (λ r, selected_in (rt_entry r) selection && bool_decide (rt_copy_axes r = [])) routed))
    [] selection.

(** The adjustments of the stack's options that its copies run. *)
Definition in_copies (selection : UnitSelection) : list SkippedAdjustment :=
  flat_map
    (λ r, map (λ axis, mkSkipped (ad_target (lj_adjustment (rt_entry r))) (RunsInCopies axis) (lj_origin (rt_entry r)))
            (rt_copy_axes r))
    (List.filter (λ r, selected_in (rt_entry r) selection) routed).

Definition compose_stack (selection : UnitSelection) : result CompositionError Expanded :=
  let fragments := stack_fragments (pr_loaded p) selection in
  _ ← check_constraints (constraints_in_play (pr_launcher p) fragments ScopeStack) selection;
  ex ← expand_unit (stack_unit selection) (la_core_nodes (pr_launcher p));
  Ok (mkExpanded (ex_deployments ex) (ex_core_nodes ex) (ex_applied ex) (ex_skipped ex ++ in_copies selection)).

Definition stack_framework (selection : UnitSelection) : result CompositionError LauncherFramework :=
  merge_framework (top_level_origin "framework") (la_framework (pr_launcher p))
    (stack_fragments (pr_loaded p) selection).

Definition flat_stack (selection : UnitSelection) : result CompositionError (Launcher * Expanded) :=
  bare ← compose_stack selection;
  framework ← stack_framework selection;
  flat ← validate_flat (flat_document (pr_launcher p) (ex_deployments bare) (ex_core_nodes bare) framework);
  Ok (flat, bare).

(** ** Copies *)

Definition repeatable_axis_of (option : string) : result CompositionError string :=
  match repeatable_axes (pr_launcher p) with
  | [] => Err NoRepeatableAxis
  | axes => ok_or (ax_name <$> List.find (λ a, has_option a option) axes) (JoinUnknownOption option)
  end.

Definition joined_copy_settings (axis option : string) (with_ : gmap string string) (arguments : ArgumentOverrides) :
    CopySettings :=
  overlaid_by
    (default no_settings
       (entry_settings <$> List.find (λ e, bool_decide (od_axis e = axis) && bool_decide (od_option e = option))
          (la_option_deployments (pr_launcher p))))
    with_ arguments [].

(** A join onto the stack [selection], which runs as [running]; the command that
    asks for it only decides how a refusal names a word. *)
Definition compose_join (rq : JoinRequest) (selection : UnitSelection) (running : Launcher) (origin : WordOrigin) :
    result CompositionError ComposedJoin :=
  axis ← repeatable_axis_of (jr_option rq);
  loaded ← loaded_option (pr_loaded p) axis (jr_option rq);
  '(with_, parts) ← copy_words loaded (jr_name rq) origin (jr_words rq);
  overrides ← argument_overrides (jr_arguments rq);
  let settings := joined_copy_settings axis (jr_option rq) with_ overrides in
  bare ← compose_stack selection;
  copy ← compose_copy (pr_launcher p) selection bare
    (mkCopyRequest axis loaded (jr_name rq) (cs_with settings) parts (cs_arguments settings)
       (cs_adjustments settings) routed)
    (la_core_nodes running);
  launcher ← attach running copy;
  Ok (mkComposedJoin launcher (record copy)
        (report_add_copy (mkReport selection [] ∅ [] []) (record copy) (cc_part_machines copy)
           (against_running running (cc_applied copy)) (cc_skipped copy))).

Definition join (rq : JoinRequest) (selection : UnitSelection) (running : Launcher) :
    result CompositionError ComposedJoin :=
  compose_join rq selection running OriginJoin.

(** ** Launch *)

(** The copies the file lists, each with the entry that lists it. *)
Definition file_copies : list (OptionDeployment * CopyEntry) :=
  flat_map (λ e, map (pair e) (od_instances e)) (la_option_deployments (pr_launcher p)).

Definition scoped_words (scoped : gmap string (list SelectionWord)) (name : string) (loaded : LoadedOption) :
    result CompositionError (gmap string string * PartMachines) :=
  copy_words loaded name OriginLaunch (default [] (scoped !! name)).

Definition launch_copy (selection : UnitSelection) (bare : Expanded) (scoped : gmap string (list SelectionWord))
    (st : list string * list ComposedCopy) (listed : OptionDeployment * CopyEntry) :
    result CompositionError (list string * list ComposedCopy) :=
  let '(taken, copies) := st in
  let '(entry, instance) := listed in
  loaded ← loaded_option (pr_loaded p) (od_axis entry) (od_option entry);
  let settings := settings_for entry instance in
  '(with_, parts) ← scoped_words scoped (ce_instance_id instance) loaded;
  copy ← compose_copy (pr_launcher p) selection bare
    (mkCopyRequest (od_axis entry) loaded (ce_instance_id instance) (extend (cs_with settings) with_) parts
       (cs_arguments settings) (cs_adjustments settings) routed)
    taken;
  Ok (taken ++ cc_core_nodes copy, copies ++ [copy]).

Definition launch_join (selection : UnitSelection) (scoped : gmap string (list SelectionWord))
    (st : Launcher * CompositionReport) (join : CopyReference) :
    result CompositionError (Launcher * CompositionReport) :=
  let '(launcher, report) := st in
  joined ← compose_join (mkJoinRequest (cf_option join) (cf_name join) (default [] (scoped !! cf_name join)) [])
    selection launcher OriginLaunch;
  Ok (cj_launcher joined, absorb report (cj_report joined)).

(** The first axis a launch leaves below its floor. *)
Definition unfilled_axis (copies : list StackCopy) : option ComponentAxis :=
  List.find (λ a, negb (existsb (λ c, bool_decide (st_axis c = ax_name a)) copies))
    (List.filter (λ a, bool_decide (ax_cardinality a = AxisOneOrMore)) (repeatable_axes (pr_launcher p))).

Definition launch (words : list LaunchWord) (joins : list CopyReference) : result CompositionError ComposedLaunch :=
  match la_components (pr_launcher p) with
  | [] =>
      match words, joins with
      | _ :: _, _ => Err WithOnFlatLauncher
      | [], _ :: _ => Err NoRepeatableAxis
      | [], [] => Ok (mkComposedLaunch (pr_launcher p) [] (mkReport [] [] ∅ [] []))
      end
  | _ =>
      '(scoped, stack) ← split_scoped_words (pr_launcher p) words joins;
      selection ← resolve_stack (pr_launcher p) (pr_loaded p) stack;
      bare ← compose_stack selection;
      framework ← stack_framework selection;
      '(_, copies) ← fold_result (launch_copy selection bare scoped) file_copies (ex_core_nodes bare, []);
      launcher ← combine (pr_launcher p) bare framework copies;
      let report :=
        fold_left (λ r c, report_add_copy r (record c) (cc_part_machines c) (cc_applied c) (cc_skipped c)) copies
          (mkReport selection [] ∅ (ex_applied bare) (ex_skipped bare)) in
      '(launcher, report) ← fold_result (launch_join selection scoped) joins (launcher, report);
      match unfilled_axis (rp_copies report) with
      | Some axis =>
          match btree_iter (ax_options axis) with
          | [] => Err (Panics "an axis declares at least one option")
          | _ => Err (CopyAxisUnfilled (ax_name axis))
          end
      | None => Ok (mkComposedLaunch launcher selection report)
      end
  end.

(** ** Removal *)

Definition recompose (selection : UnitSelection) (bare : Expanded) (released : Slots) (c : StackCopy) :
    result CompositionError Slots :=
  loaded ← loaded_option (pr_loaded p) (st_axis c) (st_option c);
  composed ← compose_copy (pr_launcher p) selection bare
    (mkCopyRequest (st_axis c) loaded (st_name c) (own_choices (st_selection c) (st_axis c)) ∅ ∅ [] routed) [];
  Ok (released ∪ list_to_set (released_vacancies composed)).

Definition remove (existing : Launcher) (copy : StackCopy) (selection : UnitSelection) (remaining : list StackCopy) :
    result CompositionError Launcher :=
  match List.find (λ a, bool_decide (ax_name a = st_axis copy) && has_option a (st_option copy))
          (repeatable_axes (pr_launcher p)) with
  | None => Err (CopyOfAnotherLauncher (st_name copy) (st_axis copy) (st_option copy))
  | Some axis =>
      if bool_decide (ax_cardinality axis = AxisOneOrMore) &&
         negb (existsb (λ r, bool_decide (st_axis r = st_axis copy)) remaining)
      then Err (CopyAxisEmptied (st_name copy) (st_axis copy) (st_option copy))
      else
        '(flat, bare) ← flat_stack selection;
        released ← fold_result (recompose selection bare) remaining ∅;
        detach existing copy flat released
  end.

(** ** What a join's parts are *)

Inductive PartRefusal : Type :=
| NotACopyOption
| NoOwnAxis (axes : list string)
| NoOption (options : list string)
| BringsNothing
| PartPanics.

Definition check_part (option axis choice : string) : result PartRefusal unit :=
  match repeatable_axis_of option with
  | Err _ => Err NotACopyOption
  | Ok parent =>
      match loaded_option (pr_loaded p) parent option with
      | Err _ => Err PartPanics
      | Ok loaded =>
          match lo_axis loaded axis with
          | None => Err (NoOwnAxis (map ax_name (lo_axes loaded)))
          | Some own =>
              if negb (has_option own choice) then Err (NoOption (map fst (btree_iter (ax_options own))))
              else if negb (brings_instances loaded axis choice) then Err BringsNothing
              else Ok tt
          end
      end
  end.

(** Every variable name the launcher, its options and its fragments hold. *)
Definition option_entry_adjustments (entries : list OptionDeployment) : list Adjustment :=
  flat_map (λ e, od_adjustments e ++ flat_map ce_adjustments (od_instances e)) entries.

Definition all_fragments : list LoadedFragment :=
  flat_map (λ '(_, options), flat_map (λ '(_, o), lo_all_fragments o) (btree_iter options)) (btree_iter (pr_loaded p)).

Definition launch_variable_names : gset string :=
  let l := pr_launcher p in
  let adjustments :=
    la_adjustments l ++
    flat_map (λ a, flat_map (λ '(_, spec), os_adjustments spec) (btree_iter (ax_options a))) (la_components l) ++
    option_entry_adjustments (la_option_deployments l) ++
    flat_map (λ f, fg_adjustments (lf_body f) ++ option_entry_adjustments (fg_option_deployments (lf_body f)))
      all_fragments in
  let instances :=
    instances_of (la_deployments l) ++ flat_map (λ f, instances_of (fg_deployments (lf_body f))) all_fragments in
  ⋃ (omap ad_set_env_from_launch adjustments ++ map li_env_from_launch instances).

End prepared.

(** ** A hub and its copies *)

Module LaunchSample.
Export CopySample.

Definition prepared : PreparedLauncher := mkPrepared launcher loaded "hub.json5".

Definition left_arm : CopyReference := mkCopyReference "real" "left" Coordinator.
Definition eye : CopyReference := mkCopyReference "cam" "eye" Coordinator.

(** The slot [arm] of the hub in a composed launch. *)
Definition arm_slot (l : Launcher) : option LinkValue :=
  i ← find_instance (la_deployments l) "hub_inst"; li_links i !! "arm".

End LaunchSample.
