(* ===== verification/ComposeRuns.v ===== *)
(** * The stacks a launcher can run

    Launch, join and removal of [compose/prepared.rs] in any order, the way
    [core-node-internal/src/services/stack/copies] drives them: every plan they
    reach runs each instance once, each copy on its own link, and no axis below
    its floor. *)

From stdpp Require Import sorting.
From S2P Require Import Prelude Names RestartPolicy Config PairingRegistry Supervision LaunchTypes PairPlan ObservePlan Clocks Compose ComposeSelect ComposeExpand ComposeCopy ComposeMint ComposeJoin ComposeLaunch.
#[local] Open Scope peppy_scope.

(** ** Plans *)

Record plan_ok (ds : list Deployment) (core_nodes : list string) (copies : list StackCopy) : Prop := {
  po_ids : NoDup (ids_of ds);
  po_names : NoDup (map st_name copies);
  po_links : ∀ c, c ∈ copies → st_name c ∈ core_nodes;
  po_runs : ∀ c id, c ∈ copies → id ∈ copy_instance_ids c → id ∈ ids_of ds;
  po_placed : ∀ c i, c ∈ copies → i ∈ instances_of ds → li_instance_id i ∈ copy_instance_ids c →
    li_core_node i = Some (st_name c);
}.

Lemma rel_ids ds ds' : ds_rel same_instance ds ds' → ids_of ds' = ids_of ds.
Proof. apply ds_rel_ids. by intros i j (? & _). Qed.

Lemma plan_ok_rel ds ds' core_nodes copies :
  ds_rel same_instance ds ds' → plan_ok ds core_nodes copies → plan_ok ds' core_nodes copies.
Proof.
  intros Hrel [Hids Hnames Hlinks Hruns Hplaced]. pose proof (rel_ids _ _ Hrel) as Heq. split; rewrite ?Heq; try done.
  intros c j Hc Hj Hid. apply list_elem_of_lookup in Hj as [n Hn]. apply ds_rel_instances in Hrel.
  destruct (Forall2_lookup_r _ _ _ _ _ Hrel Hn) as (i & Hi & (Hii & _ & Hcn)). rewrite Hcn.
  apply Hplaced; [done|by eapply list_elem_of_lookup_2|by rewrite <- Hii].
Qed.

Lemma merges_instances new ds :
  instances_of (fold_left merge_deployment new ds) ≡ₚ instances_of ds ++ instances_of new.
Proof.
  revert ds. induction new as [|d new IH]; intros ds; cbn [fold_left]; [by rewrite app_nil_r|].
  rewrite IH, <- placed_instances, merge_placed, map_app, !placed_instances. unfold instances_of. cbn.
  by rewrite app_nil_r, <- app_assoc.
Qed.

Lemma merges_ids new ds :
  ids_of (fold_left merge_deployment new ds) ≡ₚ ids_of ds ++ ids_of new.
Proof. unfold ids_of. by rewrite merges_instances, map_app. Qed.

(** A copy taken into a plan that does not run its instances or use its name. *)
Lemma plan_ok_add ds core_nodes copies c :
  plan_ok ds core_nodes copies → copy_wf c → cc_name c ∉ map st_name copies →
  (∀ i, i ∈ cc_instances c → ci_instance_id i ∉ ids_of ds) →
  plan_ok (fold_left merge_deployment (cc_deployments c) ds)
    (fold_left add_core_node_link (cc_core_nodes c) core_nodes) (copies ++ [record c]).
Proof.
  intros [Hids Hnames Hlinks Hruns Hplaced] (Hci & Hnd & Hpl & Hcn) Hnew Hfresh.
  assert (Hdisj : ∀ id, id ∈ ids_of (cc_deployments c) → id ∉ ids_of ds).
  { intros id. rewrite <- Hci. intros (i & -> & Hi)%elem_of_map. by apply Hfresh. }
  assert (Hold : ∀ d i, d ∈ copies → i ∈ instances_of (cc_deployments c) → li_instance_id i ∈ copy_instance_ids d → False).
  { intros d i Hd Hi Hid. apply (Hdisj (li_instance_id i)); [by apply (list_elem_of_fmap_2 li_instance_id)|].
    by apply (Hruns d). }
  split.
  - rewrite merges_ids. apply NoDup_app. split; [done|]. split; [|done]. intros id Hid Hid'. by apply (Hdisj id).
  - rewrite map_app. apply NoDup_app. split; [done|]. split; [|apply NoDup_singleton].
    by intros x Hx ->%list_elem_of_singleton.
  - intros d [Hd| ->%list_elem_of_singleton]%elem_of_app; apply core_node_links; [left; auto|by right].
  - intros d id [Hd| ->%list_elem_of_singleton]%elem_of_app Hid; rewrite merges_ids, elem_of_app;
      [left; eauto|right; by rewrite <- Hci].
  - intros d i [Hd| ->%list_elem_of_singleton]%elem_of_app; rewrite merges_instances, elem_of_app; intros [Hi|Hi] Hid.
    + by apply Hplaced.
    + by destruct (Hold d i).
    + exfalso. unfold copy_instance_ids in Hid. cbn in Hid. rewrite Hci in Hid. apply (Hdisj _ Hid).
      by apply (list_elem_of_fmap_2 li_instance_id).
    + by apply Hpl.
Qed.

(** ** What a write keeps *)

Lemma with_links_same i links : same_instance i (with_links i links).
Proof. done. Qed.

Lemma apply_write_same i write origin i' : apply_write i write origin = Ok i' → same_instance i i'.
Proof.
  destruct write; cbn [apply_write]; try (by intros [= <-]).
  rewrite result_bind_ok. by intros (? & _ & [= <-]).
Qed.

Lemma attach_write_same c i e i' : attach_write c i e = Ok i' → same_instance i i'.
Proof.
  unfold attach_write.
  destruct (sw_write e) as [| |slot t|slot old| | | |] eqn:Hw; try (destruct (bool_decide _); [by intros [= <-]|done]).
  - destruct (owns c t); [apply apply_write_same|done].
  - destruct (li_links i !! slot) as [[s|r]|]; [done| |by intros [= <-]].
    destruct (pairs_into _ _ _); [by intros [= <-]|done].
Qed.

Lemma drop_member_same m i i' : drop_member m i = Ok i' → same_instance i i'.
Proof.
  unfold drop_member. destruct (li_links i !! _) as [[[?|ts|?]|?]|]; try done.
  rewrite result_bind_ok. by intros (? & _ & [= <-]).
Qed.

(** One instance replaced by one that differs in what a launch may adjust. *)
Lemma put_same ds0 ds id i new :
  NoDup (ids_of ds0) → ds_rel same_instance ds0 ds → find_instance ds id = Some i → same_instance i new →
  ds_rel same_instance ds0 (put_instance ds id new).
Proof.
  intros Hnd Hrel Hfind Hs. eapply put_rel; [|exact Hnd|exact Hrel|exact Hfind| |].
  - by intros j k (? & _).
  - intros j _ Hj. by etransitivity.
  - done.
Qed.

Lemma ds_rel_same_refl ds : ds_rel same_instance ds ds.
Proof. by apply ds_rel_refl. Qed.

Lemma attach_writes_same c ds ds' :
  NoDup (ids_of ds) → fold_result (attach_entry c) (cc_stack_writes c) ds = Ok ds' → ds_rel same_instance ds ds'.
Proof.
  intros Hnd. apply (fold_result_prefix _ (λ _ ds', ds_rel same_instance ds ds')); [apply ds_rel_same_refl|].
  intros _ e ds1 ds2 _ Hrel. unfold attach_entry. rewrite result_bind_ok. intros (i & Hf%ok_or_ok & H).
  apply result_bind_ok in H as (i' & Hw%attach_write_same & [= <-]). by eapply put_same.
Qed.

Lemma drop_members_same members ds ds' :
  NoDup (ids_of ds) → fold_result drop_member_of members ds = Ok ds' → ds_rel same_instance ds ds'.
Proof.
  intros Hnd. apply (fold_result_prefix _ (λ _ ds', ds_rel same_instance ds ds')); [apply ds_rel_same_refl|].
  intros _ m ds1 ds2 _ Hrel. unfold drop_member_of. rewrite result_bind_ok. intros (i & Hf%ok_or_ok & H).
  apply result_bind_ok in H as (i' & Hw%drop_member_same & [= <-]). by eapply put_same.
Qed.

Lemma restores_same vacancies ds0 ds :
  NoDup (ids_of ds0) → ds_rel same_instance ds0 ds →
  ds_rel same_instance ds0 (fold_left restore_vacancy vacancies ds).
Proof.
  intros Hnd. revert ds. induction vacancies as [|[[id slot] v] vacancies IH]; intros ds Hrel; [done|]. cbn [fold_left].
  apply IH. unfold restore_vacancy. destruct (find_instance ds id) as [i|] eqn:Hf; [|done].
  eapply put_same; [done|done|exact Hf|]. unfold or_insert. by destruct (li_links i !! slot).
Qed.

Section runs.
Context `{Serde}.
Context (reads_back : ∀ d r, reread d = Ok r → r = as_document d).

Lemma document_same ds : ds_rel same_instance ds (map deployment_document ds).
Proof.
  induction ds as [|d ds IH]; constructor; [|done]. split; [done|]. cbn.
  induction (dp_instances d) as [|i l IHl]; by constructor.
Qed.

Lemma validate_flat_ok d d' copies :
  plan_ok (la_deployments d) (la_core_nodes d) copies → validate_flat d = Ok d' →
  plan_ok (la_deployments d') (la_core_nodes d') copies.
Proof.
  intros Hok [-> _]%(validate_flat_read _ _ reads_back). cbn. eapply plan_ok_rel; [apply document_same|done].
Qed.

(** ** Copies at launch *)

Lemma combine_write_same copy ds0 ds claims e ds' claims' :
  NoDup (ids_of ds0) → ds_rel same_instance ds0 ds →
  combine_write copy (ds, claims) e = Ok (ds', claims') → ds_rel same_instance ds0 ds'.
Proof.
  intros Hnd Hrel. unfold combine_write. rewrite result_bind_ok. intros (? & _ & Hw).
  apply result_bind_ok in Hw as (i & Hf%ok_or_ok & Hw).
  apply result_bind_ok in Hw as (i' & Ha%apply_write_same & [= <- _]). by eapply put_same.
Qed.

Lemma combine_writes_same copy writes ds claims ds' claims' :
  NoDup (ids_of ds) → fold_result (combine_write copy) writes (ds, claims) = Ok (ds', claims') →
  ds_rel same_instance ds ds'.
Proof.
  intros Hnd Hf. refine (fold_result_prefix (combine_write copy) (λ _ st, ds_rel same_instance ds st.1)
    _ _ (ds', claims') _ _ Hf); [apply ds_rel_same_refl|].
  intros _ e [ds1 c1] [ds2 c2] _ Hrel. by apply combine_write_same.
Qed.

Lemma add_copy_ok ds core_nodes copies c ds' core_nodes' :
  plan_ok ds core_nodes copies → copy_wf c → cc_name c ∉ map st_name copies →
  add_copy ds core_nodes c = Ok (ds', core_nodes') → plan_ok ds' core_nodes' (copies ++ [record c]).
Proof.
  intros Hok Hwf Hnew. unfold add_copy. destruct (List.find _ _) eqn:Hf; [done|]. intros [= <- <-].
  apply plan_ok_add; [done..|]. intros i Hi. apply find_None_forall with (x := i) in Hf; [|done].
  by apply bool_decide_eq_false in Hf.
Qed.

Lemma combine_ok l bare framework copies launcher :
  NoDup (ids_of (ex_deployments bare)) → Forall copy_wf copies → NoDup (map cc_name copies) →
  combine l bare framework copies = Ok launcher →
  plan_ok (la_deployments launcher) (la_core_nodes launcher) (map record copies).
Proof.
  intros Hnd Hwf Hnames. unfold combine. rewrite result_bind_ok. intros ([[ds cn] claims] & Hf & Hv).
  refine (validate_flat_ok _ _ _ _ Hv). cbn. refine (fold_result_steps combine_copy (λ done st, plan_ok st.1.1 st.1.2 (map record done))
    copies (ex_deployments bare, ex_core_nodes bare, ∅) (ds, cn, claims) _ _ Hf).
  - split; cbn; try done; try (intros ? * ?%elem_of_nil; done). constructor.
  - intros done c rest [[ds1 cn1] cl1] [[ds2 cn2] cl2] Hl Hok. cbn [fst] in *. unfold combine_copy.
    rewrite result_bind_ok. intros ([ds3 cl3] & Hw & Hadd). apply result_bind_ok in Hadd as ([ds4 cn4] & Hadd & [= <- <- _]).
    apply combine_writes_same in Hw; [|apply Hok]. apply (plan_ok_rel _ _ _ _ Hw) in Hok.
    rewrite map_app. eapply add_copy_ok; [exact Hok| | |exact Hadd].
    + rewrite Forall_forall in Hwf. apply Hwf. rewrite Hl. apply elem_of_app. right. left.
    + rewrite map_map. cbn. rewrite Hl, map_app in Hnames. apply NoDup_app in Hnames as (_ & Hdisj & _).
      intros Hin. apply (Hdisj _ Hin). left.
Qed.

Lemma attach_ok existing copies c joined :
  plan_ok (la_deployments existing) (la_core_nodes existing) copies → copy_wf c → cc_name c ∉ la_core_nodes existing →
  attach existing c = Ok joined →
  plan_ok (la_deployments joined) (la_core_nodes joined) (copies ++ [record c]).
Proof.
  intros Hok Hwf Hnew. unfold attach. rewrite result_bind_ok. intros (ds & Hds & Hrest).
  apply result_bind_ok in Hrest as ([ds' cn] & Hadd & Hv). refine (validate_flat_ok _ _ _ _ Hv). cbn.
  apply attach_writes_same in Hds; [|apply Hok]. eapply add_copy_ok; [exact (plan_ok_rel _ _ _ _ Hds Hok)|done| |exact Hadd].
  intros (d & Hd & Hin)%elem_of_map. apply Hnew. rewrite Hd. by apply (po_links _ _ _ Hok).
Qed.

(** ** Copies at removal *)

Definition without_copy (c : StackCopy) (copies : list StackCopy) : list StackCopy :=
  List.filter (λ d, negb (bool_decide (st_name d = st_name c))) copies.

Lemma elem_of_without c copies d : d ∈ without_copy c copies ↔ d ∈ copies ∧ st_name d ≠ st_name c.
Proof.
  unfold without_copy. rewrite !list_elem_of_In, List.filter_In, negb_true_iff, bool_decide_eq_false. done.
Qed.

Lemma without_instances_of removed ds :
  instances_of (without_instances removed ds) =
  List.filter (λ i, negb (bool_decide (li_instance_id i ∈ removed))) (instances_of ds).
Proof.
  unfold instances_of, without_instances. induction ds as [|d ds IH]; [done|]. cbn. rewrite List.filter_app, <- IH.
  by destruct (List.filter _ (dp_instances d)) eqn:Hf; cbn.
Qed.

Lemma plan_ok_without ds core_nodes copies c :
  plan_ok ds core_nodes copies → c ∈ copies →
  plan_ok (without_instances (copy_instance_ids c) ds)
    (List.filter (λ link, negb (bool_decide (link = st_name c))) core_nodes) (without_copy c copies).
Proof.
  intros [Hids Hnames Hlinks Hruns Hplaced] Hc. split.
  - unfold ids_of. rewrite without_instances_of. by apply NoDup_map_filter.
  - by apply NoDup_map_filter.
  - intros d [Hd Hne]%elem_of_without. apply list_elem_of_In, List.filter_In.
    split; [apply list_elem_of_In; auto|by rewrite bool_decide_eq_false_2].
  - intros d id [Hd Hne]%elem_of_without Hid. unfold ids_of. rewrite without_instances_of.
    destruct (proj1 (elem_of_map _ _ _) (Hruns d id Hd Hid)) as (i & -> & Hi).
    apply elem_of_map. exists i. split; [done|]. apply list_elem_of_In, List.filter_In.
    split; [by apply list_elem_of_In|]. rewrite bool_decide_eq_false_2; [done|]. intros Hin.
    pose proof (Hplaced d i Hd Hi Hid). pose proof (Hplaced c i Hc Hi Hin). congruence.
  - intros d i [Hd _]%elem_of_without. rewrite without_instances_of.
    intros [Hi%list_elem_of_In _]%list_elem_of_In%List.filter_In. by apply Hplaced.
Qed.

Lemma detach_ok existing copies c flat released l :
  plan_ok (la_deployments existing) (la_core_nodes existing) copies → c ∈ copies →
  detach existing c flat released = Ok l →
  plan_ok (la_deployments l) (la_core_nodes l) (without_copy c copies).
Proof.
  intros Hok Hc. apply (plan_ok_without _ _ _ _ Hok) in Hc. unfold detach. rewrite result_bind_ok.
  intros (ds & Hdrop & Hrest). apply drop_members_same in Hdrop; [|apply Hc].
  destruct (links_into _ _); [|done]. refine (validate_flat_ok _ _ _ _ Hrest). cbn.
  eapply plan_ok_rel; [|exact Hc]. apply restores_same; [apply Hc|done].
Qed.

(** ** The stacks reached *)

Context (p : PreparedLauncher).

(** The plan, the selection and the copies of a launch and of the joins and
    removals after it. *)
Inductive running : Launcher → UnitSelection → list StackCopy → Prop :=
| running_launch words joins r :
    launch p words joins = Ok r → running (cl_launcher r) (cl_selection r) (rp_copies (cl_report r))
| running_join l s copies rq j :
    running l s copies → join p rq s l = Ok j → running (cj_launcher j) s (copies ++ [cj_copy j])
| running_remove l s copies c l' :
    running l s copies → c ∈ copies → remove p l c s (without_copy c copies) = Ok l' →
    running l' s (without_copy c copies).

(** Each axis that needs a copy has one. *)
Definition floors (copies : list StackCopy) : Prop :=
  ∀ a, a ∈ repeatable_axes (pr_launcher p) → ax_cardinality a = AxisOneOrMore →
  ∃ c, c ∈ copies ∧ st_axis c = ax_name a.

Lemma compose_stack_ids selection bare : compose_stack p selection = Ok bare → NoDup (ids_of (ex_deployments bare)).
Proof.
  unfold compose_stack. rewrite result_bind_ok. intros (? & _ & Hrest).
  apply result_bind_ok in Hrest as (ex & Hex & [= <-]). by apply expand_unit_ids in Hex as [? _].
Qed.

Lemma launch_copies_ok selection bare scoped listed taken0 taken copies :
  fold_result (launch_copy p selection bare scoped) listed (taken0, []) = Ok (taken, copies) →
  Forall copy_wf copies ∧ NoDup (map cc_name copies).
Proof.
  intros Hf. enough (Forall copy_wf copies ∧ NoDup (map cc_name copies) ∧ ∀ c, c ∈ copies → cc_name c ∈ taken) by tauto.
  refine (fold_result_prefix (launch_copy p selection bare scoped) (λ _ st, Forall copy_wf st.2 ∧
    NoDup (map cc_name st.2) ∧ ∀ c, c ∈ st.2 → cc_name c ∈ st.1) listed (taken0, []) (taken, copies) _ _ Hf).
  - split; [constructor|]. split; [constructor|by intros c ?%elem_of_nil].
  - intros _ [entry inst] [tk cs] [tk' cs'] _ (Hwf & Hnd & Hin). cbn [fst snd] in *. unfold launch_copy.
    rewrite result_bind_ok. intros (loaded & _ & Hrest). apply result_bind_ok in Hrest as ([w parts] & _ & Hrest).
    apply result_bind_ok in Hrest as (c & (Hc & _ & Hnew)%compose_copy_wf & [= <- <-]). split; [|split].
    + apply Forall_app. split; [done|]. by apply Forall_singleton.
    + rewrite map_app. apply NoDup_app. split; [done|]. split; [|apply NoDup_singleton].
      intros x (d & -> & Hd)%elem_of_map Hx%list_elem_of_singleton. apply Hnew. rewrite <- Hx. by apply Hin.
    + intros d [Hd| ->%list_elem_of_singleton]%elem_of_app; apply elem_of_app; [left; auto|right; apply Hc].
Qed.

Lemma compose_join_ok rq s l origin j copies :
  plan_ok (la_deployments l) (la_core_nodes l) copies → compose_join p rq s l origin = Ok j →
  plan_ok (la_deployments (cj_launcher j)) (la_core_nodes (cj_launcher j)) (copies ++ [cj_copy j]) ∧
  rp_copies (cj_report j) = [cj_copy j].
Proof.
  intros Hok. unfold compose_join. rewrite result_bind_ok. intros (axis & _ & Hrest).
  apply result_bind_ok in Hrest as (loaded & _ & Hrest). apply result_bind_ok in Hrest as ([w parts] & _ & Hrest).
  apply result_bind_ok in Hrest as (overrides & _ & Hrest). apply result_bind_ok in Hrest as (bare & _ & Hrest).
  apply result_bind_ok in Hrest as (c & (Hc & _ & Hnew)%compose_copy_wf & Hrest).
  apply result_bind_ok in Hrest as (launcher & Hat & [= <-]). cbn. split; [by eapply attach_ok|done].
Qed.

Lemma report_copies copies r :
  rp_copies (fold_left (λ r c, report_add_copy r (record c) (cc_part_machines c) (cc_applied c) (cc_skipped c)) copies r) =
  rp_copies r ++ map record copies.
Proof.
  revert r. induction copies as [|c copies IH]; intros r; cbn; [by rewrite app_nil_r|]. rewrite IH. cbn.
  by rewrite <- app_assoc.
Qed.

Lemma launch_joins_ok selection scoped joins l report l' report' :
  plan_ok (la_deployments l) (la_core_nodes l) (rp_copies report) →
  fold_result (launch_join p selection scoped) joins (l, report) = Ok (l', report') →
  plan_ok (la_deployments l') (la_core_nodes l') (rp_copies report').
Proof.
  intros Hok Hf. refine (fold_result_prefix (launch_join p selection scoped)
    (λ _ st, plan_ok (la_deployments st.1) (la_core_nodes st.1) (rp_copies st.2)) joins (l, report) (l', report') _ _ Hf);
    [done|].
  intros _ j [l1 r1] [l2 r2] _ Hok1. cbn [fst snd] in *. unfold launch_join. rewrite result_bind_ok.
  intros (joined & Hj & [= <- <-]). apply (compose_join_ok _ _ _ _ _ _ Hok1) in Hj as [Hok2 Hr]. cbn. by rewrite Hr.
Qed.

Lemma unfilled_none copies : unfilled_axis p copies = None → floors copies.
Proof.
  intros Hf a Ha Hc. unfold unfilled_axis in Hf. apply find_None_forall with (x := a) in Hf; cycle 1.
  { apply list_elem_of_In, List.filter_In. split; [by apply list_elem_of_In|by apply bool_decide_eq_true]. }
  apply negb_false_iff, existsb_exists in Hf as (c & Hin & Hax%bool_decide_eq_true). exists c.
  split; [by apply list_elem_of_In|done].
Qed.

Lemma launch_ok words joins r :
  la_components (pr_launcher p) ≠ [] → launch p words joins = Ok r →
  plan_ok (la_deployments (cl_launcher r)) (la_core_nodes (cl_launcher r)) (rp_copies (cl_report r)) ∧
  floors (rp_copies (cl_report r)).
Proof.
  intros Hne. unfold launch. destruct (la_components (pr_launcher p)) as [|a axes]; [done|]. rewrite result_bind_ok.
  intros ([scoped stack] & _ & Hrest). apply result_bind_ok in Hrest as (selection & _ & Hrest).
  apply result_bind_ok in Hrest as (bare & Hbare%compose_stack_ids & Hrest).
  apply result_bind_ok in Hrest as (framework & _ & Hrest).
  apply result_bind_ok in Hrest as ([taken copies] & [Hwf Hnames]%launch_copies_ok & Hrest).
  apply result_bind_ok in Hrest as (launcher & Hcomb & Hrest). apply (combine_ok _ _ _ _ _ Hbare Hwf Hnames) in Hcomb.
  apply result_bind_ok in Hrest as ([l' report'] & Hjoins & Hrest). apply launch_joins_ok in Hjoins; [|by rewrite report_copies].
  destruct (unfilled_axis p (rp_copies report')) as [axis|] eqn:Hun; [by destruct (btree_iter _)|].
  injection Hrest as <-. split; [done|]. by apply unfilled_none.
Qed.

Lemma remove_ok l s copies c l' :
  NoDup (map ax_name (la_components (pr_launcher p))) →
  plan_ok (la_deployments l) (la_core_nodes l) copies → floors copies → c ∈ copies →
  remove p l c s (without_copy c copies) = Ok l' →
  plan_ok (la_deployments l') (la_core_nodes l') (without_copy c copies) ∧ floors (without_copy c copies).
Proof.
  intros Hax Hok Hfl Hc. unfold remove. destruct (List.find _ _) as [axis|] eqn:Hfind; [|done].
  destruct (_ && _) eqn:Hempty; [done|]. rewrite result_bind_ok. intros ([flat bare] & _ & Hrest).
  apply result_bind_ok in Hrest as (released & _ & Hdet). split; [by eapply detach_ok|].
  intros a Ha Hcard. destruct (Hfl a Ha Hcard) as (d & Hd & Hda).
  destruct (decide (st_name d = st_name c)) as [Hn|Hn]; [|exists d; split; [by apply elem_of_without|done]].
  assert (d = c) as -> by (eapply (NoDup_map_inj st_name); [apply Hok|done..]).
  apply find_elem_of in Hfind as [Haxis [Hname%bool_decide_eq_true _]%andb_true_iff].
  assert (axis = a) as ->.
  { apply list_elem_of_In, List.filter_In in Haxis as [Haxis _], Ha as [Ha _].
    eapply (NoDup_map_inj ax_name); [exact Hax|by apply list_elem_of_In..|congruence]. }
  rewrite bool_decide_eq_true_2 in Hempty by done. cbn in Hempty.
  apply negb_false_iff, existsb_exists in Hempty as (d & Hd'%list_elem_of_In & Hdax%bool_decide_eq_true).
  exists d. split; [done|congruence].
Qed.

(** C4: Every stack a composed launcher runs is sound. Whatever words and joins
    it was launched with, and whatever copies joined it and were removed since,
    the plan runs each instance id once; the copies have distinct names, each of
    which is a core node link of the plan; every instance of a copy runs, placed
    on the copy's link; and each axis that needs a copy has one. (The launcher
    has axes, of distinct names, and the text of a document reads back as the
    document, a set of links given by flags as an array.) *)
Theorem running_stack_sound l s copies :
  la_components (pr_launcher p) ≠ [] → NoDup (map ax_name (la_components (pr_launcher p))) →
  running l s copies →
  plan_ok (la_deployments l) (la_core_nodes l) copies ∧ floors copies.
Proof.
  intros Hne Hax Hrun. induction Hrun as [words joins r Hl|l s copies rq j _ [Hok Hfl] Hj|l s copies c l' _ [Hok Hfl] Hc Hr].
  - by apply (launch_ok words joins).
  - apply (compose_join_ok _ _ _ _ _ _ Hok) in Hj as [Hok' _]. split; [done|].
    intros a Ha Hcard. destruct (Hfl a Ha Hcard) as (c & Hc & ?). exists c. split; [apply elem_of_app; by left|done].
  - by apply (remove_ok l s).
Qed.

End runs.

(** A hub launched with the copies [left] and [eye], and [eye] removed. *)
Module RunsSample.
Import LaunchSample.

Definition launched : ComposedLaunch :=
  match launch prepared [] [left_arm; eye] with Ok r => r | Err _ => mkComposedLaunch flat [] (mkReport [] [] ∅ [] []) end.

Definition copy_named (name : string) : StackCopy :=
  default (record left_copy) (List.find (λ c, bool_decide (st_name c = name)) (rp_copies (cl_report launched))).

Definition shrunk : Launcher :=
  match remove prepared (cl_launcher launched) (copy_named "eye") (cl_selection launched) [copy_named "left"] with
  | Ok l => l
  | Err _ => flat
  end.

End RunsSample.

#[local] Existing Instance CopySample.plain_serde.

Lemma reads_as_document d r : Ok (as_document d) = Ok (E := string) r → r = as_document d.
Proof. by intros [= <-]. Qed.

Lemma running_stack_sound_witness :
  ids_of (la_deployments RunsSample.shrunk) = ["hub_inst"; "left_arm_inst"] ∧
  plan_ok (la_deployments RunsSample.shrunk) (la_core_nodes RunsSample.shrunk) [RunsSample.copy_named "left"].
Proof.
  split; [vm_compute; done|].
  assert (Hcs : without_copy (RunsSample.copy_named "eye") (rp_copies (cl_report RunsSample.launched)) =
    [RunsSample.copy_named "left"]) by (vm_compute; done).
  rewrite <- Hcs.
  apply (@running_stack_sound CopySample.plain_serde reads_as_document LaunchSample.prepared RunsSample.shrunk (cl_selection RunsSample.launched)).
  - done.
  - apply NoDup_singleton.
  - eapply (running_remove LaunchSample.prepared (cl_launcher RunsSample.launched)).
    + apply (running_launch LaunchSample.prepared [] [LaunchSample.left_arm; LaunchSample.eye]). vm_compute. done.
    + apply list_elem_of_In. vm_compute. right. by left.
    + rewrite Hcs. vm_compute. done.
Defined.

(** The removal of one copy writes a vacancy back over a slot another copy still
    pairs into: [remove] recomposes the copies that stay without the adjustments
    of their option's entry, so what [left] released is not among the slots it
    keeps. *)
Lemma removal_gives_away_a_slot_in_use :
  LaunchSample.arm_slot (cl_launcher RunsSample.launched) = None ∧
  LaunchSample.arm_slot RunsSample.shrunk = Some (Vacant "no arm") ∧
  (i ← find_instance (la_deployments RunsSample.shrunk) "left_arm_inst"; li_links i !! "hub") =
    Some (Bound (Scalar "hub_inst/arm")).
Proof. vm_compute. done. Qed.

(** A copy whose fragment writes one argument of the hub twice: the later write
    wins in the copy's own expansion, and [combine] refuses the copy as one that
    conflicts with itself. *)
Module SelfConflict.
Import CopySample.

#[local] Instance text_serde : Serde :=
  { reread := λ d, Ok (as_document d); render_any := λ a, match a with AString s => s | _ => "" end;
    render_link := λ _, ""; render_variables := λ _, "" }.

Definition set_speed (value : string) : Adjustment :=
  mkAdjustment "hub_inst" None (Some {["speed" := AString value]}) None None None None None None.

Definition fast : LoadedOption :=
  mkLoadedOption "fast"
    [mkLoadedFragment 0
       (mkFragment [mkDeployment (NodeSource "arm" "v1") [mk_instance "arm_inst" ∅]] [] [] []
          [set_speed "slow"; set_speed "fast"] [] no_framework) "fast.json5"] [] ∅ ∅.

Definition prepared : PreparedLauncher :=
  mkPrepared
    (mkLauncher [] [] [hub] [mkOptionDeployment "robot" "fast" ∅ ∅ [] [mkCopyEntry "left" ∅ ∅ []]]
       [mkAxis "robot" {["fast" := mkOptionSpec []]} AxisZeroOrMore []] [] [] no_framework)
    {["robot" := {["fast" := fast]}]} "hub.json5".

Lemma a_copy_conflicts_with_itself :
  launch prepared [] [] = Err (CopiesConflict "left" "left" "hub_inst" "arguments.speed").
Proof. vm_compute. done. Qed.

End SelfConflict.
