(* ===== verification/Gate.v ===== *)
(** * The concurrency gate of a single-goal action

    [ConcurrencyGate] of [core-node-internal/src/services/node/gate.rs], and its
    use by the accept loops of the actions that share it: [node_add],
    [node_build], [node_run], the stack changes, [repo_refresh] and the
    benchmark. The loop of an action handles one goal after the other; the work
    of an admitted goal runs in a task of its own, which frees the slot when its
    [GoalSlotGuard] drops. A step is one critical section of the gate's lock, or
    one event of a task or of the loop between two of them, so a run of the
    system is an interleaving of the loop with any number of tasks that were
    superseded and still wind down.

    A [JoinHandle] and a [CancellationToken] are numbers; the cancelled tokens
    are part of the state, and [TokenCancelled] is a cancel from elsewhere: by
    the caller of the goal, or by a stack reset. *)

From S2P Require Import Prelude.
#[local] Open Scope Z_scope.

(** ** The gate *)

Record RunningInfo : Type := mkRunningInfo {
  ri_started_at : Z;
  ri_timeout_secs : Z;
}.

Record GateState : Type := mkGateState {
  gs_running : option RunningInfo;
  gs_running_task : option nat;
  gs_cancel_token : option nat;
  gs_generation : Z;
}.

Definition new_gate : GateState := mkGateState None None None 0.

Inductive Admission : Type :=
| GoalAdmitted (generation : Z) (superseded : option nat)
| AlreadyRunning (remaining_secs : Z).

Definition clear_slot (g : GateState) : GateState := mkGateState None None None (gs_generation g).

(** The time a running goal has left, as a refusal reports it. *)
Definition remaining_secs (now : Z) (r : RunningInfo) : Z :=
  duration_as_secs
    (Z.max 0 (ri_timeout_secs r * NANOS_PER_SEC - saturating_duration_since now (ri_started_at r))).

(** The admission, the token it signals, and the gate after it. *)
Definition try_admit (timeout_secs : Z) (force : bool) (now : Z) (g : GateState) :
    Admission * option nat * GateState :=
  let take_slot (superseded token : option nat) :=
    let generation := wrap64 (gs_generation g + 1) in
    (GoalAdmitted generation superseded, token,
     mkGateState (Some (mkRunningInfo now timeout_secs)) None None generation) in
  match gs_running g with
  | Some running =>
      if force then take_slot (gs_running_task g) (gs_cancel_token g)
      else (AlreadyRunning (remaining_secs now running), None, g)
  | None => take_slot None None
  end.

Definition clear_running (g : GateState) : GateState := clear_slot g.

Definition set_task (task token : nat) (g : GateState) : GateState :=
  mkGateState (gs_running g) (Some task) (Some token) (gs_generation g).

(** The drop of the [GoalSlotGuard] of [generation]. *)
Definition release_slot (generation : Z) (g : GateState) : GateState :=
  if gs_generation g =? generation then clear_slot g else g.

(** ** The loop of an action and the tasks it spawns *)

Inductive GateUser : Type := NodeAdd | NodeBuild | NodeRun | StackChangeGoal | RepoRefresh | StackBenchmark.

(** [node_add] and [node_build] pass the [force] of their goal to [try_admit]
    and register their task; the others pass [false] and register none. *)
Definition supports_force (u : GateUser) : bool :=
  match u with NodeAdd | NodeBuild => true | _ => false end.

(** Past [COOPERATIVE_TEARDOWN_BUDGET], [node_add] aborts the task it awaits. *)
Definition aborts_superseded (u : GateUser) : bool :=
  match u with NodeAdd => true | _ => false end.

(** What the loop does: it pulls goals, has admitted one (and awaits the task
    that one superseded), or has spawned its task and not yet registered it. *)
Inductive LoopPhase : Type :=
| LoopPulls
| LoopHandles (generation : Z) (superseded : option nat)
| LoopSpawned (task token : nat).

(** A task before its first poll, holding its guard, and past its drop. *)
Inductive WorkPhase : Type := WorkQueued | WorkHoldsSlot | WorkFreedSlot.

(** [wt_nth] counts admissions without wrapping around, for the theorems. *)
Record WorkTask : Type := mkWorkTask {
  wt_generation : Z;
  wt_token : nat;
  wt_phase : WorkPhase;
  wt_aborted : bool;
  wt_nth : Z;
}.

Record GateSys : Type := mkGateSys {
  gy_gate : GateState;
  gy_now : Z;
  gy_loop : LoopPhase;
  gy_tasks : gmap nat WorkTask;
  gy_cancelled : gset nat;
  gy_next : nat;
  gy_admissions : Z;
}.

Definition gate_start : GateSys := mkGateSys new_gate 0 LoopPulls ∅ ∅ 0 0.

Inductive GateEvent : Type :=
| TimePasses (nanos : positive)
| GoalArrives (timeout_secs : N) (force : bool)
| SupersededEnds
| SupersededOutlasts
| GoalNotStarted
| WorkSpawned
| TaskRegistered
| WorkStarts (task : nat)
| WorkReleases (task : nat)
| WorkEnds (task : nat)
| WorkAborted (task : nat)
| TokenCancelled (token : nat).

Definition set_phase (p : WorkPhase) (t : WorkTask) : WorkTask :=
  mkWorkTask (wt_generation t) (wt_token t) p (wt_aborted t) (wt_nth t).

Definition mark_aborted (t : WorkTask) : WorkTask :=
  mkWorkTask (wt_generation t) (wt_token t) (wt_phase t) true (wt_nth t).

Definition with_gate (g : GateState) (s : GateSys) : GateSys :=
  mkGateSys g (gy_now s) (gy_loop s) (gy_tasks s) (gy_cancelled s) (gy_next s) (gy_admissions s).

Definition with_loop (p : LoopPhase) (s : GateSys) : GateSys :=
  mkGateSys (gy_gate s) (gy_now s) p (gy_tasks s) (gy_cancelled s) (gy_next s) (gy_admissions s).

Definition with_tasks (m : gmap nat WorkTask) (s : GateSys) : GateSys :=
  mkGateSys (gy_gate s) (gy_now s) (gy_loop s) m (gy_cancelled s) (gy_next s) (gy_admissions s).

(** A goal reaches the handler: admitted, or refused and forgotten. *)
Definition goal_arrives (u : GateUser) (timeout_secs : N) (force : bool) (s : GateSys) : GateSys :=
  match try_admit (Z.of_N timeout_secs) (supports_force u && force) (gy_now s) (gy_gate s) with
  | (GoalAdmitted generation superseded, token, g) =>
      mkGateSys g (gy_now s) (LoopHandles generation superseded) (gy_tasks s)
        (match token with Some x => {[x]} ∪ gy_cancelled s | None => gy_cancelled s end)
        (gy_next s) (gy_admissions s + 1)
  | (AlreadyRunning _, _, g) => with_gate g s
  end.

(** The handler accepts the goal and spawns its work; a handler that supports
    [force] goes on to register it. *)
Definition spawn_work (u : GateUser) (generation : Z) (s : GateSys) : GateSys :=
  let task := gy_next s in
  let token := S task in
  mkGateSys (gy_gate s) (gy_now s)
    (if supports_force u then LoopSpawned task token else LoopPulls)
    (<[task := mkWorkTask generation token WorkQueued false (gy_admissions s)]> (gy_tasks s))
    (gy_cancelled s) (S token) (gy_admissions s).

Definition gate_step (u : GateUser) (e : GateEvent) (s : GateSys) : option GateSys :=
  match e with
  | TimePasses n =>
      Some (mkGateSys (gy_gate s) (gy_now s + Zpos n) (gy_loop s) (gy_tasks s) (gy_cancelled s)
              (gy_next s) (gy_admissions s))
  | GoalArrives timeout_secs force =>
      match gy_loop s with LoopPulls => Some (goal_arrives u timeout_secs force s) | _ => None end
  | SupersededEnds =>
      match gy_loop s with
      | LoopHandles g (Some task) =>
          match gy_tasks s !! task with
          | None => Some (with_loop (LoopHandles g None) s)
          | Some _ => None
          end
      | _ => None
      end
  | SupersededOutlasts =>
      match gy_loop s with
      | LoopHandles g (Some task) =>
          Some (with_loop (LoopHandles g None)
                  (if aborts_superseded u then with_tasks (alter mark_aborted task (gy_tasks s)) s else s))
      | _ => None
      end
  | GoalNotStarted =>
      match gy_loop s with
      | LoopHandles _ None => Some (with_loop LoopPulls (with_gate (clear_running (gy_gate s)) s))
      | _ => None
      end
  | WorkSpawned =>
      match gy_loop s with LoopHandles g None => Some (spawn_work u g s) | _ => None end
  | TaskRegistered =>
      match gy_loop s with
      | LoopSpawned task token =>
          Some (with_loop LoopPulls (with_gate (set_task task token (gy_gate s)) s))
      | _ => None
      end
  | WorkStarts task =>
      t ← gy_tasks s !! task;
      match wt_phase t with
      | WorkQueued => Some (with_tasks (<[task := set_phase WorkHoldsSlot t]> (gy_tasks s)) s)
      | _ => None
      end
  | WorkReleases task =>
      t ← gy_tasks s !! task;
      match wt_phase t with
      | WorkHoldsSlot =>
          Some (with_gate (release_slot (wt_generation t) (gy_gate s))
                  (with_tasks (<[task := set_phase WorkFreedSlot t]> (gy_tasks s)) s))
      | _ => None
      end
  | WorkEnds task =>
      t ← gy_tasks s !! task;
      match wt_phase t with
      | WorkFreedSlot => Some (with_tasks (delete task (gy_tasks s)) s)
      | _ => None
      end
  | WorkAborted task =>
      t ← gy_tasks s !! task;
      if wt_aborted t then
        let s' := with_tasks (delete task (gy_tasks s)) s in
        Some (match wt_phase t with
              | WorkHoldsSlot => with_gate (release_slot (wt_generation t) (gy_gate s)) s'
              | _ => s'
              end)
      else None
  | TokenCancelled token =>
      Some (mkGateSys (gy_gate s) (gy_now s) (gy_loop s) (gy_tasks s) ({[token]} ∪ gy_cancelled s)
              (gy_next s) (gy_admissions s))
  end.

Definition gate_steps (u : GateUser) (s s' : GateSys) : Prop := ∃ e, gate_step u e s = Some s'.

Definition gate_reachable (u : GateUser) (s : GateSys) : Prop := rtc (gate_steps u) gate_start s.

(** ** The invariant *)

(** The task [task] has not freed its slot. *)
Definition unreleased (s : GateSys) (task : nat) (t : WorkTask) : Prop :=
  gy_tasks s !! task = Some t ∧ wt_phase t ≠ WorkFreedSlot.

(** It is the work of the latest admission. *)
Definition is_current (s : GateSys) (t : WorkTask) : Prop := wt_nth t = gy_admissions s.

#[export] Instance is_current_dec s t : Decision (is_current s t).
Proof. unfold is_current. apply _. Defined.

Definition handles (s : GateSys) : Prop := ∃ g x, gy_loop s = LoopHandles g x.

Definition loop_ok (u : GateUser) (s : GateSys) : Prop :=
  match gy_loop s with
  | LoopPulls =>
      supports_force u = true → ∀ task t, unreleased s task t → is_current s t →
      gs_running_task (gy_gate s) = Some task ∧ gs_cancel_token (gy_gate s) = Some (wt_token t)
  | LoopHandles g superseded =>
      g = gy_admissions s ∧ gs_running (gy_gate s) ≠ None ∧
      (∀ task t, gy_tasks s !! task = Some t → wt_nth t < gy_admissions s)
  | LoopSpawned task token =>
      supports_force u = true ∧
      ∀ task' t, gy_tasks s !! task' = Some t → is_current s t → task' = task ∧ wt_token t = token
  end.

Definition task_ok (u : GateUser) (s : GateSys) (task : nat) (t : WorkTask) : Prop :=
  (task < gy_next s)%nat ∧ wt_generation t = wt_nth t ∧ wt_nth t ≤ gy_admissions s ∧
  (wt_aborted t = true → wt_nth t < gy_admissions s) ∧
  (wt_nth t < gy_admissions s → wt_phase t ≠ WorkFreedSlot →
   wt_token t ∈ gy_cancelled s ∧ supports_force u = true).

Record gate_good (u : GateUser) (s : GateSys) : Prop := {
  gg_generation : gs_generation (gy_gate s) = gy_admissions s;
  gg_count : 0 ≤ gy_admissions s;
  gg_tasks : ∀ task t, gy_tasks s !! task = Some t → task_ok u s task t;
  gg_unique : ∀ i j t t', gy_tasks s !! i = Some t → gy_tasks s !! j = Some t' →
    wt_nth t = wt_nth t' → i = j;
  gg_slot : gs_running (gy_gate s) ≠ None ↔ handles s ∨ ∃ task t, unreleased s task t ∧ is_current s t;
  gg_loop : loop_ok u s;
}.

(** Admissions stay below the wrap-around of the generation. *)
Definition gate_inv (u : GateUser) (s : GateSys) : Prop := gy_admissions s < 2 ^ 64 → gate_good u s.

Lemma gate_start_good u : gate_good u gate_start.
Proof.
  split; cbn; try done.
  - split; [done|]. intros [(? & ? & ?)|(? & ? & [? _] & _)]; simplify_map_eq.
  - intros _ task t [? _]. simplify_map_eq.
Qed.

Lemma wrap64_small z : 0 ≤ z < 2 ^ 64 → wrap64 z = z.
Proof. apply Z.mod_small. Qed.

(** Steps that change neither the gate, the loop nor the tasks. *)
Lemma gate_good_grow u s s' :
  gate_good u s → gy_gate s' = gy_gate s → gy_loop s' = gy_loop s → gy_tasks s' = gy_tasks s →
  gy_cancelled s ⊆ gy_cancelled s' → gy_next s' = gy_next s → gy_admissions s' = gy_admissions s →
  gate_good u s'.
Proof.
  destruct s, s'; cbn. intros G -> -> -> Hc -> ->. destruct G as [G1 G2 G3 G4 G5 G6].
  split; try done. intros task t Ht. unfold task_ok in *. cbn in *. naive_solver.
Qed.

Lemma goal_arrives_good u timeout force s :
  gate_good u s → gy_loop s = LoopPulls → gy_admissions (goal_arrives u timeout force s) < 2 ^ 64 →
  gate_good u (goal_arrives u timeout force s).
Proof.
  intros G Hl. pose proof G as [G1 G2 G3 G4 G5 G6]. unfold goal_arrives, try_admit.
  unfold loop_ok in G6. rewrite Hl in G6.
  assert (Hnew : ∀ token superseded,
    (∀ task t, unreleased s task t → is_current s t → wt_token t ∈ token ∧ supports_force u = true) →
    gy_admissions s + 1 < 2 ^ 64 →
    gate_good u
      (mkGateSys (mkGateState (Some (mkRunningInfo (gy_now s) (Z.of_N timeout))) None None
                    (wrap64 (gs_generation (gy_gate s) + 1)))
         (gy_now s) (LoopHandles (wrap64 (gs_generation (gy_gate s) + 1)) superseded) (gy_tasks s)
         (token ∪ gy_cancelled s) (gy_next s) (gy_admissions s + 1))).
  { intros token superseded Htok Hb. rewrite G1, wrap64_small by lia. split; cbn; try done.
    - lia.
    - intros task t Ht. destruct (G3 _ _ Ht) as (? & ? & ? & ? & H).
      split_and!; cbn; try done; try lia. intros _ Hf. rewrite elem_of_union. destruct (decide (wt_nth t = gy_admissions s)) as [E|E].
      + destruct (Htok task t); try done. auto.
      + destruct H; try done; [lia|auto].
    - split; [|done]. left. by eexists _, _.
    - repeat split; try done. intros task t Ht. destruct (G3 _ _ Ht) as (? & ? & ? & _). lia. }
  destruct (gs_running (gy_gate s)) as [r|] eqn:Er.
  - destruct (supports_force u) eqn:Ef; [destruct force|]; cbn.
    + intros Hb. destruct (proj1 G5 ltac:(done)) as [(? & ? & ?)|(task & t & Hu & Hc)]; [congruence|].
      destruct (G6 eq_refl _ _ Hu Hc) as [_ ->]. apply Hnew; [|done].
      intros task' t' Hu' Hc'. destruct (G6 eq_refl _ _ Hu Hc) as [E1 _], (G6 eq_refl _ _ Hu' Hc') as [E2 _].
      assert (task' = task) as -> by congruence. destruct Hu as [Hu _], Hu' as [Hu' _].
      assert (t' = t) as -> by congruence. split; [set_solver|done].
    + intros _. apply (gate_good_grow u s); done.
    + intros _. apply (gate_good_grow u s); done.
  - cbn. intros Hb. rewrite <- (union_empty_l_L (gy_cancelled s)). apply Hnew; [|done].
    intros task t Hu Hc. exfalso. refine (proj2 G5 _ eq_refl). right. eauto.
Qed.

Lemma current_unique u s i j t t' :
  gate_good u s → gy_tasks s !! i = Some t → gy_tasks s !! j = Some t' →
  is_current s t → is_current s t' → i = j.
Proof. intros G ? ? Ht Ht'. eapply (gg_unique u s G); [done..|]. unfold is_current in *. congruence. Qed.

(** While the loop handles a goal, that goal has no task yet. *)
Lemma handles_no_current u s task t :
  gate_good u s → handles s → gy_tasks s !! task = Some t → ¬ is_current s t.
Proof.
  intros G (? & ? & El) Ht Hc. pose proof (gg_loop u s G) as H. unfold loop_ok in H. rewrite El in H.
  destruct H as (_ & _ & H). specialize (H _ _ Ht). unfold is_current in Hc. lia.
Qed.

(** The slot is free once the task of the latest admission freed it. *)
Lemma freed_slot_is_free u s task t :
  gate_good u s → gy_tasks s !! task = Some t → is_current s t → wt_phase t = WorkFreedSlot →
  gs_running (gy_gate s) = None.
Proof.
  intros G Ht Hc Hp. destruct (gs_running (gy_gate s)) eqn:Er; [|done]. exfalso.
  assert (gs_running (gy_gate s) ≠ None) as [Hh|(i & x & [Hx ?] & Hcx)]%(gg_slot u s G) by congruence.
  - by eapply handles_no_current.
  - assert (i = task) as -> by (by eapply current_unique). congruence.
Qed.

(** A guard's drop: the current one frees the slot, another leaves the gate. *)
Lemma release_current u s task t :
  gate_good u s → gy_tasks s !! task = Some t → is_current s t →
  release_slot (wt_generation t) (gy_gate s) = clear_slot (gy_gate s).
Proof.
  intros G Ht Hc. destruct (gg_tasks u s G _ _ Ht) as (_ & Hgen & _). unfold release_slot.
  by rewrite (gg_generation u s G), Hgen, Hc, Z.eqb_refl.
Qed.

Lemma release_stale u s task t :
  gate_good u s → gy_tasks s !! task = Some t → ¬ is_current s t →
  release_slot (wt_generation t) (gy_gate s) = gy_gate s.
Proof.
  intros G Ht Hc. destruct (gg_tasks u s G _ _ Ht) as (_ & Hgen & _). unfold release_slot.
  rewrite (gg_generation u s G), Hgen. destruct (Z.eqb_spec (gy_admissions s) (wt_nth t)); [|done].
  by destruct Hc.
Qed.

(** A task that gives up its slot, by its guard or because it had no part in
    it, and perhaps ends: what the gate is then. *)
Definition freed_gate (s : GateSys) (t : WorkTask) (g' : GateState) : Prop :=
  gs_generation g' = gs_generation (gy_gate s) ∧
  (is_current s t → gs_running g' = None) ∧ (¬ is_current s t → g' = gy_gate s).

Lemma release_freed u s task t :
  gate_good u s → gy_tasks s !! task = Some t → freed_gate s t (release_slot (wt_generation t) (gy_gate s)).
Proof.
  intros G Ht. split_and!.
  - unfold release_slot. by case_match.
  - intros Hc. by rewrite (release_current u s task t).
  - intros Hc. by rewrite (release_stale u s task t).
Qed.

Lemma free_good u s task t tasks' g' :
  gate_good u s → gy_tasks s !! task = Some t →
  (∀ i, i ≠ task → tasks' !! i = gy_tasks s !! i) →
  (tasks' !! task = None ∨ tasks' !! task = Some (set_phase WorkFreedSlot t)) →
  freed_gate s t g' →
  gate_good u (with_gate g' (with_tasks tasks' s)).
Proof.
  intros G Ht Hne Heq (Hgn & Hcur & Hstale). pose proof G as [G1 G2 G3 G4 G5 G6].
  assert (Hold : ∀ i x, tasks' !! i = Some x →
    ∃ y, gy_tasks s !! i = Some y ∧ wt_nth x = wt_nth y ∧ wt_token x = wt_token y ∧
      wt_generation x = wt_generation y ∧ wt_aborted x = wt_aborted y ∧
      (wt_phase x ≠ WorkFreedSlot → i ≠ task ∧ x = y)).
  { intros i x Hx. destruct (decide (i = task)) as [->|Hi].
    - destruct Heq as [Heq|Heq]; rewrite Hx in Heq; simplify_eq. by exists t.
    - exists x. rewrite Hne in Hx by done. done. }
  assert (Hun : ∀ i x, unreleased (with_gate g' (with_tasks tasks' s)) i x ↔ unreleased s i x ∧ i ≠ task).
  { intros i x. split.
    - intros [Hx Hp]. destruct (Hold _ _ Hx) as (y & Hy & ? & ? & ? & ? & Hxy).
      destruct (Hxy Hp) as [? ->]. done.
    - intros [[Hx Hp] Hi]. split; [|done]. cbn. by rewrite Hne. }
  split; cbn.
  - congruence.
  - done.
  - intros i x Hx. destruct (Hold _ _ Hx) as (y & Hy & En & Et & Eg & Ea & Hxy).
    destruct (G3 _ _ Hy) as (? & ? & ? & ? & Hc). rewrite <- En in *. unfold task_ok; cbn.
    split_and!; try lia; try congruence.
    + rewrite Ea. done.
    + intros ? Hp. destruct (Hxy Hp) as [_ ->]. by apply Hc.
  - intros i j x y Hx Hy. destruct (Hold _ _ Hx) as (x' & ? & -> & _), (Hold _ _ Hy) as (y' & ? & -> & _). eauto.
  - destruct (decide (is_current s t)) as [Hc|Hc].
    + rewrite (Hcur Hc). split; [done|]. intros [Hh|(i & x & [[Hx _] Hi]%Hun & Hcx)]; exfalso.
      * by eapply (handles_no_current u s).
      * apply Hi. by eapply (current_unique u s).
    + rewrite (Hstale Hc), G5. apply or_iff_compat_l. setoid_rewrite Hun. split.
      * intros (i & x & Hx & Hcx). exists i, x. split_and!; try done. intros ->. destruct Hx as [Hx _].
        assert (x = t) as -> by congruence. done.
      * intros (i & x & [Hx _] & Hcx). by exists i, x.
  - unfold loop_ok in *. cbn. destruct (gy_loop s) as [|g x|i tok] eqn:El.
    + intros Hf i x [Hx Hi]%Hun Hcx.
      destruct (decide (is_current s t)) as [Hc|Hc]; [|rewrite (Hstale Hc); by apply G6].
      destruct Hi. destruct Hx as [Hx _]. by eapply (current_unique u s).
    + assert (Hc : ¬ is_current s t) by (eapply handles_no_current; [done|by eexists _, _|done]).
      rewrite (Hstale Hc). destruct G6 as (-> & Hr & G6). split_and!; try done.
      intros i y Hy. destruct (Hold _ _ Hy) as (z & Hz & -> & _). eauto.
    + destruct G6 as [? G6]. split; [done|]. intros i' y Hy Hc. destruct (Hold _ _ Hy) as (z & Hz & En & -> & _).
      apply (G6 _ _ Hz). unfold is_current in *. cbn in Hc. congruence.
Qed.

(** A task that starts, or is marked for its abort. *)
Lemma relabel_good u s task t t' :
  gate_good u s → gy_tasks s !! task = Some t →
  wt_generation t' = wt_generation t → wt_token t' = wt_token t → wt_nth t' = wt_nth t →
  (wt_phase t' = WorkFreedSlot ↔ wt_phase t = WorkFreedSlot) →
  (wt_aborted t' = true → wt_nth t < gy_admissions s) →
  gate_good u (with_tasks (<[task := t']> (gy_tasks s)) s).
Proof.
  intros G Ht Eg Et En Ep Ea. pose proof G as [G1 G2 G3 G4 G5 G6].
  assert (Hold : ∀ i x, <[task := t']> (gy_tasks s) !! i = Some x →
    ∃ y, gy_tasks s !! i = Some y ∧ wt_generation x = wt_generation y ∧ wt_token x = wt_token y ∧
      wt_nth x = wt_nth y ∧ (wt_phase x ≠ WorkFreedSlot → wt_phase y ≠ WorkFreedSlot) ∧
      (wt_aborted x = true → wt_nth y < gy_admissions s)).
  { intros i x [[<- <-]|[? Hx]]%lookup_insert_Some; [exists t; naive_solver|]. exists x.
    split_and!; try done. by destruct (G3 _ _ Hx) as (? & ? & ? & ? & ?). }
  split; cbn; try done.
  - intros i x Hx. destruct (Hold _ _ Hx) as (y & Hy & E1 & E2 & E3 & E4 & E5).
    destruct (G3 _ _ Hy) as (? & ? & ? & ? & Hc). rewrite <- E3 in *. unfold task_ok; cbn.
    split_and!; try lia; try congruence; [done|]. intros ? Hp. rewrite E2. by apply Hc, E4.
  - intros i j x y Hx Hy. destruct (Hold _ _ Hx) as (x' & ? & ? & ? & -> & _),
      (Hold _ _ Hy) as (y' & ? & ? & ? & -> & _). eauto.
  - rewrite G5. apply or_iff_compat_l. split.
    + intros (i & x & [Hx Hp] & Hc). destruct (decide (i = task)) as [->|Hi].
      * exists task, t'. assert (x = t) as -> by congruence. unfold unreleased, is_current in *. cbn.
        rewrite lookup_insert_eq, Ep, En. done.
      * exists i, x. unfold unreleased. cbn. by rewrite lookup_insert_ne.
    + intros (i & x & [Hx Hp] & Hc). destruct (Hold _ _ Hx) as (y & Hy & ? & ? & E & Hp' & _).
      exists i, y. split; [split; [done|auto]|]. unfold is_current in *. cbn in Hc. congruence.
  - unfold loop_ok in *. cbn. destruct (gy_loop s) as [|g x|i tok].
    + intros Hf i x [Hx Hp] Hc. destruct (Hold _ _ Hx) as (y & Hy & ? & -> & E & Hp' & _).
      apply G6; [done|split; [done|auto]|]. unfold is_current in *. cbn in Hc. congruence.
    + destruct G6 as (-> & ? & G6). split_and!; try done. intros i y Hy.
      destruct (Hold _ _ Hy) as (z & Hz & ? & ? & -> & _). eauto.
    + destruct G6 as [? G6]. split; [done|]. intros i' y Hy Hc.
      destruct (Hold _ _ Hy) as (z & Hz & ? & -> & E & _). apply (G6 _ _ Hz).
      unfold is_current in *. cbn in Hc. congruence.
Qed.

(** The loop goes on from a goal: without the task its admission superseded,
    back to pulling because the goal was not started, or past its spawn. *)
Lemma superseded_dropped_good u s g x y :
  gate_good u s → gy_loop s = LoopHandles g x → gate_good u (with_loop (LoopHandles g y) s).
Proof.
  intros G El. pose proof G as [G1 G2 G3 G4 G5 G6]. split; cbn; try done.
  - rewrite G5. unfold handles. rewrite El. cbn. naive_solver.
  - unfold loop_ok in *. rewrite El in G6. done.
Qed.

Lemma not_started_good u s g x :
  gate_good u s → gy_loop s = LoopHandles g x →
  gate_good u (with_loop LoopPulls (with_gate (clear_running (gy_gate s)) s)).
Proof.
  intros G El. pose proof G as [G1 G2 G3 G4 G5 G6].
  assert (Hh : handles s) by (by eexists _, _). split; cbn; try done.
  - split; [done|]. intros [(? & ? & ?)|(i & y & [Hy _] & Hc)]; [done|].
    by destruct (handles_no_current u s i y).
  - intros _ i y [Hy _] Hc. by destruct (handles_no_current u s i y).
Qed.

Lemma spawn_good u s g :
  gate_good u s → gy_loop s = LoopHandles g None → gate_good u (spawn_work u g s).
Proof.
  intros G El. pose proof G as [G1 G2 G3 G4 G5 G6]. unfold loop_ok in G6. rewrite El in G6.
  destruct G6 as (-> & Hr & Hlt).
  assert (Hfresh : gy_tasks s !! gy_next s = None).
  { destruct (gy_tasks s !! gy_next s) as [t|] eqn:E; [|done]. destruct (G3 _ _ E). lia. }
  split; cbn; try done.
  - intros i t [[<- <-]|[? Ht]]%lookup_insert_Some.
    + unfold task_ok. cbn. split_and!; try done; lia.
    + destruct (G3 _ _ Ht) as (? & ? & ? & ? & ?). unfold task_ok. cbn. split_and!; try done; lia.
  - intros i j t t' [[<- <-]|[? Ht]]%lookup_insert_Some [[<- <-]|[? Ht']]%lookup_insert_Some; cbn; [done| | |eauto].
    + specialize (Hlt _ _ Ht'). lia.
    + specialize (Hlt _ _ Ht). lia.
  - split; [|done]. intros _. right. eexists (gy_next s), _. split; [split; cbn; [apply lookup_insert_eq|done]|done].
  - assert (Hone : ∀ i t, <[gy_next s := mkWorkTask (gy_admissions s) (S (gy_next s)) WorkQueued false
        (gy_admissions s)]> (gy_tasks s) !! i = Some t → wt_nth t = gy_admissions s →
        i = gy_next s ∧ wt_token t = S (gy_next s)).
    { intros i t [[<- <-]|[? Ht]]%lookup_insert_Some Hc; [done|]. specialize (Hlt _ _ Ht). lia. }
    unfold loop_ok. cbn. destruct (supports_force u); [split; [done|]|done]. intros i t. apply Hone.
Qed.

Lemma registered_good u s task token :
  gate_good u s → gy_loop s = LoopSpawned task token →
  gate_good u (with_loop LoopPulls (with_gate (set_task task token (gy_gate s)) s)).
Proof.
  intros G El. pose proof G as [G1 G2 G3 G4 G5 G6]. unfold loop_ok in G6. rewrite El in G6.
  split; cbn; try done.
  - rewrite G5. unfold handles. rewrite El. cbn. naive_solver.
  - intros _ i t [Ht ?] Hc. by destruct (proj2 G6 _ _ Ht Hc) as [-> ->].
Qed.

Lemma with_gate_id s tasks : with_tasks tasks s = with_gate (gy_gate s) (with_tasks tasks s).
Proof. done. Qed.

Lemma gate_step_good u e s s' :
  gate_good u s → gate_step u e s = Some s' → gy_admissions s' < 2 ^ 64 → gate_good u s'.
Proof.
  intros G Hs Hb. destruct e; cbn in Hs; simplify_eq.
  - by apply (gate_good_grow u s).
  - destruct (gy_loop s) eqn:El; simplify_eq. by apply goal_arrives_good.
  - repeat case_match; simplify_eq. by eapply superseded_dropped_good.
  - destruct (gy_loop s) as [|g [x|]|] eqn:El; simplify_eq. eapply superseded_dropped_good; [|by case_match].
    destruct (aborts_superseded u); [|done]. destruct (gy_tasks s !! x) as [t|] eqn:Et.
    + replace (alter mark_aborted x (gy_tasks s)) with (<[x := mark_aborted t]> (gy_tasks s))
        by (apply map_eq; intros k; destruct (decide (k = x)); by simplify_map_eq). apply (relabel_good u s x t); try done. intros _.
      assert (¬ is_current s t) by (eapply handles_no_current; [done|by eexists _, _|done]).
      destruct (gg_tasks u s G _ _ Et) as (_ & _ & ? & _). unfold is_current in *. lia.
    + rewrite alter_id; [by destruct s | congruence].
  - repeat case_match; simplify_eq. by eapply not_started_good.
  - repeat case_match; simplify_eq. by apply spawn_good.
  - repeat case_match; simplify_eq. by apply registered_good.
  - apply bind_Some in Hs as (t & Ht & Hs). destruct (wt_phase t) eqn:Ep; simplify_eq.
    apply (relabel_good u s task t); try done; cbn; [by rewrite Ep|].
    by destruct (gg_tasks u s G _ _ Ht) as (_ & _ & _ & ? & _).
  - apply bind_Some in Hs as (t & Ht & Hs). destruct (wt_phase t) eqn:Ep; simplify_eq.
    apply (free_good u s task t); try done.
    + intros i Hi. by rewrite lookup_insert_ne.
    + right. by rewrite lookup_insert_eq.
    + by eapply release_freed.
  - apply bind_Some in Hs as (t & Ht & Hs). destruct (wt_phase t) eqn:Ep; simplify_eq. rewrite with_gate_id.
    apply (free_good u s task t); try done.
    + intros i Hi. by rewrite lookup_delete_ne.
    + left. by rewrite lookup_delete_eq.
    + split_and!; try done. intros Hc. by eapply freed_slot_is_free.
  - apply bind_Some in Hs as (t & Ht & Hs). destruct (wt_aborted t) eqn:Ea; simplify_eq.
    destruct (gg_tasks u s G _ _ Ht) as (_ & _ & _ & Hst & _). specialize (Hst Ea).
    replace (match wt_phase t with WorkHoldsSlot => _ | _ => _ end) with
      (with_gate (gy_gate s) (with_tasks (delete task (gy_tasks s)) s)).
    2: { destruct (wt_phase t); try done. rewrite (release_stale u s task t); try done. unfold is_current. lia. }
    apply (free_good u s task t); try done.
    + intros i Hi. by rewrite lookup_delete_ne.
    + left. by rewrite lookup_delete_eq.
    + split_and!; try done. unfold is_current. lia.
  - apply (gate_good_grow u s); try done. cbn. set_solver.
Qed.

Lemma gate_step_admissions u e s s' : gate_step u e s = Some s' → gy_admissions s ≤ gy_admissions s'.
Proof.
  destruct e; cbn; unfold goal_arrives, mbind, option_bind; intros; repeat case_match; simplify_eq; cbn; try lia.
  all: destruct (aborts_superseded u); cbn; lia.
Qed.

Lemma gate_reachable_inv u s : gate_reachable u s → gate_inv u s.
Proof.
  unfold gate_reachable, gate_inv. intros H. apply rtc_ind_r with (P := λ s, gy_admissions s < 2 ^ 64 → gate_good u s) in H;
    [done|intros _; apply gate_start_good|].
  clear. intros s s' _ [e He] IH Hb. eapply gate_step_good; [apply IH|done|done].
  apply gate_step_admissions in He. lia.
Qed.

(** A goal is refused: the gate stays, and its clock is reported. *)
Definition refused (timeout_secs : Z) (force : bool) (s : GateSys) : Prop :=
  ∃ r, try_admit timeout_secs force (gy_now s) (gy_gate s) = (AlreadyRunning r, None, gy_gate s).

Lemma refused_iff timeout_secs force s :
  refused timeout_secs force s ↔ gs_running (gy_gate s) ≠ None ∧ force = false.
Proof.
  unfold refused, try_admit. destruct (gs_running (gy_gate s)), force; naive_solver.
Qed.

(** C11: Over every interleaving of an action's accept loop with the tasks of
    its goals, forced or not, up to as many admissions as a [u64] counts: the
    slot is taken exactly while the loop starts a goal or the latest goal's work
    has not freed it, so the gate is never stuck; the work of at most one goal is
    not cancelled, none while another is being started, and without [--force]
    there is no other at all; a goal is refused exactly while the latest goal
    holds the slot and it is not forced; and a guard that drops frees the slot of
    its own goal and never that of a later one. *)
Theorem gate_admits_one_goal (u : GateUser) (s : GateSys) :
  gate_reachable u s → gy_admissions s < 2 ^ 64 →
  (gs_running (gy_gate s) ≠ None ↔ handles s ∨ ∃ task t, unreleased s task t ∧ is_current s t) ∧
  (∀ i j t t', unreleased s i t → unreleased s j t' →
     wt_token t ∉ gy_cancelled s → wt_token t' ∉ gy_cancelled s → i = j) ∧
  (handles s → ∀ i t, unreleased s i t → wt_token t ∈ gy_cancelled s) ∧
  (supports_force u = false → ∀ i t, unreleased s i t → is_current s t) ∧
  (gy_loop s = LoopPulls → ∀ timeout_secs force,
     refused timeout_secs force s ↔ (∃ task t, unreleased s task t ∧ is_current s t) ∧ force = false) ∧
  (∀ task t, unreleased s task t →
     if decide (is_current s t)
     then gs_running (release_slot (wt_generation t) (gy_gate s)) = None
     else release_slot (wt_generation t) (gy_gate s) = gy_gate s).
Proof.
  intros Hr Hb. pose proof (gate_reachable_inv u s Hr Hb) as G.
  assert (Hst : ∀ i t, unreleased s i t → ¬ is_current s t →
    wt_token t ∈ gy_cancelled s ∧ supports_force u = true).
  { intros i t [Ht Hp] Hc. destruct (gg_tasks u s G _ _ Ht) as (_ & _ & ? & _ & H). apply H; [|done].
    unfold is_current in Hc. lia. }
  split_and!.
  - apply (gg_slot u s G).
  - intros i j t t' Hi Hj Ht Ht'. destruct (decide (is_current s t)) as [Hc|Hc]; [|by destruct (Hst _ _ Hi Hc)].
    destruct (decide (is_current s t')) as [Hc'|Hc']; [|by destruct (Hst _ _ Hj Hc')].
    destruct Hi, Hj. by eapply (current_unique u s).
  - intros Hh i t Hi. eapply Hst; [done|]. destruct Hi. by eapply handles_no_current.
  - intros Hf i t Hi. destruct (decide (is_current s t)) as [|Hc]; [done|].
    destruct (Hst _ _ Hi Hc). congruence.
  - intros El timeout force. rewrite refused_iff, (gg_slot u s G).
    assert (¬ handles s) by (intros (? & ? & ?); congruence). tauto.
  - intros task t [Ht _]. case_decide.
    + by rewrite (release_current u s task t).
    + by rewrite (release_stale u s task t).
Qed.

(** ** A forced add over an add that is slow to wind down *)

Fixpoint gate_run (u : GateUser) (es : list GateEvent) (s : GateSys) : option GateSys :=
  match es with
  | [] => Some s
  | e :: es => s' ← gate_step u e s; gate_run u es s'
  end.

Lemma gate_run_reachable u es s s' : gate_run u es s = Some s' → rtc (gate_steps u) s s'.
Proof.
  revert s. induction es as [|e es IH]; cbn; intros s H; [by simplify_eq; apply rtc_refl|].
  apply bind_Some in H as (s1 & H1 & H2). eapply rtc_l; [by exists e|auto].
Qed.

(** The first add is superseded, outlasts the budget and is aborted; the second
    is registered and still runs when the guard of the first drops. *)
Definition forced_add : list GateEvent :=
  [GoalArrives 60 false; WorkSpawned; WorkStarts 0; TaskRegistered; TimePasses 1500000000;
   GoalArrives 60 true; SupersededOutlasts; WorkSpawned; TaskRegistered; WorkStarts 2; WorkAborted 0].

Definition forced_add_end : GateSys :=
  default gate_start (gate_run NodeAdd forced_add gate_start).

Example second_add_keeps_the_slot :
  gate_run NodeAdd forced_add gate_start = Some forced_add_end ∧
  gs_running (gy_gate forced_add_end) = Some (mkRunningInfo 1500000000 60) ∧
  gy_cancelled forced_add_end = {[1%nat]} ∧
  try_admit 60 false (gy_now forced_add_end) (gy_gate forced_add_end) =
    (AlreadyRunning 60, None, gy_gate forced_add_end).
Proof. vm_compute. done. Qed.

Lemma gate_admits_one_goal_witness :
  gate_reachable NodeAdd forced_add_end ∧ refused 60 false forced_add_end.
Proof.
  assert (Hr : gate_reachable NodeAdd forced_add_end)
    by (apply (gate_run_reachable NodeAdd forced_add); vm_compute; reflexivity).
  assert (Hb : gy_admissions forced_add_end < 2 ^ 64) by (vm_compute; reflexivity).
  split; [exact Hr|].
  destruct (gate_admits_one_goal NodeAdd forced_add_end Hr Hb) as (_ & _ & _ & _ & H & _).
  apply (H eq_refl). split; [|reflexivity].
  exists 2%nat, (mkWorkTask 2 3 WorkHoldsSlot false 2). repeat split; vm_compute; congruence.
Defined.
