(* ===== verification/Ownership.v ===== *)
(** * Who holds a daemon's stack

    [StackState] of [core-node-internal/src/services/node/gate.rs], the
    read/write gate one stack change or any number of node goals hold, and
    [SliceOwnership] of [services/federation.rs], the launch the daemon is
    reserved for, the launch its slice came from, and the restarts it admitted.
    The functions here are the critical sections of one operation; [StackHolds]
    runs them beside each other.

    [tokio]'s [RwLock] is a class with the laws its documentation gives: any
    number of readers or one writer, and a queue in which no read passes a write
    that was asked for earlier. A [CancellationToken] is a number: a child of the
    stack's token stands for its parent, since nothing cancels the children the
    reset is read from. *)

From S2P Require Import Prelude Names RestartPolicy Config PairingRegistry Supervision Instance.
#[local] Open Scope nat_scope.

(** ** The lock *)

(** What a lock is held by and waited for: a waiter, and whether to write. *)
Record LockView : Type := mkLockView {
  lv_readers : nat;
  lv_writer : bool;
  lv_queue : list (nat * bool);
}.

(** [poll_write] and [poll_read] are a poll of the future of [write_owned] or
    [read_owned] that a waiter awaits: [true] once it holds the lock. *)
Class RwLock : Type := {
  Lock : Type;
  unlocked : Lock;
  try_read : Lock → option Lock;
  try_write : Lock → option Lock;
  poll_read : nat → Lock → bool * Lock;
  poll_write : nat → Lock → bool * Lock;
  leave_queue : nat → Lock → Lock;
  drop_read : Lock → Lock;
  drop_write : Lock → Lock;
}.

Definition queued_behind (w : nat) (q : list (nat * bool)) : list (nat * bool) :=
  List.filter (λ x, negb (bool_decide (x.1 = w))) q.

(** A waiter joins the queue once. *)
Definition join_queue (w : nat) (write : bool) (q : list (nat * bool)) : list (nat * bool) :=
  if existsb (λ x, bool_decide (x.1 = w)) q then q else q ++ [(w, write)].

Definition writer_queued (q : list (nat * bool)) : bool := existsb snd q.

Class RwLockLaws (L : RwLock) : Type := {
  lock_view : Lock → LockView;
  view_unlocked : lock_view unlocked = mkLockView 0 false [];
  try_read_spec l :
    match try_read l with
    | Some l' =>
        lv_writer (lock_view l) = false ∧ writer_queued (lv_queue (lock_view l)) = false ∧
        lock_view l' = mkLockView (S (lv_readers (lock_view l))) false (lv_queue (lock_view l))
    | None => lv_writer (lock_view l) = true ∨ writer_queued (lv_queue (lock_view l)) = true
    end;
  try_write_spec l :
    match try_write l with
    | Some l' =>
        lv_readers (lock_view l) = 0 ∧ lv_writer (lock_view l) = false ∧
        lock_view l' = mkLockView 0 true (lv_queue (lock_view l))
    | None =>
        lv_readers (lock_view l) ≠ 0 ∨ lv_writer (lock_view l) = true ∨ lv_queue (lock_view l) ≠ []
    end;
  poll_read_spec w l :
    let '(got, l') := poll_read w l in
    if got
    then lv_writer (lock_view l) = false ∧
         lock_view l' = mkLockView (S (lv_readers (lock_view l))) false
                          (queued_behind w (lv_queue (lock_view l)))
    else lock_view l' = mkLockView (lv_readers (lock_view l)) (lv_writer (lock_view l))
                          (join_queue w false (lv_queue (lock_view l)));
  poll_write_spec w l :
    let '(got, l') := poll_write w l in
    if got
    then lv_readers (lock_view l) = 0 ∧ lv_writer (lock_view l) = false ∧
         lock_view l' = mkLockView 0 true (queued_behind w (lv_queue (lock_view l)))
    else lock_view l' = mkLockView (lv_readers (lock_view l)) (lv_writer (lock_view l))
                          (join_queue w true (lv_queue (lock_view l)));
  (* The first in the queue has the lock once nobody else holds it. *)
  poll_write_first w l :
    lv_readers (lock_view l) = 0 → lv_writer (lock_view l) = false →
    head (lv_queue (lock_view l)) = Some (w, true) → (poll_write w l).1 = true;
  leave_queue_spec w l :
    lock_view (leave_queue w l) =
      mkLockView (lv_readers (lock_view l)) (lv_writer (lock_view l)) (queued_behind w (lv_queue (lock_view l)));
  drop_read_spec l :
    lock_view (drop_read l) =
      mkLockView (Nat.pred (lv_readers (lock_view l))) (lv_writer (lock_view l)) (lv_queue (lock_view l));
  drop_write_spec l :
    lock_view (drop_write l) = mkLockView (lv_readers (lock_view l)) false (lv_queue (lock_view l));
}.

(** A lock that is its view, first come first served. *)
Fixpoint before (w : nat) (q : list (nat * bool)) : list (nat * bool) :=
  match q with
  | [] => []
  | x :: q => if bool_decide (x.1 = w) then [] else x :: before w q
  end.

Lemma before_first w b q : head q = Some (w, b) → before w q = [].
Proof. destruct q as [|[x y] q]; [done|]. cbn. intros [= -> ->]. by rewrite bool_decide_eq_true_2. Qed.

#[export] Instance FifoLock : RwLock := {
  Lock := LockView;
  unlocked := mkLockView 0 false [];
  try_read l :=
    if lv_writer l || writer_queued (lv_queue l) then None
    else Some (mkLockView (S (lv_readers l)) false (lv_queue l));
  try_write l :=
    if bool_decide (lv_readers l = 0) && negb (lv_writer l) && bool_decide (lv_queue l = [])
    then Some (mkLockView 0 true (lv_queue l)) else None;
  poll_read w l :=
    if lv_writer l || writer_queued (before w (lv_queue l))
    then (false, mkLockView (lv_readers l) (lv_writer l) (join_queue w false (lv_queue l)))
    else (true, mkLockView (S (lv_readers l)) false (queued_behind w (lv_queue l)));
  poll_write w l :=
    if bool_decide (lv_readers l = 0) && negb (lv_writer l) && bool_decide (before w (lv_queue l) = [])
    then (true, mkLockView 0 true (queued_behind w (lv_queue l)))
    else (false, mkLockView (lv_readers l) (lv_writer l) (join_queue w true (lv_queue l)));
  leave_queue w l := mkLockView (lv_readers l) (lv_writer l) (queued_behind w (lv_queue l));
  drop_read l := mkLockView (Nat.pred (lv_readers l)) (lv_writer l) (lv_queue l);
  drop_write l := mkLockView (lv_readers l) false (lv_queue l);
}.

#[export] Instance FifoLock_laws : RwLockLaws FifoLock.
Proof.
  refine {| lock_view := λ l : @Lock FifoLock, l |}; try done.
  - intros [r w q]. unfold try_read, FifoLock, lv_writer, lv_queue, lv_readers.
    destruct w; cbn; [by left|]. destruct (writer_queued q) eqn:E; auto.
  - intros [r w q]. unfold try_write, FifoLock, lv_writer, lv_queue, lv_readers.
    destruct w, r as [|r], q; cbn; try done; naive_solver.
  - intros n [r w q]. unfold poll_read, FifoLock, lv_writer, lv_queue, lv_readers. 
    by destruct w, (writer_queued (before n q)) eqn:E; cbn; rewrite ?E.
  - intros n [r w q]. unfold poll_write, FifoLock, lv_writer, lv_queue, lv_readers.
    by destruct w, r as [|r], (before n q); cbn.
  - intros n [r w q]. unfold poll_write, FifoLock, lv_writer, lv_queue, lv_readers. cbn.
    intros -> -> Hq. by rewrite (before_first n true q).
Defined.

(** ** The reservation and the slice *)

(** [hr_lifetime] is the token of its [ReservationLifetime]. *)
Record HeldReservation : Type := mkHeldReservation {
  hr_launch_id : string;
  hr_coordinator_core_node : string;
  hr_lifetime : nat;
}.

Record OwnershipState : Type := mkOwnershipState {
  os_reservation : option HeldReservation;
  os_slice : option LaunchIdentity;
  os_slice_daemon : option ProducerRef;
  (* The lifetimes that ended, and the next to make. *)
  os_ended : gset nat;
  os_next : nat;
}.

Definition new_ownership : OwnershipState := mkOwnershipState None None None ∅ 0.

Definition slice_came_from (held : HeldReservation) (o : OwnershipState) : bool :=
  match os_slice o with
  | Some slice =>
      bool_decide (li_launch_id slice = hr_launch_id held)
      && bool_decide (li_coordinator_core_node slice = hr_coordinator_core_node held)
  | None => false
  end.

Definition end_held_reservation (o : OwnershipState) : OwnershipState :=
  match os_reservation o with
  | Some held =>
      mkOwnershipState None (os_slice o) (os_slice_daemon o) ({[hr_lifetime held]} ∪ os_ended o) (os_next o)
  | None => o
  end.

Inductive ReserveOutcome : Type :=
| Reserved (lifetime : nat)
| AlreadyHeld
| TookOverFromSameCoordinator (stale_launch_id : string)
| HeldByAnotherLaunch (launch_id coordinator_core_node : string).

Definition try_reserve (launch_id coordinator : string) (o : OwnershipState) : ReserveOutcome * OwnershipState :=
  match os_reservation o with
  | Some held =>
      if bool_decide (hr_launch_id held = launch_id) then (AlreadyHeld, o)
      else if bool_decide (hr_coordinator_core_node held = coordinator) then
        (TookOverFromSameCoordinator (hr_launch_id held),
         mkOwnershipState (Some (mkHeldReservation launch_id (hr_coordinator_core_node held) (hr_lifetime held)))
           (os_slice o) (os_slice_daemon o) (os_ended o) (os_next o))
      else (HeldByAnotherLaunch (hr_launch_id held) (hr_coordinator_core_node held), o)
  | None =>
      (Reserved (os_next o),
       mkOwnershipState (Some (mkHeldReservation launch_id coordinator (os_next o)))
         (os_slice o) (os_slice_daemon o) (os_ended o) (S (os_next o)))
  end.

Definition release_reservation (launch_id : string) (o : OwnershipState) : bool * OwnershipState :=
  match os_reservation o with
  | Some held => if bool_decide (hr_launch_id held = launch_id) then (true, end_held_reservation o) else (false, o)
  | None => (true, o)
  end.

Definition release_because_coordinator_gone (lifetime : nat) (o : OwnershipState) :
    option string * OwnershipState :=
  if bool_decide (lifetime ∈ os_ended o) then (None, o)
  else match os_reservation o with
       | Some held => (Some (hr_launch_id held), end_held_reservation o)
       | None => (None, o)
       end.

Definition record_slice (launch : LaunchIdentity) (coordinator_instance_id : string) (o : OwnershipState) :
    OwnershipState :=
  mkOwnershipState (os_reservation o) (Some launch)
    (Some (mkProducerRef (li_coordinator_core_node launch) coordinator_instance_id)) (os_ended o) (os_next o).

Definition slice_of (launch_id : string) (o : OwnershipState) : option LaunchIdentity :=
  match os_slice o with
  | Some slice => if bool_decide (li_launch_id slice = launch_id) then Some slice else None
  | None => None
  end.

Definition daemon_of_launch (launch_id : string) (o : OwnershipState) : option ProducerRef :=
  match slice_of launch_id o with Some _ => os_slice_daemon o | None => None end.

Definition holds_slice_of (launch_id : string) (o : OwnershipState) : bool :=
  match os_reservation o with
  | Some held => bool_decide (hr_launch_id held = launch_id) && slice_came_from held o
  | None => false
  end.

Definition held_reservation (o : OwnershipState) : option (string * string) :=
  (λ held, (hr_launch_id held, hr_coordinator_core_node held)) <$> os_reservation o.

Definition held_lifetime (o : OwnershipState) : option nat := hr_lifetime <$> os_reservation o.

Definition clear_ownership (o : OwnershipState) : OwnershipState :=
  let o := end_held_reservation o in
  mkOwnershipState (os_reservation o) None None (os_ended o) (os_next o).

(** ** Refusals *)

Inductive StackBusy : Type := BusyChange | BusyNodeGoals.

Inductive StackRefusal : Type :=
| RefusedBusy (b : StackBusy)
| RefusedReset
| RefusedEnded
| RefusedNoSlice (launch_id coordinator : string)
| RefusedReserved (launch_id coordinator : string)
| RefusedNotReserved
| RefusedOutsideSlice.

(** [admit_node_change], past the guard and the check for a reset: what the
    reservation says to a goal that names [launch_id]. *)
Definition admit_by_reservation (launch_id : option string) (o : OwnershipState) : result StackRefusal unit :=
  match os_reservation o with
  | None => match launch_id with Some _ => Err RefusedEnded | None => Ok tt end
  | Some held =>
      if bool_decide (launch_id = Some (hr_launch_id held)) then
        if slice_came_from held o then Ok tt
        else Err (RefusedNoSlice (hr_launch_id held) (hr_coordinator_core_node held))
      else Err (RefusedReserved (hr_launch_id held) (hr_coordinator_core_node held))
  end.

(** [try_begin_change] and [try_admit_node_goal] of [StackState]. *)
Definition try_begin_change `{RwLock} (l : Lock) : result StackBusy Lock :=
  match try_write l with
  | Some l' => Ok l'
  | None => Err (match try_read l with Some _ => BusyNodeGoals | None => BusyChange end)
  end.

Definition try_admit_node_goal `{RwLock} (l : Lock) : result StackBusy Lock :=
  match try_read l with Some l' => Ok l' | None => Err BusyChange end.

(** ** Counts by instance *)

(** [*entry(id).or_default() += 1], and the drop that takes one away. *)
Definition count_up (id : string) (m : gmap string nat) : gmap string nat := <[id := S (default 0 (m !! id))]> m.

Definition count_down (id : string) (m : gmap string nat) : gmap string nat :=
  match m !! id with
  | Some n => if bool_decide (n - 1 = 0) then delete id m else <[id := n - 1]> m
  | None => m
  end.

(** A count holds what it should, and no zero. *)
Definition counts (m : gmap string nat) (id : string) (n : nat) : Prop :=
  m !! id = match n with 0 => None | S _ => Some n end.

Lemma count_up_counts m id n : counts m id n → counts (count_up id m) id (S n).
Proof. unfold counts, count_up. intros ->. rewrite lookup_insert_eq. by destruct n. Qed.

Lemma count_down_counts m id n : counts m id (S n) → counts (count_down id m) id n.
Proof.
  unfold counts, count_down. intros ->. cbn. rewrite Nat.sub_0_r. destruct n; cbn; by simplify_map_eq.
Qed.

Lemma count_up_other m id id' n : id ≠ id' → counts m id' n → counts (count_up id m) id' n.
Proof. unfold counts, count_up. intros ? <-. by rewrite lookup_insert_ne. Qed.

Lemma count_down_other m id id' n : id ≠ id' → counts m id' n → counts (count_down id m) id' n.
Proof.
  unfold counts, count_down. intros ? <-. destruct (m !! id) as [k|]; [|done].
  case_bool_decide; by simplify_map_eq.
Qed.

(** ** Facts on the reservation *)

(** The launch the daemon is reserved for. *)
Definition reserved_for (o : OwnershipState) : option string := hr_launch_id <$> os_reservation o.

(** A lifetime has ended or is that of the reservation held. *)
Definition lifetimes_ok (o : OwnershipState) : Prop :=
  (∀ x, x ∈ os_ended o → x < os_next o) ∧
  (∀ x, x < os_next o → x ∈ os_ended o ∨ held_lifetime o = Some x) ∧
  (∀ x, held_lifetime o = Some x → x < os_next o ∧ x ∉ os_ended o).
