(* ===== verification/StackHolds.v ===== *)
(** * The work a daemon admits onto its stack

    The tasks that share the [StackState] and the [SliceOwnership] of a daemon,
    as a transition system: node goals and removals ([admit_node_change] and the
    handlers of [services/node]), stack changes ([services/stack/action.rs]),
    the requests of a launch's coordinator ([services/federation/service.rs]),
    resets ([begin_reset], [services/stack/reset.rs]) and restarts
    ([admit_restart], [restart_task] of [services/node/supervisor.rs]). A step is
    one operation on one shared cell, so a run is any interleaving of the
    daemon's threads.

    The [stack_reset] endpoint answers one request at a time, so at most one
    reset is in flight. What the work does between its admission and its end is
    not modelled; it may end at any time. The read with which [try_begin_change]
    names its refusal is one step with its try to write. *)

From S2P Require Import Prelude Names RestartPolicy Config PairingRegistry Supervision Instance Ownership.
#[local] Open Scope nat_scope.

(** ** Tasks *)

Inductive CopyAction : Type := CopyJoin | CopyRemove.

Record CopyChange : Type := mkCopyChange {
  cc_action : CopyAction;
  cc_name : string;
  cc_option : string;
}.

(** A node goal: asked for, holding its guard, past the check for a reset,
    admitted, holding restarts off (a removal), working under the token it read
    the reset from, and about to drop its guard. *)
Inductive GoalPhase : Type :=
| GoalAsks
| GoalGuarded
| GoalUncancelled
| GoalPasses
| GoalHolds
| GoalWorks (reset : nat)
| GoalLeaves (r : option StackRefusal).

Inductive HoldKind : Type :=
| StackAction (copy : option CopyChange)
| ReserveFor (launch_id coordinator : string)
| SliceBegin (launch_id instance_id : string)
| SliceChange (launch_id : string).

(** A change: [HoldBegins] is past the check a slice begin makes before it takes
    the stack, with the coordinator it read; [HoldClears] drops its [StackHold],
    whose guard goes last. *)
Inductive HoldPhase : Type :=
| HoldAsks
| HoldBegins (coordinator : string)
| HoldGuarded (coordinator : string)
| HoldChecked
| HoldReported
| HoldWorks (reset : option nat)
| HoldClears (r : option StackRefusal)
| HoldLeaves (r : option StackRefusal).

Inductive ResetPhase : Type := ResetAsks | ResetCancelled | ResetGranted | ResetHolds | ResetCleared.

Inductive RestartWait : Type := ForLifetime (lifetime : nat) | ForHolds.

(** [outer] is the token of [restart_task], [reset] that of a turn of
    [admit_restart]. *)
Inductive RestartPhase : Type :=
| RsSpawned
| RsSleeps (outer : nat)
| RsAsks (outer : nat)
| RsTries (outer reset : nat)
| RsQueues (outer reset : nat)
| RsGot (outer reset : nat)
| RsGuarded (outer reset : nat)
| RsUncancelled (outer : nat)
| RsUnreserved (outer : nat)
| RsUnheld (outer : nat)
| RsUnlocks (outer : nat) (w : RestartWait)
| RsNotes (outer : nat) (w : RestartWait)
| RsWaits (outer : nat) (w : RestartWait)
| RsForgets
| RsAdmitted (outer : nat)
| RsWorks (outer : nat)
| RsUncounts
| RsLeaves.

Inductive StackTask : Type :=
| Goal (launch_id : option string) (removal : bool) (p : GoalPhase)
| Hold (k : HoldKind) (p : HoldPhase)
| Reset (p : ResetPhase)
| Restart (id : string) (p : RestartPhase)
| Over (r : option StackRefusal).

Inductive StackRequest : Type :=
| AskGoal (launch_id : option string) (removal : bool)
| AskHold (k : HoldKind)
| AskReset
| AskRestart (id : string).

Definition asked (r : StackRequest) : StackTask :=
  match r with
  | AskGoal launch_id removal => Goal launch_id removal GoalAsks
  | AskHold k => Hold k HoldAsks
  | AskReset => Reset ResetAsks
  | AskRestart id => Restart id RsSpawned
  end.

Section system.
Context {L : RwLock}.

(** [dm_root] is the stack's token, replaced by a reset. *)
Record Daemon : Type := mkDaemon {
  dm_lock : Lock;
  dm_root : nat;
  dm_cancelled : gset nat;
  dm_next_token : nat;
  dm_owner : OwnershipState;
  dm_holds : nat;
  dm_admitted : gmap string nat;
  dm_waits : gmap string nat;
  dm_copy : option CopyChange;
  dm_tasks : gmap nat StackTask;
}.

Definition daemon_start : Daemon := mkDaemon unlocked 0 ∅ 1 new_ownership 0 ∅ ∅ None ∅.

Definition with_lock (l : Lock) (d : Daemon) : Daemon :=
  mkDaemon l (dm_root d) (dm_cancelled d) (dm_next_token d) (dm_owner d) (dm_holds d) (dm_admitted d)
    (dm_waits d) (dm_copy d) (dm_tasks d).
Definition with_owner (o : OwnershipState) (d : Daemon) : Daemon :=
  mkDaemon (dm_lock d) (dm_root d) (dm_cancelled d) (dm_next_token d) o (dm_holds d) (dm_admitted d)
    (dm_waits d) (dm_copy d) (dm_tasks d).
Definition with_holds (n : nat) (d : Daemon) : Daemon :=
  mkDaemon (dm_lock d) (dm_root d) (dm_cancelled d) (dm_next_token d) (dm_owner d) n (dm_admitted d)
    (dm_waits d) (dm_copy d) (dm_tasks d).
Definition with_admitted (m : gmap string nat) (d : Daemon) : Daemon :=
  mkDaemon (dm_lock d) (dm_root d) (dm_cancelled d) (dm_next_token d) (dm_owner d) (dm_holds d) m
    (dm_waits d) (dm_copy d) (dm_tasks d).
Definition with_waits (m : gmap string nat) (d : Daemon) : Daemon :=
  mkDaemon (dm_lock d) (dm_root d) (dm_cancelled d) (dm_next_token d) (dm_owner d) (dm_holds d) (dm_admitted d)
    m (dm_copy d) (dm_tasks d).
Definition with_copy_change (c : option CopyChange) (d : Daemon) : Daemon :=
  mkDaemon (dm_lock d) (dm_root d) (dm_cancelled d) (dm_next_token d) (dm_owner d) (dm_holds d) (dm_admitted d)
    (dm_waits d) c (dm_tasks d).
Definition put_task (t : nat) (x : StackTask) (d : Daemon) : Daemon :=
  mkDaemon (dm_lock d) (dm_root d) (dm_cancelled d) (dm_next_token d) (dm_owner d) (dm_holds d) (dm_admitted d)
    (dm_waits d) (dm_copy d) (<[t := x]> (dm_tasks d)).

(** [cancellation().is_cancelled()] of a token read when [token] was the stack's. *)
Definition is_cancelled (token : nat) (d : Daemon) : bool := bool_decide (token ∈ dm_cancelled d).

(** [begin_reset]: the cancel, and the token of the time after it. *)
Definition cancel_root (d : Daemon) : Daemon :=
  mkDaemon (dm_lock d) (dm_root d) ({[dm_root d]} ∪ dm_cancelled d) (dm_next_token d) (dm_owner d) (dm_holds d)
    (dm_admitted d) (dm_waits d) (dm_copy d) (dm_tasks d).
Definition renew_root (d : Daemon) : Daemon :=
  mkDaemon (dm_lock d) (dm_next_token d) (dm_cancelled d) (S (dm_next_token d)) (dm_owner d) (dm_holds d)
    (dm_admitted d) (dm_waits d) (dm_copy d) (dm_tasks d).

(** ** The next operation of a task *)

(** [admit_node_change], [hold_restarts] and [cancellation]. *)
Definition goal_goes (launch_id : option string) (removal : bool) (p : GoalPhase) (d : Daemon) :
    option (StackTask * Daemon) :=
  let next p := Goal launch_id removal p in
  match p with
  | GoalAsks =>
      Some match try_admit_node_goal (dm_lock d) with
           | Ok l => (next GoalGuarded, with_lock l d)
           | Err b => (Over (Some (RefusedBusy b)), d)
           end
  | GoalGuarded =>
      Some (next (if is_cancelled (dm_root d) d then GoalLeaves (Some RefusedReset) else GoalUncancelled), d)
  | GoalUncancelled =>
      Some (next match admit_by_reservation launch_id (dm_owner d) with
                 | Ok _ => GoalPasses
                 | Err r => GoalLeaves (Some r)
                 end, d)
  | GoalPasses =>
      Some (if removal then (next GoalHolds, with_holds (S (dm_holds d)) d)
            else (next (GoalWorks (dm_root d)), d))
  | GoalHolds => Some (next (GoalWorks (dm_root d)), d)
  | GoalWorks _ => None
  | GoalLeaves r => Some (Over r, with_lock (drop_read (dm_lock d)) d)
  end.

(** The work ends, or the goal is refused past its admission: the hold on
    restarts drops before the guard. *)
Definition goal_ends (launch_id : option string) (removal : bool) (p : GoalPhase) (d : Daemon) :
    option (StackTask * Daemon) :=
  match p with
  | GoalPasses => Some (Goal launch_id removal (GoalLeaves None), d)
  | GoalHolds | GoalWorks _ =>
      Some (Goal launch_id removal (GoalLeaves None), if removal then with_holds (dm_holds d - 1) d else d)
  | _ => None
  end.

Definition begin_hold (k : HoldKind) (coordinator : string) (d : Daemon) : StackTask * Daemon :=
  match try_begin_change (dm_lock d) with
  | Ok l => (Hold k (HoldGuarded coordinator), with_lock l d)
  | Err b => (Over (Some (RefusedBusy b)), d)
  end.

(** [slice_begin_inner], up to its hold. *)
Definition slice_begin_asks (k : HoldKind) (launch_id : string) (d : Daemon) : StackTask * Daemon :=
  match held_reservation (dm_owner d) with
  | None => (Over (Some RefusedNotReserved), d)
  | Some (held, coordinator) =>
      if bool_decide (held = launch_id) then (Hold k (HoldBegins coordinator), d)
      else (Over (Some (RefusedReserved held coordinator)), d)
  end.

(** [handle_goal_request] of [stack/action.rs], once it holds the stack. *)
Definition action_checks (k : HoldKind) (d : Daemon) : StackTask * Daemon :=
  match held_reservation (dm_owner d) with
  | Some (held, coordinator) => (Hold k (HoldClears (Some (RefusedReserved held coordinator))), d)
  | None => (Hold k HoldChecked, d)
  end.

(** [reserve_inner], its match on [try_reserve]. *)
Definition reserve_daemon (k : HoldKind) (launch_id coordinator : string) (d : Daemon) : StackTask * Daemon :=
  match try_reserve launch_id coordinator (dm_owner d) with
  | (HeldByAnotherLaunch held other, _) => (Hold k (HoldClears (Some (RefusedReserved held other))), d)
  | (_, o) => (Hold k (HoldWorks None), with_owner o d)
  end.

(** [admit_slice_change], once it holds the stack. *)
Definition slice_change_checks (k : HoldKind) (launch_id : string) (d : Daemon) : StackTask * Daemon :=
  (Hold k (if holds_slice_of launch_id (dm_owner d) then HoldWorks None
           else HoldClears (Some RefusedOutsideSlice)), d).

(** A change one operation at a time, with the drop of its [StackHold]. *)
Definition hold_goes (k : HoldKind) (p : HoldPhase) (d : Daemon) : option (StackTask * Daemon) :=
  match p with
  | HoldAsks =>
      Some match k with
           | SliceBegin launch_id _ => slice_begin_asks k launch_id d
           | _ => begin_hold k EmptyString d
           end
  | HoldBegins coordinator => Some (begin_hold k coordinator d)
  | HoldGuarded coordinator =>
      Some match k with
           | StackAction _ => action_checks k d
           | ReserveFor launch_id coordinator => reserve_daemon k launch_id coordinator d
           | SliceBegin launch_id instance_id =>
               (Hold k (HoldWorks None),
                with_owner (record_slice (mkLaunchIdentity launch_id coordinator) instance_id (dm_owner d)) d)
           | SliceChange launch_id => slice_change_checks k launch_id d
           end
  | HoldChecked =>
      Some match k with
           | StackAction (Some c) => (Hold k HoldReported, with_copy_change (Some c) d)
           | _ => (Hold k (HoldWorks (Some (dm_root d))), d)
           end
  | HoldReported => Some (Hold k (HoldWorks (Some (dm_root d))), d)
  | HoldWorks _ => None
  | HoldClears r => Some (Hold k (HoldLeaves r), with_copy_change None d)
  | HoldLeaves r => Some (Over r, with_lock (drop_write (dm_lock d)) d)
  end.

(** A change ends, or is refused for what is not modelled: leases, pins, a log
    that cannot be opened, another stack on the machine. *)
Definition hold_ends (k : HoldKind) (p : HoldPhase) (d : Daemon) : option (StackTask * Daemon) :=
  match p with
  | HoldGuarded _ | HoldChecked | HoldReported | HoldWorks _ => Some (Hold k (HoldClears None), d)
  | _ => None
  end.

(** [begin_reset] and [handle_stack_reset_request_inner]. *)
Definition reset_goes (t : nat) (p : ResetPhase) (d : Daemon) : StackTask * Daemon :=
  match p with
  | ResetAsks => (Reset ResetCancelled, cancel_root d)
  | ResetCancelled =>
      let '(got, l) := poll_write t (dm_lock d) in
      (Reset (if got then ResetGranted else ResetCancelled), with_lock l d)
  | ResetGranted => (Reset ResetHolds, renew_root d)
  | ResetHolds => (Reset ResetCleared, with_owner (clear_ownership (dm_owner d)) d)
  | ResetCleared => (Over None, with_lock (drop_write (dm_lock d)) d)
  end.

Definition wait_over (w : RestartWait) (d : Daemon) : bool :=
  match w with
  | ForLifetime lifetime => bool_decide (lifetime ∈ os_ended (dm_owner d))
  | ForHolds => bool_decide (dm_holds d = 0)
  end.

(** The loop of [admit_restart]. *)
Definition admit_restart (t : nat) (id : string) (p : RestartPhase) (d : Daemon) : option (StackTask * Daemon) :=
  let next p := Restart id p in
  match p with
  | RsAsks outer => Some (next (RsTries outer (dm_root d)), d)
  | RsTries outer reset =>
      Some match try_admit_node_goal (dm_lock d) with
           | Ok l => (next (RsGuarded outer reset), with_lock l d)
           | Err _ => (next (RsQueues outer reset), with_waits (count_up id (dm_waits d)) d)
           end
  | RsQueues outer reset =>
      let '(got, l) := poll_read t (dm_lock d) in
      Some (next (if got then RsGot outer reset else RsQueues outer reset), with_lock l d)
  | RsGot outer reset => Some (next (RsGuarded outer reset), with_waits (count_down id (dm_waits d)) d)
  | RsGuarded outer reset => Some (next (if is_cancelled reset d then RsLeaves else RsUncancelled outer), d)
  | RsUncancelled outer =>
      Some (next match held_lifetime (dm_owner d) with
                 | Some lifetime => RsUnlocks outer (ForLifetime lifetime)
                 | None => RsUnreserved outer
                 end, d)
  | RsUnreserved outer =>
      Some (next (if bool_decide (dm_holds d = 0) then RsUnheld outer else RsUnlocks outer ForHolds), d)
  | RsUnheld outer => Some (next (RsAdmitted outer), with_admitted (count_up id (dm_admitted d)) d)
  | RsUnlocks outer w => Some (next (RsNotes outer w), with_lock (drop_read (dm_lock d)) d)
  | RsNotes outer w => Some (next (RsWaits outer w), with_waits (count_up id (dm_waits d)) d)
  | RsWaits outer w =>
      if wait_over w d then Some (next (RsAsks outer), with_waits (count_down id (dm_waits d)) d) else None
  | RsForgets => Some (Over None, with_waits (count_down id (dm_waits d)) d)
  | _ => None
  end.

(** [restart_task] around it, with the drop of its [RestartAdmission]. *)
Definition restart_goes (t : nat) (id : string) (p : RestartPhase) (d : Daemon) : option (StackTask * Daemon) :=
  let next p := Restart id p in
  match p with
  | RsSpawned => Some (next (RsSleeps (dm_root d)), d)
  | RsSleeps outer => Some (if is_cancelled outer d then Over None else next (RsAsks outer), d)
  | RsAdmitted outer => Some (next (if is_cancelled outer d then RsUncounts else RsWorks outer), d)
  | RsWorks _ => None
  | RsUncounts => Some (next RsLeaves, with_admitted (count_down id (dm_admitted d)) d)
  | RsLeaves => Some (Over None, with_lock (drop_read (dm_lock d)) d)
  | _ => admit_restart t id p d
  end.

(** A stop cancels the restart where it awaits, or its start ends. *)
Definition restart_ends (t : nat) (id : string) (p : RestartPhase) (d : Daemon) : option (StackTask * Daemon) :=
  match p with
  | RsSleeps _ => Some (Over None, d)
  | RsQueues _ _ => Some (Restart id RsForgets, with_lock (leave_queue t (dm_lock d)) d)
  | RsWaits _ _ => Some (Restart id RsForgets, d)
  | RsWorks _ => Some (Restart id RsUncounts, d)
  | _ => None
  end.

Definition goes (t : nat) (x : StackTask) (d : Daemon) : option (StackTask * Daemon) :=
  match x with
  | Goal launch_id removal p => goal_goes launch_id removal p d
  | Hold k p => hold_goes k p d
  | Reset p => Some (reset_goes t p d)
  | Restart id p => restart_goes t id p d
  | Over _ => None
  end.

Definition ends (t : nat) (x : StackTask) (d : Daemon) : option (StackTask * Daemon) :=
  match x with
  | Goal launch_id removal p => goal_ends launch_id removal p d
  | Hold k p => hold_ends k p d
  | Restart id p => restart_ends t id p d
  | _ => None
  end.

(** ** Steps *)

(** Besides the tasks: the release of a reservation by its coordinator, or by
    the watch on it, and the slice a stack change records. *)
Inductive StackEvent : Type :=
| Asks (t : nat) (r : StackRequest)
| Goes (t : nat)
| Ends (t : nat)
| Releases (launch_id : string)
| CoordinatorGone (lifetime : nat)
| RecordsSlice (t : nat) (launch : LaunchIdentity) (instance_id : string).

Definition is_reset (x : StackTask) : bool := match x with Reset _ => true | _ => false end.

Definition no_reset (d : Daemon) : bool := negb (existsb is_reset (map_to_list (dm_tasks d)).*2).

Definition holds_step (e : StackEvent) (d : Daemon) : option Daemon :=
  match e with
  | Asks t r =>
      match dm_tasks d !! t with
      | Some _ => None
      | None => if is_reset (asked r) && negb (no_reset d) then None else Some (put_task t (asked r) d)
      end
  | Goes t => x ← dm_tasks d !! t; '(x', d') ← goes t x d; Some (put_task t x' d')
  | Ends t => x ← dm_tasks d !! t; '(x', d') ← ends t x d; Some (put_task t x' d')
  | Releases launch_id => Some (with_owner (release_reservation launch_id (dm_owner d)).2 d)
  | CoordinatorGone lifetime =>
      if bool_decide (lifetime < os_next (dm_owner d))
      then Some (with_owner (release_because_coordinator_gone lifetime (dm_owner d)).2 d) else None
  | RecordsSlice t launch instance_id =>
      match dm_tasks d !! t with
      | Some (Hold (StackAction _) (HoldWorks _)) =>
          Some (with_owner (record_slice launch instance_id (dm_owner d)) d)
      | _ => None
      end
  end.

Definition holds_steps (d d' : Daemon) : Prop := ∃ e, holds_step e d = Some d'.

Definition holds_reachable (d : Daemon) : Prop := rtc holds_steps daemon_start d.
End system.
