(* ===== verification/HoldsSafety.v ===== *)
(** * What a daemon's admissions keep

    The invariant of [StackHolds] under every interleaving: the guards the tasks
    hold are what the lock counts, so one change runs alone and node goals run
    beside each other only; work reads the token a reset cancels; the reservation
    keeps to the work admitted beside it; the counts a refusal names and the copy
    change [stack list] reports belong to tasks in flight. *)

From S2P Require Import Prelude Names RestartPolicy Config PairingRegistry Supervision Instance Ownership StackHolds.
#[local] Open Scope nat_scope.

(** ** Counting tasks *)

Section counting.
Context {A : Type}.
Implicit Types (P : A → bool) (m : gmap nat A).

Definition count_tasks P m : nat := length (List.filter P (map_to_list m).*2).

Lemma count_tasks_empty P : count_tasks P ∅ = 0.
Proof. unfold count_tasks. by rewrite map_to_list_empty. Qed.

Lemma count_tasks_new P m t x :
  m !! t = None → count_tasks P (<[t := x]> m) = Nat.b2n (P x) + count_tasks P m.
Proof.
  intros Hm. unfold count_tasks.
  assert (E : (map_to_list (<[t := x]> m)).*2 ≡ₚ x :: (map_to_list m).*2)
    by (by rewrite map_to_list_insert).
  assert (H : ∀ l l' : list A, l ≡ₚ l' → length (List.filter P l) = length (List.filter P l')).
  { induction 1; cbn; repeat case_match; cbn; congruence. }
  rewrite (H _ _ E). cbn. by destruct (P x).
Qed.

Lemma count_tasks_update P m t x y :
  m !! t = Some x → count_tasks P (<[t := y]> m) + Nat.b2n (P x) = Nat.b2n (P y) + count_tasks P m.
Proof.
  intros Hm. rewrite <- (insert_delete_id m t x Hm) at 2. rewrite <- insert_delete_eq.
  rewrite !count_tasks_new by apply lookup_delete_eq. lia.
Qed.

Lemma count_tasks_pos P m t x : m !! t = Some x → P x = true → 0 < count_tasks P m.
Proof. intros Hm HP. pose proof (count_tasks_update P m t x x Hm). rewrite (insert_id m t x Hm) in *.
  rewrite <- (insert_delete_id m t x Hm), count_tasks_new by apply lookup_delete_eq. rewrite HP. cbn. lia.
Qed.

Lemma count_tasks_two P m t t' x x' :
  m !! t = Some x → m !! t' = Some x' → P x = true → P x' = true → t ≠ t' → 2 ≤ count_tasks P m.
Proof.
  intros Hm Hm' HP HP' Hne. rewrite <- (insert_delete_id m t x Hm), count_tasks_new by apply lookup_delete_eq.
  assert (0 < count_tasks P (delete t m)).
  { apply (count_tasks_pos P _ t' x'); [|done]. by rewrite lookup_delete_ne. }
  rewrite HP. cbn. lia.
Qed.

Lemma count_tasks_zero P m : count_tasks P m = 0 ↔ ∀ t x, m !! t = Some x → P x = false.
Proof.
  split.
  - intros H t x Hx. destruct (P x) eqn:E; [|done]. pose proof (count_tasks_pos P m t x Hx E). lia.
  - intros H. unfold count_tasks. assert (Hl : ∀ x, x ∈ (map_to_list m).*2 → P x = false).
    { intros x ([t y] & -> & Hy)%list_elem_of_fmap. apply elem_of_map_to_list in Hy. eauto. }
    induction (map_to_list m).*2 as [|x l IH]; [done|]. cbn. rewrite (Hl x) by set_solver.
    apply IH. intros y Hy. apply Hl. set_solver.
Qed.
End counting.

(** ** What a task holds *)

Definition reads (x : StackTask) : bool :=
  match x with
  | Goal _ _ GoalAsks => false
  | Goal _ _ _ => true
  | Restart _ p =>
      match p with
      | RsGot _ _ | RsGuarded _ _ | RsUncancelled _ | RsUnreserved _ | RsUnheld _ | RsUnlocks _ _
      | RsAdmitted _ | RsWorks _ | RsUncounts | RsLeaves => true
      | _ => false
      end
  | _ => false
  end.

Definition writes (x : StackTask) : bool :=
  match x with
  | Hold _ HoldAsks | Hold _ (HoldBegins _) => false
  | Hold _ _ => true
  | Reset ResetAsks | Reset ResetCancelled => false
  | Reset _ => true
  | _ => false
  end.

(** Work in flight, and the work that is a coordinator's request. *)
Definition at_work (x : StackTask) : bool :=
  match x with Goal _ _ (GoalWorks _) | Hold _ (HoldWorks _) | Restart _ (RsWorks _) => true | _ => false end.

Definition for_coordinator (x : StackTask) : bool :=
  match x with
  | Hold (ReserveFor _ _) _ | Hold (SliceBegin _ _) _ | Hold (SliceChange _) _ => true
  | _ => false
  end.

(** The token a task at work stops at: none, for the request of a coordinator,
    which takes no token and runs to its end. *)
Definition works_under (x : StackTask) : option nat :=
  match x with
  | Goal _ _ (GoalWorks reset) => Some reset
  | Hold _ (HoldWorks reset) => reset
  | Restart _ (RsWorks outer) => Some outer
  | _ => None
  end.

Definition holds_off (x : StackTask) : bool :=
  match x with Goal _ true GoalHolds | Goal _ true (GoalWorks _) => true | _ => false end.

Definition counts_admitted (id : string) (x : StackTask) : bool :=
  match x with
  | Restart i (RsAdmitted _) | Restart i (RsWorks _) | Restart i RsUncounts => bool_decide (i = id)
  | _ => false
  end.

Definition waits_for (id : string) (x : StackTask) : bool :=
  match x with
  | Restart i (RsQueues _ _) | Restart i (RsGot _ _) | Restart i (RsWaits _ _) | Restart i RsForgets =>
      bool_decide (i = id)
  | _ => false
  end.

(** The copy change a task reported and has not cleared. *)
Definition reports (x : StackTask) : option CopyChange :=
  match x with
  | Hold (StackAction c) HoldReported | Hold (StackAction c) (HoldWorks _) | Hold (StackAction c) (HoldClears _) => c
  | _ => None
  end.

(** Past its admission a task runs beside no reservation but its own launch's.
    Of a slice begin nothing is said: it read the reservation before it took the
    stack, and may run under a later one
    ([slice_begins_for_a_launch_that_ended]). *)
Definition runs_beside (reserved : option string) (x : StackTask) : Prop :=
  match x with
  | Goal launch_id _ GoalPasses | Goal launch_id _ GoalHolds | Goal launch_id _ (GoalWorks _) =>
      reserved = None ∨ reserved = launch_id
  | Hold (StackAction _) HoldChecked | Hold (StackAction _) HoldReported | Hold (StackAction _) (HoldWorks _) =>
      reserved = None
  | Hold (ReserveFor launch_id _) HoldChecked | Hold (ReserveFor launch_id _) HoldReported
  | Hold (ReserveFor launch_id _) (HoldWorks _)
  | Hold (SliceChange launch_id) HoldChecked | Hold (SliceChange launch_id) HoldReported
  | Hold (SliceChange launch_id) (HoldWorks _) =>
      reserved = None ∨ reserved = Some launch_id
  | Restart _ (RsUnreserved _) | Restart _ (RsUnheld _) | Restart _ (RsAdmitted _) | Restart _ (RsWorks _) =>
      reserved = None
  | Hold (SliceBegin _ _) _ => True
  | _ => True
  end.

Lemma runs_beside_guard reserved reserved' x :
  reads x = false → writes x = false → runs_beside reserved x → runs_beside reserved' x.
Proof. destruct x as [? ? []|[] []|[]|? []|?]; cbn; done. Qed.

Lemma runs_beside_none reserved x : runs_beside reserved x → runs_beside None x.
Proof. destruct x as [? ? []|[] []|[]|? []|?]; cbn; naive_solver. Qed.

Lemma at_work_guard x : at_work x = true → reads x = true ∨ writes x = true.
Proof. destruct x as [? ? []|[] []|[]|? []|?]; cbn; auto. Qed.

(** The phases a change goes through: the work of a stack change has a token,
    and a coordinator's request takes none. *)
Definition phase_ok (x : StackTask) : Prop :=
  match x with
  | Hold (StackAction _) (HoldWorks None) => False
  | Hold (StackAction _) _ => True
  | Hold _ HoldChecked | Hold _ HoldReported | Hold _ (HoldWorks (Some _)) => False
  | _ => True
  end.

Lemma phase_token x :
  phase_ok x → at_work x = true → if for_coordinator x then works_under x = None else is_Some (works_under x).
Proof. destruct x as [? ? []|[] [| | | | |[]| |]|[]|? []|?]; cbn; done. Qed.

Lemma works_under_guard x token : works_under x = Some token → reads x = true ∨ writes x = true.
Proof. destruct x as [? ? []|[] []|[]|? []|?]; cbn; naive_solver. Qed.

(** ** The reservation *)

Lemma end_held_lifetimes o : lifetimes_ok o → lifetimes_ok (end_held_reservation o).
Proof.
  unfold lifetimes_ok, held_lifetime, end_held_reservation. intros (H1 & H2 & H3).
  destruct (os_reservation o) as [h|] eqn:E; [|by rewrite E]. cbn in *. split_and!; [|set_solver|done].
  destruct (H3 (hr_lifetime h) eq_refl). set_solver.
Qed.

Lemma try_reserve_lifetimes launch by_ o : lifetimes_ok o → lifetimes_ok (try_reserve launch by_ o).2.
Proof.
  unfold lifetimes_ok, held_lifetime, try_reserve. intros (H1 & H2 & H3).
  destruct (os_reservation o) as [h|] eqn:E; [repeat case_bool_decide; cbn; rewrite ?E; done|]. cbn in *.
  split_and!.
  - intros x Hx. specialize (H1 x Hx). lia.
  - intros x Hx. destruct (decide (x = os_next o)) as [->|]; [by right|]. left.
    destruct (H2 x) as [?|?]; [lia|done..].
  - intros x [= <-]. split; [lia|]. intros Hx%H1. lia.
Qed.

Lemma release_lifetimes launch o : lifetimes_ok o → lifetimes_ok (release_reservation launch o).2.
Proof.
  unfold release_reservation. intros H. repeat case_match; cbn; auto using end_held_lifetimes.
Qed.

Lemma gone_lifetimes lifetime o :
  lifetimes_ok o → lifetimes_ok (release_because_coordinator_gone lifetime o).2.
Proof.
  unfold release_because_coordinator_gone. intros H. repeat case_match; cbn; auto using end_held_lifetimes.
Qed.

Lemma end_held_reserved o : reserved_for (end_held_reservation o) = None.
Proof. unfold reserved_for, end_held_reservation. by destruct (os_reservation o) as [h|] eqn:E; cbn; rewrite ?E. Qed.

Lemma release_reserved launch o :
  reserved_for (release_reservation launch o).2 = reserved_for o ∨
  reserved_for (release_reservation launch o).2 = None.
Proof.
  unfold release_reservation. repeat case_match; cbn; auto using end_held_reserved.
Qed.

Lemma gone_reserved lifetime o :
  reserved_for (release_because_coordinator_gone lifetime o).2 = reserved_for o ∨
  reserved_for (release_because_coordinator_gone lifetime o).2 = None.
Proof.
  unfold release_because_coordinator_gone. repeat case_match; cbn; auto using end_held_reserved.
Qed.

(** A watch that outlived its reservation frees none. *)
Lemma gone_is_its_own lifetime o :
  lifetimes_ok o → lifetime < os_next o → held_lifetime o ≠ Some lifetime →
  release_because_coordinator_gone lifetime o = (None, o).
Proof.
  intros (_ & H & _) Hl Hne. unfold release_because_coordinator_gone.
  destruct (H _ Hl); [|done]. by rewrite bool_decide_eq_true_2.
Qed.

Lemma admit_by_reservation_beside launch o :
  admit_by_reservation launch o = Ok tt → reserved_for o = None ∨ reserved_for o = launch.
Proof.
  unfold admit_by_reservation, reserved_for. intros. destruct (os_reservation o) as [h|]; cbn; [|by left].
  case_bool_decide; [|done]. subst. by right.
Qed.

Lemma try_reserve_beside launch by_ o r o' :
  try_reserve launch by_ o = (r, o') → (∀ l c, r ≠ HeldByAnotherLaunch l c) → reserved_for o' = Some launch.
Proof.
  unfold try_reserve, reserved_for. intros H Hr. destruct (os_reservation o) as [h|] eqn:E.
  - repeat case_bool_decide; simplify_eq/=; rewrite ?E; naive_solver.
  - by simplify_eq/=.
Qed.

Lemma holds_slice_beside launch o : holds_slice_of launch o = true → reserved_for o = Some launch.
Proof.
  unfold holds_slice_of, reserved_for. destruct (os_reservation o); [|done]. cbn.
  rewrite andb_true_iff, bool_decide_eq_true. intros [-> _]. done.
Qed.

(** ** One move of one task *)

Section moves.
Context {L : RwLock} {LL : RwLockLaws L}.
Implicit Types (d : Daemon) (x : StackTask).

Definition moved (t : nat) (x : StackTask) (d : Daemon) (x' : StackTask) (d' : Daemon) : Prop :=
  goes t x d = Some (x', d') ∨ ends t x d = Some (x', d').

(** Every branch of every operation. *)
Ltac moves H :=
  destruct H as [H|H];
  match type of H with
  | _ _ ?x _ = _ => destruct x as [? ? []|[] []|[]|? []|?]
  end; cbn in H;
  unfold slice_begin_asks, action_checks, reserve_daemon, slice_change_checks, begin_hold, try_begin_change,
    try_admit_node_goal in H;
  repeat case_match; simplify_eq/=; try done.

(** What a move does to the lock, for the guards of its task. *)
Inductive lock_moves (x x' : StackTask) (v v' : LockView) : Prop :=
| lock_same :
    reads x' = reads x → writes x' = writes x → lv_readers v' = lv_readers v → lv_writer v' = lv_writer v →
    lock_moves x x' v v'
| lock_read :
    reads x = false → reads x' = true → writes x = false → writes x' = false →
    lv_writer v = false → lv_writer v' = false → lv_readers v' = S (lv_readers v) → lock_moves x x' v v'
| unlock_read :
    reads x = true → reads x' = false → writes x = false → writes x' = false →
    lv_writer v' = lv_writer v → lv_readers v' = Nat.pred (lv_readers v) → lock_moves x x' v v'
| lock_write :
    reads x = false → reads x' = false → writes x = false → writes x' = true →
    lv_readers v = 0 → lv_writer v = false → lv_readers v' = 0 → lv_writer v' = true → lock_moves x x' v v'
| unlock_write :
    reads x = false → reads x' = false → writes x = true → writes x' = false →
    lv_readers v' = lv_readers v → lv_writer v' = false → lock_moves x x' v v'.

Lemma moved_lock t x d x' d' :
  moved t x d x' d' → lock_moves x x' (lock_view (dm_lock d)) (lock_view (dm_lock d')).
Proof.
  intros H. moves H; try by apply lock_same.
  all: match goal with
  | _ : try_read ?l = Some _ |- _ => pose proof (try_read_spec l) as Hs; case_match; simplify_eq;
      destruct Hs as (? & ? & ->); by apply lock_read
  | _ : try_write ?l = Some _ |- _ => pose proof (try_write_spec l) as Hs; case_match; simplify_eq;
      destruct Hs as (? & ? & ->); by apply lock_write
  | E : poll_write ?w ?l = _ |- _ => pose proof (poll_write_spec w l) as Hs; rewrite E in Hs; cbn in Hs;
      first [destruct Hs as (? & ? & ->); by apply lock_write | rewrite Hs; by apply lock_same]
  | E : poll_read ?w ?l = _ |- _ => pose proof (poll_read_spec w l) as Hs; rewrite E in Hs; cbn in Hs;
      first [destruct Hs as (? & ->); by apply lock_read | rewrite Hs; by apply lock_same]
  | |- context [drop_read] => rewrite drop_read_spec; by apply unlock_read
  | |- context [drop_write] => rewrite drop_write_spec; by apply unlock_write
  | |- context [leave_queue] => rewrite leave_queue_spec; by apply lock_same
  end.
Qed.

Lemma moved_tasks t x d x' d' : moved t x d x' d' → dm_tasks d' = dm_tasks d.
Proof. intros H. moves H. Qed.

(** The token of [restart_task]. *)
Definition outer_of (x : StackTask) : option nat :=
  match x with
  | Restart _ p =>
      match p with
      | RsSleeps o | RsAsks o | RsTries o _ | RsQueues o _ | RsGot o _ | RsGuarded o _ | RsUncancelled o
      | RsUnreserved o | RsUnheld o | RsUnlocks o _ | RsNotes o _ | RsWaits o _ | RsAdmitted o | RsWorks o => Some o
      | _ => None
      end
  | _ => None
  end.

Definition cancelled_root (x : StackTask) : bool :=
  match x with Reset ResetCancelled | Reset ResetGranted => true | _ => false end.

Lemma moved_reset t x d x' d' : moved t x d x' d' → is_reset x' = true → is_reset x = true.
Proof. intros H. moves H. Qed.

Lemma moved_outer t x d x' d' o :
  moved t x d x' d' → outer_of x' = Some o → outer_of x = Some o ∨ o = dm_root d.
Proof. intros H. moves H; intros; simplify_eq; auto. Qed.

(** Work starts under the stack's token, or, in a restart, under one that no
    reset cancelled. *)
Lemma moved_works t x d x' d' token :
  moved t x d x' d' → works_under x' = Some token →
  token = dm_root d ∨ (outer_of x = Some token ∧ token ∉ dm_cancelled d).
Proof.
  intros H. moves H; intros; simplify_eq/=; auto. right. split; [done|].
  unfold is_cancelled in *. by case_bool_decide.
Qed.

Lemma moved_cancelled_root t x d x' d' :
  moved t x d x' d' → cancelled_root x' = true → cancelled_root x = true ∨ dm_root d ∈ dm_cancelled d'.
Proof. intros H. moves H; auto. intros _. right. set_solver. Qed.

(** Only a reset that holds the stack replaces the token. *)
Lemma moved_root t x d x' d' :
  moved t x d x' d' →
  dm_cancelled d ⊆ dm_cancelled d' ∧
  (dm_root d' = dm_root d ∧ dm_next_token d' = dm_next_token d ∨
   x = Reset ResetGranted ∧ x' = Reset ResetHolds ∧ dm_root d' = dm_next_token d ∧
   dm_next_token d' = S (dm_next_token d)).
Proof. intros H. moves H; split; auto; set_solver. Qed.

(** Only a task that holds the stack alone reserves the daemon. *)
Lemma moved_reserved t x d x' d' :
  moved t x d x' d' →
  reserved_for (dm_owner d') = reserved_for (dm_owner d) ∨ writes x = true.
Proof. intros H. moves H; auto. Qed.

Lemma moved_beside t x d x' d' :
  moved t x d x' d' → runs_beside (reserved_for (dm_owner d)) x → runs_beside (reserved_for (dm_owner d')) x'.
Proof.
  intros H. moves H; intros _.
  - match goal with H : admit_by_reservation _ _ = Ok ?u |- _ => destruct u; by apply admit_by_reservation_beside in H end.
  - unfold held_reservation, reserved_for in *. by destruct (os_reservation _).
  - right. by eapply try_reserve_beside.
  - right. by eapply try_reserve_beside.
  - right. by eapply try_reserve_beside.
  - right. by apply holds_slice_beside.
  - unfold held_lifetime, reserved_for in *. by destruct (os_reservation _).
Qed.

Lemma moved_phase t x d x' d' : moved t x d x' d' → phase_ok x → phase_ok x'.
Proof. intros H. moves H. Qed.

Lemma moved_lifetimes t x d x' d' : moved t x d x' d' → lifetimes_ok (dm_owner d) → lifetimes_ok (dm_owner d').
Proof.
  intros H. moves H; intros Ho.
  1-3: match goal with H : try_reserve ?l ?c ?o = _ |- _ => pose proof (try_reserve_lifetimes l c o Ho) as Hr;
         by rewrite H in Hr end.
  - by apply end_held_lifetimes in Ho.
Qed.

(** A count of the tasks for which [b] holds goes up or down with its task. *)
Definition counted (b b' : bool) (n n' : nat) : Prop := n' + Nat.b2n b = Nat.b2n b' + n.

Lemma moved_holds t x d x' d' :
  moved t x d x' d' → (holds_off x = true → 0 < dm_holds d) →
  counted (holds_off x) (holds_off x') (dm_holds d) (dm_holds d').
Proof.
  intros H. unfold counted. moves H.
  all: repeat match goal with b : bool |- _ => destruct b end; cbn; try done; try lia.
  all: intros Hn; specialize (Hn eq_refl); lia.
Qed.

(** The same, of the counts by instance. *)
Lemma counted_up id id' m n :
  counts m id' n → counts (count_up id m) id' (Nat.b2n (bool_decide (id = id')) + n).
Proof.
  intros Hn. case_bool_decide; subst; cbn; [by apply count_up_counts|by apply count_up_other].
Qed.

Lemma counted_down id id' m n :
  counts m id' (Nat.b2n (bool_decide (id = id')) + n) → counts (count_down id m) id' n.
Proof. case_bool_decide; subst; cbn; intros; [by apply count_down_counts|by apply count_down_other]. Qed.

Lemma moved_admitted t x d x' d' id n n' :
  moved t x d x' d' → counted (counts_admitted id x) (counts_admitted id x') n n' →
  counts (dm_admitted d) id n → counts (dm_admitted d') id n'.
Proof.
  intros H. unfold counted. moves H; intros Hn Hc;
    rewrite ?Nat.add_0_r, ?(Nat.add_comm n') in Hn; cbn in Hn.
  all: try (replace n' with n by lia; done).
  - subst. by apply counted_up.
  - apply counted_down. by rewrite Hn.
Qed.

Lemma moved_waits t x d x' d' id n n' :
  moved t x d x' d' → counted (waits_for id x) (waits_for id x') n n' →
  counts (dm_waits d) id n → counts (dm_waits d') id n'.
Proof.
  intros H. unfold counted. moves H; intros Hn Hc;
    rewrite ?Nat.add_0_r, ?(Nat.add_comm n') in Hn; cbn in Hn.
  all: try (replace n' with n by lia; done).
  all: try (subst; by apply counted_up).
  all: apply counted_down; by rewrite Hn.
Qed.

(** The copy change a task that holds the stack finds. *)
Definition copy_ok (c : option CopyChange) (x : StackTask) : Prop :=
  match x with
  | Hold _ (HoldGuarded _) | Hold _ HoldChecked | Hold _ (HoldLeaves _) => c = None
  | Hold (StackAction c') HoldReported | Hold (StackAction c') (HoldWorks _) => c = c'
  | Hold (StackAction c') (HoldClears _) => c = None ∨ c = c'
  | Hold _ HoldReported | Hold _ (HoldWorks _) | Hold _ (HoldClears _) => c = None
  | Reset ResetGranted | Reset ResetHolds | Reset ResetCleared => c = None
  | _ => True
  end.

Lemma moved_copy t x d x' d' :
  moved t x d x' d' → copy_ok (dm_copy d) x → (writes x = false → writes x' = true → dm_copy d = None) →
  copy_ok (dm_copy d') x' ∧ (writes x = true → writes x' = false → dm_copy d' = None) ∧
  (writes x = false → dm_copy d' = dm_copy d).
Proof. intros H. moves H; naive_solver. Qed.
End moves.

(** ** The invariant *)

Section invariant.
Context {L : RwLock} {LL : RwLockLaws L}.
Implicit Types (d : Daemon) (x y : StackTask).

Record holds_inv (d : Daemon) : Prop := {
  hi_readers : lv_readers (lock_view (dm_lock d)) = count_tasks reads (dm_tasks d);
  hi_writer : Nat.b2n (lv_writer (lock_view (dm_lock d))) = count_tasks writes (dm_tasks d);
  hi_alone : lv_writer (lock_view (dm_lock d)) = true → lv_readers (lock_view (dm_lock d)) = 0;
  hi_root : dm_root d < dm_next_token d;
  hi_old : ∀ k, k < dm_next_token d → k ≠ dm_root d → k ∈ dm_cancelled d;
  hi_outer : ∀ t x o, dm_tasks d !! t = Some x → outer_of x = Some o → o < dm_next_token d;
  hi_works : ∀ t x k, dm_tasks d !! t = Some x → works_under x = Some k → k = dm_root d;
  hi_cancel : ∀ t x, dm_tasks d !! t = Some x → cancelled_root x = true → dm_root d ∈ dm_cancelled d;
  hi_reset : count_tasks is_reset (dm_tasks d) ≤ 1;
  hi_beside : ∀ t x, dm_tasks d !! t = Some x → runs_beside (reserved_for (dm_owner d)) x;
  hi_lifetimes : lifetimes_ok (dm_owner d);
  hi_holds : dm_holds d = count_tasks holds_off (dm_tasks d);
  hi_admitted : ∀ id, counts (dm_admitted d) id (count_tasks (counts_admitted id) (dm_tasks d));
  hi_waits : ∀ id, counts (dm_waits d) id (count_tasks (waits_for id) (dm_tasks d));
  hi_copy : ∀ t x, dm_tasks d !! t = Some x → copy_ok (dm_copy d) x;
  hi_free : count_tasks writes (dm_tasks d) = 0 → dm_copy d = None;
  hi_phase : ∀ t x, dm_tasks d !! t = Some x → phase_ok x;
}.

Lemma daemon_start_inv : holds_inv daemon_start.
Proof.
  split; cbn; rewrite ?view_unlocked, ?count_tasks_empty; cbn; try done; try lia; intros;
    rewrite ?count_tasks_empty; simplify_map_eq; try done; try lia.
  unfold lifetimes_ok. cbn. split_and!; [set_solver|lia|done].
Qed.

(** While a task writes, no other holds the stack. *)
Lemma writes_alone d t t' x y :
  holds_inv d → dm_tasks d !! t = Some x → dm_tasks d !! t' = Some y → writes x = true → t' ≠ t →
  reads y = false ∧ writes y = false.
Proof.
  intros I Hx Hy Hw Hne. pose proof (hi_writer d I) as E. pose proof (count_tasks_pos writes _ t x Hx Hw).
  destruct (lv_writer _) eqn:Ew; cbn in E; [|lia]. split.
  - pose proof (hi_readers d I) as Er. rewrite (hi_alone d I Ew) in Er. symmetry in Er.
    by eapply count_tasks_zero in Er.
  - destruct (writes y) eqn:Ey; [|done]. pose proof (count_tasks_two writes _ t t' x y Hx Hy Hw Ey). lia.
Qed.

Lemma put_lock d d' t x x' :
  holds_inv d → dm_tasks d !! t = Some x →
  lock_moves x x' (lock_view (dm_lock d)) (lock_view (dm_lock d')) →
  let v := lock_view (dm_lock d') in
  lv_readers v = count_tasks reads (<[t := x']> (dm_tasks d)) ∧
  Nat.b2n (lv_writer v) = count_tasks writes (<[t := x']> (dm_tasks d)) ∧
  (lv_writer v = true → lv_readers v = 0).
Proof.
  intros I Hx Hl. pose proof (hi_readers d I) as Er. pose proof (hi_writer d I) as Ew.
  pose proof (hi_alone d I) as Ea.
  pose proof (count_tasks_update reads _ t x x' Hx) as Ur. pose proof (count_tasks_update writes _ t x x' Hx) as Uw.
  destruct (lock_view (dm_lock d)) as [r w q], (lock_view (dm_lock d')) as [r' w' q']. cbn in *.
  destruct Hl; cbn in *; subst; repeat match goal with
    | H : reads _ = _ |- _ => rewrite H in Ur; clear H
    | H : writes _ = _ |- _ => rewrite H in Uw; clear H end; cbn in *; split_and!; try lia; try done.
  all: destruct w; cbn in *; lia.
Qed.

(** The parts of the invariant about one move of task [t] and the others. *)
Section one_move.
Context (t : nat) (x x' : StackTask) (d d' : Daemon).
Context (I : holds_inv d) (Hx : dm_tasks d !! t = Some x) (Hm : moved t x d x' d').

Lemma put_elim s y :
  <[t := x']> (dm_tasks d) !! s = Some y → s = t ∧ y = x' ∨ s ≠ t ∧ dm_tasks d !! s = Some y.
Proof. intros [[<- <-]|[? ?]]%lookup_insert_Some; auto. Qed.

Lemma put_counted P : counted (P x) (P x') (count_tasks P (dm_tasks d)) (count_tasks P (<[t := x']> (dm_tasks d))).
Proof. apply (count_tasks_update P _ t x x' Hx). Qed.

(** A token no reset cancelled is the stack's. *)
Lemma uncancelled_is_root k : k < dm_next_token d → k ∉ dm_cancelled d → k = dm_root d.
Proof. intros Hk Hc. destruct (decide (k = dm_root d)); [done|]. by destruct Hc; apply (hi_old d I). Qed.

Lemma put_old k : k < dm_next_token d' → k ≠ dm_root d' → k ∈ dm_cancelled d'.
Proof using I Hx Hm.
  destruct (moved_root t x d x' d' Hm) as (Hc & [[-> ->]|(-> & _ & -> & ->)]); intros Hk Hne; apply Hc.
  - by apply (hi_old d I).
  - destruct (decide (k = dm_root d)) as [->|]; [|apply (hi_old d I); [lia|done]].
    by eapply (hi_cancel d I).
Qed.

Lemma put_outer s y o : <[t := x']> (dm_tasks d) !! s = Some y → outer_of y = Some o → o < dm_next_token d'.
Proof using I Hx Hm.
  intros Hy Ho. assert (o < dm_next_token d).
  { apply put_elim in Hy as [[-> ->]|[? Hy]]; [|by eapply hi_outer].
    destruct (moved_outer _ _ _ _ _ o Hm Ho) as [E| ->]; [by eapply hi_outer|apply I]. }
  destruct (moved_root t x d x' d' Hm) as (_ & [[_ ->]|(_ & _ & _ & ->)]); lia.
Qed.

Lemma put_works s y k : <[t := x']> (dm_tasks d) !! s = Some y → works_under y = Some k → k = dm_root d'.
Proof using I Hx Hm.
  intros Hy Hk. destruct (moved_root t x d x' d' Hm) as (_ & Hr). apply put_elim in Hy as [[-> ->]|[? Hy]].
  - destruct Hr as [[-> _]|(_ & -> & _)]; [|done].
    destruct (moved_works _ _ _ _ _ k Hm Hk) as [->|[Ho Hc]]; [done|].
    apply uncancelled_is_root; [|done]. by eapply hi_outer.
  - destruct Hr as [[-> _]|(-> & _)]; [by eapply hi_works|].
    destruct (writes_alone d t s _ y I Hx Hy eq_refl); [done|].
    apply works_under_guard in Hk as [?|?]; congruence.
Qed.

Lemma put_cancel s y : <[t := x']> (dm_tasks d) !! s = Some y → cancelled_root y = true → dm_root d' ∈ dm_cancelled d'.
Proof using I Hx Hm.
  intros Hy Hk. destruct (moved_root t x d x' d' Hm) as (Hc & Hr). apply put_elim in Hy as [[-> ->]|[? Hy]].
  - destruct Hr as [[-> _]|(_ & -> & _)]; [|done].
    destruct (moved_cancelled_root _ _ _ _ _ Hm Hk); [|done]. apply Hc. by eapply hi_cancel.
  - destruct Hr as [[-> _]|(-> & _)]; [apply Hc; by eapply hi_cancel|].
    pose proof (hi_reset d I). assert (is_reset y = true) by (by destruct y as [| |[]| |]).
    pose proof (count_tasks_two is_reset _ t s _ y Hx Hy eq_refl). naive_solver lia.
Qed.

Lemma put_reset : count_tasks is_reset (<[t := x']> (dm_tasks d)) ≤ 1.
Proof using I Hx Hm.
  pose proof (put_counted is_reset) as H. unfold counted in H. pose proof (hi_reset d I).
  pose proof (moved_reset _ _ _ _ _ Hm) as Hr. destruct (is_reset x'), (is_reset x); cbn in *; lia.
Qed.

Lemma put_beside s y : <[t := x']> (dm_tasks d) !! s = Some y → runs_beside (reserved_for (dm_owner d')) y.
Proof using I Hx Hm.
  intros [[-> ->]|[? Hy]]%put_elim; [eapply moved_beside; [done|]; by eapply hi_beside|].
  pose proof (hi_beside d I _ _ Hy) as Hb. destruct (moved_reserved _ _ _ _ _ Hm) as [->|Hw]; [done|].
  destruct (writes_alone d t s x y I Hx Hy Hw); [done|]. by eapply runs_beside_guard.
Qed.

Lemma put_phase s y : <[t := x']> (dm_tasks d) !! s = Some y → phase_ok y.
Proof using I Hx Hm.
  intros [[-> ->]|[? Hy]]%put_elim; [eapply moved_phase; [done|]|]; by eapply hi_phase.
Qed.

Lemma put_holds : dm_holds d' = count_tasks holds_off (<[t := x']> (dm_tasks d)).
Proof using I Hx Hm.
  pose proof (put_counted holds_off) as H. pose proof (hi_holds d I) as E.
  assert (Hp : holds_off x = true → 0 < dm_holds d) by (intros Hh; rewrite E; by eapply count_tasks_pos).
  pose proof (moved_holds _ _ _ _ _ Hm Hp) as H'. unfold counted in *. lia.
Qed.

Lemma put_copy :
  (∀ s y, <[t := x']> (dm_tasks d) !! s = Some y → copy_ok (dm_copy d') y) ∧
  (count_tasks writes (<[t := x']> (dm_tasks d)) = 0 → dm_copy d' = None).
Proof using I Hx Hm.
  assert (Hf : writes x = false → writes x' = true → dm_copy d = None).
  { intros Hw Hw'. apply (hi_free d I). destruct (moved_lock _ _ _ _ _ Hm); try congruence.
    rewrite <- (hi_writer d I). match goal with H : lv_writer _ = false |- _ => by rewrite H end. }
  destruct (moved_copy _ _ _ _ _ Hm (hi_copy d I _ _ Hx) Hf) as (H1 & H2 & H3). split.
  - intros s y [[-> ->]|[? Hy]]%put_elim; [done|]. destruct (writes x) eqn:Ew.
    + destruct (writes_alone d t s x y I Hx Hy Ew) as [_ Hy']; [done|].
      by destruct y as [? ? []|[] []|[]|? []|?].
    + rewrite H3 by done. by eapply hi_copy.
  - intros Hz. assert (writes x' = false).
    { eapply count_tasks_zero in Hz; [done|]. apply lookup_insert_eq. }
    destruct (writes x) eqn:Ew; [by apply H2|]. rewrite H3 by done. apply (hi_free d I).
    pose proof (put_counted writes) as Hu. unfold counted in Hu. rewrite Hz, Ew, H in Hu. cbn in Hu. lia.
Qed.

Lemma moved_inv : holds_inv (put_task t x' d').
Proof using I Hx Hm.
  pose proof (moved_tasks t x d x' d' Hm) as Et.
  destruct (put_lock d d' t x x' I Hx (moved_lock _ _ _ _ _ Hm)) as (Er & Ew & Ea).
  destruct put_copy as [Hc1 Hc2].
  split; cbn; rewrite ?Et; eauto using put_old, put_outer, put_works, put_cancel, put_beside, put_holds, put_reset, put_phase.
  - pose proof (hi_root d I). destruct (moved_root t x d x' d' Hm) as (_ & [[-> ->]|(_ & _ & -> & ->)]); lia.
  - eapply moved_lifetimes; [done|apply I].
  - intros id. eapply moved_admitted; [done|apply put_counted|apply I].
  - intros id. eapply moved_waits; [done|apply put_counted|apply I].
Qed.
End one_move.

Lemma asked_inv d t r :
  holds_inv d → dm_tasks d !! t = None → (is_reset (asked r) = true → no_reset d = true) →
  holds_inv (put_task t (asked r) d).
Proof.
  intros I Ht Hr.
  assert (Hc : ∀ P, P (asked r) = false → count_tasks P (<[t := asked r]> (dm_tasks d)) = count_tasks P (dm_tasks d)).
  { intros P HP. by rewrite count_tasks_new, HP. }
  assert (He : ∀ s y, <[t := asked r]> (dm_tasks d) !! s = Some y → y = asked r ∨ dm_tasks d !! s = Some y).
  { intros s y [[<- <-]|[? ?]]%lookup_insert_Some; auto. }
  destruct I as [I1 I2 I3 I4 I5 I6 I7 I8 I9 I10 I11 I12 I13 I14 I15 I16 I17].
  split; cbn; try done.
  - rewrite Hc; [done|by destruct r as [? []|[]| |]].
  - rewrite Hc; [done|by destruct r as [? []|[]| |]].
  - intros s y o [->|Hy]%He; [by destruct r as [? []|[]| |]|eauto].
  - intros s y o [->|Hy]%He; [by destruct r as [? []|[]| |]|eauto].
  - intros s y [->|Hy]%He; [by destruct r as [? []|[]| |]|eauto].
  - rewrite count_tasks_new by done. destruct (is_reset (asked r)); [|done]. specialize (Hr eq_refl).
    unfold no_reset in Hr. rewrite negb_true_iff in Hr.
    assert (count_tasks is_reset (dm_tasks d) = 0) as ->; [|done]. apply count_tasks_zero. intros s y Hy.
    destruct (is_reset y) eqn:E; [|done]. assert (existsb is_reset (map_to_list (dm_tasks d)).*2 = true); [|congruence].
    apply existsb_exists. exists y. split; [|done]. apply list_elem_of_In, list_elem_of_fmap.
    exists (s, y). split; [done|]. by apply elem_of_map_to_list.
  - intros s y [->|Hy]%He; [by destruct r as [? []|[]| |]|eauto].
  - rewrite Hc; [done|by destruct r as [? []|[]| |]].
  - intros id. rewrite Hc; [done|by destruct r as [? []|[]| |]].
  - intros id. rewrite Hc; [done|by destruct r as [? []|[]| |]].
  - intros s y [->|Hy]%He; [by destruct r as [? []|[]| |]|eauto].
  - rewrite Hc; [done|by destruct r as [? []|[]| |]].
  - intros s y [->|Hy]%He; [by destruct r as [? []|[]| |]|eauto].
Qed.

Lemma with_owner_inv d o :
  holds_inv d → lifetimes_ok o →
  reserved_for o = reserved_for (dm_owner d) ∨ reserved_for o = None →
  holds_inv (with_owner o d).
Proof.
  intros [] Ho Hr. split; cbn; try done. intros t x Hx. destruct Hr as [->| ->]; eauto using runs_beside_none.
Qed.

Lemma holds_step_inv e d d' : holds_inv d → holds_step e d = Some d' → holds_inv d'.
Proof.
  intros I. destruct e; cbn.
  - destruct (dm_tasks d !! t) eqn:E; [done|]. destruct (is_reset (asked r)) eqn:Er, (no_reset d) eqn:En; cbn;
      intros; simplify_eq; apply asked_inv; congruence.
  - intros (x & Hx & ([x' d1] & Hg & [= <-])%bind_Some)%bind_Some. eapply moved_inv; [done..|by left].
  - intros (x & Hx & ([x' d1] & Hg & [= <-])%bind_Some)%bind_Some. eapply moved_inv; [done..|by right].
  - intros [= <-]. apply with_owner_inv; [done| |apply release_reserved]. apply release_lifetimes, I.
  - case_bool_decide; [|done]. intros [= <-]. apply with_owner_inv; [done| |apply gone_reserved].
    apply gone_lifetimes, I.
  - intros. repeat case_match; simplify_eq. apply with_owner_inv; [done|apply (hi_lifetimes d I)|by left].
Qed.

Lemma holds_reachable_inv d : holds_reachable d → holds_inv d.
Proof.
  unfold holds_reachable. intros H. apply rtc_ind_r with (P := holds_inv) in H; [done|apply daemon_start_inv|].
  clear. intros d d' _ [e He] IH. by eapply holds_step_inv.
Qed.

(** ** What it gives *)

(** The reset, first in the queue, gets the stack once nobody holds it, and not
    before. *)
Lemma reset_gets_the_stack d t :
  holds_inv d →
  ((∀ s x, dm_tasks d !! s = Some x → reads x = false ∧ writes x = false) →
   head (lv_queue (lock_view (dm_lock d))) = Some (t, true) →
   ∃ l, reset_goes t ResetCancelled d = (Reset ResetGranted, with_lock l d)) ∧
  (∀ s x, dm_tasks d !! s = Some x → reads x = true ∨ writes x = true →
   (reset_goes t ResetCancelled d).1 = Reset ResetCancelled).
Proof.
  intros I. unfold reset_goes. pose proof (poll_write_first t (dm_lock d)) as Hp.
  pose proof (poll_write_spec t (dm_lock d)) as Hs. destruct (poll_write t (dm_lock d)) as [got l]. cbn in *. split.
  - intros Hno Hq. rewrite Hp; [by exists l| | |done].
    + rewrite (hi_readers d I). apply count_tasks_zero. naive_solver.
    + pose proof (hi_writer d I) as E. destruct (lv_writer _); [|done]. cbn in E.
      assert (count_tasks writes (dm_tasks d) = 0) by (apply count_tasks_zero; naive_solver). lia.
  - intros s x Hx Hg. destruct got; [|done]. destruct Hs as (Hr & Hw & _).
    rewrite (hi_readers d I) in Hr. pose proof (hi_writer d I) as Ew. rewrite Hw in Ew. cbn in Ew. symmetry in Ew.
    destruct Hg as [Hg|Hg]; [pose proof (count_tasks_pos reads _ s x Hx Hg)|
      pose proof (count_tasks_pos writes _ s x Hx Hg)]; lia.
Qed.

(** C9: Over every interleaving of a daemon's node goals, stack changes,
    coordinator requests, restarts and resets: all work in flight, but the
    requests of a coordinator, which take no token, stops at the token a reset
    cancels, also a restart that read it before it waited. Once a reset cancelled
    it, that work is cancelled and every goal that then checks is refused; the
    reset does not get the stack while any task, a coordinator's request
    included, holds it, and gets it when none does and it is first in the queue.
    From then on, until it lets go, no other task holds the stack or works. *)
Theorem reset_reaches_all_work (d : Daemon) :
  holds_reachable d →
  (∀ t x, dm_tasks d !! t = Some x → at_work x = true →
     works_under x = if for_coordinator x then None else Some (dm_root d)) ∧
  (∀ t, dm_tasks d !! t = Some (Reset ResetCancelled) →
     (∀ s x k, dm_tasks d !! s = Some x → works_under x = Some k → is_cancelled k d = true) ∧
     (∀ launch_id removal,
        goal_goes launch_id removal GoalGuarded d = Some (Goal launch_id removal (GoalLeaves (Some RefusedReset)), d)) ∧
     ((∀ s x, dm_tasks d !! s = Some x → reads x = false ∧ writes x = false) →
      head (lv_queue (lock_view (dm_lock d))) = Some (t, true) →
      ∃ l, reset_goes t ResetCancelled d = (Reset ResetGranted, with_lock l d)) ∧
     (∀ s x, dm_tasks d !! s = Some x → reads x = true ∨ writes x = true →
        (reset_goes t ResetCancelled d).1 = Reset ResetCancelled)) ∧
  (∀ t x, dm_tasks d !! t = Some x → is_reset x = true → writes x = true →
     ∀ s y, s ≠ t → dm_tasks d !! s = Some y → reads y = false ∧ writes y = false ∧ at_work y = false).
Proof.
  intros I%holds_reachable_inv. split_and!.
  - intros t x Hx Hw. pose proof (phase_token x (hi_phase d I _ _ Hx) Hw) as Ht.
    destruct (for_coordinator x); [done|]. destruct Ht as [k Hk]. by rewrite Hk, (hi_works d I _ _ _ Hx Hk).
  - intros t Ht. pose proof (hi_cancel d I t _ Ht eq_refl) as Hc. destruct (reset_gets_the_stack d t I). split_and!; [..|done|done].
    + intros s x k Hs Hk. rewrite (hi_works d I _ _ _ Hs Hk). by apply bool_decide_eq_true_2.
    + intros. cbn. unfold is_cancelled. by rewrite bool_decide_eq_true_2.
  - intros t x Hx _ Hw s y Hne Hy. destruct (writes_alone d t s x y I Hx Hy Hw Hne). split_and!; try done.
    destruct (at_work y) eqn:E; [|done]. apply at_work_guard in E as [?|?]; congruence.
Qed.

(** The copy change that is reported is that of the task holding the stack. *)
Lemma reported_change d c :
  holds_inv d → dm_copy d = Some c → ∃ t x, dm_tasks d !! t = Some x ∧ writes x = true ∧ reports x = Some c.
Proof.
  intros I Hc. destruct (decide (map_Exists (λ _ x, writes x = true) (dm_tasks d))) as [(t & x & Hx & Hw)|Hn].
  - exists t, x. split_and!; [done..|]. pose proof (hi_copy d I _ _ Hx) as Hk. rewrite Hc in Hk.
    destruct x as [? ? []|[] []|[]|? []|?]; cbn in *; naive_solver.
  - rewrite (hi_free d I) in Hc; [done|]. apply count_tasks_zero. intros t x Hx.
    destruct (writes x) eqn:E; [|done]. destruct Hn. by exists t, x.
Qed.

(** C10: Over every interleaving of the same tasks: a change that holds the
    stack holds it alone; admitted work, a slice begin apart, runs beside no
    reservation but that of the launch it belongs to, a restart or a stack change
    beside none at all (a slice begin reads the reservation before it takes the
    stack and may run under a later one); a
    presence watch that outlived its reservation frees no later one; [stack list]
    reports exactly the copy change that holds the stack; and the restarts a busy
    refusal names, those that wait, and the removals that hold restarts off are
    counted right, each by instance. *)
Theorem stack_holders_apart (d : Daemon) :
  holds_reachable d →
  (∀ t s x y, dm_tasks d !! t = Some x → dm_tasks d !! s = Some y → s ≠ t → writes x = true →
     reads y = false ∧ writes y = false) ∧
  (∀ t x, dm_tasks d !! t = Some x → runs_beside (reserved_for (dm_owner d)) x) ∧
  (∀ lifetime, lifetime < os_next (dm_owner d) → held_lifetime (dm_owner d) ≠ Some lifetime →
     release_because_coordinator_gone lifetime (dm_owner d) = (None, dm_owner d)) ∧
  (∀ c, dm_copy d = Some c → ∃ t x, dm_tasks d !! t = Some x ∧ writes x = true ∧ reports x = Some c) ∧
  (∀ t c k, dm_tasks d !! t = Some (Hold (StackAction c) (HoldWorks k)) → dm_copy d = c) ∧
  (∀ id, counts (dm_admitted d) id (count_tasks (counts_admitted id) (dm_tasks d)) ∧
         counts (dm_waits d) id (count_tasks (waits_for id) (dm_tasks d))) ∧
  dm_holds d = count_tasks holds_off (dm_tasks d).
Proof.
  intros I%holds_reachable_inv. split_and!.
  - intros t s x y Hx Hy Hne Hw. by apply (writes_alone d t s x y I Hx Hy Hw Hne).
  - apply (hi_beside d I).
  - intros lifetime. apply gone_is_its_own, (hi_lifetimes d I).
  - intros c Hc. by apply (reported_change d c I).
  - intros t c k Ht. apply (hi_copy d I _ _ Ht).
  - intros id. split; [apply (hi_admitted d I)|apply (hi_waits d I)].
  - apply (hi_holds d I).
Qed.
End invariant.

(** ** Runs *)

Section runs.
Context {L : RwLock}.

Fixpoint holds_run (es : list StackEvent) (d : Daemon) : option Daemon :=
  match es with
  | [] => Some d
  | e :: es => d' ← holds_step e d; holds_run es d'
  end.

Lemma holds_run_reachable es d : holds_run es daemon_start = Some d → holds_reachable d.
Proof.
  unfold holds_reachable. generalize daemon_start as s.
  induction es as [|e es IH]; cbn; intros s Hs; [by simplify_eq; apply rtc_refl|].
  apply bind_Some in Hs as (s1 & H1 & H2). eapply rtc_l; [by exists e|auto].
Qed.
End runs.

(** A node goal and a restart at work when a reset comes: the reset queues, both
    are cancelled. *)
Definition reset_under_work : list StackEvent :=
  [Asks 0 (AskRestart "camera"); Goes 0; Goes 0; Goes 0; Goes 0; Goes 0; Goes 0; Goes 0; Goes 0; Goes 0;
   Asks 1 (AskGoal None false); Goes 1; Goes 1; Goes 1; Goes 1;
   Asks 2 AskReset; Goes 2; Goes 2].

Definition reset_waits : Daemon := default daemon_start (holds_run reset_under_work daemon_start).

Example reset_waits_for_work :
  holds_run reset_under_work daemon_start = Some reset_waits ∧
  dm_tasks reset_waits !! 0 = Some (Restart "camera" (RsWorks 0)) ∧
  dm_tasks reset_waits !! 1 = Some (Goal None false (GoalWorks 0)) ∧
  dm_tasks reset_waits !! 2 = Some (Reset ResetCancelled) ∧
  dm_cancelled reset_waits = {[0]} ∧ dm_admitted reset_waits = {["camera" := 1]} ∧
  dm_lock reset_waits = mkLockView 2 false [(2, true)].
Proof. split_and!; vm_compute; reflexivity. Qed.

Lemma reset_waits_reachable : holds_reachable reset_waits.
Proof. apply (holds_run_reachable reset_under_work). vm_compute. reflexivity. Qed.

Lemma reset_reaches_all_work_witness : is_cancelled 0 reset_waits = true.
Proof.
  destruct (reset_reaches_all_work reset_waits reset_waits_reachable) as (_ & H & _).
  destruct (H 2 ltac:(vm_compute; reflexivity)) as (Hc & _).
  apply (Hc 1 (Goal None false (GoalWorks 0)) 0); vm_compute; reflexivity.
Defined.

(** A join that holds the stack and reports its copy. *)
Definition join_of_robot : CopyChange := mkCopyChange CopyJoin "alpha" "robot".

Definition join_under_way : list StackEvent :=
  [Asks 0 (AskHold (StackAction (Some join_of_robot))); Goes 0; Goes 0; Goes 0; Goes 0;
   Asks 1 (AskGoal None false); Goes 1; Asks 2 (AskRestart "camera"); Goes 2; Goes 2; Goes 2; Goes 2].

Definition join_holds : Daemon := default daemon_start (holds_run join_under_way daemon_start).

Example join_keeps_others_out :
  holds_run join_under_way daemon_start = Some join_holds ∧
  dm_tasks join_holds !! 0 = Some (Hold (StackAction (Some join_of_robot)) (HoldWorks (Some 0))) ∧
  dm_tasks join_holds !! 1 = Some (Over (Some (RefusedBusy BusyChange))) ∧
  dm_tasks join_holds !! 2 = Some (Restart "camera" (RsQueues 0 0)) ∧
  dm_waits join_holds = {["camera" := 1]}.
Proof. split_and!; vm_compute; reflexivity. Qed.

Lemma join_holds_reachable : holds_reachable join_holds.
Proof. apply (holds_run_reachable join_under_way). vm_compute. reflexivity. Qed.

Lemma stack_holders_apart_witness : dm_copy join_holds = Some join_of_robot.
Proof.
  destruct (stack_holders_apart join_holds join_holds_reachable) as (_ & _ & _ & _ & H & _).
  apply (H 0 (Some join_of_robot) (Some 0)). vm_compute. reflexivity.
Defined.

(** A slice begin checks the reservation before it takes the stack. When its
    coordinator goes in between and another reserves the machine, the stack is
    replaced for the launch that ended, under the reservation of the other. *)
Definition begin_after_release : list StackEvent :=
  [Asks 0 (AskHold (ReserveFor "launch-a" "cn-a")); Goes 0; Goes 0; Ends 0; Goes 0; Goes 0;
   Asks 1 (AskHold (SliceBegin "launch-a" "boot-1")); Goes 1;
   CoordinatorGone 0;
   Asks 2 (AskHold (ReserveFor "launch-b" "cn-b")); Goes 2; Goes 2; Ends 2; Goes 2; Goes 2;
   Goes 1; Goes 1].

Example slice_begins_for_a_launch_that_ended :
  ∃ d, holds_run begin_after_release daemon_start = Some d ∧
    dm_tasks d !! 1 = Some (Hold (SliceBegin "launch-a" "boot-1") (HoldWorks None)) ∧
    reserved_for (dm_owner d) = Some "launch-b" ∧
    os_slice (dm_owner d) = Some (mkLaunchIdentity "launch-a" "cn-a").
Proof. eexists. split; [vm_compute; reflexivity|]. split_and!; vm_compute; reflexivity. Qed.
