(* ===== verification/SubscriptionBuffer.v ===== *)
(** * Subscription buffers

    [peppy-messaging-interface/src/subscription_buffer.rs]: the buffer between
    the transport, that delivers messages, and the reader of a subscription,
    that takes them. The two run on threads of their own: what each does is a
    sequence of operations on a channel, and a schedule says in which order the
    operations of the two take effect. The channel is [flume]'s: a class of its
    operations, with the laws its documentation states. *)

From S2P Require Import Prelude Names Config.
#[local] Open Scope peppy_scope.

(** ** Messages *)

Record TopicMessage : Type := mkTopicMessage {
  tm_key_expr : string;
  tm_instance_id : string;
  tm_core_node : string;
  tm_link_id : string;
  tm_payload : list Byte.byte;
  tm_source_timestamp_nanos : option Z;
}.

(** An empty payload ends a feedback stream. *)
Definition ends_stream (m : TopicMessage) : bool :=
  match tm_payload m with [] => true | _ => false end.

(** ** Channels *)

Inductive SendOutcome : Type := Sent | Full | Disconnected.

Class Flume : Type := {
  Chan : Type;
  bounded : nat → Chan;
  unbounded : Chan;
  clone_rx : Chan → Chan;
  drop_rx : Chan → Chan;
  try_send : TopicMessage → Chan → SendOutcome * Chan;
  (* [None] waits for room. *)
  send : TopicMessage → Chan → option Chan;
  try_recv : Chan → option TopicMessage * Chan;
  drain : Chan → Chan;
  chan_len : Chan → nat;
  receiver_count : Chan → nat;
  is_disconnected : Chan → bool;
}.

(** What a channel holds, how much it takes, and its receivers. *)
Record ChanView : Type := mkChanView {
  unread : list TopicMessage;
  room : option nat;
  receivers : nat;
}.

Definition is_full (v : ChanView) : bool :=
  match room v with Some n => (n <=? length (unread v))%nat | None => false end.

(** The laws, for channels that take one message at least. *)
Class FlumeLaws (F : Flume) : Type := {
  view : Chan → ChanView;
  view_bounded n : 0 < n → view (bounded n) = mkChanView [] (Some n) 1;
  view_unbounded : view unbounded = mkChanView [] None 1;
  view_clone c : view (clone_rx c) = mkChanView (unread (view c)) (room (view c)) (S (receivers (view c)));
  view_drop c : view (drop_rx c) = mkChanView (unread (view c)) (room (view c)) (Nat.pred (receivers (view c)));
  try_send_spec m c : room (view c) ≠ Some 0 →
    let '(r, c') := try_send m c in
    if bool_decide (receivers (view c) = 0) then r = Disconnected ∧ view c' = view c
    else if is_full (view c) then r = Full ∧ view c' = view c
    else r = Sent ∧ view c' = mkChanView (unread (view c) ++ [m]) (room (view c)) (receivers (view c));
  send_spec m c : room (view c) ≠ Some 0 →
    send m c = match try_send m c with (Full, _) => None | (_, c') => Some c' end;
  try_recv_spec c :
    let '(r, c') := try_recv c in
    r = head (unread (view c)) ∧ view c' = mkChanView (tail (unread (view c))) (room (view c)) (receivers (view c));
  view_drain c : view (drain c) = mkChanView [] (room (view c)) (receivers (view c));
  chan_len_spec c : chan_len c = length (unread (view c));
  receiver_count_spec c : receiver_count c = receivers (view c);
  is_disconnected_spec c : is_disconnected c = bool_decide (receivers (view c) = 0);
}.

Inductive TopicBuffer : Type := Backpressure | KeepLatest.

(** A bound, at least one, and the signal of an overflow. *)
Record FeedbackBuffer : Type := mkFeedbackBuffer {
  fb_bound : positive;
  fb_raised : bool;
}.

Inductive Buffering : Type := BufferTopic (b : TopicBuffer) | BufferFeedback (b : FeedbackBuffer).

Definition queue_capacity (tier_size : Z) (retention : TopicRetention) : Z :=
  match retention with
  | LiveOnly => tier_size
  | Latest depth => Z.max tier_size depth
  end.

(** ** The sinks *)

Section sinks.
Context `{Flume}.

(** The queue's own receiver is the channel's: [lq_logged] counts log lines. *)
Record LatestQueue : Type := mkLatestQueue {
  lq_chan : Chan;
  lq_dropped_any : bool;
  lq_logged : nat;
}.

Definition LatestQueue_open (capacity : nat) : LatestQueue :=
  mkLatestQueue (clone_rx (bounded (Nat.max capacity 1))) false 0.

Definition latest_reader_gone (q : LatestQueue) : bool := (receiver_count (lq_chan q) <=? 1)%nat.

Definition note_dropped (q : LatestQueue) : LatestQueue :=
  if lq_dropped_any q then q else mkLatestQueue (lq_chan q) true (S (lq_logged q)).

Inductive FeedbackState : Type := Open | Ended | Overflowed.

Record FeedbackSink : Type := mkFeedbackSink {
  fs_chan : Chan;
  fs_bound : nat;
  fs_overflow : bool;
  fs_state : FeedbackState;
}.

Definition FeedbackSink_open (buffer : FeedbackBuffer) : FeedbackSink :=
  mkFeedbackSink (clone_rx unbounded) (Pos.to_nat (fb_bound buffer)) (fb_raised buffer) Open.

Definition feedback_reader_gone (s : FeedbackSink) : bool := (receiver_count (fs_chan s) <=? 1)%nat.

Inductive SubscriptionSink : Type :=
| SinkBackpressure (chan : Chan)
| SinkKeepLatest (queue : LatestQueue)
| SinkFeedback (sink : FeedbackSink).

(** The receiver of the reader is a receiver of the sink's channel. *)
Definition subscription_channel (capacity : nat) (buffering : Buffering) : SubscriptionSink :=
  match buffering with
  | BufferTopic Backpressure => SinkBackpressure (bounded capacity)
  | BufferTopic KeepLatest => SinkKeepLatest (LatestQueue_open capacity)
  | BufferFeedback buffer => SinkFeedback (FeedbackSink_open buffer)
  end.

Definition sink_reader_gone (s : SubscriptionSink) : bool :=
  match s with
  | SinkBackpressure c => is_disconnected c
  | SinkKeepLatest q => latest_reader_gone q
  | SinkFeedback f => feedback_reader_gone f
  end.

(** ** A push on a keep-latest queue, an operation at a time *)

Inductive Push : Type :=
| Entering (m : TopicMessage)
| Trying (m : TopicMessage)
| Dropping (m : TopicMessage)
| Pushed.

(** The operation a push does next, and the message it drops. *)
Definition push_step (q : LatestQueue) (p : Push) : LatestQueue * Push * option TopicMessage :=
  match p with
  | Entering m => if latest_reader_gone q then (q, Pushed, None) else (q, Trying m, None)
  | Trying m =>
      let '(r, c) := try_send m (lq_chan q) in
      let q := mkLatestQueue c (lq_dropped_any q) (lq_logged q) in
      match r with
      | Sent | Disconnected => (q, Pushed, None)
      | Full => (q, Dropping m, None)
      end
  | Dropping m =>
      let '(oldest, c) := try_recv (lq_chan q) in
      let q := mkLatestQueue c (lq_dropped_any q) (lq_logged q) in
      match oldest with
      | Some _ => (note_dropped q, Trying m, oldest)
      | None => (q, Trying m, None)
      end
  | Pushed => (q, Pushed, None)
  end.

(** A push that nothing runs beside; [None] is a push cut short. *)
Fixpoint push_loop (fuel : nat) (q : LatestQueue) (p : Push) : option LatestQueue :=
  match p, fuel with
  | Pushed, _ => Some q
  | _, 0 => None
  | _, S fuel => let '(q, p, _) := push_step q p in push_loop fuel q p
  end.

Definition push (q : LatestQueue) (m : TopicMessage) : option LatestQueue := push_loop 4 q (Entering m).

(** ** A delivery of feedback, an operation at a time *)

(** A delivery holds the sink's lock from its check to its last operation. *)
Inductive Delivery : Type :=
| Unlocked
| Sending (m : TopicMessage)
| Draining.

Definition deliver_check (s : FeedbackSink) (m : TopicMessage) : FeedbackSink * Delivery :=
  match fs_state s with
  | Open =>
      if feedback_reader_gone s then (s, Unlocked)
      else if ends_stream m
      then (mkFeedbackSink (fs_chan s) (fs_bound s) (fs_overflow s) Ended, Sending m)
      else if (fs_bound s <=? chan_len (fs_chan s))%nat
      then (mkFeedbackSink (fs_chan s) (fs_bound s) (fs_overflow s) Overflowed, Draining)
      else (s, Sending m)
  | _ => (s, Unlocked)
  end.

(** [send] on an unbounded channel never waits. *)
Definition deliver_commit (s : FeedbackSink) (d : Delivery) : FeedbackSink :=
  match d with
  | Unlocked => s
  | Sending m =>
      mkFeedbackSink (default (fs_chan s) (send m (fs_chan s))) (fs_bound s) (fs_overflow s) (fs_state s)
  | Draining => mkFeedbackSink (drain (fs_chan s)) (fs_bound s) true (fs_state s)
  end.

Definition feedback_deliver (s : FeedbackSink) (m : TopicMessage) : FeedbackSink :=
  let '(s, d) := deliver_check s m in deliver_commit s d.

(** [deliver], and [deliver_async]; [None] waits for the reader. *)
Definition sink_deliver (s : SubscriptionSink) (m : TopicMessage) : option SubscriptionSink :=
  match s with
  | SinkBackpressure c => SinkBackpressure <$> send m c
  | SinkKeepLatest q => SinkKeepLatest <$> push q m
  | SinkFeedback f => Some (SinkFeedback (feedback_deliver f m))
  end.
End sinks.

(** ** The two threads *)

Inductive Actor : Type := Transport | ReaderTakes | ReaderLeaves.

#[export] Instance Actor_eq_dec : EqDecision Actor.
Proof. solve_decision. Defined.

(** The operations of the transport in a schedule. *)
Definition transport_ops (schedule : list Actor) : nat :=
  length (List.filter (λ a, bool_decide (a = Transport)) schedule).

Section latest_run.
Context `{Flume}.

(** A keep-latest queue in use: the push under way, the messages to deliver
    and those delivered, what the reader took and what the queue dropped, and
    both together in the order they left the queue. *)
Record LatestRun : Type := mkLatestRun {
  lr_queue : LatestQueue;
  lr_push : Push;
  lr_reader : bool;
  lr_todo : list TopicMessage;
  lr_handed : list TopicMessage;
  lr_read : list TopicMessage;
  lr_dropped : list TopicMessage;
  lr_gone : list TopicMessage;
}.

Definition latest_start (capacity : nat) (todo : list TopicMessage) : LatestRun :=
  mkLatestRun (LatestQueue_open capacity) Pushed true todo [] [] [] [].

Definition latest_act (r : LatestRun) (a : Actor) : LatestRun :=
  match a with
  | Transport =>
      match lr_push r, lr_todo r with
      | Pushed, [] => r
      | Pushed, m :: todo =>
          mkLatestRun (lr_queue r) (Entering m) (lr_reader r) todo (lr_handed r ++ [m]) (lr_read r)
            (lr_dropped r) (lr_gone r)
      | p, todo =>
          let '(q, p, dropped) := push_step (lr_queue r) p in
          mkLatestRun q p (lr_reader r) todo (lr_handed r) (lr_read r)
            (lr_dropped r ++ option_list dropped) (lr_gone r ++ option_list dropped)
      end
  | ReaderTakes =>
      if lr_reader r then
        let '(taken, c) := try_recv (lq_chan (lr_queue r)) in
        mkLatestRun (mkLatestQueue c (lq_dropped_any (lr_queue r)) (lq_logged (lr_queue r))) (lr_push r) true
          (lr_todo r) (lr_handed r) (lr_read r ++ option_list taken) (lr_dropped r)
          (lr_gone r ++ option_list taken)
      else r
  | ReaderLeaves =>
      if lr_reader r then
        mkLatestRun
          (mkLatestQueue (drop_rx (lq_chan (lr_queue r))) (lq_dropped_any (lr_queue r)) (lq_logged (lr_queue r)))
          (lr_push r) false (lr_todo r) (lr_handed r) (lr_read r) (lr_dropped r) (lr_gone r)
      else r
  end.

Definition latest_run (schedule : list Actor) (r : LatestRun) : LatestRun :=
  fold_left latest_act schedule r.

(** The messages of the pushes that are over. *)
Definition in_push (p : Push) : list TopicMessage :=
  match p with Entering m | Trying m | Dropping m => [m] | Pushed => [] end.
End latest_run.

Section latest.
Context `{FlumeLaws}.

Ltac latest_simpl :=
  cbn [lr_queue lr_reader lr_handed lr_gone lr_push lr_read lr_dropped lr_todo lq_chan lq_dropped_any
    lq_logged option_list option_rect]; rewrite ?app_nil_r.

(** A push that found the reader there. *)
Definition past_check (p : Push) : bool :=
  match p with Trying _ | Dropping _ => true | _ => false end.

Definition held (q : LatestQueue) : list TopicMessage := unread (view (lq_chan q)).

(** The capacity is fixed, the queue keeps a receiver of its own, what entered
    left from the front or is unread, and the log names the queue once. *)
Record latest_inv (capacity : nat) (r : LatestRun) : Prop := mkLatestInv {
  li_room : room (view (lq_chan (lr_queue r))) = Some (Nat.max capacity 1);
  li_receivers : receivers (view (lq_chan (lr_queue r))) = if lr_reader r then 2 else 1;
  li_bound : length (held (lr_queue r)) ≤ Nat.max capacity 1;
  li_order : ∃ lost, lr_handed r = lr_gone r ++ held (lr_queue r) ++ lost ++ in_push (lr_push r) ∧
    (lr_reader r = true ∨ past_check (lr_push r) = true → lost = []);
  li_read : sublist (lr_read r) (lr_gone r);
  li_split : lr_gone r ≡ₚ lr_read r ++ lr_dropped r;
  li_logged : lq_dropped_any (lr_queue r) = negb (bool_decide (lr_dropped r = [])) ∧
    lq_logged (lr_queue r) = if bool_decide (lr_dropped r = []) then 0 else 1;
}.

Lemma reader_gone_iff q b :
  receivers (view (lq_chan q)) = (if b : bool then 2 else 1) → latest_reader_gone q = negb b.
Proof. intros Hr. unfold latest_reader_gone. rewrite receiver_count_spec, Hr. by destruct b. Qed.

Lemma note_dropped_chan q : lq_chan (note_dropped q) = lq_chan q.
Proof. unfold note_dropped. by destruct (lq_dropped_any q). Qed.

Lemma latest_inv_start capacity todo : latest_inv capacity (latest_start capacity todo).
Proof.
  assert (Hv : view (lq_chan (LatestQueue_open capacity)) = mkChanView [] (Some (Nat.max capacity 1)) 2).
  { cbn. rewrite view_clone, view_bounded by lia. done. }
  split; cbn [latest_start lr_queue lr_reader lr_handed lr_gone lr_push lr_read lr_dropped];
    unfold held; rewrite ?Hv; cbn; [done|done|lia| |done|done|done].
  exists []. done.
Qed.

(** The reader. *)
Lemma latest_inv_takes capacity r : latest_inv capacity r → latest_inv capacity (latest_act r ReaderTakes).
Proof.
  intros [Hroom Hrec Hb (lost & Hord & Hlost) Hread Hsplit Hlog]. cbn [latest_act].
  destruct (lr_reader r) eqn:Er; [|split; rewrite ?Er; eauto].
  specialize (try_recv_spec (lq_chan (lr_queue r))) as Hs. destruct (try_recv _) as [taken c].
  destruct Hs as [-> Hc]. unfold held in *.
  split; latest_simpl;
    unfold held; cbn [lq_chan]; rewrite ?Hc; cbn [room receivers unread]; try done.
  - destruct (unread (view _)); cbn in *; lia.
  - exists lost. split; [|done]. rewrite Hord. destruct (unread (view _)); cbn; [by rewrite app_nil_r|].
    by rewrite <-app_assoc.
  - by apply sublist_app.
  - rewrite Hsplit, <-!app_assoc. f_equiv. apply Permutation_app_comm.
Qed.

Lemma latest_inv_leaves capacity r : latest_inv capacity r → latest_inv capacity (latest_act r ReaderLeaves).
Proof.
  intros [Hroom Hrec Hb (lost & Hord & Hlost) Hread Hsplit Hlog]. cbn [latest_act].
  destruct (lr_reader r) eqn:Er; [|split; rewrite ?Er; eauto].
  unfold held in *.
  split; latest_simpl;
    unfold held; cbn [lq_chan]; rewrite ?view_drop; cbn [room receivers unread]; try done.
  - by rewrite Hrec.
  - exists lost. split; [done|]. intros _. apply Hlost. by left.
Qed.

(** A try on a queue that keeps a receiver and takes a message at least. *)
Lemma try_send_cases capacity m (q : LatestQueue) :
  room (view (lq_chan q)) = Some (Nat.max capacity 1) → receivers (view (lq_chan q)) ≠ 0 →
  let '(r, c) := try_send m (lq_chan q) in
  if (Nat.max capacity 1 <=? length (held q))%nat then r = Full ∧ view c = view (lq_chan q)
  else r = Sent ∧ view c = mkChanView (held q ++ [m]) (Some (Nat.max capacity 1)) (receivers (view (lq_chan q))).
Proof.
  intros Hroom Hrec. assert (Hne : room (view (lq_chan q)) ≠ Some 0) by (rewrite Hroom; intros [=]; lia).
  specialize (try_send_spec m (lq_chan q) Hne) as Hs. destruct (try_send _ _) as [r c].
  rewrite bool_decide_false in Hs by done. unfold is_full in Hs. by rewrite Hroom in Hs.
Qed.

Lemma latest_inv_receiver capacity r :
  latest_inv capacity r → receivers (view (lq_chan (lr_queue r))) ≠ 0.
Proof. intros Hinv. rewrite (li_receivers _ _ Hinv). by destruct (lr_reader r). Qed.

Lemma latest_inv_enter capacity r m :
  lr_push r = Entering m → latest_inv capacity r → latest_inv capacity (latest_act r Transport).
Proof.
  intros Ep [Hroom Hrec Hb (lost & Hord & Hlost) Hread Hsplit Hlog]. cbn [latest_act]. rewrite Ep in *.
  cbn [push_step]. rewrite (reader_gone_iff _ (lr_reader r) Hrec).
  destruct (lr_reader r) eqn:Er; cbn [negb]; split; latest_simpl; try done.
  - exists []. rewrite Hlost in Hord by (by left). done.
  - exists (lost ++ [m]). split; [|by intros [|]]. rewrite Hord. cbn. by rewrite app_nil_r.
Qed.

Lemma latest_inv_try capacity r m :
  lr_push r = Trying m → latest_inv capacity r → latest_inv capacity (latest_act r Transport).
Proof.
  intros Ep Hinv. assert (Hne := latest_inv_receiver capacity r Hinv).
  destruct Hinv as [Hroom Hrec Hb (lost & Hord & Hlost) Hread Hsplit Hlog]. cbn [latest_act]. rewrite Ep in *.
  rewrite Hlost in Hord by (by right). cbn [push_step].
  specialize (try_send_cases capacity m (lr_queue r) Hroom Hne) as Hs. destruct (try_send _ _) as [res c].
  destruct (_ <=? _)%nat eqn:Efull; destruct Hs as [-> Hc]; split; latest_simpl; try done; unfold held in *;
    cbn [lq_chan]; rewrite ?Hc; cbn [room receivers unread]; try done.
  - exists []. done.
  - rewrite length_app. cbn. apply Nat.leb_gt in Efull. lia.
  - exists []. split; [|done]. rewrite Hord. cbn. by rewrite app_nil_r.
Qed.

Lemma latest_inv_drop capacity r m :
  lr_push r = Dropping m → latest_inv capacity r → latest_inv capacity (latest_act r Transport).
Proof.
  intros Ep [Hroom Hrec Hb (lost & Hord & Hlost) Hread Hsplit Hlog]. cbn [latest_act]. rewrite Ep in *.
  rewrite Hlost in Hord by (by right). cbn [push_step].
  specialize (try_recv_spec (lq_chan (lr_queue r))) as Hs. destruct (try_recv _) as [res c]. destruct Hs as [-> Hc].
  unfold held in *. destruct (unread (view (lq_chan (lr_queue r)))) as [|old rest] eqn:Eu; cbn [head tail] in *;
    split; latest_simpl; unfold held; rewrite ?note_dropped_chan; cbn [lq_chan]; rewrite ?Hc;
    cbn [room receivers unread]; try done.
  - exists []. done.
  - cbn in Hb. lia.
  - exists []. split; [|done]. rewrite Hord. cbn. by rewrite <-!app_assoc.
  - by apply sublist_inserts_r.
  - by rewrite Hsplit, <-app_assoc.
  - rewrite bool_decide_false by (by intros [_ [=]]%app_nil). unfold note_dropped. cbn.
    destruct Hlog as [-> Hl]. destruct (bool_decide (lr_dropped r = [])); cbn; [|done]. by rewrite Hl.
Qed.

Lemma latest_inv_next capacity r :
  lr_push r = Pushed → latest_inv capacity r → latest_inv capacity (latest_act r Transport).
Proof.
  intros Ep Hinv. cbn [latest_act]. rewrite Ep. destruct (lr_todo r) as [|m todo]; [done|].
  destruct Hinv as [Hroom Hrec Hb (lost & Hord & Hlost) Hread Hsplit Hlog]. rewrite Ep in *.
  split; latest_simpl; try done. exists lost. split; [|intros [?|[=]]; apply Hlost; by left].
  rewrite Hord. cbn. by rewrite app_nil_r, <-!app_assoc.
Qed.

Lemma latest_inv_transport capacity r : latest_inv capacity r → latest_inv capacity (latest_act r Transport).
Proof.
  intros Hinv. destruct (lr_push r) as [m|m|m|] eqn:Ep.
  - by eapply latest_inv_enter.
  - by eapply latest_inv_try.
  - by eapply latest_inv_drop.
  - by eapply latest_inv_next.
Qed.

Lemma latest_inv_run capacity schedule r : latest_inv capacity r → latest_inv capacity (latest_run schedule r).
Proof.
  revert r. induction schedule as [|a schedule IH]; intros r Hr; [done|]. apply IH.
  destruct a; [by apply latest_inv_transport|by apply latest_inv_takes|by apply latest_inv_leaves].
Qed.

(** The operations a push has left at most: a queue with room takes the message
    at the next try, a full one after a drop. *)
Definition push_cost (q : LatestQueue) (p : Push) : nat :=
  match p with
  | Pushed => 0
  | Trying _ => if is_full (view (lq_chan q)) then 3 else 1
  | Dropping _ => 2
  | Entering _ => 4
  end.

Definition run_cost (r : LatestRun) : nat := 5 * length (lr_todo r) + push_cost (lr_queue r) (lr_push r).

Lemma is_full_held capacity r :
  latest_inv capacity r →
  is_full (view (lq_chan (lr_queue r))) = (Nat.max capacity 1 <=? length (held (lr_queue r)))%nat.
Proof. intros Hinv. unfold is_full. by rewrite (li_room _ _ Hinv). Qed.

Lemma transport_progress capacity r :
  latest_inv capacity r → run_cost (latest_act r Transport) ≤ Nat.pred (run_cost r).
Proof.
  intros Hinv. assert (Hne := latest_inv_receiver capacity r Hinv).
  assert (Hfull := is_full_held capacity r Hinv). unfold run_cost. cbn [latest_act].
  destruct (lr_push r) as [m|m|m|] eqn:Ep; cbn [push_step].
  - destruct (latest_reader_gone _); cbn [lr_todo lr_queue lr_push push_cost]; [lia|].
    destruct (is_full _); lia.
  - specialize (try_send_cases capacity m (lr_queue r) (li_room _ _ Hinv) Hne) as Hs.
    destruct (try_send _ _) as [res c]. cbn [push_cost]. rewrite Hfull.
    destruct (_ <=? _)%nat; destruct Hs as [-> _]; cbn [lr_todo lr_queue lr_push push_cost]; lia.
  - specialize (try_recv_spec (lq_chan (lr_queue r))) as Hs. destruct (try_recv _) as [res c].
    destruct Hs as [-> Hc]. assert (Hb := li_bound _ _ Hinv). unfold held in Hb.
    assert (Hroom : is_full (view c) = false).
    { unfold is_full. rewrite Hc. cbn [room unread]. rewrite (li_room _ _ Hinv). apply Nat.leb_gt.
      destruct (unread (view _)); cbn in *; lia. }
    destruct (head _); cbn [lr_todo lr_queue lr_push push_cost]; rewrite ?note_dropped_chan; cbn [lq_chan];
      rewrite Hroom; lia.
  - destruct (lr_todo r) as [|m todo] eqn:Et; cbn [lr_todo lr_queue lr_push push_cost length].
    + rewrite Et, Ep. cbn. lia.
    + lia.
Qed.

Lemma reader_progress capacity r a :
  latest_inv capacity r → a ≠ Transport → run_cost (latest_act r a) ≤ run_cost r.
Proof.
  intros Hinv Ha. unfold run_cost. destruct a; [done| |]; cbn [latest_act]; (destruct (lr_reader r); [|done]).
  - specialize (try_recv_spec (lq_chan (lr_queue r))) as Hs. destruct (try_recv _) as [res c]. destruct Hs as [_ Hc].
    latest_simpl. destruct (lr_push r); cbn [push_cost]; try lia. cbn [lq_chan]. unfold is_full. rewrite Hc.
    cbn [room unread]. rewrite (li_room _ _ Hinv).
    destruct (unread (view _)) as [|x l]; cbn [tail length]; [lia|].
    destruct (Nat.leb_spec (Nat.max capacity 1) (length l)), (Nat.leb_spec (Nat.max capacity 1) (S (length l))); lia.
  - latest_simpl. destruct (lr_push r); cbn [push_cost]; try lia. cbn [lq_chan]. unfold is_full.
    by rewrite view_drop.
Qed.

Lemma schedule_progress capacity schedule r :
  latest_inv capacity r → run_cost (latest_run schedule r) ≤ run_cost r - transport_ops schedule.
Proof.
  revert r. induction schedule as [|a schedule IH]; intros r Hinv; [cbn; lia|].
  assert (Hinv' : latest_inv capacity (latest_act r a)) by (apply (latest_inv_run capacity [a] r Hinv)).
  change (latest_run (a :: schedule) r) with (latest_run schedule (latest_act r a)).
  specialize (IH _ Hinv'). unfold transport_ops in *. cbn [List.filter]. case_bool_decide as Ea.
  - subst a. assert (Ht := transport_progress capacity r Hinv). cbn [length]. lia.
  - assert (Hr := reader_progress capacity r a Hinv Ea). lia.
Qed.

(** Every message to deliver is handed over once, in order. *)
Lemma latest_handed_act r a : lr_handed (latest_act r a) ++ lr_todo (latest_act r a) = lr_handed r ++ lr_todo r.
Proof.
  destruct a; cbn [latest_act].
  - destruct (lr_push r); try (by destruct (push_step _ _) as [[q p] d]).
    destruct (lr_todo r) eqn:Et; cbn [lr_handed lr_todo]; [by rewrite Et|by rewrite <-app_assoc].
  - destruct (lr_reader r); [|done]. by destruct (try_recv _).
  - by destruct (lr_reader r).
Qed.

Lemma latest_handed_run schedule r :
  lr_handed (latest_run schedule r) ++ lr_todo (latest_run schedule r) = lr_handed r ++ lr_todo r.
Proof.
  revert r. induction schedule as [|a schedule IH]; intros r; [done|].
  change (latest_run (a :: schedule) r) with (latest_run schedule (latest_act r a)).
  by rewrite IH, latest_handed_act.
Qed.
End latest.

(** Whatever the transport and the reader do in whatever order, a keep-latest
    queue never holds more than its capacity, its messages leave from the front
    in the order they came, and what the reader takes is a subsequence of them:
    no message twice, none after a newer one. As long as the reader is there,
    every message was taken, was dropped, is unread or is being pushed. The log
    has one line, once a message was dropped. *)
Lemma keep_latest_in_order `{FlumeLaws} (capacity : nat) (todo : list TopicMessage)
    (schedule : list Actor) :
  let r := latest_run schedule (latest_start capacity todo) in
  length (held (lr_queue r)) ≤ Nat.max capacity 1 ∧
  lr_handed r ++ lr_todo r = todo ∧
  (lr_gone r ++ held (lr_queue r)) `prefix_of` lr_handed r ∧
  (lr_reader r = true → lr_handed r = lr_gone r ++ held (lr_queue r) ++ in_push (lr_push r)) ∧
  sublist (lr_read r) (lr_gone r) ∧ lr_gone r ≡ₚ lr_read r ++ lr_dropped r ∧
  lq_logged (lr_queue r) = if bool_decide (lr_dropped r = []) then 0 else 1.
Proof.
  cbn zeta. assert (Hh := latest_handed_run schedule (latest_start capacity todo)).
  assert (Hinv := latest_inv_run capacity schedule _ (latest_inv_start capacity todo)).
  destruct Hinv as [_ _ Hb (lost & Hord & Hlost) Hread Hsplit [_ Hlog]]. split_and!; try done.
  - rewrite Hord, app_assoc. by apply prefix_app_r.
  - intros Hr. rewrite Hlost in Hord by (by left). done.
Qed.

(** A keep-latest queue never makes the transport wait. Five operations of
    its own for each message are enough for the transport to be done with all of
    them, whatever the reader does meanwhile, also when it takes none. *)
Lemma keep_latest_never_waits `{FlumeLaws} (capacity : nat) (todo : list TopicMessage)
    (schedule : list Actor) (Hops : 5 * length todo ≤ transport_ops schedule) :
  let r := latest_run schedule (latest_start capacity todo) in
  lr_todo r = [] ∧ lr_push r = Pushed ∧ lr_handed r = todo.
Proof.
  cbn zeta. assert (Hh := latest_handed_run schedule (latest_start capacity todo)).
  assert (Hc := schedule_progress capacity schedule _ (latest_inv_start capacity todo)).
  assert (Hstart : run_cost (latest_start capacity todo) = 5 * length todo)
    by (unfold run_cost; cbn [latest_start lr_todo lr_push push_cost]; lia).
  rewrite Hstart in Hc. set (r := latest_run _ _) in *.
  assert (Hzero : run_cost r = 0) by lia. unfold run_cost in Hzero.
  assert (Ht : lr_todo r = []) by (destruct (lr_todo r); cbn in Hzero; [done|lia]).
  rewrite Ht, app_nil_r in Hh. split; [done|]. split; [|done].
  rewrite Ht in Hzero. cbn in Hzero. destruct (lr_push r); cbn in Hzero; try done; repeat case_match; lia.
Qed.

(** A push that nothing runs beside returns, and leaves the newest messages:
    the last ones, up to the capacity, of what was unread and the new one. *)
Lemma push_keeps_latest `{FlumeLaws} (capacity : nat) (q : LatestQueue) (m : TopicMessage)
    (Hroom : room (view (lq_chan q)) = Some (Nat.max capacity 1))
    (Hreader : receivers (view (lq_chan q)) = 2)
    (Hbound : length (held q) ≤ Nat.max capacity 1) :
  ∃ q', push q m = Some q' ∧
    held q' = drop (S (length (held q)) - Nat.max capacity 1) (held q ++ [m]).
Proof.
  unfold push. cbn [push_loop push_step]. rewrite (reader_gone_iff q true Hreader). cbn [negb push_loop push_step].
  assert (Hne : receivers (view (lq_chan q)) ≠ 0) by (by rewrite Hreader).
  specialize (try_send_cases capacity m q Hroom Hne) as Hs. destruct (try_send m (lq_chan q)) as [r c].
  destruct (_ <=? _)%nat eqn:Efull; destruct Hs as [-> Hc]; cbn [push_loop push_step lq_chan].
  - apply Nat.leb_le in Efull. specialize (try_recv_spec c) as Hr. destruct (try_recv c) as [old c2].
    destruct Hr as [-> Hc2]. rewrite Hc in Hc2. fold (held q) in Hc2. rewrite Hc. fold (held q).
    destruct (held q) as [|x rest] eqn:Eh; [cbn in Efull; lia|]. cbn [head tail] in *.
    set (q2 := note_dropped _).
    assert (Hv2 : view (lq_chan q2) = mkChanView rest (Some (Nat.max capacity 1)) 2)
      by (subst q2; rewrite note_dropped_chan; cbn [lq_chan]; by rewrite Hc2, Hroom, Hreader).
    specialize (try_send_cases capacity m q2) as Hs2. rewrite Hv2 in Hs2. cbn [push_loop push_step].
    destruct (try_send m (lq_chan q2)) as [r2 c3]. specialize (Hs2 eq_refl ltac:(done)).
    unfold held in Hs2. rewrite Hv2 in Hs2. cbn [unread receivers] in Hs2.
    cbn [length] in Efull, Hbound. rewrite (proj2 (Nat.leb_gt _ _)) in Hs2 by lia. destruct Hs2 as [-> Hc3].
    cbn [push_loop]. eexists. split; [reflexivity|]. unfold held. cbn [lq_chan]. rewrite Hc3. cbn [unread].
    replace (S (length (x :: rest)) - Nat.max capacity 1) with 1 by (cbn [length]; lia). done.
  - apply Nat.leb_gt in Efull. cbn [push_loop]. eexists. split; [reflexivity|]. unfold held at 1. cbn [lq_chan].
    rewrite Hc. cbn [unread]. by replace (S (length (held q)) - Nat.max capacity 1) with 0 by lia.
Qed.

(** ** A feedback stream *)

Section feedback_run.
Context `{Flume}.

(** A feedback sink in use: the delivery that holds the lock, the messages to
    deliver and those a delivery took the lock for, and what the reader took. *)
Record FeedbackRun : Type := mkFeedbackRun {
  fr_sink : FeedbackSink;
  fr_delivery : Delivery;
  fr_reader : bool;
  fr_todo : list TopicMessage;
  fr_handed : list TopicMessage;
  fr_read : list TopicMessage;
}.

Definition feedback_start (bound : positive) (todo : list TopicMessage) : FeedbackRun :=
  mkFeedbackRun (FeedbackSink_open (mkFeedbackBuffer bound false)) Unlocked true todo [] [].

Definition with_chan (s : FeedbackSink) (c : Chan) : FeedbackSink :=
  mkFeedbackSink c (fs_bound s) (fs_overflow s) (fs_state s).

Definition feedback_act (r : FeedbackRun) (a : Actor) : FeedbackRun :=
  match a with
  | Transport =>
      match fr_delivery r, fr_todo r with
      | Unlocked, [] => r
      | Unlocked, m :: todo =>
          let '(s, d) := deliver_check (fr_sink r) m in
          mkFeedbackRun s d (fr_reader r) todo (fr_handed r ++ [m]) (fr_read r)
      | d, todo =>
          mkFeedbackRun (deliver_commit (fr_sink r) d) Unlocked (fr_reader r) todo (fr_handed r) (fr_read r)
      end
  | ReaderTakes =>
      if fr_reader r then
        let '(taken, c) := try_recv (fs_chan (fr_sink r)) in
        mkFeedbackRun (with_chan (fr_sink r) c) (fr_delivery r) true (fr_todo r) (fr_handed r)
          (fr_read r ++ option_list taken)
      else r
  | ReaderLeaves =>
      if fr_reader r then
        mkFeedbackRun (with_chan (fr_sink r) (drop_rx (fs_chan (fr_sink r)))) (fr_delivery r) false
          (fr_todo r) (fr_handed r) (fr_read r)
      else r
  end.

Definition feedback_run (schedule : list Actor) (r : FeedbackRun) : FeedbackRun :=
  fold_left feedback_act schedule r.

Definition pending (d : Delivery) : list TopicMessage := match d with Sending m => [m] | _ => [] end.
End feedback_run.

(** A stream, up to its end. *)
Fixpoint up_to_end (l : list TopicMessage) : list TopicMessage :=
  match l with
  | [] => []
  | m :: l => if ends_stream m then [m] else m :: up_to_end l
  end.

Definition no_end (l : list TopicMessage) : Prop := Forall (λ m, ends_stream m = false) l.

Lemma up_to_end_open l l' : no_end l → up_to_end (l ++ l') = l ++ up_to_end l'.
Proof. induction 1 as [|m l Hm Hl IH]; [done|]. cbn. by rewrite Hm, IH. Qed.

Lemma up_to_end_ended l l' : ¬ no_end l → up_to_end (l ++ l') = up_to_end l.
Proof.
  induction l as [|m l IH]; intros Hl; [by destruct Hl; constructor|]. cbn.
  destruct (ends_stream m) eqn:Em; [done|]. rewrite IH; [done|]. intros ?. apply Hl. by constructor.
Qed.

Lemma no_end_app l l' : no_end (l ++ l') ↔ no_end l ∧ no_end l'.
Proof. apply Forall_app. Qed.

Section feedback.
Context `{FlumeLaws}.

Definition waiting (s : FeedbackSink) : list TopicMessage := unread (view (fs_chan s)).

(** Messages but the end. *)
Definition data (l : list TopicMessage) : list TopicMessage := List.filter (λ m, negb (ends_stream m)) l.

Definition buffered (r : FeedbackRun) : list TopicMessage :=
  fr_read r ++ waiting (fr_sink r) ++ pending (fr_delivery r).

Record feedback_inv (bound : nat) (r : FeedbackRun) : Prop := mkFeedbackInv {
  fi_room : room (view (fs_chan (fr_sink r))) = None;
  fi_receivers : receivers (view (fs_chan (fr_sink r))) = if fr_reader r then 2 else 1;
  fi_bound : fs_bound (fr_sink r) = bound;
  fi_data : length (data (waiting (fr_sink r) ++ pending (fr_delivery r))) ≤ bound;
  fi_state :
    match fs_state (fr_sink r) with
    | Open =>
        fs_overflow (fr_sink r) = false ∧ fr_delivery r ≠ Draining ∧ no_end (buffered r) ∧
        ∃ lost, fr_handed r = buffered r ++ lost ∧ (fr_reader r = true ∨ fr_delivery r ≠ Unlocked → lost = [])
    | Ended =>
        fs_overflow (fr_sink r) = false ∧ fr_delivery r ≠ Draining ∧
        buffered r = up_to_end (fr_handed r) ∧ ¬ no_end (fr_handed r)
    | Overflowed =>
        pending (fr_delivery r) = [] ∧ no_end (buffered r) ∧ (buffered r) `prefix_of` (fr_handed r) ∧
        fs_overflow (fr_sink r) = match fr_delivery r with Draining => false | _ => true end ∧
        (fr_delivery r = Unlocked → waiting (fr_sink r) = [])
    end;
}.

Ltac feedback_simpl :=
  cbn [fr_sink fr_delivery fr_reader fr_todo fr_handed fr_read fs_chan fs_bound fs_overflow fs_state with_chan
    pending option_list option_rect]; unfold buffered, waiting;
  cbn [fr_sink fr_delivery fr_reader fr_todo fr_handed fr_read fs_chan fs_bound fs_overflow fs_state with_chan
    pending option_list option_rect].

Lemma data_app l l' : data (l ++ l') = data l ++ data l'.
Proof. apply List.filter_app. Qed.

Lemma data_tail l : length (data (tail l)) ≤ length (data l).
Proof. destruct l as [|m l]; [done|]. unfold data. cbn. destruct (negb (ends_stream m)); cbn; lia. Qed.

Lemma feedback_inv_start bound todo : feedback_inv (Pos.to_nat bound) (feedback_start bound todo).
Proof.
  assert (Hv : view (fs_chan (FeedbackSink_open (mkFeedbackBuffer bound false))) = mkChanView [] None 2)
    by (cbn; by rewrite view_clone, view_unbounded).
  unfold feedback_start. split; feedback_simpl; rewrite ?Hv; try done; [cbn; lia|].
  cbn. split; [done|]. split; [done|]. split; [constructor|]. by exists [].
Qed.

(** Taking the front of a channel moves it to what was read. *)
Lemma taken_front {A} (l r p : list A) : (l ++ option_list (head r)) ++ tail r ++ p = l ++ r ++ p.
Proof. destruct r; cbn; [by rewrite app_nil_r|]. by rewrite <-app_assoc. Qed.

Lemma feedback_inv_takes bound r : feedback_inv bound r → feedback_inv bound (feedback_act r ReaderTakes).
Proof.
  intros Hinv. cbn [feedback_act]. destruct (fr_reader r) eqn:Er; [|done].
  destruct Hinv as [Hroom Hrec Hb Hd Hst]. unfold buffered, waiting in *.
  specialize (try_recv_spec (fs_chan (fr_sink r))) as Hs. destruct (try_recv _) as [taken c].
  destruct Hs as [-> Hc]. split; feedback_simpl; rewrite ?Hc; cbn [room receivers unread]; try done.
  - by rewrite Hrec, Er.
  - rewrite data_app, length_app in *. pose proof (data_tail (unread (view (fs_chan (fr_sink r))))). lia.
  - rewrite taken_front. rewrite Er in Hst. destruct (fs_state (fr_sink r)); [done|done|].
    destruct Hst as (? & ? & ? & ? & Hw). split_and!; try done. intros Hu. by rewrite (Hw Hu).
Qed.

Lemma feedback_inv_leaves bound r : feedback_inv bound r → feedback_inv bound (feedback_act r ReaderLeaves).
Proof.
  intros Hinv. cbn [feedback_act]. destruct (fr_reader r) eqn:Er; [|done].
  destruct Hinv as [Hroom Hrec Hb Hd Hst]. unfold buffered, waiting in *.
  split; feedback_simpl; rewrite ?view_drop; cbn [room receivers unread]; try done.
  - by rewrite Hrec, Er.
  - destruct (fs_state (fr_sink r)); [|done..]. destruct Hst as (? & ? & ? & lost & ? & Hl).
    split_and!; try done. exists lost. split; [done|]. intros _. apply Hl. by left.
Qed.

(** The commit of a delivery. *)
Lemma feedback_inv_commit bound r :
  fr_delivery r ≠ Unlocked → feedback_inv bound r → feedback_inv bound (feedback_act r Transport).
Proof.
  intros Hu [Hroom Hrec Hb Hd Hst]. unfold buffered, waiting in *. cbn [feedback_act].
  destruct (fr_delivery r) as [|m|] eqn:Ed; [done| |]; cbn [deliver_commit pending] in *.
  - assert (Hne : room (view (fs_chan (fr_sink r))) ≠ Some 0) by (by rewrite Hroom).
    rewrite (send_spec _ _ Hne). specialize (try_send_spec m (fs_chan (fr_sink r)) Hne) as Hs.
    destruct (try_send _ _) as [res c].
    rewrite bool_decide_false in Hs by (rewrite Hrec; by destruct (fr_reader r)).
    unfold is_full in Hs. rewrite Hroom in Hs. destruct Hs as [-> Hc]. cbn [from_option id].
    split; feedback_simpl; rewrite ?Hc; cbn [room receivers unread]; rewrite ?app_nil_r; try done.
    destruct (fs_state (fr_sink r)); [| |by destruct Hst as ([=] & _)].
    + destruct Hst as (? & ? & ? & lost & ? & Hl). split_and!; try done. exists lost. split; [done|].
      intros _. apply Hl. by right.
    + destruct Hst as (? & ? & ? & ?). done.
  - destruct (fs_state (fr_sink r)) eqn:Es; [by destruct Hst as (_ & [] & _)..|].
    destruct Hst as (_ & Hno & Hpre & _ & _).
    split; feedback_simpl; rewrite ?view_drain; cbn [room receivers unread]; try done; [cbn; lia|].
    rewrite !app_nil_r in *. apply no_end_app in Hno as [Hno _]. split_and!; try done.
    etrans; [|exact Hpre]. by apply prefix_app_r.
Qed.

(** The check of a delivery, when the lock is free. *)
Lemma feedback_inv_check bound r :
  fr_delivery r = Unlocked → feedback_inv bound r → feedback_inv bound (feedback_act r Transport).
Proof.
  intros Hu Hinv. cbn [feedback_act]. rewrite Hu. destruct (fr_todo r) as [|m todo]; [done|].
  destruct Hinv as [Hroom Hrec Hb Hd Hst]. unfold buffered, waiting in *. rewrite Hu in *. cbn [pending] in *.
  rewrite app_nil_r in Hd. unfold deliver_check, feedback_reader_gone. rewrite receiver_count_spec, Hrec.
  destruct (fs_state (fr_sink r)) eqn:Es.
  - destruct Hst as (Hov & _ & Hno & lost & Hh & Hlost). rewrite app_nil_r in Hno, Hh.
    destruct (fr_reader r) eqn:Er; cbn [Nat.leb].
    + rewrite Hlost, app_nil_r in Hh by (by left). rewrite chan_len_spec, Hb.
      destruct (ends_stream m) eqn:Em; [|destruct (_ <=? _)%nat eqn:Ef];
        split; feedback_simpl; rewrite ?Es, ?app_nil_r, ?Hh; try done.
      * rewrite data_app, length_app. unfold data at 2. cbn. rewrite Em. cbn. lia.
      * split_and!; [done|done| |].
        { rewrite up_to_end_open by done. cbn. by rewrite Em, app_assoc. }
        rewrite no_end_app. intros [_ Hm]. inversion Hm. congruence.
      * split_and!; [done|done| |done|done]. by apply prefix_app_r.
      * apply Nat.leb_gt in Ef. pose proof (List.filter_length_le (λ m, negb (ends_stream m)) (unread (view (fs_chan (fr_sink r))) ++ [m])) as Hle.
        rewrite length_app in Hle. cbn in Hle. unfold data. lia.
      * split_and!; [done|done| |].
        { rewrite app_assoc. apply no_end_app. split; [done|]. by constructor. }
        exists []. by rewrite app_nil_r, app_assoc.
    + split; feedback_simpl; rewrite ?Es, ?Er, ?app_nil_r; try done. split_and!; try done.
      exists (lost ++ [m]). split; [by rewrite Hh, <-!app_assoc|]. by intros [|[]].
  - destruct Hst as (Hov & _ & Hbuf & Hno). split; feedback_simpl; rewrite ?Es, ?app_nil_r in *; try done.
    split_and!; [done|done|by rewrite up_to_end_ended|]. rewrite no_end_app. tauto.
  - destruct Hst as (_ & Hno & Hpre & Hov & Hw). split; feedback_simpl; rewrite ?Es, ?app_nil_r in *; try done.
    split_and!; try done. by apply prefix_app_r.
Qed.

Lemma feedback_inv_run bound schedule r : feedback_inv bound r → feedback_inv bound (feedback_run schedule r).
Proof.
  revert r. induction schedule as [|a schedule IH]; intros r Hr; [done|]. apply IH. destruct a.
  - destruct (fr_delivery r) eqn:Ed; [by apply feedback_inv_check|by apply feedback_inv_commit; rewrite ?Ed..].
  - by apply feedback_inv_takes.
  - by apply feedback_inv_leaves.
Qed.

(** What was read, and what waits, is the stream from its start. *)
Lemma buffered_prefix bound r :
  feedback_inv bound r → (fr_read r ++ waiting (fr_sink r)) `prefix_of` up_to_end (fr_handed r).
Proof.
  intros [_ _ _ _ Hst]. unfold buffered in Hst. destruct (fs_state (fr_sink r)).
  - destruct Hst as (_ & _ & Hno & lost & -> & _). rewrite up_to_end_open by done.
    rewrite app_assoc, <-app_assoc. by apply prefix_app_r.
  - destruct Hst as (_ & _ & <- & _). rewrite app_assoc. by apply prefix_app_r.
  - destruct Hst as (Hp & Hno & [l ->] & _). rewrite up_to_end_open by done. rewrite Hp, app_nil_r.
    by apply prefix_app_r.
Qed.

Lemma feedback_inv_prefix bound r :
  feedback_inv bound r → fr_read r `prefix_of` up_to_end (fr_handed r).
Proof. intros Hr%buffered_prefix. etrans; [|done]. by apply prefix_app_r. Qed.
End feedback.

(** A feedback stream, whatever the transport and the reader do in whatever
    order. The reader takes the messages of the stream from its start, in order
    and without a gap, and never one past its end. No more than the bound, the
    end apart, waits to be read. While the stream is open and read, and once it
    ended, nothing up to the end was lost: it was taken, or waits. A stream that
    overflowed has nothing left to read, and says so: it is raised then, and
    only then. *)
Lemma feedback_stream_exact `{FlumeLaws} (bound : positive) (todo : list TopicMessage)
    (schedule : list Actor) :
  let r := feedback_run schedule (feedback_start bound todo) in
  let s := fr_sink r in
  (fr_read r ++ waiting s) `prefix_of` up_to_end (fr_handed r) ∧
  length (data (waiting s)) ≤ Pos.to_nat bound ∧
  (fs_state s = Open → fr_reader r = true →
     fr_handed r = fr_read r ++ waiting s ++ pending (fr_delivery r)) ∧
  (fs_state s = Ended → up_to_end (fr_handed r) = fr_read r ++ waiting s ++ pending (fr_delivery r)) ∧
  (fs_state s = Overflowed → fr_delivery r = Unlocked → waiting s = [] ∧ fs_overflow s = true) ∧
  (fs_overflow s = true → fs_state s = Overflowed).
Proof.
  cbn zeta. assert (Hinv := feedback_inv_run _ schedule _ (feedback_inv_start bound todo)).
  set (r := feedback_run _ _) in *. assert (Hinv0 := Hinv). destruct Hinv0 as [_ _ _ Hd Hst]. unfold buffered in Hst. split_and!.
  - by apply buffered_prefix in Hinv.
  - rewrite data_app, length_app in Hd. lia.
  - intros Hs Hr. rewrite Hs in Hst. destruct Hst as (_ & _ & _ & lost & Hh & Hl).
    by rewrite Hl, app_nil_r in Hh by (by left).
  - intros Hs. rewrite Hs in Hst. by destruct Hst as (_ & _ & <- & _).
  - intros Hs Hu. rewrite Hs, Hu in Hst. destruct Hst as (_ & _ & _ & Ho & Hw). split; [by apply Hw|done].
  - intros Ho. rewrite Ho in Hst. destruct (fs_state (fr_sink r)); [by destruct Hst..|done].
Qed.

(** ** A channel *)

(** A channel as what is seen of it. *)
Definition list_try_send (m : TopicMessage) (c : ChanView) : SendOutcome * ChanView :=
  if bool_decide (receivers c = 0) then (Disconnected, c)
  else if is_full c then (Full, c)
  else (Sent, mkChanView (unread c ++ [m]) (room c) (receivers c)).

Definition list_flume : Flume := {|
  Chan := ChanView;
  bounded n := mkChanView [] (Some n) 1;
  unbounded := mkChanView [] None 1;
  clone_rx c := mkChanView (unread c) (room c) (S (receivers c));
  drop_rx c := mkChanView (unread c) (room c) (Nat.pred (receivers c));
  try_send := list_try_send;
  send m c := match list_try_send m c with (Full, _) => None | (_, c') => Some c' end;
  try_recv c := (head (unread c), mkChanView (tail (unread c)) (room c) (receivers c));
  drain c := mkChanView [] (room c) (receivers c);
  chan_len c := length (unread c);
  receiver_count c := receivers c;
  is_disconnected c := bool_decide (receivers c = 0);
|}.

Definition list_flume_laws : FlumeLaws list_flume.
Proof.
  refine {| view := λ c : @Chan list_flume, (c : ChanView) |}; try done.
  intros m c _. cbn. unfold list_try_send. case_bool_decide; [done|]. by destruct (is_full c).
Defined.

Definition example_message (payload : list Byte.byte) : TopicMessage :=
  mkTopicMessage "k" "cam_1" "desk" "cam" payload None.
Definition example_a : TopicMessage := example_message [Byte.x61].
Definition example_b : TopicMessage := example_message [Byte.x62].
Definition example_c : TopicMessage := example_message [Byte.x63].

(** Three messages on a queue of two that nobody reads. *)
Lemma keep_latest_in_order_witness :
  let r := latest_run (H := list_flume) (replicate 15 Transport)
    (latest_start (H := list_flume) 2 [example_a; example_b; example_c]) in
  length (held (H := list_flume_laws) (lr_queue r)) ≤ Nat.max 2 1 ∧ lr_dropped r = [example_a].
Proof.
  split; [|vm_compute; reflexivity].
  exact (proj1 (keep_latest_in_order (H := list_flume_laws) 2 [example_a; example_b; example_c]
    (replicate 15 Transport))).
Defined.

Lemma keep_latest_never_waits_witness :
  let r := latest_run (H := list_flume) (ReaderTakes :: replicate 15 Transport)
    (latest_start (H := list_flume) 2 [example_a; example_b; example_c]) in
  lr_todo r = [] ∧ lr_push r = Pushed ∧ lr_handed r = [example_a; example_b; example_c].
Proof.
  apply (keep_latest_never_waits (H := list_flume_laws) 2 [example_a; example_b; example_c]
    (ReaderTakes :: replicate 15 Transport)).
  vm_compute. repeat constructor.
Defined.

Lemma push_keeps_latest_witness :
  ∃ q', push (H := list_flume)
      (mkLatestQueue (H := list_flume) (mkChanView [example_a; example_b] (Some 2) 2) false 0) example_c = Some q' ∧
    held (H := list_flume_laws) q' = [example_b; example_c].
Proof.
  apply (push_keeps_latest (H := list_flume_laws) 2
    (mkLatestQueue (H := list_flume) (mkChanView [example_a; example_b] (Some 2) 2) false 0) example_c).
  - reflexivity.
  - reflexivity.
  - cbn. lia.
Defined.

(** Two messages and the end, and one more that comes too late. *)
Definition example_stream : list TopicMessage := [example_a; example_b; example_message []; example_c].

Lemma feedback_stream_exact_witness :
  let r := feedback_run (H := list_flume) (replicate 5 Transport ++ [ReaderTakes] ++ replicate 3 Transport)
    (feedback_start (H := list_flume) 2 example_stream) in
  fr_handed r = example_stream ∧ fs_state (fr_sink r) = Ended ∧
  fr_read r ++ waiting (H := list_flume_laws) (fr_sink r) ++ pending (fr_delivery r) =
  [example_a; example_b; example_message []].
Proof.
  destruct (feedback_stream_exact (H := list_flume_laws) 2 example_stream
    (replicate 5 Transport ++ [ReaderTakes] ++ replicate 3 Transport)) as (_ & _ & _ & Hended & _).
  split; [vm_compute; reflexivity|]. split; [vm_compute; reflexivity|].
  rewrite <-Hended by (vm_compute; reflexivity). vm_compute. reflexivity.
Defined.
