(* ===== verification/ActionWire.v ===== *)
(** * The wire forms of an action

    [peppylib-rs/src/messaging/actions.rs] (the envelopes of goals, results and
    admission answers) and [peppy-messaging-interface/src/failure.rs]: what a
    client and a provider of an action put on the wire and read back. A wire is
    a list of bytes; a Rust [str] is a [string] whose bytes are UTF-8, so what
    a decoder returns is a [str] and what an encoder takes is one. Errors keep
    their cause, not their text. *)

From S2P Require Import Prelude Names.
#[local] Open Scope Z_scope.

(** ** Bytes, slices and UTF-8 *)

Notation bytes := (list Byte.byte).

Definition u8 (b : Byte.byte) : Z := Z.of_N (Byte.to_N b).

(** [as u8]. *)
Definition as_u8 (n : Z) : Byte.byte := default Byte.x00 (Byte.of_N (Z.to_N (n mod 256))).

(** [slice::get] of a range. *)
Definition get_range (a b : nat) (l : bytes) : option bytes :=
  if (a <=? b)%nat && (b <=? length l)%nat then Some (take (b - a) (drop a l)) else None.

(** [put_u32] and [u32::from_be_bytes]. *)
Definition put_u32 (n : Z) : bytes :=
  [as_u8 (n / 2 ^ 24); as_u8 (n / 2 ^ 16); as_u8 (n / 2 ^ 8); as_u8 n].

Definition from_be_bytes (l : bytes) : Z := fold_left (λ acc b, acc * 256 + u8 b) l 0.

Definition between (lo hi : Z) (b : Byte.byte) : bool := (lo <=? u8 b) && (u8 b <=? hi).

(** A continuation byte. *)
Definition continues (b : Byte.byte) : bool := between 128 191 b.

(** What [str::from_utf8] accepts: code points in their shortest form, without
    surrogates, up to U+10FFFF. *)
Fixpoint is_utf8 (l : bytes) : bool :=
  match l with
  | [] => true
  | a :: l =>
      if between 0 127 a then is_utf8 l
      else match l with
      | b :: l =>
          if between 194 223 a then continues b && is_utf8 l
          else match l with
          | c :: l =>
              if between 224 239 a then
                (if u8 a =? 224 then between 160 191 b
                 else if u8 a =? 237 then between 128 159 b else continues b)
                && continues c && is_utf8 l
              else match l with
              | d :: l =>
                  between 240 244 a
                  && (if u8 a =? 240 then between 144 191 b
                      else if u8 a =? 244 then between 128 143 b else continues b)
                  && continues c && continues d && is_utf8 l
              | [] => false
              end
          | [] => false
          end
      | [] => false
      end
  end.

Definition as_bytes (s : string) : bytes := String.list_byte_of_string s.

Definition from_utf8 (l : bytes) : option string :=
  if is_utf8 l then Some (String.string_of_list_byte l) else None.

#[global] Arguments as_bytes : simpl never.
#[global] Arguments as_u8 : simpl never.
#[global] Arguments u8 : simpl never.

(** The strings that are a Rust [str]. *)
Definition is_str (s : string) : bool := is_utf8 (as_bytes s).

(** ** Failures *)

Inductive PeppyFailureKind : Type :=
| AttemptFailed | Timeout | PreconditionFailed | ResourceUnavailable | Rejected.

Definition PeppyFailureKind_name (k : PeppyFailureKind) : string :=
  match k with
  | AttemptFailed => "attempt_failed"
  | Timeout => "timeout"
  | PreconditionFailed => "precondition_failed"
  | ResourceUnavailable => "resource_unavailable"
  | Rejected => "rejected"
  end.

Definition FailureKindName_parse (name : string) : result WordNameProblem string :=
  match word_name_problem name with Some problem => Err problem | None => Ok name end.

Record Failure : Type := mkFailure {
  failure_kind : string;
  failure_message : string;
}.

Definition Failure_of_kind (k : PeppyFailureKind) (message : string) : Failure :=
  mkFailure (PeppyFailureKind_name k) message.

Inductive FailureDecodeError : Type :=
| FailureEmpty
| FailureTruncated (kind_len : nat)
| KindNotUtf8
| InvalidKind (problem : WordNameProblem)
| MessageNotUtf8.

Definition Failure_encode (f : Failure) : bytes :=
  let kind := as_bytes (failure_kind f) in
  as_u8 (Z.of_nat (length kind)) :: kind ++ as_bytes (failure_message f).

Definition Failure_decode (wire : bytes) : result FailureDecodeError Failure :=
  first ← ok_or (head wire) FailureEmpty;
  let kind_len := Z.to_nat (u8 first) in
  let message_start := (1 + kind_len)%nat in
  kind ← ok_or (get_range 1 message_start wire) (FailureTruncated kind_len);
  kind ← ok_or (from_utf8 kind) KindNotUtf8;
  kind ← map_err InvalidKind (FailureKindName_parse kind);
  message ← ok_or (from_utf8 (drop message_start wire)) MessageNotUtf8;
  Ok (mkFailure kind message).

(** What a [Failure] holds: a kind that has a name, and a text. *)
Definition wf_failure (f : Failure) : Prop :=
  word_name_problem (failure_kind f) = None ∧ is_str (failure_message f) = true.

(** ** Envelopes *)

Inductive EnvelopeError : Type :=
(* [action_goal_envelope] *)
| GoalIdEmpty
| GoalIdTooLong (len : nat)
| WireEmpty
| WireGoalIdEmpty
| WireTooShort (goal_id_len : nat)
| GoalIdNotUtf8
| GenerationLength (len : nat)
| NoGeneration
| GenerationTooShort (generation_len : nat)
| GenerationNotUtf8
| UnsafeGoalId (goal_id : string)
(* [action_result_outcome_envelope] *)
| OutcomeEmpty
| UnknownStatus (tag : Z)
| ReasonLengthMissing
| ReasonTooShort (reason_len : nat)
| ReasonNotUtf8
| OutcomeFailure (err : FailureDecodeError)
(* [action_goal_ack_envelope] *)
| AckEmpty
| UnknownAck (tag : Z)
| AckFailure (err : FailureDecodeError).

Definition U8_MAX : nat := 255.

Definition wrap_goal_payload (goal_id : string) (user_payload : bytes) : result EnvelopeError bytes :=
  let id := as_bytes goal_id in
  if bool_decide (id = []) then Err GoalIdEmpty
  else if (U8_MAX <? length id)%nat then Err (GoalIdTooLong (length id))
  else Ok (as_u8 (Z.of_nat (length id)) :: id ++ user_payload).

Definition unwrap_goal_payload (wire : bytes) : result EnvelopeError (string * bytes) :=
  first ← ok_or (head wire) WireEmpty;
  let goal_id_len := Z.to_nat (u8 first) in
  if (goal_id_len =? 0)%nat then Err WireGoalIdEmpty
  else
    let body_start := (1 + goal_id_len)%nat in
    if (length wire <? body_start)%nat then Err (WireTooShort goal_id_len)
    else
      goal_id ← ok_or (from_utf8 (take (body_start - 1) (drop 1 wire))) GoalIdNotUtf8;
      Ok (goal_id, drop body_start wire).

Definition split_goal_envelope (wire : bytes) : result EnvelopeError (string * bytes) :=
  '(goal_id, user_payload) ← unwrap_goal_payload wire;
  let offset := (length wire - length user_payload)%nat in
  Ok (goal_id, drop offset wire).

Definition wrap_goal_request (goal_id sender_generation : string) (user_payload : bytes) :
    result EnvelopeError bytes :=
  let generation := as_bytes sender_generation in
  if bool_decide (generation = []) || (U8_MAX <? length generation)%nat
  then Err (GenerationLength (length generation))
  else wrap_goal_payload goal_id (as_u8 (Z.of_nat (length generation)) :: generation ++ user_payload).

Record GoalRequestEnvelope : Type := mkGoalRequestEnvelope {
  gre_goal_id : string;
  gre_sender_generation : string;
  gre_user_payload : bytes;
}.

Definition split_goal_request (wire : bytes) : result EnvelopeError GoalRequestEnvelope :=
  '(goal_id, body) ← split_goal_envelope wire;
  first ← ok_or (head body) NoGeneration;
  let generation_len := Z.to_nat (u8 first) in
  let payload_start := (1 + generation_len)%nat in
  if (generation_len =? 0)%nat || (length body <? payload_start)%nat
  then Err (GenerationTooShort generation_len)
  else
    sender_generation ←
      ok_or (from_utf8 (take (payload_start - 1) (drop 1 body))) GenerationNotUtf8;
    Ok (mkGoalRequestEnvelope goal_id sender_generation (drop payload_start body)).

Definition goal_id_from_request (payload : bytes) : result EnvelopeError string :=
  '(goal_id, _) ← unwrap_goal_payload payload; Ok goal_id.

(** A goal id that may be a segment of a feedback topic. *)
Definition is_safe_goal_id (goal_id : string) : bool :=
  negb (bool_decide (goal_id = ""))
  && forallb (λ c, is_ascii_alphanumeric c || is_underscore c || is_dash c) (chars goal_id).

(** ** Results *)

Inductive ResultStatus : Type := StCompleted | StCancelled | StAbandoned | StExpired | StFailed.

Definition ResultStatus_tag (s : ResultStatus) : Z :=
  match s with
  | StCompleted => 0 | StCancelled => 1 | StAbandoned => 2 | StExpired => 3 | StFailed => 4
  end.

Definition ResultStatus_from_tag (tag : Z) : option ResultStatus :=
  match tag with
  | 0 => Some StCompleted
  | 1 => Some StCancelled
  | 2 => Some StAbandoned
  | 3 => Some StExpired
  | 4 => Some StFailed
  | _ => None
  end.

Inductive GoalOutcome : Type :=
| Completed (result : bytes)
| Cancelled (reason : string) (result : bytes)
| OutcomeFailed (failure : Failure)
| Abandoned
| Expired.

Definition outcome_status (o : GoalOutcome) : ResultStatus :=
  match o with
  | Completed _ => StCompleted
  | Cancelled _ _ => StCancelled
  | OutcomeFailed _ => StFailed
  | Abandoned => StAbandoned
  | Expired => StExpired
  end.

Definition wrap_result_outcome (o : GoalOutcome) : bytes :=
  as_u8 (ResultStatus_tag (outcome_status o)) ::
  match o with
  | Completed result => result
  | Cancelled reason result =>
      put_u32 (Z.of_nat (length (as_bytes reason))) ++ as_bytes reason ++ result
  | OutcomeFailed failure => Failure_encode failure
  | Abandoned | Expired => []
  end.

Definition unwrap_result_outcome (wire : bytes) : result EnvelopeError GoalOutcome :=
  tag ← ok_or (head wire) OutcomeEmpty;
  status ← ok_or (ResultStatus_from_tag (u8 tag)) (UnknownStatus (u8 tag));
  let body := drop 1 wire in
  match status with
  | StCompleted => Ok (Completed body)
  | StCancelled =>
      len ← ok_or (get_range 0 4 body) ReasonLengthMissing;
      let reason_len := Z.to_nat (from_be_bytes len) in
      let result_start := (4 + reason_len)%nat in
      reason ← ok_or (get_range 4 result_start body) (ReasonTooShort reason_len);
      reason ← ok_or (from_utf8 reason) ReasonNotUtf8;
      Ok (Cancelled reason (drop result_start body))
  | StFailed => OutcomeFailed <$> map_err OutcomeFailure (Failure_decode body)
  | StAbandoned => Ok Abandoned
  | StExpired => Ok Expired
  end.

(** What the engine stores and a worker gives: texts are [str]s, a failure has
    a kind, and a reason fits the length it rides behind. *)
Definition wf_outcome (o : GoalOutcome) : Prop :=
  match o with
  | Cancelled reason _ =>
      is_str reason = true ∧ Z.of_nat (length (as_bytes reason)) ≤ U32_MAX
  | OutcomeFailed f => wf_failure f
  | _ => True
  end.

(** ** Admission answers *)

Inductive GoalAnswer : Type := Accepted (response : bytes) | Refused (failure : Failure).

Definition wrap_goal_accepted (response : bytes) : bytes := as_u8 1 :: response.
Definition wrap_goal_refused (failure : Failure) : bytes := as_u8 0 :: Failure_encode failure.

Definition unwrap_goal_ack (wire : bytes) : result EnvelopeError GoalAnswer :=
  match wire with
  | [] => Err AckEmpty
  | tag :: body =>
      if u8 tag =? 1 then Ok (Accepted body)
      else if u8 tag =? 0 then Refused <$> map_err AckFailure (Failure_decode body)
      else Err (UnknownAck (u8 tag))
  end.

Definition wrap_goal_answer (a : GoalAnswer) : bytes :=
  match a with Accepted response => wrap_goal_accepted response | Refused f => wrap_goal_refused f end.

Definition wf_answer (a : GoalAnswer) : Prop :=
  match a with Accepted _ => True | Refused f => wf_failure f end.

(** ** Cancel states *)

Inductive CancelState : Type := Signalled | AlreadyTerminal | Unknown.

Definition CancelState_tag (s : CancelState) : Z :=
  match s with Signalled => 0 | AlreadyTerminal => 1 | Unknown => 2 end.

Definition CancelState_from_tag (tag : Z) : option CancelState :=
  match tag with 0 => Some Signalled | 1 => Some AlreadyTerminal | 2 => Some Unknown | _ => None end.

(** The cancel answer is a Cap'n Proto message of one [u8] field: the codec is
    a parameter. *)
Class Capnp : Type := {
  encode_state : Z → result string bytes;
  decode_state : bytes → result string Z;
}.

Definition encode_cancel_ack `{Capnp} (s : CancelState) : result string bytes :=
  encode_state (CancelState_tag s).

Inductive CancelAckError : Type := Undecodable (err : string) | UnknownCancelState (tag : Z).

Definition decode_cancel_ack `{Capnp} (payload : bytes) : result CancelAckError CancelState :=
  tag ← map_err Undecodable (decode_state payload);
  ok_or (CancelState_from_tag tag) (UnknownCancelState tag).

(** ** Facts on bytes *)

Lemma u8_range b : 0 ≤ u8 b ≤ 255.
Proof. unfold u8. pose proof (Byte.to_N_bounded b). lia. Qed.

Lemma as_u8_u8 b : as_u8 (u8 b) = b.
Proof.
  unfold as_u8. rewrite Z.mod_small by (pose proof (u8_range b); lia).
  unfold u8. by rewrite N2Z.id, Byte.of_to_N.
Qed.

Lemma u8_as_u8 n : u8 (as_u8 n) = n mod 256.
Proof.
  unfold as_u8, u8. pose proof (Z.mod_pos_bound n 256 ltac:(lia)) as Hn.
  destruct (Byte.of_N (Z.to_N (n mod 256))) as [b|] eqn:E.
  - cbn. rewrite (Byte.to_of_N _ E). lia.
  - apply Byte.of_N_None_iff in E. lia.
Qed.

Lemma u8_as_u8_small n : 0 ≤ n ≤ 255 → u8 (as_u8 n) = n.
Proof. intros. rewrite u8_as_u8. apply Z.mod_small. lia. Qed.

Lemma u8_inj a b : u8 a = u8 b → a = b.
Proof. intros H. by rewrite <-(as_u8_u8 a), H, as_u8_u8. Qed.

(** Reading back a big-endian [u32]. *)
Lemma from_be_bytes_put_u32 n : 0 ≤ n ≤ U32_MAX → from_be_bytes (put_u32 n) = n.
Proof.
  unfold U32_MAX. intros Hn. unfold from_be_bytes, put_u32. cbn [fold_left].
  rewrite !u8_as_u8. Z.div_mod_to_equations. lia.
Qed.

Lemma put_u32_from_be_bytes a b c d : put_u32 (from_be_bytes [a; b; c; d]) = [a; b; c; d].
Proof.
  unfold put_u32, from_be_bytes. cbn [fold_left].
  pose proof (u8_range a). pose proof (u8_range b). pose proof (u8_range c). pose proof (u8_range d).
  repeat f_equal; apply u8_inj; rewrite u8_as_u8; Z.div_mod_to_equations; lia.
Qed.

Lemma from_be_bytes_range a b c d : 0 ≤ from_be_bytes [a; b; c; d] ≤ U32_MAX.
Proof.
  unfold from_be_bytes, U32_MAX. cbn [fold_left].
  pose proof (u8_range a). pose proof (u8_range b). pose proof (u8_range c). pose proof (u8_range d).
  lia.
Qed.

Lemma from_utf8_Some l s : from_utf8 l = Some s ↔ is_str s = true ∧ as_bytes s = l.
Proof.
  unfold from_utf8, is_str, as_bytes. destruct (is_utf8 l) eqn:E; split.
  - intros [= <-]. by rewrite String.list_byte_of_string_of_list_byte.
  - intros [_ <-]. by rewrite String.string_of_list_byte_of_string.
  - done.
  - intros [Hs <-]. congruence.
Qed.

Lemma from_utf8_str s : is_str s = true → from_utf8 (as_bytes s) = Some s.
Proof. intros. by apply from_utf8_Some. Qed.

Lemma is_utf8_ascii l : forallb (between 0 127) l = true → is_utf8 l = true.
Proof.
  induction l as [|b l IH]; [done|]. cbn [forallb is_utf8].
  intros [-> Hl]%andb_true_iff. by apply IH.
Qed.

Lemma as_bytes_nil s : as_bytes s = [] ↔ s = "".
Proof. unfold as_bytes. destruct s; cbn; split; congruence. Qed.

Lemma length_as_bytes s : length (as_bytes s) = length (chars s).
Proof. unfold as_bytes, String.list_byte_of_string. apply length_map. Qed.

(** A text behind a length of one byte. *)
Definition field (s : string) : bytes := as_u8 (Z.of_nat (length (as_bytes s))) :: as_bytes s.

Lemma field_read first rest s :
  (Z.to_nat (u8 first) ≤ length rest)%nat →
  from_utf8 (take (Z.to_nat (u8 first)) rest) = Some s ↔
  is_str s = true ∧ length (as_bytes s) = Z.to_nat (u8 first) ∧
  first :: rest = field s ++ drop (Z.to_nat (u8 first)) rest.
Proof.
  intros Hlen. rewrite from_utf8_Some. unfold field. split.
  - intros [Hs Hb]. rewrite Hb, length_take, Nat.min_l by done. split_and!; [done..|].
    cbn. by rewrite Z2Nat.id, as_u8_u8, take_drop by apply u8_range.
  - intros (Hs & Hl & [= _ Hr]). split; [done|]. rewrite Hr, <-Hl at 1. by rewrite take_app_length.
Qed.

(** A decoder finds the field an encoder wrote. *)
Lemma field_written s :
  (length (as_bytes s) ≤ U8_MAX)%nat →
  Z.to_nat (u8 (as_u8 (Z.of_nat (length (as_bytes s))))) = length (as_bytes s).
Proof. unfold U8_MAX. intros Hs. rewrite u8_as_u8_small by lia. lia. Qed.

Lemma field_head s rest :
  (length (as_bytes s) ≤ U8_MAX)%nat →
  Z.to_nat (u8 (as_u8 (Z.of_nat (length (as_bytes s))))) = length (as_bytes s) ∧
  take (length (as_bytes s)) (as_bytes s ++ rest) = as_bytes s ∧
  drop (length (as_bytes s)) (as_bytes s ++ rest) = rest.
Proof.
  intros Hs. split; [by apply field_written|]. by rewrite take_app_length, drop_app_length.
Qed.

(** ** Failures *)

Lemma ascii_is_str s : (∀ c, In c (chars s) → byte_val c ≤ 127) → is_str s = true.
Proof.
  intros Hall. unfold is_str, as_bytes, String.list_byte_of_string. apply is_utf8_ascii.
  rewrite forallb_forall. intros b Hb. apply in_map_iff in Hb as (c & <- & Hc). specialize (Hall c Hc).
  unfold between, u8. unfold byte_val in Hall.
  assert (Hv : Byte.to_N (Ascii.byte_of_ascii c) = Ascii.N_of_ascii c)
    by (apply Byte.to_of_N; symmetry; apply Ascii.byte_of_ascii_via_N).
  rewrite Hv. unfold Ascii.nat_of_ascii in Hall. rewrite andb_true_iff, !Z.leb_le. lia.
Qed.

(** A name that a failure kind may have is short and ASCII. *)
Lemma word_name_ascii name :
  word_name_problem name = None →
  is_str name = true ∧ (1 ≤ length (as_bytes name) ≤ 64)%nat.
Proof.
  unfold word_name_problem. repeat case_match; try done. intros _.
  destruct (forallb _ (chars name)) eqn:Hall; [|done].
  rewrite length_as_bytes. split.
  - apply ascii_is_str. rewrite forallb_forall in Hall. intros c Hc. specialize (Hall c Hc).
    unfold is_ascii_lowercase, is_ascii_digit, is_underscore in Hall.
    repeat rewrite orb_true_iff in Hall. rewrite !andb_true_iff, ?Z.leb_le, ?Z.eqb_eq in *. lia.
  - destruct name; [done|]. cbn [chars length] in *. apply Nat.ltb_ge in H0.
    unfold MAX_WORD_NAME_LEN in H0. cbn [chars length] in *. lia.
Qed.

Lemma Failure_wire_exact wire f :
  Failure_decode wire = Ok f ↔ wf_failure f ∧ wire = Failure_encode f.
Proof.
  destruct wire as [|first rest]; [by split; [|intros [_ ?]]|].
  unfold Failure_decode, FailureKindName_parse, get_range. cbn [head ok_or mbind result_bind drop skipn].
  set (n := Z.to_nat (u8 first)). cbn [length Nat.leb andb Nat.add Nat.sub drop skipn].
  rewrite Nat.sub_0_r, drop_0. split.
  - destruct (n <=? length rest)%nat eqn:Hn; [|done]. apply Nat.leb_le in Hn. cbn [ok_or mbind result_bind].
    destruct (from_utf8 (take n rest)) as [kind|] eqn:Hk; [|done]. cbn [ok_or mbind result_bind].
    destruct (word_name_problem kind) eqn:Hw; [done|]. cbn [map_err mbind result_bind].
    destruct (from_utf8 (drop n rest)) as [message|] eqn:Hm; [|done]. intros [= <-].
    apply field_read in Hk as (_ & _ & Hr); [|done]. apply from_utf8_Some in Hm as [Hs Hd].
    split; [done|]. rewrite Hr. unfold Failure_encode, field. cbn. fold n. by rewrite Hd.
  - intros [[Hw Hs] [= -> ->]]. destruct (word_name_ascii _ Hw) as [Ha Hl].
    destruct (field_head (failure_kind f) (as_bytes (failure_message f))) as (Hn & Ht & Hd);
      [unfold U8_MAX; lia|].
    subst n. rewrite Hn, length_app.
    rewrite (proj2 (Nat.leb_le _ _)) by lia. cbn [ok_or mbind result_bind].
    rewrite Ht, Hd, !from_utf8_str by done. cbn [ok_or mbind result_bind]. rewrite Hw.
    by destruct f.
Qed.

(** ** Goal requests *)

Lemma split_goal_envelope_exact wire goal_id body :
  split_goal_envelope wire = Ok (goal_id, body) ↔
  is_str goal_id = true ∧ wrap_goal_payload goal_id body = Ok wire.
Proof.
  destruct wire as [|first rest].
  { split; [done|]. intros [_ Hw]. unfold wrap_goal_payload in Hw. repeat case_match; done. }
  unfold split_goal_envelope, unwrap_goal_payload, wrap_goal_payload.
  cbn [head ok_or mbind result_bind length drop skipn]. set (n := Z.to_nat (u8 first)).
  cbn [Nat.add Nat.sub drop skipn]. rewrite Nat.sub_0_r, drop_0. split.
  - destruct (n =? 0)%nat eqn:H0; [done|]. apply Nat.eqb_neq in H0.
    destruct (S (length rest) <? S n)%nat eqn:Hn; [done|]. apply Nat.ltb_ge in Hn.
    destruct (from_utf8 (take n rest)) as [id|] eqn:Hid; [|done]. cbn [ok_or mbind result_bind].
    apply field_read in Hid as (Hs & Hl & Hr); [|lia]. fold n in Hl, Hr.
    intros [= <- <-]. split; [done|].
    rewrite bool_decide_false by (intros E; rewrite E in Hl; cbn in Hl; lia).
    rewrite (proj2 (Nat.ltb_ge _ _)) by (pose proof (u8_range first); unfold U8_MAX; lia).
    rewrite length_drop, Hr. unfold field. cbn [app]. do 2 f_equal.
    replace (S (length rest) - (length rest - n))%nat with (S n) by lia.
    cbn [drop skipn]. by rewrite drop_app_length'.
  - intros [Hs Hw]. case_bool_decide as He; [done|].
    destruct (U8_MAX <? length (as_bytes goal_id))%nat eqn:Hl; [done|]. apply Nat.ltb_ge in Hl.
    injection Hw as <- <-. destruct (field_head goal_id body Hl) as (Hn & Ht & Hd).
    subst n. rewrite Hn. destruct (as_bytes goal_id) as [|b id] eqn:Eid; [done|]. rewrite <-Eid in *.
    rewrite (proj2 (Nat.eqb_neq _ _)) by (rewrite Eid; cbn; lia).
    rewrite length_app, (proj2 (Nat.ltb_ge _ _)) by lia.
    rewrite Ht, from_utf8_str by done. cbn [ok_or mbind result_bind].
    rewrite Hd. replace (S _ - length body)%nat with (S (length (as_bytes goal_id))) by lia.
    cbn [drop]. by rewrite Hd.
Qed.

(** A provider reads a goal request exactly as its client wrote it: every request
    a client can wrap is read back unchanged, and every other wire is refused. *)
Lemma split_goal_request_exact wire goal_id generation payload :
  split_goal_request wire = Ok (mkGoalRequestEnvelope goal_id generation payload) ↔
  is_str goal_id = true ∧ is_str generation = true ∧
  wrap_goal_request goal_id generation payload = Ok wire.
Proof.
  unfold split_goal_request, wrap_goal_request. rewrite result_bind_ok. split.
  - intros ([id body] & Hsplit & Hb). apply split_goal_envelope_exact in Hsplit as [Hid Hw].
    destruct body as [|first rest]; [done|]. cbn [head ok_or mbind result_bind drop skipn] in Hb.
    set (n := Z.to_nat (u8 first)) in Hb. cbn [Nat.add Nat.sub length drop skipn] in Hb.
    rewrite Nat.sub_0_r, drop_0 in Hb.
    destruct (n =? 0)%nat eqn:H0; [done|]. apply Nat.eqb_neq in H0.
    destruct (S (length rest) <? S n)%nat eqn:Hn; [done|]. apply Nat.ltb_ge in Hn.
    cbn [orb] in Hb. destruct (from_utf8 (take n rest)) as [g|] eqn:Hg; [|done].
    cbn [ok_or mbind result_bind] in Hb. injection Hb as -> -> <-.
    apply field_read in Hg as (Hs & Hl & Hr); [|lia]. fold n in Hl, Hr. split; [done|]. split; [done|].
    rewrite bool_decide_false by (intros E; rewrite E in Hl; cbn in Hl; lia).
    rewrite (proj2 (Nat.ltb_ge _ _)) by (pose proof (u8_range first); unfold U8_MAX; lia).
    rewrite <-Hw, Hr. done.
  - intros (Hid & Hg & Hw). case_bool_decide as He; [done|]. cbn [orb] in Hw.
    destruct (U8_MAX <? length (as_bytes generation))%nat eqn:Hl; [done|]. apply Nat.ltb_ge in Hl.
    exists (goal_id, as_u8 (Z.of_nat (length (as_bytes generation))) :: as_bytes generation ++ payload).
    split; [by apply split_goal_envelope_exact|].
    destruct (field_head generation payload Hl) as (Hn & Ht & Hd).
    cbn [head ok_or mbind result_bind drop skipn]. rewrite Hn. cbn [Nat.add Nat.sub length drop skipn].
    rewrite Nat.sub_0_r, drop_0, (proj2 (Nat.eqb_neq _ _)) by (by destruct (as_bytes generation)).
    rewrite length_app, (proj2 (Nat.ltb_ge _ _)) by lia. cbn [orb].
    rewrite Ht, from_utf8_str by done. cbn. by rewrite Hd.
Qed.

(** What a client reads on the goal service is the answer the provider gave. *)
Lemma goal_ack_wire_exact wire a :
  unwrap_goal_ack wire = Ok a ↔ wf_answer a ∧ wire = wrap_goal_answer a.
Proof.
  destruct wire as [|tag body]; [by split; [|destruct a; intros [_ ?]]|]. cbn [unwrap_goal_ack].
  split.
  - destruct (u8 tag =? 1) eqn:H1; [|destruct (u8 tag =? 0) eqn:H0; [|done]]; apply Z.eqb_eq in H1 || apply Z.eqb_eq in H0.
    + intros [= <-]. split; [done|]. cbn. unfold wrap_goal_accepted. by rewrite <-H1, as_u8_u8.
    + destruct (Failure_decode body) as [f|] eqn:Hf; [|done]. intros [= <-].
      apply Failure_wire_exact in Hf as [Hf ->]. split; [done|]. cbn. unfold wrap_goal_refused.
      by rewrite <-H0, as_u8_u8.
  - intros [Ha Hw]. destruct a as [response|f]; cbn in Hw; injection Hw as -> ->.
    + by rewrite u8_as_u8_small by lia.
    + rewrite u8_as_u8_small by lia. cbn [Z.eqb].
      rewrite (proj2 (Failure_wire_exact _ f)) by done. done.
Qed.

(** ** Results *)

Lemma ResultStatus_tag_exact tag s : ResultStatus_from_tag tag = Some s ↔ tag = ResultStatus_tag s.
Proof.
  split; [|intros ->; by destruct s].
  unfold ResultStatus_from_tag. destruct tag as [|p|p]; [by intros [= <-]| |done].
  do 3 (try destruct p as [p|p|]; try done); by intros [= <-].
Qed.

(** The reason of a cancelled result: a length of four bytes, and that many. *)
Lemma reason_exact body reason result :
  (len ← ok_or (get_range 0 4 body) ReasonLengthMissing;
   let reason_len := Z.to_nat (from_be_bytes len) in
   reason ← ok_or (get_range 4 (4 + reason_len) body) (ReasonTooShort reason_len);
   reason ← ok_or (from_utf8 reason) ReasonNotUtf8;
   Ok (Cancelled reason (drop (4 + reason_len) body))) = Ok (Cancelled reason result) ↔
  wf_outcome (Cancelled reason result) ∧
  body = put_u32 (Z.of_nat (length (as_bytes reason))) ++ as_bytes reason ++ result.
Proof.
  cbn zeta. unfold wf_outcome. split.
  - destruct body as [|a [|b [|c [|d body]]]]; try done.
    unfold get_range. cbn [length Nat.leb andb Nat.sub Nat.add take firstn drop skipn ok_or mbind result_bind].
    pose proof (from_be_bytes_range a b c d) as Hrange. rewrite take_0.
    set (n := Z.to_nat (from_be_bytes [a; b; c; d])). rewrite drop_0, Nat.sub_0_r.
    destruct (n <=? length body)%nat eqn:Hn; [|done]. apply Nat.leb_le in Hn. cbn [ok_or mbind result_bind].
    destruct (from_utf8 (take n body)) as [r|] eqn:Hr; [|done]. cbn [ok_or mbind result_bind].
    intros [= -> <-]. apply from_utf8_Some in Hr as [Hs Hb].
    assert (Hl : Z.of_nat (length (as_bytes reason)) = from_be_bytes [a; b; c; d])
      by (rewrite Hb, length_take; lia).
    rewrite Hl. split; [split; [done|lia]|]. rewrite put_u32_from_be_bytes. cbn. rewrite Hb.
    by rewrite take_drop.
  - intros [[Hs Hl] ->]. set (n := length (as_bytes reason)) in *.
    assert (Hput : length (put_u32 (Z.of_nat n)) = 4%nat) by done.
    assert (Hbe : Z.to_nat (from_be_bytes (put_u32 (Z.of_nat n))) = n)
      by (rewrite from_be_bytes_put_u32 by lia; lia).
    unfold get_range. rewrite drop_0, take_app_length' by done. rewrite length_app, Hput.
    cbn [Nat.leb Nat.add andb ok_or mbind result_bind]. rewrite Hbe.
    rewrite length_app, (proj2 (Nat.leb_le n _)) by lia. cbn [ok_or mbind result_bind].
    replace (S (S (S (S n))) - 4)%nat with n by lia.
    rewrite (drop_app_length' (put_u32 (Z.of_nat n)) _ 4) by done.
    rewrite take_app_length' by done. rewrite from_utf8_str by done. cbn [ok_or mbind result_bind].
    do 2 f_equal. change (S (S (S (S n)))) with (4 + n)%nat. rewrite <-drop_drop.
    rewrite (drop_app_length' (put_u32 (Z.of_nat n)) _ 4) by done. by rewrite drop_app_length'.
Qed.

Lemma u8_status s : u8 (as_u8 (ResultStatus_tag s)) = ResultStatus_tag s.
Proof. by destruct s. Qed.

(** C22: A client reads the result of a goal exactly as the provider ended it: a
    wire decodes to an outcome if and only if the outcome is one a worker can
    give (texts, a failure kind that has a name, a reason of at most [u32::MAX]
    bytes) and the wire is what wrapping it gives. Only an abandoned or expired
    outcome, which has no body, ignores bytes after it. *)
Theorem result_outcome_wire_exact wire o :
  unwrap_result_outcome wire = Ok o ↔
  wf_outcome o ∧
  ∃ rest, wire = wrap_result_outcome o ++ rest ∧ (rest = [] ∨ o = Abandoned ∨ o = Expired).
Proof.
  unfold unwrap_result_outcome. split.
  - destruct wire as [|tag body]; [done|]. cbn [head ok_or mbind result_bind].
    destruct (ResultStatus_from_tag (u8 tag)) as [s|] eqn:Hs; [|done]. cbn [ok_or mbind result_bind].
    apply ResultStatus_tag_exact in Hs. cbn [drop skipn]. rewrite drop_0.
    assert (Ht : tag = as_u8 (ResultStatus_tag s)) by (by rewrite <-Hs, as_u8_u8). clear Hs. subst tag.
    destruct s; intros Ho.
    + injection Ho as <-. split; [done|]. exists []. rewrite app_nil_r. auto.
    + destruct o; try (repeat (destruct (ok_or _ _); cbn in Ho; try done); fail).
      apply reason_exact in Ho as [Hwf ->]. split; [done|]. exists []. rewrite app_nil_r. auto.
    + injection Ho as <-. split; [done|]. exists body. auto.
    + injection Ho as <-. split; [done|]. exists body. auto.
    + destruct (Failure_decode body) as [f|] eqn:Hf; [|done]. injection Ho as <-.
      apply Failure_wire_exact in Hf as [Hf ->]. split; [done|]. exists []. rewrite app_nil_r. auto.
  - intros (Hwf & rest & -> & Hrest). unfold wrap_result_outcome.
    cbn [app head ok_or mbind result_bind drop skipn]. rewrite drop_0, u8_status.
    rewrite (proj2 (ResultStatus_tag_exact _ (outcome_status o))) by done.
    cbn [ok_or mbind result_bind]. destruct o as [r|reason r|f| |]; cbn [outcome_status];
      try (destruct Hrest as [->|[[=]|[=]]]; rewrite app_nil_r).
    + done.
    + by apply reason_exact.
    + by rewrite (proj2 (Failure_wire_exact _ f)).
    + done.
    + done.
Qed.
