(* ===== verification/ActionEngine.v ===== *)
(** * The goal engine of an action provider

    The concurrent-action engine of [peppylib-rs/src/messaging/actions.rs]:
    goals are registered by [accept], cancelled and polled by clients, ended by
    their workers, and evicted by a sweeper. Its tables are shared by tasks
    that run on any thread, each behind a lock of its own.

    The operations here are the critical sections of those tasks. An [Action]
    is one step of one task, [act] does it, and a run of the engine is a list
    of actions: every interleaving of the tasks. A task that holds a lock while
    it takes another, as the result loop holds the parked polls while it reads
    the registry, keeps the others out until it lets go ([pending_held],
    [early_held]). A critical section on one slot whose lock nobody keeps
    across a step is one action. The steps merged into one action are those
    that commute with every step of another task between them.

    A slot is an address in a table of slots, as the [Arc]s of a [GoalSlot] are
    shared by the registry, the contexts and the tasks. A responder is a
    number; it is in one place at a time, as a [ServiceResponder] is not
    copied. Times are read from a clock that never goes back. *)

From S2P Require Import Prelude Names ActionWire.
#[local] Open Scope Z_scope.

(** ** Callers and senders *)

Inductive CallerKind : Type := CommandLine | DaemonCaller | InstanceCaller.

Record VerifiedCaller : Type := mkVerifiedCaller {
  vc_core_node : string;
  vc_instance_id : string;
  vc_kind : CallerKind;
}.

(** A process that sends goals. *)
Record ClientPresence : Type := mkClientPresence {
  cp_core_node : string;
  cp_instance_id : string;
  cp_generation : string;
}.

#[export] Instance CallerKind_eq_dec : EqDecision CallerKind.
Proof. solve_decision. Defined.
#[export] Instance CallerKind_countable : Countable CallerKind.
Proof.
  refine (inj_countable'
    (λ k, match k with CommandLine => None | DaemonCaller => Some false | InstanceCaller => Some true end)
    (λ o, match o with None => CommandLine | Some false => DaemonCaller | Some true => InstanceCaller end) _).
  by intros [].
Defined.

#[export] Instance VerifiedCaller_eq_dec : EqDecision VerifiedCaller.
Proof. solve_decision. Defined.
#[export] Instance VerifiedCaller_countable : Countable VerifiedCaller.
Proof.
  refine (inj_countable' (λ c, (vc_core_node c, vc_instance_id c, vc_kind c))
    (λ '(a, b, k), mkVerifiedCaller a b k) _).
  by intros [].
Defined.

#[export] Instance ClientPresence_eq_dec : EqDecision ClientPresence.
Proof. solve_decision. Defined.
#[export] Instance ClientPresence_countable : Countable ClientPresence.
Proof.
  refine (inj_countable' (λ c, (cp_core_node c, cp_instance_id c, cp_generation c))
    (λ '(a, b, g), mkClientPresence a b g) _).
  by intros [].
Defined.

(** ** Segments of a key expression *)

Inductive SegmentError : Type :=
| SegmentEmpty
| ContainsSlash (s : string)
| ContainsAt (s : string)
| ReservedSentinel (s : string).

Definition validate_segment_chars (s : string) : result SegmentError unit :=
  if bool_decide (s = "") then Err SegmentEmpty
  else if existsb (λ c, byte_val c =? 47) (chars s) then Err (ContainsSlash s)
  else if existsb (λ c, byte_val c =? 64) (chars s) then Err (ContainsAt s)
  else Ok tt.

Definition is_reserved_sentinel (s : string) : bool :=
  bool_decide (s = "*") || bool_decide (s = "**") || bool_decide (s = "_").

Definition Segment_try_from (s : string) : result SegmentError string :=
  _ ← validate_segment_chars s;
  if is_reserved_sentinel s then Err (ReservedSentinel s) else Ok s.

(** ** Slots *)

Inductive CancelCause : Type := CausedByCaller | CausedBySenderGone.

Definition CancelCause_reason (c : CancelCause) : string :=
  match c with
  | CausedByCaller => "cancelled by its caller"
  | CausedBySenderGone => "its sender is gone"
  end.

Inductive GoalState : Type :=
| Pending (waiters : list nat)
| Terminal (outcome : GoalOutcome) (evict_at : Z).

(** The tokens linked to the cancel signal are the subject of [CancelLinks]. *)
Record GoalSlot : Type := mkGoalSlot {
  gs_owner : option VerifiedCaller;
  gs_cancelled : bool;
  gs_cause : option CancelCause;
  gs_state : GoalState;
  gs_terminal : bool;
}.

Definition GoalSlot_new (owner : option VerifiedCaller) : GoalSlot :=
  mkGoalSlot owner false None (Pending []) false.

(** [signal_cancel]: the first cause stays. *)
Definition signal_cancel (cause : CancelCause) (s : GoalSlot) : GoalSlot :=
  mkGoalSlot (gs_owner s) true (option_or (gs_cause s) (Some cause)) (gs_state s) (gs_terminal s).

Definition set_gs_state (st : GoalState) (s : GoalSlot) : GoalSlot :=
  mkGoalSlot (gs_owner s) (gs_cancelled s) (gs_cause s) st (gs_terminal s).

Definition may_cancel (s : GoalSlot) (canceller : option VerifiedCaller) : bool :=
  bool_decide (gs_owner s = canceller).

Definition cancel_of_another_client (goal_id : string) : Failure :=
  Failure_of_kind Rejected
    ("the goal `" +:+ goal_id +:+
     "` is a goal of another client: a client cancels its own goals alone").

Definition cancel_slot (goal_id : string) (s : GoalSlot) (canceller : option VerifiedCaller) :
    result Failure CancelState * GoalSlot :=
  if negb (may_cancel s canceller) then (Err (cancel_of_another_client goal_id), s)
  else if gs_terminal s then (Ok AlreadyTerminal, s)
  else (Ok Signalled, signal_cancel CausedByCaller s).

(** ** Tombstones *)

Record ExpiredTombstones : Type := mkTombstones {
  tb_order : list string;
  tb_set : gset string;
  tb_cap : nat;
}.

Definition ExpiredTombstones_new (cap : nat) : ExpiredTombstones := mkTombstones [] ∅ cap.

Fixpoint make_room (cap : nat) (order : list string) (set : gset string) : list string * gset string :=
  match order with
  | [] => ([], set)
  | old :: rest =>
      if (cap <=? length order)%nat then make_room cap rest (set ∖ {[old]}) else (order, set)
  end.

Definition tombstone_insert (goal_id : string) (t : ExpiredTombstones) : ExpiredTombstones :=
  if bool_decide (goal_id ∈ tb_set t) then t
  else
    let '(order, set) := make_room (tb_cap t) (tb_order t) (tb_set t) in
    mkTombstones (order ++ [goal_id]) ({[goal_id]} ∪ set) (tb_cap t).

Definition tombstone_contains (goal_id : string) (t : ExpiredTombstones) : bool :=
  bool_decide (goal_id ∈ tb_set t).

(** ** The tables *)

Record PendingWaiter : Type := mkPendingWaiter {
  pw_responder : nat;
  pw_deadline : Z;
}.

Record SenderWatch : Type := mkSenderWatch {
  sw_goals : gset string;
  sw_task : nat;
}.

Record Tables : Type := mkTables {
  t_now : Z;
  t_slots : gmap nat GoalSlot;
  t_registry : gmap string nat;
  t_pending : gmap string (list PendingWaiter);
  t_early : gmap (string * option VerifiedCaller) Z;
  t_tombs : ExpiredTombstones;
  t_senders : gmap ClientPresence SenderWatch;
}.

Definition with_slots (x : gmap nat GoalSlot) (t : Tables) : Tables :=
  mkTables (t_now t) x (t_registry t) (t_pending t) (t_early t) (t_tombs t) (t_senders t).
Definition with_registry (x : gmap string nat) (t : Tables) : Tables :=
  mkTables (t_now t) (t_slots t) x (t_pending t) (t_early t) (t_tombs t) (t_senders t).
Definition with_pending (x : gmap string (list PendingWaiter)) (t : Tables) : Tables :=
  mkTables (t_now t) (t_slots t) (t_registry t) x (t_early t) (t_tombs t) (t_senders t).
Definition with_early (x : gmap (string * option VerifiedCaller) Z) (t : Tables) : Tables :=
  mkTables (t_now t) (t_slots t) (t_registry t) (t_pending t) x (t_tombs t) (t_senders t).
Definition with_tombs (x : ExpiredTombstones) (t : Tables) : Tables :=
  mkTables (t_now t) (t_slots t) (t_registry t) (t_pending t) (t_early t) x (t_senders t).
Definition with_senders (x : gmap ClientPresence SenderWatch) (t : Tables) : Tables :=
  mkTables (t_now t) (t_slots t) (t_registry t) (t_pending t) (t_early t) (t_tombs t) x.

Definition PENDING_WAITERS_CAP : nat := Z.to_nat 1024.
Definition PENDING_WAITER_MAX_PARK : Z := 30 * NANOS_PER_SEC.
Definition EARLY_CANCELS_CAP : nat := Z.to_nat 1024.
Definition EXPIRED_TOMBSTONE_CAP : nat := Z.to_nat 4096.
Definition RESULT_RETENTION_GRACE : Z := 30 * NANOS_PER_SEC.

Definition update_slot (f : GoalSlot → GoalSlot) (a : nat) (t : Tables) : Tables :=
  with_slots (alter f a (t_slots t)) t.

(** *** Accepting a goal *)

(** The slot of the goal enters the registry, before the goal is answered. *)
Definition accept_register (goal_id : string) (owner : option VerifiedCaller) (a : nat) (t : Tables) :
    Tables :=
  with_registry (<[goal_id := a]> (t_registry t))
    (with_slots (<[a := GoalSlot_new owner]> (t_slots t)) t).

(** A cancel that came first applies now. *)
Definition accept_early (goal_id : string) (owner : option VerifiedCaller) (a : nat) (t : Tables) : Tables :=
  match t_early t !! (goal_id, owner) with
  | Some _ =>
      update_slot (signal_cancel CausedByCaller) a
        (with_early (delete (goal_id, owner) (t_early t)) t)
  | None => t
  end.

(** The polls that came first leave their table ... *)
Definition accept_take (goal_id : string) (t : Tables) : option (list PendingWaiter) * Tables :=
  (t_pending t !! goal_id, with_pending (delete goal_id (t_pending t)) t).

(** ... and wait in the slot, if the goal has not ended. *)
Definition adopt (adopted : list PendingWaiter) (s : GoalSlot) : GoalSlot :=
  match gs_state s with
  | Pending waiters => set_gs_state (Pending (waiters ++ map pw_responder adopted)) s
  | Terminal _ _ => s
  end.

(** [track_sender_goal]; a watch starts at the first goal of a sender. *)
Definition track_sender_goal (sender : ClientPresence) (goal_id : string) (task : nat) (t : Tables) :
    bool * Tables :=
  match t_senders t !! sender with
  | Some watch =>
      (false,
       with_senders
         (<[sender := mkSenderWatch ({[goal_id]} ∪ sw_goals watch) (sw_task watch)]> (t_senders t)) t)
  | None => (true, with_senders (<[sender := mkSenderWatch {[goal_id]} task]> (t_senders t)) t)
  end.

(** *** Ending a goal *)

(** The first to flip the flag ends the goal. *)
Definition terminal_swap (a : nat) (t : Tables) : option (bool * Tables) :=
  s ← t_slots t !! a;
  Some (gs_terminal s,
        update_slot (λ s, mkGoalSlot (gs_owner s) (gs_cancelled s) (gs_cause s) (gs_state s) true) a t).

(** It stores the outcome and takes the polls that wait. *)
Definition terminal_replace (a : nat) (outcome : GoalOutcome) (retention : Z) (t : Tables) :
    option (list nat * Tables) :=
  s ← t_slots t !! a;
  Some (match gs_state s with Pending waiters => waiters | Terminal _ _ => [] end,
        update_slot (set_gs_state (Terminal outcome (t_now t + retention))) a t).

(** *** Cancels and polls *)

(** [remember_early_cancel], under the lock of the early cancels: a slot that
    was registered meanwhile, or else the insertion. *)
Definition remember_insert (goal_id : string) (canceller : option VerifiedCaller) (t : Tables) : Tables :=
  if (size (t_early t) <? EARLY_CANCELS_CAP)%nat
  then with_early (<[(goal_id, canceller) := t_now t + PENDING_WAITER_MAX_PARK]> (t_early t)) t
  else t.

Definition cancel_at (goal_id : string) (a : nat) (canceller : option VerifiedCaller) (t : Tables) :
    option (result Failure CancelState * Tables) :=
  s ← t_slots t !! a;
  let '(r, s) := cancel_slot goal_id s canceller in
  Some (r, with_slots (<[a := s]> (t_slots t)) t).

(** [act_on_slot]: what a poll gets now, or [None] when it waits. *)
Definition act_on_slot (a : nat) (responder : nat) (t : Tables) : option (option bytes * Tables) :=
  s ← t_slots t !! a;
  match gs_state s with
  | Terminal outcome evict_at =>
      Some (Some (wrap_result_outcome (if t_now t <? evict_at then outcome else Expired)), t)
  | Pending waiters =>
      Some (None, with_slots (<[a := set_gs_state (Pending (waiters ++ [responder])) s]> (t_slots t)) t)
  end.

Definition total_pending (m : gmap string (list PendingWaiter)) : nat :=
  sum_list_with (λ e : string * list PendingWaiter, length e.2) (map_to_list m).

(** The end of [route_result_poll]; the flag says whether the poll was parked. *)
Definition park_poll (goal_id : string) (responder : nat) (t : Tables) : bool * Tables :=
  if (PENDING_WAITERS_CAP <=? total_pending (t_pending t))%nat then (false, t)
  else
    (true,
     with_pending
       (<[goal_id := default [] (t_pending t !! goal_id)
                     ++ [mkPendingWaiter responder (t_now t + PENDING_WAITER_MAX_PARK)]]>
          (t_pending t)) t).

(** *** The sweeper *)

(** Terminal slots past their window, but not one whose lock is taken. *)
Definition expired_at (now : Z) (busy : gset nat) (slots : gmap nat GoalSlot) (a : nat) : bool :=
  negb (bool_decide (a ∈ busy)) &&
  match slots !! a with
  | Some s => match gs_state s with Terminal _ evict_at => evict_at <=? now | Pending _ => false end
  | None => false
  end.

(** The first part of [sweep_once]. The registry is a hash map: the order in
    which its ids are listed, for the tombstones, is any. *)
Definition sweep_evict (now : Z) (busy : gset nat) (t : Tables) : gset string * Tables :=
  let expired e := expired_at now busy (t_slots t) (e : string * nat).2 in
  (dom (filter (λ e, expired e = true) (t_registry t)),
   with_registry (filter (λ e, expired e = false) (t_registry t)) t).

Definition sweep_tombstones (ids : list string) (t : Tables) : Tables :=
  with_tombs (fold_left (λ tombs id, tombstone_insert id tombs) ids (t_tombs t)) t.

Definition sweep_pending (now : Z) (t : Tables) : Tables :=
  with_pending
    (omap (λ waiters,
             match retain (λ w, now <? pw_deadline w) waiters with [] => None | l => Some l end)
       (t_pending t)) t.

(** The goals of a sender that did not end. *)
Definition goal_is_live (t : Tables) (goal_id : string) : bool :=
  match t_registry t !! goal_id ≫= λ a, t_slots t !! a with
  | Some s => negb (gs_terminal s)
  | None => false
  end.

Definition live_goals (t : Tables) (goals : gset string) : gset string :=
  filter (λ id, goal_is_live t id = true) goals.

(** [end_idle_sender_watches], and the watches it aborts. *)
Definition end_idle_sender_watches (t : Tables) : gset nat * Tables :=
  let kept := (λ w, mkSenderWatch (live_goals t (sw_goals w)) (sw_task w)) <$> t_senders t in
  (list_to_set
     (map (λ e : ClientPresence * SenderWatch, sw_task e.2)
        (map_to_list (filter (λ e, sw_goals e.2 = ∅) kept))),
   with_senders (filter (λ e, sw_goals e.2 ≠ ∅) kept) t).

Definition sweep_early (now : Z) (t : Tables) : Tables :=
  with_early (filter (λ e, now < e.2) (t_early t)) t.

(** *** Sender watches *)

Definition forget_sender (sender : ClientPresence) (t : Tables) : option SenderWatch * Tables :=
  (t_senders t !! sender, with_senders (delete sender (t_senders t)) t).

Definition sender_slots (goals : gset string) (t : Tables) : list nat :=
  omap (λ id, t_registry t !! id) (elements goals).

Definition signal_gone (a : nat) (t : Tables) : Tables :=
  update_slot (λ s, if gs_terminal s then s else signal_cancel CausedBySenderGone s) a t.

(** ** Tasks *)

(** What a responder sends. A refused request carries the failure of that kind
    whose message names the error. *)
Inductive GoalRequestError : Type :=
| BadEnvelope (err : EnvelopeError)
| BadSegment (err : SegmentError)
| FeedbackNotDeclared.

Inductive Reply : Type :=
| Response (payload : bytes)
| ErrorReply (failure : Failure)
| NotAdmitted (kind : PeppyFailureKind) (err : GoalRequestError).

(** The result loop, from a request to its answer. [RTomb] and [RPark] hold the
    parked polls. *)
Inductive ResultPhase : Type :=
| RIdle
| RRoute (goal_id : string) (responder : nat)
| RLock (goal_id : string) (responder : nat)
| RTomb (goal_id : string) (responder : nat)
| RPark (goal_id : string) (responder : nat)
| RSlot (slot responder : nat)
| RSend (responder : nat) (payload : bytes).

(** The cancel loop. [CRemember] holds the early cancels. *)
Inductive CancelPhase : Type :=
| CIdle
| CLook (goal_id : string) (caller : option VerifiedCaller) (responder : nat)
| CSlot (goal_id : string) (slot : nat) (caller : option VerifiedCaller) (responder : nat)
| CTomb (goal_id : string) (caller : option VerifiedCaller) (responder : nat)
| CEarly (goal_id : string) (caller : option VerifiedCaller) (responder : nat)
| CRemember (goal_id : string) (caller : option VerifiedCaller) (responder : nat)
| CSend (responder : nat) (state : result Failure CancelState).

(** The sweeper, from the time it read. *)
Inductive SweepPhase : Type :=
| SIdle
| STomb (now : Z) (ids : gset string)
| SPending (now : Z)
| SWatches (now : Z)
| SEarly (now : Z).

Record PendingGoal : Type := mkPendingGoal {
  pg_goal_id : string;
  pg_sender : ClientPresence;
  pg_caller : option VerifiedCaller;
  pg_request : bytes;
  pg_feedback : bool;
}.

(** An [accept], after its slot was registered. *)
Inductive AcceptPhase : Type :=
| AEarly
| ATake
| AAdopt (adopted : list PendingWaiter)
| AReply
| AForget
| ATrack.

Record AcceptTask : Type := mkAccept {
  ac_goal : PendingGoal;
  ac_slot : nat;
  ac_response : bytes;
  ac_phase : AcceptPhase;
}.

Record GoalContext : Type := mkGoalContext {
  gc_slot : nat;
  gc_feedback : bool;
  gc_close_on_drop : bool;
}.

(** An ending: [transition_terminal], then the end of the feedback. *)
Inductive DeliverPhase : Type :=
| DSwap
| DReplace
| DWake (waiters : list nat)
| DEnd.

(** [dl_caller] is the context that called it, or [None] for the ending that
    the drop of a context left to the runtime. *)
Record DeliverTask : Type := mkDeliver {
  dl_caller : option nat;
  dl_slot : nat;
  dl_outcome : GoalOutcome;
  dl_feedback : bool;
  dl_phase : DeliverPhase;
}.

(** A sender watch. It awaits in [WOpen], [WWait] and [WGrace], where an abort
    may end it. *)
Inductive WatchPhase : Type :=
| WOpen
| WWait
| WGrace
| WForget
| WGone
| WCollect (goals : gset string)
| WSignal (slots : list nat).

Record WatchTask : Type := mkWatch {
  wt_sender : ClientPresence;
  wt_aborted : bool;
  wt_phase : WatchPhase;
}.

Record Tasks : Type := mkTasks {
  k_result : ResultPhase;
  k_cancel : CancelPhase;
  k_sweeper : SweepPhase;
  k_goals : gmap nat PendingGoal;
  k_accepts : gmap nat AcceptTask;
  k_contexts : gmap nat GoalContext;
  k_delivers : gmap nat DeliverTask;
  k_watches : gmap nat WatchTask;
}.

Definition with_result (x : ResultPhase) (k : Tasks) : Tasks :=
  mkTasks x (k_cancel k) (k_sweeper k) (k_goals k) (k_accepts k) (k_contexts k) (k_delivers k) (k_watches k).
Definition with_cancel (x : CancelPhase) (k : Tasks) : Tasks :=
  mkTasks (k_result k) x (k_sweeper k) (k_goals k) (k_accepts k) (k_contexts k) (k_delivers k) (k_watches k).
Definition with_sweeper (x : SweepPhase) (k : Tasks) : Tasks :=
  mkTasks (k_result k) (k_cancel k) x (k_goals k) (k_accepts k) (k_contexts k) (k_delivers k) (k_watches k).
Definition with_goals (x : gmap nat PendingGoal) (k : Tasks) : Tasks :=
  mkTasks (k_result k) (k_cancel k) (k_sweeper k) x (k_accepts k) (k_contexts k) (k_delivers k) (k_watches k).
Definition with_accepts (x : gmap nat AcceptTask) (k : Tasks) : Tasks :=
  mkTasks (k_result k) (k_cancel k) (k_sweeper k) (k_goals k) x (k_contexts k) (k_delivers k) (k_watches k).
Definition with_contexts (x : gmap nat GoalContext) (k : Tasks) : Tasks :=
  mkTasks (k_result k) (k_cancel k) (k_sweeper k) (k_goals k) (k_accepts k) x (k_delivers k) (k_watches k).
Definition with_delivers (x : gmap nat DeliverTask) (k : Tasks) : Tasks :=
  mkTasks (k_result k) (k_cancel k) (k_sweeper k) (k_goals k) (k_accepts k) (k_contexts k) x (k_watches k).
Definition with_watches (x : gmap nat WatchTask) (k : Tasks) : Tasks :=
  mkTasks (k_result k) (k_cancel k) (k_sweeper k) (k_goals k) (k_accepts k) (k_contexts k) (k_delivers k) x.

(** What happened, for the theorems to speak of: what responders sent, the
    slots whose feedback was ended, those whose ending was dropped before it was
    over, the goal each slot was made for, the cancels that were asked for and
    the senders that were confirmed gone. *)
Record Log : Type := mkLog {
  lg_replies : list (nat * Reply);
  lg_ends : list nat;
  lg_cut : list nat;
  lg_made : gmap nat PendingGoal;
  lg_asked : list (string * option VerifiedCaller);
  lg_gone : list ClientPresence;
}.

(** The engine: its tables and tasks, the numbers it gave out, and the log. *)
Record Engine : Type := mkEngine {
  en_tables : Tables;
  en_tasks : Tasks;
  en_fresh : nat;
  en_log : Log;
}.

(** [ConcurrentAction::start]. *)
Definition engine_start (now : Z) : Engine :=
  mkEngine (mkTables now ∅ ∅ ∅ ∅ (ExpiredTombstones_new EXPIRED_TOMBSTONE_CAP) ∅)
    (mkTasks RIdle CIdle SIdle ∅ ∅ ∅ ∅ ∅) 0
    (mkLog [] [] [] ∅ [] []).

Definition pending_held (e : Engine) : bool :=
  match k_result (en_tasks e) with RTomb _ _ | RPark _ _ => true | _ => false end.

Definition early_held (e : Engine) : bool :=
  match k_cancel (en_tasks e) with CRemember _ _ _ => true | _ => false end.

Definition set_tables (t : Tables) (e : Engine) : Engine :=
  mkEngine t (en_tasks e) (en_fresh e) (en_log e).
Definition set_tasks (k : Tasks) (e : Engine) : Engine :=
  mkEngine (en_tables e) k (en_fresh e) (en_log e).
Definition bump (e : Engine) : Engine :=
  mkEngine (en_tables e) (en_tasks e) (S (en_fresh e)) (en_log e).
Definition set_log (l : Log) (e : Engine) : Engine :=
  mkEngine (en_tables e) (en_tasks e) (en_fresh e) l.

Definition send_reply (responder : nat) (r : Reply) (e : Engine) : Engine :=
  let l := en_log e in
  set_log (mkLog (lg_replies l ++ [(responder, r)]) (lg_ends l) (lg_cut l) (lg_made l) (lg_asked l)
             (lg_gone l)) e.
Definition publish_end (slot : nat) (e : Engine) : Engine :=
  let l := en_log e in
  set_log (mkLog (lg_replies l) (lg_ends l ++ [slot]) (lg_cut l) (lg_made l) (lg_asked l) (lg_gone l)) e.
Definition log_cut (slot : nat) (e : Engine) : Engine :=
  let l := en_log e in
  set_log (mkLog (lg_replies l) (lg_ends l) (lg_cut l ++ [slot]) (lg_made l) (lg_asked l) (lg_gone l)) e.
Definition log_made (slot : nat) (goal : PendingGoal) (e : Engine) : Engine :=
  let l := en_log e in
  set_log (mkLog (lg_replies l) (lg_ends l) (lg_cut l) (<[slot := goal]> (lg_made l)) (lg_asked l)
             (lg_gone l)) e.
Definition log_asked (goal_id : string) (caller : option VerifiedCaller) (e : Engine) : Engine :=
  let l := en_log e in
  set_log (mkLog (lg_replies l) (lg_ends l) (lg_cut l) (lg_made l) (lg_asked l ++ [(goal_id, caller)])
             (lg_gone l)) e.
Definition log_gone (sender : ClientPresence) (e : Engine) : Engine :=
  let l := en_log e in
  set_log (mkLog (lg_replies l) (lg_ends l) (lg_cut l) (lg_made l) (lg_asked l) (lg_gone l ++ [sender])) e.

Definition to_result (x : ResultPhase) (e : Engine) : Engine := set_tasks (with_result x (en_tasks e)) e.
Definition to_cancel (x : CancelPhase) (e : Engine) : Engine := set_tasks (with_cancel x (en_tasks e)) e.
Definition to_sweeper (x : SweepPhase) (e : Engine) : Engine := set_tasks (with_sweeper x (en_tasks e)) e.
Definition put_accept (r : nat) (x : AcceptTask) (e : Engine) : Engine :=
  set_tasks (with_accepts (<[r := x]> (k_accepts (en_tasks e))) (en_tasks e)) e.
Definition drop_accept (r : nat) (e : Engine) : Engine :=
  set_tasks (with_accepts (delete r (k_accepts (en_tasks e))) (en_tasks e)) e.
Definition put_deliver (n : nat) (x : DeliverTask) (e : Engine) : Engine :=
  set_tasks (with_delivers (<[n := x]> (k_delivers (en_tasks e))) (en_tasks e)) e.
Definition drop_deliver (n : nat) (e : Engine) : Engine :=
  set_tasks (with_delivers (delete n (k_delivers (en_tasks e))) (en_tasks e)) e.
Definition put_watch (n : nat) (x : WatchTask) (e : Engine) : Engine :=
  set_tasks (with_watches (<[n := x]> (k_watches (en_tasks e))) (en_tasks e)) e.
Definition drop_watch (n : nat) (e : Engine) : Engine :=
  set_tasks (with_watches (delete n (k_watches (en_tasks e))) (en_tasks e)) e.

(** ** Goal requests *)

(** [parse_goal_request]: the envelope and the sender of a goal request. *)
Definition parse_goal_request (core_node instance_id : string) (wire : bytes) :
    result GoalRequestError (GoalRequestEnvelope * ClientPresence) :=
  request ← map_err BadEnvelope (split_goal_request wire);
  if negb (is_safe_goal_id (gre_goal_id request))
  then Err (BadEnvelope (UnsafeGoalId (gre_goal_id request)))
  else
    core_node ← map_err BadSegment (Segment_try_from core_node);
    instance_id ← map_err BadSegment (Segment_try_from instance_id);
    generation ← map_err BadSegment (Segment_try_from (gre_sender_generation request));
    Ok (request, mkClientPresence core_node instance_id generation).

(** [declare_for_goal]; whether the transport declared the publisher is its
    answer. *)
Definition declare_for_goal (goal_id : string) (declared : bool) : result GoalRequestError unit :=
  if negb (is_safe_goal_id goal_id) then Err (BadEnvelope (UnsafeGoalId goal_id))
  else if declared then Ok tt else Err FeedbackNotDeclared.

(** One round of [recv_next_goal]: a goal, or what its sender is told.
    [feedback] is [None] for an action without feedback. *)
Definition admit_goal (core_node instance_id : string) (caller : option VerifiedCaller)
    (feedback : option bool) (wire : bytes) : result (PeppyFailureKind * GoalRequestError) PendingGoal :=
  '(request, sender) ← map_err (pair Rejected) (parse_goal_request core_node instance_id wire);
  match feedback with
  | None =>
      Ok (mkPendingGoal (gre_goal_id request) sender caller (gre_user_payload request) false)
  | Some declared =>
      _ ← map_err (pair AttemptFailed) (declare_for_goal (gre_goal_id request) declared);
      Ok (mkPendingGoal (gre_goal_id request) sender caller (gre_user_payload request) true)
  end.

(** ** The steps of the tasks *)

Section steps.
Context `{Capnp} (retention : Z).

(** *** The result loop *)

Definition recv_result (payload : bytes) (e : Engine) : option Engine :=
  match k_result (en_tasks e) with
  | RIdle =>
      Some (bump match goal_id_from_request payload with
                 | Ok goal_id => to_result (RRoute goal_id (en_fresh e)) e
                 | Err _ =>
                     send_reply (en_fresh e)
                       (ErrorReply (Failure_of_kind Rejected "malformed result request payload")) e
                 end)
  | _ => None
  end.

Definition step_result (e : Engine) : option Engine :=
  let t := en_tables e in
  match k_result (en_tasks e) with
  | RIdle => None
  | RRoute goal_id r =>
      Some (to_result match t_registry t !! goal_id with Some a => RSlot a r | None => RLock goal_id r end e)
  | RLock goal_id r =>
      Some (to_result match t_registry t !! goal_id with Some a => RSlot a r | None => RTomb goal_id r end e)
  | RTomb goal_id r =>
      Some (to_result (if tombstone_contains goal_id (t_tombs t)
                       then RSend r (wrap_result_outcome Expired) else RPark goal_id r) e)
  | RPark goal_id r =>
      let '(_, t) := park_poll goal_id r t in Some (to_result RIdle (set_tables t e))
  | RSlot a r =>
      '(now, t) ← act_on_slot a r t;
      Some (to_result match now with Some payload => RSend r payload | None => RIdle end (set_tables t e))
  | RSend r payload => Some (to_result RIdle (send_reply r (Response payload) e))
  end.

(** *** The cancel loop *)

Definition recv_cancel (caller : option VerifiedCaller) (payload : bytes) (e : Engine) : option Engine :=
  match k_cancel (en_tasks e) with
  | CIdle =>
      Some (bump match goal_id_from_request payload with
                 | Ok goal_id =>
                     log_asked goal_id caller (to_cancel (CLook goal_id caller (en_fresh e)) e)
                 | Err _ =>
                     send_reply (en_fresh e)
                       (ErrorReply (Failure_of_kind Rejected "malformed cancel request payload")) e
                 end)
  | _ => None
  end.

Definition cancel_reply (state : result Failure CancelState) : Reply :=
  match state with
  | Err refusal => ErrorReply refusal
  | Ok state =>
      match encode_cancel_ack state with
      | Ok payload => Response payload
      | Err err => ErrorReply (Failure_of_kind AttemptFailed err)
      end
  end.

Definition step_cancel (e : Engine) : option Engine :=
  let t := en_tables e in
  match k_cancel (en_tasks e) with
  | CIdle => None
  | CLook goal_id c r =>
      Some (to_cancel match t_registry t !! goal_id with
                      | Some a => CSlot goal_id a c r | None => CTomb goal_id c r end e)
  | CSlot goal_id a c r =>
      '(state, t) ← cancel_at goal_id a c t; Some (to_cancel (CSend r state) (set_tables t e))
  | CTomb goal_id c r =>
      Some (to_cancel (if tombstone_contains goal_id (t_tombs t)
                       then CSend r (Ok AlreadyTerminal) else CEarly goal_id c r) e)
  | CEarly goal_id c r =>
      match t_registry t !! goal_id with
      | Some a => '(state, t) ← cancel_at goal_id a c t; Some (to_cancel (CSend r state) (set_tables t e))
      | None => Some (to_cancel (CRemember goal_id c r) e)
      end
  | CRemember goal_id c r =>
      Some (to_cancel (CSend r (Ok Unknown)) (set_tables (remember_insert goal_id c t) e))
  | CSend r state => Some (to_cancel CIdle (send_reply r (cancel_reply state) e))
  end.

(** *** The sweeper *)

Definition abort_watches (tasks : gset nat) (e : Engine) : Engine :=
  set_tasks
    (with_watches
       (map_imap (λ n w, Some (if bool_decide (n ∈ tasks) then mkWatch (wt_sender w) true (wt_phase w) else w))
          (k_watches (en_tasks e)))
       (en_tasks e)) e.

Definition step_sweeper (busy : gset nat) (order : list string) (e : Engine) : option Engine :=
  let t := en_tables e in
  match k_sweeper (en_tasks e) with
  | SIdle =>
      let '(ids, t') := sweep_evict (t_now t) busy t in
      Some (to_sweeper (if bool_decide (ids = ∅) then SPending (t_now t) else STomb (t_now t) ids)
              (set_tables t' e))
  | STomb now ids =>
      if bool_decide (NoDup order) && bool_decide (list_to_set order = ids)
      then Some (to_sweeper (SPending now) (set_tables (sweep_tombstones order t) e))
      else None
  | SPending now =>
      if pending_held e then None
      else Some (to_sweeper (SWatches now) (set_tables (sweep_pending now t) e))
  | SWatches now =>
      let '(idle, t) := end_idle_sender_watches t in
      Some (to_sweeper (SEarly now) (abort_watches idle (set_tables t e)))
  | SEarly now =>
      if early_held e then None else Some (to_sweeper SIdle (set_tables (sweep_early now t) e))
  end.

(** *** Goals *)

Definition recv_goal (core_node instance_id : string) (caller : option VerifiedCaller)
    (feedback : option bool) (wire : bytes) (e : Engine) : option Engine :=
  let r := en_fresh e in
  Some (bump match admit_goal core_node instance_id caller feedback wire with
             | Ok goal => set_tasks (with_goals (<[r := goal]> (k_goals (en_tasks e))) (en_tasks e)) e
             | Err (kind, err) => send_reply r (NotAdmitted kind err) e
             end).

Definition drop_goal (r : nat) (e : Engine) : Engine :=
  set_tasks (with_goals (delete r (k_goals (en_tasks e))) (en_tasks e)) e.

Definition refuse (r : nat) (failure : Failure) (e : Engine) : option Engine :=
  _ ← k_goals (en_tasks e) !! r;
  Some (send_reply r (Response (wrap_goal_refused failure)) (drop_goal r e)).

Definition accept (r : nat) (response : bytes) (e : Engine) : option Engine :=
  goal ← k_goals (en_tasks e) !! r;
  let a := en_fresh e in
  Some (put_accept r (mkAccept goal a (wrap_goal_accepted response) AEarly)
          (set_tables (accept_register (pg_goal_id goal) (pg_caller goal) a (en_tables e))
             (log_made a goal (bump (drop_goal r e))))).

Definition step_accept (r : nat) (delivered : bool) (e : Engine) : option Engine :=
  ac ← k_accepts (en_tasks e) !! r;
  let t := en_tables e in
  let goal := ac_goal ac in
  let a := ac_slot ac in
  let next phase := put_accept r (mkAccept goal a (ac_response ac) phase) in
  match ac_phase ac with
  | AEarly =>
      if early_held e then None
      else Some (next ATake (set_tables (accept_early (pg_goal_id goal) (pg_caller goal) a t) e))
  | ATake =>
      if pending_held e then None
      else
        let '(adopted, t) := accept_take (pg_goal_id goal) t in
        Some (next match adopted with Some l => AAdopt l | None => AReply end (set_tables t e))
  | AAdopt adopted => Some (next AReply (set_tables (update_slot (adopt adopted) a t) e))
  | AReply =>
      Some (if delivered then next ATrack (send_reply r (Response (ac_response ac)) e) else next AForget e)
  | AForget =>
      Some (drop_accept r
              (set_tables (with_registry (delete (pg_goal_id goal) (t_registry t)) t) e))
  | ATrack =>
      let n := en_fresh e in
      let '(first, t) := track_sender_goal (pg_sender goal) (pg_goal_id goal) n t in
      let e := bump (drop_accept r (set_tables t e)) in
      let e := if first then put_watch n (mkWatch (pg_sender goal) false WOpen) e else e in
      Some (set_tasks
              (with_contexts (<[r := mkGoalContext a (pg_feedback goal) true]> (k_contexts (en_tasks e)))
                 (en_tasks e)) e)
  end.

(** The future of an accept is dropped where it awaits: the lock of the slot, or
    its reply. The polls it holds are dropped with it, the slot stays. *)
Definition drop_accepting (r : nat) (e : Engine) : option Engine :=
  ac ← k_accepts (en_tasks e) !! r;
  match ac_phase ac with
  | AAdopt _ | AReply => Some (drop_accept r e)
  | AEarly | ATake | AForget | ATrack => None
  end.

(** *** Endings *)

(** What a worker ends a goal with: [complete], [fail], [complete_cancelled]. *)
Definition worker_outcome (o : GoalOutcome) : bool :=
  match o with Completed _ | Cancelled _ _ | OutcomeFailed _ => true | Abandoned | Expired => false end.

Definition end_goal (r : nat) (outcome : GoalOutcome) (e : Engine) : option Engine :=
  cx ← k_contexts (en_tasks e) !! r;
  if worker_outcome outcome
  then Some (bump (put_deliver (en_fresh e) (mkDeliver (Some r) (gc_slot cx) outcome (gc_feedback cx) DSwap) e))
  else None.

Definition disarm_close_on_drop (r : nat) (e : Engine) : option Engine :=
  cx ← k_contexts (en_tasks e) !! r;
  Some (set_tasks
          (with_contexts
             (<[r := mkGoalContext (gc_slot cx) (gc_feedback cx) false]> (k_contexts (en_tasks e)))
             (en_tasks e)) e).

(** A context is dropped once no ending borrows it. *)
Definition borrowed (r : nat) (e : Engine) : bool :=
  existsb (λ x : nat * DeliverTask, bool_decide (dl_caller x.2 = Some r)) (map_to_list (k_delivers (en_tasks e))).

Definition drop_context (r : nat) (e : Engine) : option Engine :=
  cx ← k_contexts (en_tasks e) !! r;
  s ← t_slots (en_tables e) !! gc_slot cx;
  if borrowed r e then None
  else
    let e' := set_tasks (with_contexts (delete r (k_contexts (en_tasks e))) (en_tasks e)) e in
    if negb (gc_close_on_drop cx) then Some e'
    else if gs_terminal s then Some e'
    else Some (bump (put_deliver (en_fresh e) (mkDeliver None (gc_slot cx) Abandoned (gc_feedback cx) DSwap) e')).

Definition step_deliver (n : nat) (e : Engine) : option Engine :=
  d ← k_delivers (en_tasks e) !! n;
  let t := en_tables e in
  let a := dl_slot d in
  let next phase := put_deliver n (mkDeliver (dl_caller d) a (dl_outcome d) (dl_feedback d) phase) in
  match dl_phase d with
  | DSwap =>
      '(ended, t) ← terminal_swap a t;
      Some (if ended : bool then drop_deliver n e else next DReplace (set_tables t e))
  | DReplace =>
      '(waiters, t) ← terminal_replace a (dl_outcome d) retention t;
      Some (next (DWake waiters) (set_tables t e))
  | DWake [] => Some (next DEnd e)
  | DWake (w :: waiters) =>
      Some (next (DWake waiters) (send_reply w (Response (wrap_result_outcome (dl_outcome d))) e))
  | DEnd =>
      Some (drop_deliver n (if dl_feedback d then publish_end a e else e))
  end.

(** The future of an ending is dropped where it awaits: the lock of the slot, a
    reply, the end of the feedback. *)
Definition drop_ending (n : nat) (e : Engine) : option Engine :=
  d ← k_delivers (en_tasks e) !! n;
  match dl_caller d, dl_phase d with
  | Some _, (DReplace | DWake (_ :: _) | DEnd) => Some (log_cut (dl_slot d) (drop_deliver n e))
  | _, _ => None
  end.

(** *** Sender watches *)

Inductive WatchEvent : Type :=
| Opened
| OpenFailed
| WatchClosed
| ConfirmedGone (grace : Z)
| Probed (absent : bool).

Definition watch_event (n : nat) (ev : WatchEvent) (e : Engine) : option Engine :=
  w ← k_watches (en_tasks e) !! n;
  let next phase := put_watch n (mkWatch (wt_sender w) (wt_aborted w) phase) in
  match wt_phase w, ev with
  | WOpen, Opened => Some (next WWait e)
  | WOpen, OpenFailed => Some (next WForget e)
  | WWait, WatchClosed => Some (next WForget e)
  | WWait, ConfirmedGone grace =>
      Some (next (if grace =? 0 then WGone else WGrace) (log_gone (wt_sender w) e))
  | WGrace, Probed absent => Some (next (if absent : bool then WGone else WOpen) e)
  | _, _ => None
  end.

Definition step_watch (n : nat) (e : Engine) : option Engine :=
  w ← k_watches (en_tasks e) !! n;
  let t := en_tables e in
  let next phase := put_watch n (mkWatch (wt_sender w) (wt_aborted w) phase) in
  match wt_phase w with
  | WOpen | WWait | WGrace => if wt_aborted w then Some (drop_watch n e) else None
  | WForget => let '(_, t) := forget_sender (wt_sender w) t in Some (drop_watch n (set_tables t e))
  | WGone =>
      let '(watch, t) := forget_sender (wt_sender w) t in
      Some (next (WCollect (default ∅ (sw_goals <$> watch))) (set_tables t e))
  | WCollect goals => Some (next (WSignal (sender_slots goals t)) e)
  | WSignal (a :: slots) => Some (next (WSignal slots) (set_tables (signal_gone a t) e))
  | WSignal [] => Some (drop_watch n e)
  end.

(** *** Runs *)

Inductive Action : Type :=
| Tick (d : Z)
| RecvResult (payload : bytes)
| StepResult
| RecvCancel (caller : option VerifiedCaller) (payload : bytes)
| StepCancel
| StepSweeper (busy : gset nat) (order : list string)
| RecvGoal (core_node instance_id : string) (caller : option VerifiedCaller) (feedback : option bool)
    (wire : bytes)
| DropGoal (r : nat)
| Refuse (r : nat) (failure : Failure)
| Accept (r : nat) (response : bytes)
| StepAccept (r : nat) (delivered : bool)
| DropAccept (r : nat)
| EndGoal (r : nat) (outcome : GoalOutcome)
| Disarm (r : nat)
| DropContext (r : nat)
| StepDeliver (n : nat)
| DropEnding (n : nat)
| OnWatch (n : nat) (ev : WatchEvent)
| StepWatch (n : nat).

Definition tick (d : Z) (e : Engine) : option Engine :=
  let t := en_tables e in
  if d <? 0 then None
  else Some (set_tables
               (mkTables (t_now t + d) (t_slots t) (t_registry t) (t_pending t) (t_early t) (t_tombs t)
                  (t_senders t)) e).

Definition act (x : Action) (e : Engine) : option Engine :=
  match x with
  | Tick d => tick d e
  | RecvResult payload => recv_result payload e
  | StepResult => step_result e
  | RecvCancel caller payload => recv_cancel caller payload e
  | StepCancel => step_cancel e
  | StepSweeper busy order => step_sweeper busy order e
  | RecvGoal core_node instance_id caller feedback wire =>
      recv_goal core_node instance_id caller feedback wire e
  | DropGoal r => _ ← k_goals (en_tasks e) !! r; Some (drop_goal r e)
  | Refuse r failure => refuse r failure e
  | Accept r response => accept r response e
  | StepAccept r delivered => step_accept r delivered e
  | DropAccept r => drop_accepting r e
  | EndGoal r outcome => end_goal r outcome e
  | Disarm r => disarm_close_on_drop r e
  | DropContext r => drop_context r e
  | StepDeliver n => step_deliver n e
  | DropEnding n => drop_ending n e
  | OnWatch n ev => watch_event n ev e
  | StepWatch n => step_watch n e
  end.

(** A run: [None] is an action that was not the turn of its task. *)
Fixpoint run (l : list Action) (e : Engine) : option Engine :=
  match l with [] => Some e | x :: l => e ← act x e; run l e end.

Definition reachable (e : Engine) : Prop := ∃ now l, run l (engine_start now) = Some e.
End steps.
