(* ===== verification/ActionSafety.v ===== *)
(** * What every run of the goal engine keeps

    Invariants of the runs of [ActionEngine], over every interleaving of its
    tasks, and what they give: no poll and no cancel that beats its goal is
    lost, a poll is answered once and with the outcome of its goal, the first
    ending of a goal wins, and only the sender of a goal or its absence cancels
    it. *)

From S2P Require Import Prelude Names ActionWire ActionEngine.
#[local] Open Scope Z_scope.

(** ** Runs *)

Section runs.
Context `{Capnp} (retention : Z).

Lemma run_app l1 l2 e : run retention (l1 ++ l2) e = run retention l1 e ≫= run retention l2.
Proof.
  revert e. induction l1 as [|x l1 IH]; intros e; cbn [app run]; [done|].
  destruct (act retention x e) as [e'|]; [|done]. apply IH.
Qed.

Lemma reachable_ind (P : Engine → Prop) :
  (∀ now, P (engine_start now)) →
  (∀ x e e', reachable retention e → P e → act retention x e = Some e' → P e') →
  ∀ e, reachable retention e → P e.
Proof.
  intros Hstart Hstep e (now & l & Hrun). revert e Hrun.
  induction l as [|x l IH] using rev_ind; intros e Hrun; [by injection Hrun as <-|].
  rewrite run_app in Hrun. destruct (run retention l (engine_start now)) as [e0|] eqn:Hl; [|done].
  cbn in Hrun. destruct (act retention x e0) as [e1|] eqn:Hx; [|done]. injection Hrun as <-.
  apply (Hstep x e0); [by exists now, l|by apply IH|done].
Qed.

Lemma reachable_step x e e' :
  reachable retention e → act retention x e = Some e' → reachable retention e'.
Proof.
  intros (now & l & Hl) Hx. exists now, (l ++ [x]). rewrite run_app, Hl. cbn. by rewrite Hx.
Qed.

Lemma run_ind (P : Engine → Prop) l e e' :
  (∀ x e e', reachable retention e → P e → act retention x e = Some e' → P e') →
  reachable retention e → P e → run retention l e = Some e' → P e' ∧ reachable retention e'.
Proof.
  intros Hstep. revert e. induction l as [|x l IH]; intros e Hr HP Hrun; [by injection Hrun as <-|].
  cbn in Hrun. destruct (act retention x e) as [e1|] eqn:Hx; [|done].
  apply (IH e1); [by eapply reachable_step|by eapply Hstep|done].
Qed.
End runs.

#[local] Opaque PENDING_WAITERS_CAP EARLY_CANCELS_CAP EXPIRED_TOMBSTONE_CAP.

(** The cases of one action. *)
Ltac act_cases H :=
  match type of H with act _ ?x _ = Some _ => destruct x end;
  cbn [act] in H;
  unfold tick, recv_result, step_result, recv_cancel, step_cancel, step_sweeper, recv_goal, refuse, accept,
    step_accept, drop_accepting, end_goal, disarm_close_on_drop, drop_context, step_deliver, drop_ending, watch_event,
    step_watch, terminal_swap, terminal_replace, cancel_at, act_on_slot, accept_take, forget_sender,
    sweep_evict, end_idle_sender_watches, park_poll, remember_insert, accept_early, track_sender_goal in H;
  cbn zeta in H; simplify_option_eq; repeat case_match; simplify_option_eq; repeat case_match; simplify_eq.

(** What an update leaves. *)
Ltac eng_simpl :=
  cbn [en_tables en_tasks en_fresh en_log set_tables set_tasks bump set_log send_reply publish_end log_cut
    log_made log_asked log_gone to_result to_cancel to_sweeper put_accept drop_accept put_deliver
    drop_deliver put_watch drop_watch drop_goal abort_watches
    t_now t_slots t_registry t_pending t_early t_tombs t_senders with_slots with_registry with_pending
    with_early with_tombs with_senders update_slot
    k_result k_cancel k_sweeper k_goals k_accepts k_contexts k_delivers k_watches with_result with_cancel
    with_sweeper with_goals with_accepts with_contexts with_delivers with_watches
    lg_replies lg_ends lg_cut lg_made lg_asked lg_gone
    accept_register sweep_tombstones sweep_pending sweep_early signal_gone fst snd
    ac_goal ac_slot ac_response ac_phase gc_slot gc_feedback gc_close_on_drop dl_caller dl_slot dl_outcome
    dl_feedback dl_phase wt_sender wt_aborted wt_phase] in *.

Ltac learn_hyp p :=
  let T := type of p in
  match goal with H : T |- _ => fail 1 | _ => pose proof p end.

Ltac map_cases :=
  repeat match goal with
  | H : <[_ := _]> _ !! _ = Some _ |- _ => apply lookup_insert_Some in H as [[? ?]|[? H]]
  | H : delete _ _ !! _ = Some _ |- _ => apply lookup_delete_Some in H as [? H]
  | H : omap _ _ !! _ = Some _ |- _ => apply lookup_omap_Some in H as (? & ? & H)
  | H : alter _ _ _ !! _ = Some _ |- _ => apply lookup_alter_Some in H as [(? & ? & H & ?)|[? H]]
  | H : map_imap _ _ !! _ = Some _ |- _ => rewrite map_lookup_imap in H; simplify_option_eq
  | H : filter _ _ !! _ = Some _ |- _ => apply map_lookup_filter_Some in H as [H ?]
  end; simplify_eq.

Section safety.
Context `{Capnp} (retention : Z).
Notation reachable := (reachable retention).
Notation act := (act retention).

(** ** Numbers are given out once *)

Record ids_inv (e : Engine) : Prop := {
  ids_goals r g : k_goals (en_tasks e) !! r = Some g → (r < en_fresh e)%nat ∧ k_accepts (en_tasks e) !! r = None;
  ids_accepts r ac : k_accepts (en_tasks e) !! r = Some ac → (r < en_fresh e)%nat;
  ids_slots a s : t_slots (en_tables e) !! a = Some s → (a < en_fresh e)%nat;
  ids_delivers n d : k_delivers (en_tasks e) !! n = Some d → (n < en_fresh e)%nat;
  ids_watches n w : k_watches (en_tasks e) !! n = Some w → (n < en_fresh e)%nat;
}.

Lemma ids_reachable e : reachable e → ids_inv e.
Proof.
  apply reachable_ind; [by split|]. intros x e1 e2 _ Hinv Hx.
  act_cases Hx; destruct Hinv as [Hg Ha Hs Hd Hw]; split; eng_simpl; intros k v Hk; map_cases.
  all: repeat match goal with
    | H : k_goals _ !! _ = Some _ |- _ => apply Hg in H as [? ?]
    | H : k_accepts _ !! ?r = Some ?ac |- _ => learn_hyp (Ha r ac H)
    | H : t_slots _ !! ?a = Some ?s |- _ => learn_hyp (Hs a s H)
    | H : k_delivers _ !! ?a = Some ?s |- _ => learn_hyp (Hd a s H)
    | H : k_watches _ !! ?a = Some ?s |- _ => learn_hyp (Hw a s H)
    end.
  all: repeat split; rewrite ?lookup_insert_None, ?lookup_delete_None; try (done || lia).
  all: try (split; [done|first [lia|congruence]]); auto.
  apply eq_None_not_Some. intros [ac Hac%Ha]. lia.
Qed.

(** ** Polls that beat their goal *)

(** An accept that is still to take the polls of its goal. *)
Definition to_adopt (e : Engine) (goal_id : string) : Prop :=
  ∃ r ac, k_accepts (en_tasks e) !! r = Some ac ∧ pg_goal_id (ac_goal ac) = goal_id ∧
    (ac_phase ac = AEarly ∨ ac_phase ac = ATake).

Definition parks (e : Engine) (goal_id : string) : Prop :=
  is_Some (t_pending (en_tables e) !! goal_id) ∨
  ∃ r, k_result (en_tasks e) = RTomb goal_id r ∨ k_result (en_tasks e) = RPark goal_id r.

Definition polls_inv (e : Engine) : Prop :=
  ∀ goal_id, parks e goal_id → is_Some (t_registry (en_tables e) !! goal_id) → to_adopt e goal_id.

(** What the steps do to the registry and to the accepts under way. *)
Lemma registry_step x e1 e2 g a :
  act x e1 = Some e2 → t_registry (en_tables e2) !! g = Some a →
  t_registry (en_tables e1) !! g = Some a ∨
  ∃ r response goal, x = Accept r response ∧ k_goals (en_tasks e1) !! r = Some goal ∧
    pg_goal_id goal = g ∧ a = en_fresh e1.
Proof.
  intros Hx Hg. act_cases Hx; eng_simpl; auto; map_cases; auto. right. eauto 8.
Qed.

Lemma stepping_accept x r : (∃ d, x = StepAccept r d) ∨ ∀ d, x ≠ StepAccept r d.
Proof. destruct x as [| | | | | | | | | |r0 d| | | | | | | |]; try (right; congruence). destruct (decide (r0 = r)) as [->|]; [left; eauto|right; congruence]. Qed.

Lemma accepts_step x e1 e2 r ac :
  ids_inv e1 → act x e1 = Some e2 → k_accepts (en_tasks e1) !! r = Some ac →
  k_accepts (en_tasks e2) !! r = Some ac ∨ (∃ d, step_accept r d e1 = Some e2) ∨
  (ac_phase ac ≠ AEarly ∧ ac_phase ac ≠ ATake).
Proof.
  intros Hids Hx Hr.
  destruct (stepping_accept x r) as [[d ->]|Hne]; [eauto|].
  act_cases Hx; eng_simpl; auto; rewrite ?lookup_insert_Some, ?lookup_delete_Some.
  all: destruct (decide (r0 = r)) as [->|]; [|by auto]; try (exfalso; by eapply Hne).
  - exfalso. destruct (ids_goals _ Hids r _ Heqo). congruence.
  - simplify_eq. right. right. split; congruence.
  - simplify_eq. right. right. split; congruence.
Qed.

(** A poll parked before its goal was registered waits for an accept that will
    take it. *)
Lemma polls_reachable e : reachable e → polls_inv e.
Proof.
  apply reachable_ind; [intros now g [[? ?]|(? & [?|?])]; done|].
  intros x e1 e2 Hids%ids_reachable Hinv Hx g Hp2 [a Ha2].
  assert (Hadopt : to_adopt e1 g → to_adopt e2 g).
  { intros (r & ac & Hac & Hid & Hph). destruct (accepts_step x e1 e2 r ac Hids Hx Hac) as [|[[d Hd]|[? ?]]].
    { exists r, ac. done. } 2: { destruct Hph; done. }
    unfold step_accept in Hd. rewrite Hac in Hd. cbn zeta in Hd. cbn [mbind option_bind] in Hd.
    destruct Hph as [Hph|Hph]; rewrite Hph in Hd.
    - destruct (early_held e1); [done|]. injection Hd as <-.
      eexists r, _. eng_simpl. rewrite lookup_insert_eq. split; [done|]. split; [done|]. by right.
    - destruct (pending_held e1) eqn:Hh; [done|]. exfalso. unfold accept_take in Hd.
      injection Hd as <-. destruct Hp2 as [[l Hl]|(r' & Hr')]; eng_simpl.
      + rewrite Hid, lookup_delete_eq in Hl. done.
      + unfold pending_held in Hh. by destruct Hr' as [Hr'|Hr']; rewrite Hr' in Hh. }
  destruct (registry_step x e1 e2 g a Hx Ha2) as [Ha1|(r & response & goal & -> & Hg & <- & ->)].
  2: { cbn [ActionEngine.act] in Hx. unfold accept in Hx. rewrite Hg in Hx. injection Hx as <-.
       eexists r, _. eng_simpl. rewrite lookup_insert_eq. auto. }
  assert (Hp1 : parks e1 g ∨ t_registry (en_tables e1) !! g = None).
  { clear Hadopt Hinv Ha2 Ha1. unfold parks in *. act_cases Hx; eng_simpl; auto.
    all: destruct Hp2 as [[? Hl]|(r' & [Hr'|Hr'])]; simplify_eq; map_cases; eauto 6; congruence. }
  destruct Hp1 as [Hp1|Hn]; [|congruence]. apply Hadopt, Hinv; [done|eauto].
Qed.

(** What the steps do to a slot. *)
Inductive slot_change (x : Action) (e : Engine) (a : nat) (s : GoalSlot) : GoalSlot → Prop :=
| slot_same : slot_change x e a s s
| slot_asked g c r :
    k_cancel (en_tasks e) = CSlot g a c r ∨
      (k_cancel (en_tasks e) = CEarly g c r ∧ t_registry (en_tables e) !! g = Some a) →
    gs_owner s = c → gs_terminal s = false →
    slot_change x e a s (signal_cancel CausedByCaller s)
| slot_asked_first r ac z :
    k_accepts (en_tasks e) !! r = Some ac → ac_phase ac = AEarly → ac_slot ac = a →
    t_early (en_tables e) !! (pg_goal_id (ac_goal ac), pg_caller (ac_goal ac)) = Some z →
    slot_change x e a s (signal_cancel CausedByCaller s)
| slot_gone n w l :
    k_watches (en_tasks e) !! n = Some w → wt_phase w = WSignal (a :: l) → gs_terminal s = false →
    slot_change x e a s (signal_cancel CausedBySenderGone s)
| slot_parked r ws :
    k_result (en_tasks e) = RSlot a r → gs_state s = Pending ws →
    slot_change x e a s (set_gs_state (Pending (ws ++ [r])) s)
| slot_adopted r ac l :
    k_accepts (en_tasks e) !! r = Some ac → ac_phase ac = AAdopt l → ac_slot ac = a →
    slot_change x e a s (adopt l s)
| slot_flipped n d :
    x = StepDeliver n → k_delivers (en_tasks e) !! n = Some d → dl_slot d = a → dl_phase d = DSwap → gs_terminal s = false →
    slot_change x e a s (mkGoalSlot (gs_owner s) (gs_cancelled s) (gs_cause s) (gs_state s) true)
| slot_ended n d :
    x = StepDeliver n → k_delivers (en_tasks e) !! n = Some d → dl_slot d = a → dl_phase d = DReplace →
    slot_change x e a s
      (set_gs_state (Terminal (dl_outcome d) (t_now (en_tables e) + retention)) s).

Lemma cancel_slot_change x e a s g c r state s' :
  k_cancel (en_tasks e) = CSlot g a c r ∨
    (k_cancel (en_tasks e) = CEarly g c r ∧ t_registry (en_tables e) !! g = Some a) →
  cancel_slot g s c = (state, s') → slot_change x e a s s'.
Proof.
  intros Hk. unfold cancel_slot, may_cancel. case_bool_decide as Ho; cbn [negb].
  - destruct (gs_terminal s) eqn:Ht; intros [= _ <-]; [constructor|]. by eapply slot_asked.
  - intros [= _ <-]. constructor.
Qed.

Lemma slot_step x e1 e2 a s :
  ids_inv e1 → act x e1 = Some e2 → t_slots (en_tables e1) !! a = Some s →
  ∃ s', t_slots (en_tables e2) !! a = Some s' ∧ slot_change x e1 a s s'.
Proof.
  intros Hids Hx Hs. assert (Hsame := slot_same x e1 a s).
  act_cases Hx; eng_simpl; eauto.
  all: match goal with
    | |- context [<[?b := _]> _ !! _] =>
        destruct (decide (b = a)) as [Hb|Hb]; [|rewrite lookup_insert_ne by done; eauto];
        rewrite Hb, lookup_insert_eq; eexists; split; [done|]
    | |- context [alter _ ?b _ !! _] =>
        destruct (decide (b = a)) as [Hb|Hb]; [|rewrite lookup_alter_ne by done; eauto];
        rewrite Hb, lookup_alter_eq, Hs; eexists; split; [done|]
    end.
  - subst. simplify_eq. by eapply slot_parked.
  - subst. simplify_eq. eapply cancel_slot_change; [|done]. eauto.
  - subst. simplify_eq. eapply cancel_slot_change; [|done]. eauto.
  - apply (ids_slots _ Hids) in Hs. lia.
  - by eapply slot_asked_first.
  - by eapply slot_adopted.
  - simplify_eq. by eapply slot_flipped.
  - by eapply slot_ended.
  - subst. destruct (gs_terminal s) eqn:Ht; [done|]. by eapply slot_gone.
Qed.

Lemma slot_born x e1 e2 a s :
  act x e1 = Some e2 → t_slots (en_tables e1) !! a = None → t_slots (en_tables e2) !! a = Some s →
  ∃ r response goal, x = Accept r response ∧ a = en_fresh e1 ∧ k_goals (en_tasks e1) !! r = Some goal ∧
    s = GoalSlot_new (pg_caller goal).
Proof.
  intros Hx Hn Hs. act_cases Hx; eng_simpl; try congruence; map_cases; eauto 8.
Qed.

(** Where an accept under way comes from. *)
Lemma accepts_origin x e1 e2 r ac :
  act x e1 = Some e2 → k_accepts (en_tasks e2) !! r = Some ac →
  (∃ ac0, k_accepts (en_tasks e1) !! r = Some ac0 ∧ ac_slot ac0 = ac_slot ac ∧ ac_goal ac0 = ac_goal ac) ∨
  (∃ response, x = Accept r response ∧ k_goals (en_tasks e1) !! r = Some (ac_goal ac) ∧
     ac_slot ac = en_fresh e1 ∧ ac_phase ac = AEarly).
Proof.
  intros Hx Hac. act_cases Hx; eng_simpl; map_cases; eng_simpl; eauto 6.
Qed.

(** ** Every slot a task or a table holds was made for a goal *)

Definition made (e : Engine) (a : nat) (goal : PendingGoal) : Prop :=
  lg_made (en_log e) !! a = Some goal ∧
  ∃ s, t_slots (en_tables e) !! a = Some s ∧ gs_owner s = pg_caller goal.

Definition made_for (e : Engine) (a : nat) (goal_id : string) : Prop :=
  ∃ goal, made e a goal ∧ pg_goal_id goal = goal_id.

Lemma made_step x e1 e2 a goal :
  ids_inv e1 → act x e1 = Some e2 → made e1 a goal → made e2 a goal.
Proof.
  intros Hids Hx (Hm & s & Hs & Ho). destruct (slot_step x e1 e2 a s Hids Hx Hs) as (s' & Hs' & Hch).
  split.
  - apply (ids_slots _ Hids) in Hs. clear Hch. act_cases Hx; eng_simpl; try done.
    rewrite lookup_insert_ne by lia. done.
  - exists s'. split; [done|]. rewrite <-Ho. destruct Hch; try done.
    unfold adopt. by destruct (gs_state s).
Qed.

Lemma accept_made r response e1 e2 goal :
  accept r response e1 = Some e2 → k_goals (en_tasks e1) !! r = Some goal →
  made e2 (en_fresh e1) goal.
Proof.
  unfold accept, made. intros Hx Hg. rewrite Hg in Hx. injection Hx as <-. eng_simpl.
  rewrite !lookup_insert_eq. eauto.
Qed.

Record refs_inv (e : Engine) : Prop := {
  refs_registry g a : t_registry (en_tables e) !! g = Some a → made_for e a g;
  refs_accepts r ac : k_accepts (en_tasks e) !! r = Some ac → made e (ac_slot ac) (ac_goal ac);
  refs_contexts r cx : k_contexts (en_tasks e) !! r = Some cx → ∃ goal, made e (gc_slot cx) goal;
  refs_delivers n d : k_delivers (en_tasks e) !! n = Some d → ∃ goal, made e (dl_slot d) goal;
  refs_cancel g a c r : k_cancel (en_tasks e) = CSlot g a c r → made_for e a g;
  refs_result a r : k_result (en_tasks e) = RSlot a r → ∃ goal, made e a goal;
  refs_watches n w l a :
    k_watches (en_tasks e) !! n = Some w → wt_phase w = WSignal l → a ∈ l → ∃ goal, made e a goal;
}.

Lemma refs_reachable e : reachable e → refs_inv e.
Proof.
  apply reachable_ind; [by split|]. intros x e1 e2 Hids%ids_reachable [Hr Ha Hc Hd Hk Hl Hw] Hx.
  assert (Hmade := λ a goal, made_step x e1 e2 a goal Hids Hx).
  assert (Hfor : ∀ a g, made_for e1 a g → made_for e2 a g)
    by (intros a g (goal & ? & ?); exists goal; auto).
  assert (Hnew := λ r response goal H, accept_made r response e1 e2 goal H).
  split.
  - intros g a Hg. destruct (registry_step x e1 e2 g a Hx Hg) as [|(r & resp & goal & -> & ? & ? & ->)]; [auto|].
    exists goal. eauto.
  - intros r ac Hac.
    destruct (accepts_origin x e1 e2 r ac Hx Hac) as [(ac0 & H0 & <- & <-)|(resp & -> & Hg & -> & _)]; eauto.
  - clear Hfor Hnew. intros r cx Hcx.
    assert (Hex : ∃ goal, made e1 (gc_slot cx) goal) by (act_cases Hx; eng_simpl; map_cases; eng_simpl; eauto).
    destruct Hex; eauto.
  - clear Hfor Hnew. intros n d Hn.
    assert (Hex : ∃ goal, made e1 (dl_slot d) goal) by (act_cases Hx; eng_simpl; map_cases; eng_simpl; eauto).
    destruct Hex; eauto.
  - intros g a c r Hg. apply Hfor. clear Hfor Hmade Hnew. act_cases Hx; eng_simpl; simplify_eq; eauto.
    congruence.
  - intros a r Hg. assert (Hex : ∃ goal, made e1 a goal).
    { clear Hfor Hmade Hnew. act_cases Hx; eng_simpl; simplify_eq; eauto; try congruence.
      all: match goal with H : t_registry _ !! _ = Some _ |- _ => apply Hr in H as (? & ? & ?) end; eauto. }
    destruct Hex; eauto.
  - clear Hfor Hnew. intros n w l a Hn Hph Hin. assert (Hex : ∃ goal, made e1 a goal).
    { clear Hmade. act_cases Hx; eng_simpl; map_cases; eng_simpl; simplify_eq; eauto.
      - apply list_elem_of_omap in Hin as (g & _ & (goal & ? & _)%Hr). eauto.
      - eapply Hw; [eassumption..|by right]. }
    destruct Hex; eauto.
Qed.

(** C20: No reference dangles: in every run, whatever slot the registry, an accept,
    a context, an ending, the cancel loop, the result loop or a sender watch that
    signals holds is in the table of slots, was made for one goal, with the id it
    is held under and the goal the accept is for, and is owned by the caller that
    sent that goal. *)
Theorem slots_well_typed e :
  reachable e →
  let slot_of a goal :=
    lg_made (en_log e) !! a = Some goal ∧
    ∃ s, t_slots (en_tables e) !! a = Some s ∧ gs_owner s = pg_caller goal in
  (∀ g a, t_registry (en_tables e) !! g = Some a → ∃ goal, slot_of a goal ∧ pg_goal_id goal = g) ∧
  (∀ r ac, k_accepts (en_tasks e) !! r = Some ac → slot_of (ac_slot ac) (ac_goal ac)) ∧
  (∀ r cx, k_contexts (en_tasks e) !! r = Some cx → ∃ goal, slot_of (gc_slot cx) goal) ∧
  (∀ n d, k_delivers (en_tasks e) !! n = Some d → ∃ goal, slot_of (dl_slot d) goal) ∧
  (∀ g a c r, k_cancel (en_tasks e) = CSlot g a c r → ∃ goal, slot_of a goal ∧ pg_goal_id goal = g) ∧
  (∀ a r, k_result (en_tasks e) = RSlot a r → ∃ goal, slot_of a goal) ∧
  (∀ n w l a, k_watches (en_tasks e) !! n = Some w → wt_phase w = WSignal l → a ∈ l → ∃ goal, slot_of a goal).
Proof. intros [? ? ? ? ? ? ?]%refs_reachable. by split_and!. Qed.

(** ** What the steps do to the endings under way *)

(** An ending that flipped the flag of its goal. *)
Definition past (d : DeliverTask) : Prop := dl_phase d ≠ DSwap.

Inductive deliver_change (e : Engine) (d : DeliverTask) : DeliverPhase → Prop :=
| deliver_flipped s :
    dl_phase d = DSwap → t_slots (en_tables e) !! dl_slot d = Some s → gs_terminal s = false →
    deliver_change e d DReplace
| deliver_stored s ws :
    dl_phase d = DReplace → t_slots (en_tables e) !! dl_slot d = Some s →
    ws = match gs_state s with Pending ws => ws | Terminal _ _ => [] end →
    deliver_change e d (DWake ws)
| deliver_woke w ws : dl_phase d = DWake (w :: ws) → deliver_change e d (DWake ws)
| deliver_all_awake : dl_phase d = DWake [] → deliver_change e d DEnd.

Lemma delivers_origin x e1 e2 n d :
  act x e1 = Some e2 → k_delivers (en_tasks e2) !! n = Some d →
  k_delivers (en_tasks e1) !! n = Some d ∨
  (x = StepDeliver n ∧ ∃ d0, k_delivers (en_tasks e1) !! n = Some d0 ∧ deliver_change e1 d0 (dl_phase d) ∧
     dl_slot d = dl_slot d0 ∧ dl_outcome d = dl_outcome d0 ∧ dl_feedback d = dl_feedback d0) ∨
  (n = en_fresh e1 ∧ dl_phase d = DSwap).
Proof.
  intros Hx Hn. act_cases Hx; eng_simpl; map_cases; auto; right; left; (split; [done|]);
    eexists; (split; [eassumption|]); eng_simpl; (split; [|done]).
  - by eapply deliver_flipped.
  - eapply deliver_stored; [done..|]. by rewrite H2.
  - eapply deliver_stored; [done..|]. by rewrite H2.
  - by apply deliver_all_awake.
  - by eapply deliver_woke.
Qed.

Lemma delivers_kept x e1 e2 n d :
  ids_inv e1 → act x e1 = Some e2 → k_delivers (en_tasks e1) !! n = Some d →
  k_delivers (en_tasks e2) !! n = Some d ∨ x = StepDeliver n ∨ x = DropEnding n.
Proof.
  intros Hids Hx Hn. act_cases Hx; eng_simpl; auto.
  all: rewrite ?lookup_insert_Some, ?lookup_delete_Some.
  all: match goal with
    | |- context [en_fresh ?e = ?k] => assert (en_fresh e ≠ k) by (apply (ids_delivers _ Hids) in Hn; lia)
    | |- context [?m ≠ ?k] => destruct (decide (m = k)) as [->|]
    end; auto.
Qed.

(** What is logged of an ending: that it ended the feedback, or was cut. *)
Lemma ends_step x e1 e2 :
  act x e1 = Some e2 →
  (lg_ends (en_log e2) = lg_ends (en_log e1) ∧ lg_cut (en_log e2) = lg_cut (en_log e1)) ∨
  (∃ n d, k_delivers (en_tasks e1) !! n = Some d ∧ past d ∧
     k_delivers (en_tasks e2) = delete n (k_delivers (en_tasks e1)) ∧
     t_slots (en_tables e2) = t_slots (en_tables e1) ∧
     ((dl_phase d = DEnd ∧ lg_ends (en_log e2) = lg_ends (en_log e1) ++ [dl_slot d] ∧
       lg_cut (en_log e2) = lg_cut (en_log e1)) ∨
      (lg_ends (en_log e2) = lg_ends (en_log e1) ∧
       lg_cut (en_log e2) = lg_cut (en_log e1) ++ [dl_slot d]))).
Proof.
  intros Hx. unfold past. act_cases Hx; eng_simpl; auto; right; do 2 eexists; eng_simpl;
    (split; [eassumption|]); (split; [congruence|]); auto 8.
Qed.
End safety.
