(* ===== verification/ActionCancel.v ===== *)
(** * Who cancels a goal

    The cancels of the goal engine, over every run of [ActionEngine]: a cancel
    that beats its goal is applied when the goal is accepted, and a goal is
    cancelled only by the caller that sent it or because a sender is gone. *)

From S2P Require Import Prelude Names ActionWire ActionEngine ActionSafety.
#[local] Open Scope Z_scope.
#[local] Opaque PENDING_WAITERS_CAP EARLY_CANCELS_CAP EXPIRED_TOMBSTONE_CAP.

Section cancel.
Context `{Capnp} (retention : Z).
Notation reachable := (reachable retention).
Notation act := (act retention).

(** ** Cancels that beat their goal *)

(** An accept that is still to look for the cancel of its goal. *)
Definition to_cancel_first (e : Engine) (goal_id : string) (caller : option VerifiedCaller) : Prop :=
  ∃ r ac, k_accepts (en_tasks e) !! r = Some ac ∧ pg_goal_id (ac_goal ac) = goal_id ∧
    pg_caller (ac_goal ac) = caller ∧ ac_phase ac = AEarly.

Definition owned (e : Engine) (goal_id : string) (caller : option VerifiedCaller) : Prop :=
  ∃ a s, t_registry (en_tables e) !! goal_id = Some a ∧ t_slots (en_tables e) !! a = Some s ∧
    gs_owner s = caller.

(** A cancel of [caller] that is remembered, or about to be. *)
Definition remembers (e : Engine) (goal_id : string) (caller : option VerifiedCaller) : Prop :=
  is_Some (t_early (en_tables e) !! (goal_id, caller)) ∨
  ∃ r, k_cancel (en_tasks e) = CRemember goal_id caller r.

Definition cancels_inv (e : Engine) : Prop :=
  ∀ goal_id caller, remembers e goal_id caller → owned e goal_id caller → to_cancel_first e goal_id caller.

Lemma cancels_reachable e : reachable e → cancels_inv e.
Proof.
  apply reachable_ind; [intros now g c [[? ?]|(? & ?)]; done|].
  intros x e1 e2 Hr Hinv Hx g c Hp2 (a & s & Ha2 & Hs2 & Ho).
  assert (Hids := ids_reachable retention e1 Hr).
  assert (Hfirst : to_cancel_first e1 g c → to_cancel_first e2 g c).
  { intros (r & ac & Hac & Hid & Hc & Hph).
    destruct (accepts_step retention x e1 e2 r ac Hids Hx Hac) as [|[[d Hd]|[? ?]]]; [by exists r, ac| |done].
    exfalso. unfold step_accept in Hd. rewrite Hac in Hd. cbn [mbind option_bind] in Hd. rewrite Hph in Hd.
    destruct (early_held e1) eqn:Hh; [done|]. injection Hd as <-. unfold accept_early in *.
    rewrite Hid, Hc in *.
    destruct Hp2 as [[z Hz]|(r' & Hr')]; eng_simpl.
    - destruct (t_early (en_tables e1) !! (g, c)) as [z'|] eqn:E; eng_simpl; [|congruence].
      by rewrite lookup_delete_eq in Hz.
    - unfold early_held in Hh. by rewrite Hr' in Hh. }
  destruct (registry_step retention x e1 e2 g a Hx Ha2) as [Ha1|(r & response & goal & -> & Hg & <- & ->)].
  2: { cbn [ActionEngine.act] in Hx. unfold accept in Hx. rewrite Hg in Hx. injection Hx as <-. eng_simpl.
       rewrite lookup_insert_eq in Hs2. injection Hs2 as <-.
       eexists r, _. eng_simpl. rewrite lookup_insert_eq. eauto. }
  assert (Hown : owned e1 g c).
  { destruct (refs_registry _ (refs_reachable retention e1 Hr) g a Ha1) as (goal & (_ & s1 & Hs1 & _) & _).
    exists a, s1. split; [done|]. split; [done|].
    destruct (slot_step retention x e1 e2 a s1 Hids Hx Hs1) as (s' & Hs' & Hch). simplify_eq.
    destruct Hch; try done. unfold adopt. by destruct (gs_state s1). }
  assert (Hp1 : remembers e1 g c ∨ t_registry (en_tables e1) !! g = None).
  { clear Hfirst Hinv Ha2 Ha1 Hown Hs2. unfold remembers in *. act_cases Hx; eng_simpl; auto.
    all: destruct Hp2 as [[? Hl]|(r' & Hr')]; simplify_eq; map_cases; eauto 6; congruence. }
  destruct Hp1 as [Hp1|Hn]; [|congruence]. by apply Hfirst, Hinv.
Qed.

(** ** Who asked *)

Definition asked (e : Engine) (g : string) (c : option VerifiedCaller) : Prop :=
  (g, c) ∈ lg_asked (en_log e).

(** [sender] has a goal of that id. *)
Definition sent (e : Engine) (sender : ClientPresence) (g : string) : Prop :=
  ∃ a goal, made e a goal ∧ pg_goal_id goal = g ∧ pg_sender goal = sender.

Definition gone (e : Engine) (sender : ClientPresence) : Prop := sender ∈ lg_gone (en_log e).

Definition cancel_asks (k : CancelPhase) : option (string * option VerifiedCaller) :=
  match k with
  | CLook g c _ | CSlot g _ c _ | CTomb g c _ | CEarly g c _ | CRemember g c _ => Some (g, c)
  | CIdle | CSend _ _ => None
  end.

Record asked_inv (e : Engine) : Prop := {
  asked_phase g c : cancel_asks (k_cancel (en_tasks e)) = Some (g, c) → asked e g c;
  asked_early g c : is_Some (t_early (en_tables e) !! (g, c)) → asked e g c;
}.

Lemma log_step x e1 e2 :
  act x e1 = Some e2 →
  (∀ g c, asked e1 g c → asked e2 g c) ∧ (∀ s, gone e1 s → gone e2 s).
Proof.
  intros Hx. unfold asked, gone. act_cases Hx; eng_simpl; split; intros; rewrite ?elem_of_app; auto.
Qed.

Lemma asked_reachable e : reachable e → asked_inv e.
Proof.
  apply reachable_ind; [split; [done|by intros ?? [? ?]]|]. intros x e1 e2 _ [Hp He] Hx.
  destruct (log_step x e1 e2 Hx) as [Hmono _]. split.
  - intros g c Hk. unfold asked in *. act_cases Hx; eng_simpl; simplify_eq/=; auto; try congruence.
    + rewrite elem_of_app, list_elem_of_singleton. auto.
    + rewrite H0 in Hk. done.
  - intros g c [z Hz]. unfold asked in *. act_cases Hx; eng_simpl; map_cases; eauto.
Qed.

Lemma sent_step x e1 e2 s g : ids_inv e1 → act x e1 = Some e2 → sent e1 s g → sent e2 s g.
Proof. intros Hids Hx (a & goal & Hm & ? & ?). exists a, goal. split; [by eapply made_step|done]. Qed.

(** The slots a watch signals, and the goals it collects, are of its sender. *)
Definition watch_goals (e : Engine) (w : WatchTask) : Prop :=
  match wt_phase w with
  | WOpen | WWait | WForget => True
  | WGrace | WGone => gone e (wt_sender w)
  | WCollect goals => gone e (wt_sender w) ∧ ∀ g, g ∈ goals → sent e (wt_sender w) g
  | WSignal l =>
      gone e (wt_sender w) ∧ ∀ a, a ∈ l → ∃ g, made_for e a g ∧ sent e (wt_sender w) g
  end.

Record watch_inv (e : Engine) : Prop := {
  watch_senders s w g : t_senders (en_tables e) !! s = Some w → g ∈ sw_goals w → sent e s g;
  watch_tasks n w : k_watches (en_tasks e) !! n = Some w → watch_goals e w;
}.

Lemma watch_goals_mono e1 e2 w :
  (∀ s g, sent e1 s g → sent e2 s g) → (∀ a g, made_for e1 a g → made_for e2 a g) →
  (∀ s, gone e1 s → gone e2 s) → watch_goals e1 w → watch_goals e2 w.
Proof.
  intros Hs Hm Hg. unfold watch_goals. destruct (wt_phase w); try tauto; try apply Hg.
  - naive_solver.
  - intros [? Hl]. split; [auto|]. intros a Ha. destruct (Hl a Ha) as (g & ? & ?). eauto.
Qed.

Lemma watch_reachable e : reachable e → watch_inv e.
Proof.
  apply reachable_ind; [by split|]. intros x e1 e2 Hr [Hs Hw] Hx.
  assert (Hids := ids_reachable retention e1 Hr). assert (Hrefs := refs_reachable retention e1 Hr).
  assert (Hsent := λ s g, sent_step x e1 e2 s g Hids Hx).
  assert (Hmade := λ a goal, made_step retention x e1 e2 a goal Hids Hx).
  assert (Hfor : ∀ a g, made_for e1 a g → made_for e2 a g)
    by (intros a g (goal & ? & ?); exists goal; auto).
  destruct (log_step x e1 e2 Hx) as [_ Hgone]. split.
  - intros s w g Hw2 Hg. apply Hsent. clear Hsent Hmade Hfor Hgone.
    act_cases Hx; eng_simpl; map_cases; eauto.
    1, 2: apply lookup_fmap_Some in Hw2 as (w0 & <- & Hw0); eng_simpl; cbn in Hg;
      unfold live_goals in Hg; apply elem_of_filter in Hg as [_ Hg]; eauto.
    all: cbn in Hg; match goal with H : k_accepts _ !! _ = Some ?ac |- _ =>
      assert (Hnew : sent e1 (pg_sender (ac_goal ac)) (pg_goal_id (ac_goal ac)))
        by (exists (ac_slot ac), (ac_goal ac); split; [by eapply (refs_accepts _ Hrefs)|done]) end; set_solver.
  - intros n w Hn. assert (Hlater := watch_goals_mono e1 e2 w Hsent Hfor Hgone).
    assert (Hcase : watch_goals e1 w ∨ (gone e2 (wt_sender w) ∧ (wt_phase w = WGone ∨ wt_phase w = WGrace))).
    2: { destruct Hcase as [Hc|[Hc [Hp|Hp]]]; [by apply Hlater|..]; unfold watch_goals; by rewrite Hp. }
    clear Hlater Hsent Hmade Hfor.
    act_cases Hx; eng_simpl; map_cases; eauto; try (left; exact I);
      try match goal with H : k_watches _ !! _ = Some _ |- _ => apply Hw in H; unfold watch_goals in H |- * end;
      eng_simpl; repeat match goal with H : wt_phase _ = _ |- _ => rewrite H in * end.
    1, 2: by left.
    1, 2: right; split; [unfold gone; eng_simpl; set_solver|auto].
    + by left.
    + left. split; [done|]. intros g Hg. destruct (t_senders _ !! _) as [w0|] eqn:E; [|set_solver].
      eapply Hs; [exact E|done].
    + left. destruct Heqo as [? Hg]. split; [done|]. unfold sender_slots.
      intros a (g & Hg1 & Hg2)%list_elem_of_omap. apply elem_of_elements in Hg1.
      exists g. split; [by apply (refs_registry _ Hrefs)|auto].
    + left. destruct Heqo as [? Hl]. split; [done|]. intros a Ha. apply Hl. by right.
Qed.

(** Why a slot may have the cause it has. *)
Definition cause_ok (e : Engine) (goal : PendingGoal) (cause : option CancelCause) : Prop :=
  match cause with
  | None => True
  | Some CausedByCaller => asked e (pg_goal_id goal) (pg_caller goal)
  | Some CausedBySenderGone => ∃ s, gone e s ∧ sent e s (pg_goal_id goal)
  end.

Definition causes_inv (e : Engine) : Prop :=
  ∀ a s, t_slots (en_tables e) !! a = Some s →
    gs_cancelled s = opt_is_some (gs_cause s) ∧ ∃ goal, made e a goal ∧ cause_ok e goal (gs_cause s).

Lemma cause_first e goal cause new :
  cause_ok e goal cause → cause_ok e goal (Some new) → cause_ok e goal (option_or cause (Some new)).
Proof. by destruct cause. Qed.

(** What a step adds to the cause of a slot was asked for. *)
Lemma cause_change x e a s s' goal :
  reachable e → made e a goal → slot_change retention x e a s s' →
  cause_ok e goal (gs_cause s) → gs_owner s = pg_caller goal → cause_ok e goal (gs_cause s').
Proof.
  intros Hr Hm Hch Hok Ho. assert (Hasked := asked_reachable e Hr). assert (Hrefs := refs_reachable retention e Hr).
  assert (Hid : ∀ g, made_for e a g → pg_goal_id goal = g).
  { intros g (goal' & [Hm' _] & <-). destruct Hm as [Hm _]. congruence. }
  destruct Hch as [|g c r Hk Hc _|r ac z Hac Hph Ha Hz|n w l Hw Hph _|r ws _ _|r ac l _ _ _|n d _ _ _ _ _|n d _ _ _ _];
    try done.
  - apply cause_first; [done|]. cbn. rewrite <-Ho, Hc. destruct Hk as [Hk|[Hk Hg]].
    + rewrite (Hid g) by (by eapply (refs_cancel _ Hrefs)). apply (asked_phase _ Hasked). by rewrite Hk.
    + rewrite (Hid g) by (by apply (refs_registry _ Hrefs)). apply (asked_phase _ Hasked). by rewrite Hk.
  - apply cause_first; [done|]. cbn. subst a. destruct (refs_accepts _ Hrefs r ac Hac) as [Hm' _].
    destruct Hm as [Hm _]. rewrite Hm in Hm'. injection Hm' as ->. apply (asked_early _ Hasked). eauto.
  - apply cause_first; [done|]. cbn.
    assert (Hg := watch_tasks _ (watch_reachable e Hr) n w Hw). unfold watch_goals in Hg. rewrite Hph in Hg.
    destruct Hg as [Hg Hl]. destruct (Hl a) as (g & Hfor & Hs); [by left|].
    exists (wt_sender w). by rewrite (Hid g Hfor).
  - unfold adopt. by destruct (gs_state s).
Qed.

Lemma causes_reachable e : reachable e → causes_inv e.
Proof.
  apply reachable_ind; [by intros ??|]. intros x e1 e2 Hr Hinv Hx a s2 Hs2.
  assert (Hids := ids_reachable retention e1 Hr). destruct (log_step x e1 e2 Hx) as [Hasked Hgone].
  destruct (t_slots (en_tables e1) !! a) as [s1|] eqn:Hs1.
  - destruct (slot_step retention x e1 e2 a s1 Hids Hx Hs1) as (s' & Hs' & Hch). simplify_eq.
    destruct (Hinv a s1 Hs1) as (Hc & goal & Hm & Hok). split.
    + destruct Hch; cbn; try done; try (by destruct (gs_cause s1)). unfold adopt. by destruct (gs_state s1).
    + exists goal. split; [by eapply made_step|].
      assert (Ho : gs_owner s1 = pg_caller goal) by (destruct Hm as (_ & s0 & ? & ?); congruence).
      assert (Hok' := cause_change x e1 a s1 s2 goal Hr Hm Hch Hok Ho).
      destruct (gs_cause s2) as [[]|]; cbn in *; [by apply Hasked| |done].
      destruct Hok' as (s & ? & ?). exists s. split; [by apply Hgone|by eapply sent_step].
  - destruct (slot_born retention x e1 e2 a s2 Hx Hs1 Hs2) as (r & response & goal & -> & -> & Hg & ->).
    split; [done|]. exists goal. split; [by eapply accept_made|done].
Qed.

(** C17: A goal is cancelled only by its caller or because a sender is gone: in
    every run, a slot that has its cancel signal has a cause, the cause is one
    cancel request of the very caller that sent the goal, for its id, or a
    sender that was confirmed gone and had sent a goal of that id. (An endpoint
    that checks no caller has the same caller, none, for every request: there any
    client cancels any goal.) *)
Theorem cancelled_by_right e a s :
  reachable e → t_slots (en_tables e) !! a = Some s → gs_cancelled s = true →
  ∃ goal cause, lg_made (en_log e) !! a = Some goal ∧ gs_owner s = pg_caller goal ∧
    gs_cause s = Some cause ∧
    match cause with
    | CausedByCaller => (pg_goal_id goal, gs_owner s) ∈ lg_asked (en_log e)
    | CausedBySenderGone =>
        ∃ sender a' goal', sender ∈ lg_gone (en_log e) ∧ lg_made (en_log e) !! a' = Some goal' ∧
          pg_goal_id goal' = pg_goal_id goal ∧ pg_sender goal' = sender
    end.
Proof.
  intros Hr Hs Hc. destruct (causes_reachable e Hr a s Hs) as (Hcause & goal & Hm & Hok).
  assert (Ho : gs_owner s = pg_caller goal) by (destruct Hm as (_ & s0 & ? & ?); congruence).
  destruct (gs_cause s) as [cause|] eqn:E; [|cbn in *; congruence].
  exists goal, cause. split; [apply Hm|]. split; [done|]. split; [done|].
  destruct cause; cbn in Hok; [by rewrite Ho|].
  destruct Hok as (sender & Hg & a' & goal' & [Hm' _] & ? & ?). eauto 8.
Qed.

(** ** How long a cancel is remembered *)

(** The sweeper's time was read before; a remembered cancel is kept for so long. *)
Record times_inv (e : Engine) : Prop := {
  times_sweeper now : k_sweeper (en_tasks e) = SEarly now ∨ k_sweeper (en_tasks e) = SWatches now ∨
    k_sweeper (en_tasks e) = SPending now ∨ (∃ ids, k_sweeper (en_tasks e) = STomb now ids) →
    now ≤ t_now (en_tables e);
  times_early k until : t_early (en_tables e) !! k = Some until → until ≤ t_now (en_tables e) + PENDING_WAITER_MAX_PARK;
}.

Lemma times_reachable e : reachable e → times_inv e.
Proof.
  apply reachable_ind; [split; [naive_solver|done]|]. intros x e1 e2 _ [Hs He] Hx. split.
  - intros now. act_cases Hx; eng_simpl; intros Hk; try (specialize (Hs now Hk); lia).
    all: destruct Hk as [Hk|[Hk|[Hk|[? Hk]]]]; simplify_eq; eauto 8; lia.
  - intros k until. act_cases Hx; eng_simpl; intros Hk; map_cases; try lia; try (specialize (He _ _ Hk); lia).
Qed.

(** A remembered cancel is there until it expires or the goal's accept takes it. *)
Lemma early_kept x e1 e2 g c until :
  reachable e1 → t_early (en_tables e1) !! (g, c) = Some until → act x e1 = Some e2 →
  (∃ until', t_early (en_tables e2) !! (g, c) = Some until' ∧ until ≤ until') ∨
  (until ≤ t_now (en_tables e1) ∧ ∃ busy order, x = StepSweeper busy order) ∨
  (∃ r d ac s, x = StepAccept r d ∧ k_accepts (en_tasks e1) !! r = Some ac ∧ pg_goal_id (ac_goal ac) = g ∧
     pg_caller (ac_goal ac) = c ∧ t_slots (en_tables e2) !! ac_slot ac = Some s ∧ gs_cancelled s = true).
Proof.
  intros Hr Hk Hx. destruct (times_reachable e1 Hr) as [Hs He]. specialize (He _ _ Hk).
  assert (Hrefs := refs_reachable retention e1 Hr).
  act_cases Hx; eng_simpl; try (left; exists until; split; [done|lia]).
  - left. destruct (decide ((goal_id, caller) = (g, c))) as [->|].
    + rewrite lookup_insert_eq. eauto.
    + rewrite lookup_insert_ne by done. exists until. split; [done|lia].
  - assert (now ≤ t_now (en_tables e1)) by eauto. destruct (decide (now < until)); [left|right; left; split; [lia|eauto]].
    exists until. split; [|lia]. by apply map_lookup_filter_Some.
  - assert (now ≤ t_now (en_tables e1)) by eauto. destruct (decide (now < until)); [left|right; left; split; [lia|eauto]].
    exists until. split; [|lia]. by apply map_lookup_filter_Some.
  - destruct (decide ((pg_goal_id (ac_goal H0), pg_caller (ac_goal H0)) = (g, c))) as [E|].
    + right. right. destruct (refs_accepts _ Hrefs _ _ Heqo) as (_ & s & Hsl & _).
      eexists _, _, H0, (signal_cancel CausedByCaller s). rewrite lookup_alter_eq, Hsl. by injection E.
    + left. exists until. rewrite lookup_delete_ne by done. split; [done|lia].
Qed.

(** The accept of a registered goal takes the cancel its caller sent first. *)
Lemma early_taken e g c :
  reachable e → is_Some (t_early (en_tables e) !! (g, c)) → owned e g c →
  ∃ r ac, k_accepts (en_tasks e) !! r = Some ac ∧ pg_goal_id (ac_goal ac) = g ∧
    pg_caller (ac_goal ac) = c ∧ ac_phase ac = AEarly ∧
    (early_held e = false → ∀ d, ∃ e' s,
       act (StepAccept r d) e = Some e' ∧ t_early (en_tables e') !! (g, c) = None ∧
       t_slots (en_tables e') !! ac_slot ac = Some s ∧ gs_cancelled s = true).
Proof.
  intros Hr [z Hz] Hown. destruct (cancels_reachable e Hr g c) as (r & ac & Hac & Hg & Hc & Hph); [left; eauto|done|].
  exists r, ac. do 4 (split; [done|]). intros Hh d.
  destruct (refs_accepts _ (refs_reachable retention e Hr) r ac Hac) as (_ & s & Hs & _).
  cbn [ActionEngine.act]. unfold step_accept, accept_early. rewrite Hac. cbn [mbind option_bind].
  rewrite Hph, Hh, Hg, Hc, Hz. eexists _, (signal_cancel CausedByCaller s). split; [done|]. eng_simpl.
  rewrite lookup_delete_eq, lookup_alter_eq, Hs. done.
Qed.

(** C18: A cancel that beats its goal is remembered and applied. In every run: a
    cancel of a goal that is not registered, and has no tombstone, is remembered,
    where the table has room for it, for thirty seconds; it stays remembered, for
    at least that long, until the sweeper finds it past its time or the accept of
    the goal it names, sent by the same caller, takes it and has the goal's cancel
    signal; and a remembered cancel of the caller of a registered goal is one that
    the goal's accept has still to look for, and then takes. (A cancel is lost
    where the table is full, or where its time is over before the accept looks.) *)
Theorem no_cancel_is_lost e g c :
  reachable e →
  (∀ r, k_cancel (en_tasks e) = CLook g c r → t_registry (en_tables e) !! g = None →
     tombstone_contains g (t_tombs (en_tables e)) = false →
     run retention [StepCancel; StepCancel] e = Some (to_cancel (CEarly g c r) e)) ∧
  (∀ r, k_cancel (en_tasks e) = CEarly g c r → t_registry (en_tables e) !! g = None →
     act StepCancel e = Some (to_cancel (CRemember g c r) e)) ∧
  (∀ r, k_cancel (en_tasks e) = CRemember g c r →
     ∃ e', act StepCancel e = Some e' ∧
       t_early (en_tables e') =
         if (size (t_early (en_tables e)) <? EARLY_CANCELS_CAP)%nat
         then <[(g, c) := t_now (en_tables e) + PENDING_WAITER_MAX_PARK]> (t_early (en_tables e))
         else t_early (en_tables e)) ∧
  (∀ x e' until, t_early (en_tables e) !! (g, c) = Some until → act x e = Some e' →
     (∃ until', t_early (en_tables e') !! (g, c) = Some until' ∧ until ≤ until') ∨
     (until ≤ t_now (en_tables e) ∧ ∃ busy order, x = StepSweeper busy order) ∨
     (∃ r d ac s, x = StepAccept r d ∧ k_accepts (en_tasks e) !! r = Some ac ∧ pg_goal_id (ac_goal ac) = g ∧
        pg_caller (ac_goal ac) = c ∧ t_slots (en_tables e') !! ac_slot ac = Some s ∧ gs_cancelled s = true)) ∧
  (is_Some (t_early (en_tables e) !! (g, c)) → owned e g c →
   ∃ r ac, k_accepts (en_tasks e) !! r = Some ac ∧ pg_goal_id (ac_goal ac) = g ∧
     pg_caller (ac_goal ac) = c ∧ ac_phase ac = AEarly ∧
     (early_held e = false → ∀ d, ∃ e' s,
        act (StepAccept r d) e = Some e' ∧ t_early (en_tables e') !! (g, c) = None ∧
        t_slots (en_tables e') !! ac_slot ac = Some s ∧ gs_cancelled s = true)).
Proof.
  intros Hr. split_and!.
  - intros r Hk Hg Ht. cbn [run ActionEngine.act]. unfold step_cancel. rewrite Hk, Hg. cbn [mbind option_bind].
    eng_simpl. by rewrite Ht.
  - intros r Hk Hg. cbn [ActionEngine.act]. unfold step_cancel. by rewrite Hk, Hg.
  - intros r Hk. cbn [ActionEngine.act]. unfold step_cancel, remember_insert. rewrite Hk. eexists. split; [done|].
    eng_simpl. by destruct (size _ <? _)%nat.
  - intros x e' until. by apply early_kept.
  - intros Hz Hown. by apply early_taken.
Qed.
End cancel.
