(* ===== verification/ActionEndings.v ===== *)
(** * How a goal ends

    The endings of the goal engine, over every run of [ActionEngine]: the first
    ending of a goal wins, its outcome stays, its feedback ends once, and the
    polls that wait get that outcome, unless the future that delivers it is
    dropped. *)

From S2P Require Import Prelude Names ActionWire ActionEngine ActionSafety.
#[local] Open Scope Z_scope.
#[local] Opaque PENDING_WAITERS_CAP EARLY_CANCELS_CAP EXPIRED_TOMBSTONE_CAP.

Section endings.
Context `{Capnp} (retention : Z).
Notation reachable := (reachable retention).
Notation act := (act retention).

(** ** One ending wins *)

(** What an ending past the flag has done to its slot. *)
Definition won (e : Engine) (d : DeliverTask) : Prop :=
  ∃ s, t_slots (en_tables e) !! dl_slot d = Some s ∧ gs_terminal s = true ∧
    match dl_phase d with
    | DReplace => ∃ ws, gs_state s = Pending ws
    | _ => ∃ t, gs_state s = Terminal (dl_outcome d) t
    end.

Record ends_inv (e : Engine) : Prop := {
  ends_flag a s : t_slots (en_tables e) !! a = Some s → gs_terminal s = false →
    (∃ ws, gs_state s = Pending ws) ∧ a ∉ lg_ends (en_log e) ∧ a ∉ lg_cut (en_log e);
  ends_past n d : k_delivers (en_tasks e) !! n = Some d → past d →
    won e d ∧ dl_slot d ∉ lg_ends (en_log e) ∧ dl_slot d ∉ lg_cut (en_log e);
  ends_unique n1 d1 n2 d2 : k_delivers (en_tasks e) !! n1 = Some d1 → k_delivers (en_tasks e) !! n2 = Some d2 →
    past d1 → past d2 → dl_slot d1 = dl_slot d2 → n1 = n2;
  ends_once : NoDup (lg_ends (en_log e));
  ends_logged a : a ∈ lg_ends (en_log e) ∨ a ∈ lg_cut (en_log e) →
    ∃ s, t_slots (en_tables e) !! a = Some s ∧ gs_terminal s = true;
  ends_open a s ws : t_slots (en_tables e) !! a = Some s → gs_terminal s = true → gs_state s = Pending ws →
    (∃ n d, k_delivers (en_tasks e) !! n = Some d ∧ dl_slot d = a ∧ dl_phase d = DReplace) ∨
    a ∈ lg_cut (en_log e);
}.

(** The flag and the outcome stay. *)
Lemma terminal_kept x e a s s' : slot_change retention x e a s s' → gs_terminal s = true → gs_terminal s' = true.
Proof. destruct 1; try done. unfold adopt. by destruct (gs_state s). Qed.

Lemma outcome_kept x e a s s' o t :
  ends_inv e → t_slots (en_tables e) !! a = Some s → slot_change retention x e a s s' →
  gs_state s = Terminal o t → gs_state s' = Terminal o t.
Proof.
  intros Hinv Hs Hch Hst. destruct Hch as [| | | | | |? ? ? ? ? ? ?|n d Hx Hd Ha Hph]; try done.
  - congruence.
  - unfold adopt. by rewrite Hst.
  - destruct (ends_past e Hinv n d Hd) as [(s0 & Hs0 & _ & Hw) _]; [unfold past; congruence|].
    rewrite Hph in Hw. destruct Hw. congruence.
Qed.

(** A step of no ending leaves flags, outcomes and endings as they are. *)
Definition of_ending (x : Action) : bool :=
  match x with StepDeliver _ | DropEnding _ => true | _ => false end.

Definition same_end (s s' : GoalSlot) : Prop :=
  gs_terminal s' = gs_terminal s ∧
  match gs_state s with
  | Pending _ => ∃ ws, gs_state s' = Pending ws
  | Terminal o t => gs_state s' = Terminal o t
  end.

Lemma quiet_slot x e a s s' :
  of_ending x = false → slot_change retention x e a s s' → same_end s s'.
Proof.
  intros Hx Hch. unfold same_end.
  destruct Hch; subst; try done; unfold adopt; destruct (gs_state s) eqn:E; cbn; rewrite ?E; eauto; congruence.
Qed.

Lemma quiet_step x e1 e2 :
  reachable e1 → ends_inv e1 → act x e1 = Some e2 → of_ending x = false → ends_inv e2.
Proof.
  intros Hr Hinv Hx Hq. assert (Hids := ids_reachable retention e1 Hr).
  assert (Hlog : lg_ends (en_log e2) = lg_ends (en_log e1) ∧ lg_cut (en_log e2) = lg_cut (en_log e1))
    by (act_cases Hx; done).
  destruct Hlog as [He Hc].
  assert (Hdel : ∀ n d, k_delivers (en_tasks e2) !! n = Some d → past d → k_delivers (en_tasks e1) !! n = Some d).
  { intros n d Hn Hp. destruct (delivers_origin retention x e1 e2 n d Hx Hn) as [|[[-> _]|[_ ?]]]; done. }
  assert (Hkept : ∀ n d, k_delivers (en_tasks e1) !! n = Some d → k_delivers (en_tasks e2) !! n = Some d).
  { intros n d Hn. destruct (delivers_kept retention x e1 e2 n d Hids Hx Hn) as [|[->| ->]]; done. }
  assert (Hslot : ∀ a s2, t_slots (en_tables e2) !! a = Some s2 →
    (∃ s1, t_slots (en_tables e1) !! a = Some s1 ∧ same_end s1 s2) ∨
    (t_slots (en_tables e1) !! a = None ∧ gs_terminal s2 = false ∧ gs_state s2 = Pending [])).
  { intros a s2 Hs2. destruct (t_slots (en_tables e1) !! a) as [s1|] eqn:Hs1.
    - destruct (slot_step retention x e1 e2 a s1 Hids Hx Hs1) as (s' & Hs' & Hch). simplify_eq.
      left. exists s1. split; [done|by eapply quiet_slot].
    - right. destruct (slot_born retention x e1 e2 a s2 Hx Hs1 Hs2) as (? & ? & ? & _ & _ & _ & ->). done. }
  assert (Hfwd : ∀ a s1, t_slots (en_tables e1) !! a = Some s1 →
    ∃ s2, t_slots (en_tables e2) !! a = Some s2 ∧ same_end s1 s2).
  { intros a s1 Hs1. destruct (slot_step retention x e1 e2 a s1 Hids Hx Hs1) as (s' & Hs' & Hch).
    exists s'. split; [done|by eapply quiet_slot]. }
  destruct Hinv as [Hflag Hpast Huniq Honce Hlogged Hopen]. split; rewrite ?He, ?Hc; try done.
  - intros a s2 Hs2 Ht. destruct (Hslot a s2 Hs2) as [(s1 & Hs1 & Hst & Hse)|(Hn & _ & Hp)].
    + destruct (Hflag a s1 Hs1) as [[ws Hws] Hno]; [congruence|]. rewrite Hws in Hse. done.
    + split; [eauto|].
      split; intros Hin; destruct (Hlogged a) as (s & ? & _); auto; congruence.
  - intros n d Hn Hp. destruct (Hpast n d) as [(s1 & Hs1 & Ht & Hw) Hno]; [by apply Hdel|done|].
    split; [|done]. destruct (Hfwd _ _ Hs1) as (s2 & Hs2 & Hst & Hse). exists s2. split; [done|].
    split; [congruence|]. destruct (dl_phase d); destruct Hw as [y Hy]; rewrite Hy in Hse; eauto.
  - eauto.
  - intros a Ha. destruct (Hlogged a Ha) as (s1 & Hs1 & Ht). destruct (Hfwd _ _ Hs1) as (s2 & Hs2 & Hst & _).
    exists s2. split; [done|congruence].
  - intros a s2 ws Hs2 Ht Hp. destruct (Hslot a s2 Hs2) as [(s1 & Hs1 & Hst & Hse)|(_ & ? & _)]; [|congruence].
    destruct (gs_state s1) as [ws1|o t] eqn:E; [|congruence].
    destruct (Hopen a s1 ws1) as [(n & d & ? & ? & ?)|]; [done|congruence|done| |by right]. left. eauto 6.
Qed.

(** An ending that leaves, or goes on, without touching its slot or the log. *)
Lemma ends_delivers e k :
  ends_inv e →
  (∀ n d, k_delivers k !! n = Some d → past d →
     ∃ d0, k_delivers (en_tasks e) !! n = Some d0 ∧ past d0 ∧ dl_slot d = dl_slot d0 ∧
       dl_outcome d = dl_outcome d0 ∧ (dl_phase d = DReplace ↔ dl_phase d0 = DReplace)) →
  (∀ n d, k_delivers (en_tasks e) !! n = Some d → dl_phase d = DReplace → k_delivers k !! n = Some d) →
  ends_inv (set_tasks k e).
Proof.
  intros [Hflag Hpast Huniq Honce Hlogged Hopen] Hback Hkeep. split; eng_simpl; try done.
  - intros n d Hn Hp. destruct (Hback n d Hn Hp) as (d0 & Hn0 & Hp0 & Ha & Ho & Hph).
    destruct (Hpast n d0 Hn0 Hp0) as [(s & Hs & Ht & Hw) Hno]. rewrite Ha. split; [|done].
    exists s. eng_simpl. rewrite Ha. split; [done|]. split; [done|]. rewrite Ho.
    clear -Hph Hw. destruct (dl_phase d), (dl_phase d0); done || (exfalso; destruct Hph; intuition congruence).
  - intros n1 d1 n2 d2 H1 H2 Hp1 Hp2 Ha.
    destruct (Hback _ _ H1 Hp1) as (x1 & ? & ? & ? & _), (Hback _ _ H2 Hp2) as (x2 & ? & ? & ? & _).
    eapply Huniq; [done..|congruence].
  - intros a s ws Hs Ht Hp. destruct (Hopen a s ws Hs Ht Hp) as [(n & d & ? & ? & ?)|]; [left; eauto 6|by right].
Qed.

Lemma swap_step n d s e :
  ends_inv e → k_delivers (en_tasks e) !! n = Some d → dl_phase d = DSwap →
  t_slots (en_tables e) !! dl_slot d = Some s → gs_terminal s = false →
  ends_inv
    (put_deliver n (mkDeliver (dl_caller d) (dl_slot d) (dl_outcome d) (dl_feedback d) DReplace)
       (set_tables
          (update_slot (λ s, mkGoalSlot (gs_owner s) (gs_cancelled s) (gs_cause s) (gs_state s) true)
             (dl_slot d) (en_tables e)) e)).
Proof.
  intros [Hflag Hpast Huniq Honce Hlogged Hopen] Hn Hph Hs Ht.
  destruct (Hflag _ _ Hs Ht) as ([ws Hws] & Hne & Hnc).
  assert (Hother : ∀ m d', k_delivers (en_tasks e) !! m = Some d' → past d' → dl_slot d' ≠ dl_slot d).
  { intros m d' Hm Hp Ha. destruct (Hpast m d' Hm Hp) as [(s0 & Hs0 & ? & _) _]. rewrite Ha in Hs0. congruence. }
  split; eng_simpl; try done.
  - intros a s' Hs' Ht'. map_cases. eauto.
  - intros m d' Hm Hp. apply lookup_insert_Some in Hm as [[-> <-]|[Hmn Hm]]; eng_simpl.
    + split; [|done]. eexists. eng_simpl. rewrite lookup_alter_eq, Hs. cbn. eauto.
    + destruct (Hpast m d' Hm Hp) as [(s0 & Hs0 & Hrest) Hno]. split; [|done]. exists s0. eng_simpl.
      rewrite lookup_alter_ne by (intros E; by eapply Hother). done.
  - intros n1 d1 n2 d2 H1 H2 Hp1 Hp2 Ha.
    apply lookup_insert_Some in H1 as [[<- <-]|[? H1]]; apply lookup_insert_Some in H2 as [[<- <-]|[? H2]]; eng_simpl;
      [done| | |by eapply Huniq]; exfalso; by eapply Hother.
  - intros a Ha. destruct (Hlogged a Ha) as (s0 & Hs0 & Ht0). exists s0.
    rewrite lookup_alter_ne; [done|]. intros <-. congruence.
  - intros a s' ws' Hs' Ht' Hp. apply lookup_alter_Some in Hs' as [(<- & s0 & Hs0 & ->)|[Hne' Hs']].
    + left. eexists n, _. rewrite lookup_insert_eq. done.
    + destruct (Hopen a s' ws' Hs' Ht' Hp) as [(m & d' & Hm & Ha & Hph')|]; [|by right].
      left. exists m, d'. rewrite lookup_insert_ne; [done|]. intros ->. congruence.
Qed.

Lemma replace_step n d s e t ws :
  ends_inv e → k_delivers (en_tasks e) !! n = Some d → dl_phase d = DReplace →
  t_slots (en_tables e) !! dl_slot d = Some s →
  ends_inv
    (put_deliver n (mkDeliver (dl_caller d) (dl_slot d) (dl_outcome d) (dl_feedback d) (DWake ws))
       (set_tables (update_slot (set_gs_state (Terminal (dl_outcome d) t)) (dl_slot d) (en_tables e)) e)).
Proof.
  intros [Hflag Hpast Huniq Honce Hlogged Hopen] Hn Hph Hs.
  assert (Hp : past d) by (unfold past; congruence).
  destruct (Hpast n d Hn Hp) as [(s0 & Hs0 & Ht & _) Hno]. rewrite Hs in Hs0. injection Hs0 as <-.
  assert (Hother : ∀ m d', m ≠ n → k_delivers (en_tasks e) !! m = Some d' → past d' → dl_slot d' ≠ dl_slot d).
  { intros m d' Hmn Hm Hp' Ha. by apply Hmn, (Huniq m d' n d). }
  split; eng_simpl; try done.
  - intros a s' Hs' Ht'. map_cases; [cbn in Ht'; congruence|]. eauto.
  - intros m d' Hm Hp'. apply lookup_insert_Some in Hm as [[-> <-]|[Hmn Hm]]; eng_simpl.
    + split; [|done]. eexists. eng_simpl. rewrite lookup_alter_eq, Hs. cbn. eauto.
    + destruct (Hpast m d' Hm Hp') as [(s0 & Hs0 & Hrest) Hno']. split; [|done]. exists s0. eng_simpl.
      rewrite lookup_alter_ne; [done|]. intros E. by eapply Hother.
  - intros n1 d1 n2 d2 H1 H2 Hp1 Hp2 Ha.
    apply lookup_insert_Some in H1 as [[<- <-]|[? H1]]; apply lookup_insert_Some in H2 as [[<- <-]|[? H2]]; eng_simpl;
      [done| | |by eapply Huniq]; exfalso; by eapply Hother.
  - intros a Ha. destruct (Hlogged a Ha) as (s0 & Hs0 & Ht0). exists s0.
    rewrite lookup_alter_ne; [done|]. intros <-. destruct Ha; tauto.
  - intros a s' ws' Hs' Ht' Hp'. apply lookup_alter_Some in Hs' as [(<- & s0 & Hs0 & ->)|[Hne' Hs']]; [done|].
    destruct (Hopen a s' ws' Hs' Ht' Hp') as [(m & d' & Hm & Ha & Hph')|]; [|by right].
    left. exists m, d'. rewrite lookup_insert_ne; [done|]. intros ->. congruence.
Qed.

(** An ending that is over, or cut. *)
Lemma leave_step n d e log :
  ends_inv e → k_delivers (en_tasks e) !! n = Some d → past d →
  (dl_phase d = DEnd ∧ lg_ends log = lg_ends (en_log e) ++ [dl_slot d] ∧ lg_cut log = lg_cut (en_log e)) ∨
  (lg_ends log = lg_ends (en_log e) ∧ lg_cut log = lg_cut (en_log e) ++ [dl_slot d]) →
  ends_inv (set_log log (drop_deliver n e)).
Proof.
  intros [Hflag Hpast Huniq Honce Hlogged Hopen] Hn Hp Hlog.
  destruct (Hpast n d Hn Hp) as [(s & Hs & Ht & Hw) [Hne Hnc]].
  assert (Hin : ∀ a, a ∈ lg_ends log ∨ a ∈ lg_cut log →
    a = dl_slot d ∨ a ∈ lg_ends (en_log e) ∨ a ∈ lg_cut (en_log e)).
  { intros a. destruct Hlog as [(_ & -> & ->)|[-> ->]]; set_solver. }
  split; eng_simpl.
  - intros a s' Hs' Ht'. destruct (Hflag a s' Hs' Ht') as (Hw' & He & Hc). split; [done|].
    assert (Ha : ¬ (a ∈ lg_ends log ∨ a ∈ lg_cut log)); [|tauto].
    intros [->|[?|?]]%Hin; [congruence|done|done].
  - intros m d' Hm Hp'. map_cases. destruct (Hpast m d') as [? [He Hc]]; [done..|]. split; [done|].
    assert (Ha : ¬ (dl_slot d' ∈ lg_ends log ∨ dl_slot d' ∈ lg_cut log)); [|tauto].
    intros [E|[?|?]]%Hin; [|done|done]. by eapply H0, (Huniq n d m d').
  - intros n1 d1 n2 d2 H1 H2. map_cases. eauto.
  - destruct Hlog as [(_ & -> & _)|[-> _]]; [|done]. apply NoDup_app. split; [done|].
    split; [set_solver|apply NoDup_singleton].
  - intros a [->|[?|?]]%Hin; eauto.
  - intros a s' ws Hs' Ht' Hp'. destruct (Hopen a s' ws Hs' Ht' Hp') as [(m & d' & Hm & Ha & Hph)|Hc].
    + destruct (decide (m = n)) as [->|Hmn].
      * right. simplify_eq. destruct Hlog as [(Hend & _)|[_ ->]]; [congruence|set_solver].
      * left. exists m, d'. by rewrite lookup_delete_ne.
    + right. destruct Hlog as [(_ & _ & ->)|[_ ->]]; set_solver.
Qed.

Lemma ends_reachable e : reachable e → ends_inv e.
Proof.
  apply reachable_ind.
  { intros now. split; try done; cbn; [by constructor|set_solver]. }
  intros x e1 e2 Hr Hinv Hx. destruct (of_ending x) eqn:Hq; [|by eapply quiet_step].
  destruct x as [| | | | | | | | | | | | | | |n|n| |]; try done; cbn [ActionEngine.act] in Hx.
  - unfold step_deliver in Hx. destruct (k_delivers (en_tasks e1) !! n) as [d|] eqn:Hn; [|done].
    cbn [mbind option_bind] in Hx. destruct (dl_phase d) as [| |[|w ws]|] eqn:Hph.
    + unfold terminal_swap in Hx. destruct (t_slots (en_tables e1) !! dl_slot d) as [s|] eqn:Hs; [|done].
      cbn in Hx. injection Hx as <-. destruct (gs_terminal s) eqn:Ht; [|by eapply swap_step].
      apply ends_delivers; [done|..]; intros m d' Hm Hp; eng_simpl; map_cases; [eauto 8|].
      rewrite lookup_delete_ne; [done|]. intros ->. congruence.
    + unfold terminal_replace in Hx. destruct (t_slots (en_tables e1) !! dl_slot d) as [s|] eqn:Hs; [|done].
      cbn in Hx. injection Hx as <-. by eapply replace_step.
    + injection Hx as <-. apply ends_delivers; [done|..]; intros m d' Hm Hp; eng_simpl.
      * map_cases; [|eauto 8]. eexists. split; [done|]. unfold past. eng_simpl. rewrite Hph. by split_and!.
      * rewrite lookup_insert_ne; [done|]. intros ->. congruence.
    + injection Hx as <-. apply (ends_delivers (send_reply w _ e1)).
      { destruct Hinv. by split. }
      all: intros m d' Hm Hp; eng_simpl.
      * map_cases; [|eauto 8]. eexists. split; [done|]. unfold past. eng_simpl. rewrite Hph. by split_and!.
      * rewrite lookup_insert_ne; [done|]. intros ->. congruence.
    + injection Hx as <-. destruct (dl_feedback d).
      * apply (leave_step n d e1); [done|done|unfold past; congruence|]. left. done.
      * apply ends_delivers; [done|..]; intros m d' Hm Hp; eng_simpl; map_cases; [eauto 8|].
        rewrite lookup_delete_ne; [done|]. intros ->. congruence.
  - unfold drop_ending in Hx. destruct (k_delivers (en_tasks e1) !! n) as [d|] eqn:Hn; [|done].
    cbn [mbind option_bind] in Hx.
    assert (Hp : past d ∧ log_cut (dl_slot d) (drop_deliver n e1) = e2).
    { unfold past. destruct (dl_caller d); [|done]. destruct (dl_phase d) as [| |[]|]; simplify_eq; done. }
    destruct Hp as [Hp <-]. apply (leave_step n d e1); [done..|]. by right.
Qed.

(** C15: The first ending of a goal wins: once the flag of a goal is up, an ending
    that comes later leaves the engine as it was, less itself; whatever the
    tasks do, the flag stays up, a stored outcome and its window stay, the end of
    no feedback is published twice, and a goal with no outcome yet has the one
    ending that will store it under way, unless that ending was dropped. *)
Theorem first_ending_wins e l e' a s :
  reachable e → t_slots (en_tables e) !! a = Some s → gs_terminal s = true → run retention l e = Some e' →
  (∀ n d, k_delivers (en_tasks e') !! n = Some d → dl_slot d = a → dl_phase d = DSwap →
     act (StepDeliver n) e' = Some (drop_deliver n e')) ∧
  NoDup (lg_ends (en_log e')) ∧
  ∃ s', t_slots (en_tables e') !! a = Some s' ∧ gs_terminal s' = true ∧
    (∀ o t, gs_state s = Terminal o t → gs_state s' = Terminal o t) ∧
    (∀ ws, gs_state s' = Pending ws →
       (∃ n d, k_delivers (en_tasks e') !! n = Some d ∧ dl_slot d = a ∧ dl_phase d = DReplace) ∨
       a ∈ lg_cut (en_log e')).
Proof.
  intros Hr Hs Ht Hrun.
  set (P := λ e', ∃ s', t_slots (en_tables e') !! a = Some s' ∧ gs_terminal s' = true ∧
    ∀ o t, gs_state s = Terminal o t → gs_state s' = Terminal o t).
  destruct (run_ind retention P l e e') as [(s' & Hs' & Ht' & Hst) Hr']; [|done|by exists s|done|].
  { intros x e1 e2 Hr1 (s1 & Hs1 & Ht1 & Hst1) Hx.
    destruct (slot_step retention x e1 e2 a s1 (ids_reachable retention e1 Hr1) Hx Hs1) as (s2 & Hs2 & Hch).
    exists s2. split; [done|]. split; [by eapply terminal_kept|].
    intros o t Ho. eapply outcome_kept; [by apply ends_reachable|done..|auto]. }
  assert (Hinv := ends_reachable e' Hr'). split; [|split; [apply (ends_once _ Hinv)|]].
  - intros n d Hn Ha Hph. cbn [ActionEngine.act]. unfold step_deliver, terminal_swap. rewrite Hn.
    cbn [mbind option_bind]. rewrite Hph, Ha, Hs'. cbn. by rewrite Ht'.
  - exists s'. split; [done|]. split; [done|]. split; [done|]. intros ws Hp. by eapply (ends_open _ Hinv).
Qed.
End endings.
