(* ===== verification/ActionPolls.v ===== *)
(** * What becomes of a poll

    The result polls of the goal engine, over every run of [ActionEngine]: a
    responder is in one place at a time and sends one reply, a poll that waits
    in a slot gets the outcome its goal ends with, and a result stays fetchable
    for its retention. *)

From S2P Require Import Prelude Names ActionWire ActionEngine ActionSafety ActionEndings.
#[local] Open Scope nat_scope.
#[local] Opaque PENDING_WAITERS_CAP EARLY_CANCELS_CAP EXPIRED_TOMBSTONE_CAP.

(** ** Sums over a map *)

Section map_sum.
Context `{Countable K} {A : Type}.
Implicit Types (f : A → nat) (m : gmap K A).

Definition map_sum f m : nat := map_fold (λ _ x n, f x + n) 0 m.

Lemma map_sum_empty f : map_sum f ∅ = 0.
Proof. apply map_fold_empty. Qed.

Lemma map_sum_new f m k x : m !! k = None → map_sum f (<[k := x]> m) = f x + map_sum f m.
Proof. intros Hk. unfold map_sum. rewrite map_fold_insert_L; [done|intros; lia|done]. Qed.

Lemma map_sum_delete f m k x : m !! k = Some x → map_sum f m = f x + map_sum f (delete k m).
Proof. intros Hk. by rewrite <-(insert_delete_id m k x Hk) at 1; rewrite map_sum_new by apply lookup_delete_eq. Qed.

Lemma map_sum_update f m k x y :
  m !! k = Some x → map_sum f (<[k := y]> m) = f y + map_sum f (delete k m).
Proof. intros Hk. rewrite <-insert_delete_eq, map_sum_new; [done|]. apply lookup_delete_eq. Qed.

(** Whatever was there before. *)
Lemma map_sum_insert f m k y :
  map_sum f (<[k := y]> m) = f y + map_sum f (delete k m).
Proof.
  destruct (m !! k) as [x|] eqn:Hk; [by eapply map_sum_update|].
  rewrite map_sum_new by done. by rewrite delete_id.
Qed.

Lemma map_sum_split f m k :
  map_sum f m = match m !! k with Some x => f x | None => 0 end + map_sum f (delete k m).
Proof. destruct (m !! k) as [x|] eqn:Hk; [by apply map_sum_delete|]. by rewrite delete_id. Qed.

Lemma map_sum_alter f m k g x :
  m !! k = Some x → map_sum f (alter g k m) = f (g x) + map_sum f (delete k m).
Proof.
  intros Hk. assert (Ha : alter g k m = <[k := g x]> m).
  { apply map_eq. intros j. destruct (decide (k = j)) as [<-|]; [by rewrite lookup_alter_eq, lookup_insert_eq, Hk|].
    by rewrite lookup_alter_ne, lookup_insert_ne. }
  rewrite Ha. apply map_sum_insert.
Qed.

(** An edit that changes no summand. *)
Lemma map_sum_alter_same f m k g : (∀ x, f (g x) = f x) → map_sum f (alter g k m) = map_sum f m.
Proof.
  intros Hg. destruct (m !! k) as [x|] eqn:Hk; [|by rewrite alter_id; [|congruence]].
  by rewrite (map_sum_alter f m k g x), Hg, <-map_sum_delete.
Qed.

Lemma map_sum_alter_le f m k g c :
  (∀ x, f (g x) ≤ f x + c) → map_sum f (alter g k m) ≤ map_sum f m + c.
Proof.
  intros Hg. destruct (m !! k) as [x|] eqn:Hk; [|rewrite alter_id; [lia|congruence]].
  rewrite (map_sum_alter f m k g x), (map_sum_delete f m k x) by done. specialize (Hg x). lia.
Qed.

Lemma map_sum_omap_le f m (g : A → option A) :
  (∀ x y, g x = Some y → f y ≤ f x) → map_sum f (omap g m) ≤ map_sum f m.
Proof.
  intros Hg. induction m as [|k x m Hk IH] using map_ind; [by rewrite omap_empty|].
  rewrite map_sum_new by done. destruct (g x) as [y|] eqn:E.
  - rewrite (omap_insert_Some _ _ _ _ y) by done. rewrite map_sum_new by (by rewrite lookup_omap, Hk).
    apply Hg in E. lia.
  - rewrite omap_insert_None by done. rewrite delete_id by (by rewrite lookup_omap, Hk). lia.
Qed.

Lemma map_sum_ge f m k x : m !! k = Some x → f x ≤ map_sum f m.
Proof. intros Hk. rewrite (map_sum_delete f m k x) by done. lia. Qed.
End map_sum.

(** ** A responder is in one place *)

Fixpoint occ (r : nat) (l : list nat) : nat :=
  match l with [] => 0 | x :: l => (if decide (x = r) then 1 else 0) + occ r l end.

Lemma occ_app r l1 l2 : occ r (l1 ++ l2) = occ r l1 + occ r l2.
Proof. induction l1 as [|x l1 IH]; cbn; lia. Qed.

Lemma occ_elem r l : r ∈ l ↔ 1 ≤ occ r l.
Proof.
  induction l as [|x l IH]; cbn; [rewrite elem_of_nil; lia|]. rewrite elem_of_cons, IH.
  case_decide; intuition lia.
Qed.

Lemma NoDup_occ l : (∀ r, occ r l ≤ 1) → NoDup l.
Proof.
  induction l as [|x l IH]; intros Ho; [constructor|]. apply NoDup_cons. split.
  - rewrite occ_elem. specialize (Ho x). cbn in Ho. rewrite decide_True in Ho by done. lia.
  - apply IH. intros r. specialize (Ho r). cbn in Ho. lia.
Qed.

Lemma occ_retain_le {A} r (g : A → nat) (p : A → bool) l : occ r (map g (retain p l)) ≤ occ r (map g l).
Proof. unfold retain. induction l as [|x l IH]; cbn; [done|]. destruct (p x); cbn; lia. Qed.

Definition result_holds (k : ResultPhase) : list nat :=
  match k with
  | RIdle => []
  | RRoute _ r | RLock _ r | RTomb _ r | RPark _ r | RSlot _ r | RSend r _ => [r]
  end.

Definition cancel_holds (k : CancelPhase) : list nat :=
  match k with
  | CIdle => []
  | CLook _ _ r | CSlot _ _ _ r | CTomb _ _ r | CEarly _ _ r | CRemember _ _ r | CSend r _ => [r]
  end.

Definition slot_holds (s : GoalSlot) : list nat :=
  match gs_state s with Pending ws => ws | Terminal _ _ => [] end.

Definition pending_holds (l : list PendingWaiter) : list nat := map pw_responder l.

Definition accept_holds (ac : AcceptTask) : list nat :=
  match ac_phase ac with AAdopt l => pending_holds l | _ => [] end.

Definition deliver_holds (d : DeliverTask) : list nat :=
  match dl_phase d with DWake ws => ws | _ => [] end.

(** An accept holds the responder it is named after until it replied. *)
Definition unanswered (ac : AcceptTask) : nat :=
  match ac_phase ac with AEarly | ATake | AAdopt _ | AReply => 1 | AForget | ATrack => 0 end.

Definition places (r : nat) (e : Engine) : nat :=
  occ r (result_holds (k_result (en_tasks e))) + occ r (cancel_holds (k_cancel (en_tasks e)))
  + match k_goals (en_tasks e) !! r with Some _ => 1 | None => 0 end
  + match k_accepts (en_tasks e) !! r with Some ac => unanswered ac | None => 0 end
  + map_sum (λ ac, occ r (accept_holds ac)) (k_accepts (en_tasks e))
  + map_sum (λ s, occ r (slot_holds s)) (t_slots (en_tables e))
  + map_sum (λ l, occ r (pending_holds l)) (t_pending (en_tables e))
  + map_sum (λ d, occ r (deliver_holds d)) (k_delivers (en_tasks e))
  + occ r (map fst (lg_replies (en_log e))).

(** The summand of one key set apart, in every table that a step edits there. *)
Ltac split_at m k :=
  repeat match goal with
  | |- context [map_sum ?f m] => rewrite (map_sum_split f m k)
  end.

Ltac sum_simpl :=
  repeat match goal with
  | |- context [map_sum ?f (<[?k := ?x]> ?m)] => rewrite (map_sum_insert f m k x); split_at m k
  | H : ?m !! ?k = Some ?x |- context [map_sum ?f (alter ?g ?k ?m)] =>
      rewrite (map_sum_alter f m k g x H); split_at m k
  | |- context [map_sum ?f (delete ?k ?m)] => progress (split_at m k)
  end;
  repeat match goal with H : ?m !! ?k = Some ?x |- context [?m !! ?k] => rewrite H end.

Section polls.
Context `{Capnp} (retention : Z).
Notation reachable := (reachable retention).
Notation act := (act retention).

Lemma adopt_holds r l s :
  occ r (slot_holds (adopt l s)) ≤ occ r (slot_holds s) + occ r (pending_holds l).
Proof.
  unfold adopt, slot_holds. destruct (gs_state s) as [ws|] eqn:E; cbn; rewrite ?E, ?occ_app; unfold pending_holds; cbn; lia.
Qed.

Lemma cancel_slot_holds g s c state s' : cancel_slot g s c = (state, s') → slot_holds s' = slot_holds s.
Proof. unfold cancel_slot. intros Hc. repeat case_match; by simplify_eq. Qed.

(** The responder a step makes. *)
Definition received (r : nat) (e1 e2 : Engine) : nat :=
  if decide (r = en_fresh e1) then en_fresh e2 - en_fresh e1 else 0.

Lemma received_fresh e1 e2 : en_fresh e2 = S (en_fresh e1) → received (en_fresh e1) e1 e2 = 1.
Proof. unfold received. rewrite decide_True by done. lia. Qed.

Lemma park_holds r o w :
  occ r (pending_holds (default [] o ++ [w])) =
  match o with Some l => occ r (pending_holds l) | None => 0 end + occ r [pw_responder w].
Proof. unfold pending_holds. rewrite map_app, occ_app. by destruct o. Qed.

Lemma swept_holds r now x y :
  match retain (λ w, Z.ltb now (pw_deadline w)) x with [] => None | l => Some l end = Some y →
  occ r (pending_holds y) ≤ occ r (pending_holds x).
Proof.
  intros Hy. assert (y = retain (λ w, Z.ltb now (pw_deadline w)) x) as -> by (by case_match; simplify_eq).
  apply occ_retain_le.
Qed.

Lemma pending_slot_holds s ws : gs_state s = Pending ws → slot_holds s = ws.
Proof. unfold slot_holds. by intros ->. Qed.

Lemma places_step x e1 e2 r :
  ids_inv e1 → act x e1 = Some e2 → places r e2 ≤ places r e1 + received r e1 e2.
Proof.
  intros Hids Hx. act_cases Hx; unfold places; eng_simpl; rewrite ?map_app, ?occ_app; try lia.
  all: repeat match goal with
    | H : k_result _ = _ |- _ => rewrite H; clear H
    | H : k_cancel _ = _ |- _ => rewrite H; clear H
    end; cbn [result_holds cancel_holds].
  all: try lia.
  all: repeat match goal with
    | |- context [map_sum _ (alter (signal_cancel _) _ _)] => rewrite map_sum_alter_same by done
    | |- context [map_sum _ (alter (λ s, mkGoalSlot _ _ _ _ _) _ _)] => rewrite map_sum_alter_same by done
    | |- context [map_sum _ (alter (λ s, if _ then _ else _) _ _)] =>
        rewrite map_sum_alter_same by (intros s; by destruct (gs_terminal s))
    | |- context [map_sum ?f (alter (adopt ?l) ?k ?m)] =>
        pose proof (map_sum_alter_le f m k (adopt l) (occ r (pending_holds l)) (adopt_holds r l)); 
          generalize dependent (map_sum f (alter (adopt l) k m)); intros
    | |- context [map_sum ?f (omap ?g ?m)] =>
        assert (map_sum f (omap g m) ≤ map_sum f m);
          [apply map_sum_omap_le, swept_holds|generalize dependent (map_sum f (omap g m)); intros]
    | H : cancel_slot _ ?s _ = (_, ?s') |- _ => learn_hyp (cancel_slot_holds _ _ _ _ _ H)
    end.
  all: try lia.
  all: sum_simpl; rewrite ?lookup_insert, ?lookup_delete, ?park_holds; eng_simpl; cbn [map occ pw_responder].
  all: repeat match goal with
    | H : gs_state ?s = Pending ?ws |- context [slot_holds ?s] =>
        rewrite (pending_slot_holds s ws H)
    | H : slot_holds _ = _ |- _ => rewrite H
    end; cbn [slot_holds gs_state set_gs_state GoalSlot_new]; rewrite ?occ_app; cbn [occ].
  all: try lia.
  all: unfold unanswered, accept_holds, deliver_holds.
  all: repeat case_decide; subst; eng_simpl; try lia.
  all: repeat match goal with
    | H : ?m !! ?k = Some ?x |- context [?m !! ?k] => rewrite H
    | H : ac_phase _ = _ |- _ => rewrite H
    | H : dl_phase _ = _ |- _ => rewrite H
    end; cbn [occ]; rewrite ?received_fresh by done; try lia.
  rewrite decide_True by done. lia.
Qed.

Lemma fresh_step x e1 e2 : act x e1 = Some e2 → en_fresh e1 ≤ en_fresh e2 ≤ S (en_fresh e1).
Proof. intros Hx. act_cases Hx; eng_simpl; lia. Qed.

Lemma places_reachable e r : reachable e → places r e ≤ 1 ∧ (en_fresh e ≤ r → places r e = 0).
Proof.
  intros Hr. revert e Hr r. apply (reachable_ind retention (λ e, ∀ r, _)).
  { intros now r. unfold places. cbn. rewrite !lookup_empty, !map_sum_empty. lia. }
  intros x e1 e2 Hr Hinv Hx r.
  assert (Hstep := places_step x e1 e2 r (ids_reachable retention e1 Hr) Hx).
  assert (Hle := fresh_step x e1 e2 Hx). specialize (Hinv r). unfold received in Hstep.
  case_decide; lia.
Qed.

Definition waits (e : Engine) (a r : nat) : Prop :=
  ∃ s ws, t_slots (en_tables e) !! a = Some s ∧ gs_state s = Pending ws ∧ r ∈ ws.

Lemma waits_holds e a r s :
  t_slots (en_tables e) !! a = Some s → r ∈ slot_holds s →
  1 ≤ map_sum (λ s, occ r (slot_holds s)) (t_slots (en_tables e)).
Proof.
  intros Hs Hin%occ_elem. assert (Hge := map_sum_ge (λ s, occ r (slot_holds s)) _ _ _ Hs). cbn in Hge. lia.
Qed.

Lemma waits_alone e a r :
  reachable e → waits e a r →
  r ∉ map fst (lg_replies (en_log e)) ∧ ∀ b, waits e b r → b = a.
Proof.
  intros Hr (s & ws & Hs & Hp & Hin). destruct (places_reachable e r Hr) as [Hle _].
  rewrite <-(pending_slot_holds s ws Hp) in Hin. split.
  - rewrite occ_elem. assert (Hge := waits_holds e a r s Hs Hin). unfold places in Hle. lia.
  - intros b (s' & ws' & Hs' & Hp' & Hin'). destruct (decide (b = a)) as [|Hne]; [done|exfalso].
    rewrite <-(pending_slot_holds s' ws' Hp') in Hin'. apply occ_elem in Hin, Hin'.
    unfold places in Hle. rewrite (map_sum_delete _ (t_slots _) a s Hs) in Hle.
    rewrite (map_sum_delete _ (delete a _) b s') in Hle by (by rewrite lookup_delete_ne). lia.
Qed.

(** C14: Every request is answered at most once: in every run no responder sends
    two replies, whichever tasks it passes through; and a poll that waits in
    the slot of a goal has no reply yet, waits there once and in no other
    slot. *)
Theorem answered_once e :
  reachable e →
  NoDup (map fst (lg_replies (en_log e))) ∧
  ∀ a s ws, t_slots (en_tables e) !! a = Some s → gs_state s = Pending ws →
    NoDup ws ∧ ∀ r, r ∈ ws →
      r ∉ map fst (lg_replies (en_log e)) ∧
      ∀ b s' ws', t_slots (en_tables e) !! b = Some s' → gs_state s' = Pending ws' → r ∈ ws' → b = a.
Proof.
  intros Hr. split.
  { apply NoDup_occ. intros r. destruct (places_reachable e r Hr) as [Hle _]. unfold places in Hle. lia. }
  intros a s ws Hs Hp. split.
  - apply NoDup_occ. intros r. destruct (places_reachable e r Hr) as [Hle _]. unfold places in Hle.
    assert (Hge := map_sum_ge (λ s, occ r (slot_holds s)) _ _ _ Hs). cbn in Hge.
    rewrite (pending_slot_holds s ws Hp) in Hge. lia.
  - intros r Hin. destruct (waits_alone e a r Hr) as [Hno Hone]; [by exists s, ws|]. split; [done|].
    intros b s' ws' ???. apply Hone. by exists s', ws'.
Qed.

(** ** What a waiting poll gets *)

Definition woken (e : Engine) (a r : nat) : Prop :=
  ∃ n d ws, k_delivers (en_tasks e) !! n = Some d ∧ dl_slot d = a ∧ dl_phase d = DWake ws ∧ r ∈ ws.

Definition told (e : Engine) (a r : nat) : Prop :=
  ∃ s o t, t_slots (en_tables e) !! a = Some s ∧ gs_state s = Terminal o t ∧
    (r, Response (wrap_result_outcome o)) ∈ lg_replies (en_log e).

Lemma replies_grow x e1 e2 p :
  act x e1 = Some e2 → p ∈ lg_replies (en_log e1) → p ∈ lg_replies (en_log e2).
Proof. intros Hx Hp. act_cases Hx; eng_simpl; rewrite ?elem_of_app; auto. Qed.

Lemma cut_grows x e1 e2 a : act x e1 = Some e2 → a ∈ lg_cut (en_log e1) → a ∈ lg_cut (en_log e2).
Proof.
  intros Hx Ha. destruct (ends_step retention x e1 e2 Hx) as [[_ ->]|(n & d & _ & _ & _ & _ & [(_ & _ & ->)|[_ ->]])];
    rewrite ?elem_of_app; auto.
Qed.

Lemma waits_step x e1 e2 a r :
  reachable e1 → act x e1 = Some e2 → waits e1 a r → waits e2 a r ∨ woken e2 a r.
Proof.
  intros Hr Hx (s & ws & Hs & Hp & Hin).
  destruct (slot_step retention x e1 e2 a s (ids_reachable retention e1 Hr) Hx Hs) as (s' & Hs' & Hch).
  destruct Hch as [| | | |r' ws' _ Hp'|r' ac l _ _ _| |n d -> Hd Ha Hph]; try (left; by exists s, ws).
  1-3, 6: left; eexists _, ws; by split_and!.
  - left. rewrite Hp in Hp'. injection Hp' as <-. eexists _, (_ ++ [r']). split_and!; [done..|]. rewrite elem_of_app. auto.
  - left. unfold adopt in Hs'. rewrite Hp in Hs'. eexists _, (ws ++ map pw_responder l).
    split_and!; [done..|]. rewrite elem_of_app. auto.
  - right. cbn [ActionEngine.act] in Hx. unfold step_deliver, terminal_replace in Hx.
    rewrite Hd in Hx. cbn [mbind option_bind] in Hx. rewrite Hph, Ha, Hs in Hx. cbn in Hx. rewrite Hp in Hx.
    injection Hx as <-. eexists n, _, ws. eng_simpl. rewrite lookup_insert_eq. by split_and!.
Qed.

Lemma woken_step x e1 e2 a r :
  reachable e1 → act x e1 = Some e2 → woken e1 a r →
  woken e2 a r ∨ told e2 a r ∨ a ∈ lg_cut (en_log e2).
Proof.
  intros Hr Hx (n & d & ws & Hd & Ha & Hph & Hin). assert (Hids := ids_reachable retention e1 Hr).
  destruct (delivers_kept retention x e1 e2 n d Hids Hx Hd) as [Hd'|[->| ->]].
  - left. by exists n, d, ws.
  - cbn [ActionEngine.act] in Hx. unfold step_deliver in Hx.
    rewrite Hd in Hx. cbn [mbind option_bind] in Hx. rewrite Hph in Hx.
    destruct ws as [|w ws]; [by apply elem_of_nil in Hin|]. injection Hx as <-. rewrite Ha.
    apply elem_of_cons in Hin as [-> |Hin].
    + right. left. destruct (ends_past e1 (ends_reachable retention e1 Hr) n d Hd) as [(s & Hs & _ & Hw) _].
      { unfold past. congruence. }
      rewrite Hph, Ha in *. destruct Hw as [t Ht]. exists s, (dl_outcome d), t. eng_simpl.
      rewrite elem_of_app, list_elem_of_singleton. auto.
    + left. eexists n, _, ws. eng_simpl. rewrite lookup_insert_eq. by split_and!.
  - right. right. cbn [ActionEngine.act] in Hx. unfold drop_ending in Hx. rewrite Hd in Hx.
    cbn [mbind option_bind] in Hx. rewrite Hph in Hx. repeat case_match; simplify_eq. eng_simpl.
    rewrite elem_of_app, list_elem_of_singleton. auto.
Qed.

Lemma told_step x e1 e2 a r : reachable e1 → act x e1 = Some e2 → told e1 a r → told e2 a r.
Proof.
  intros Hr Hx (s & o & t & Hs & Ht & Hin).
  destruct (slot_step retention x e1 e2 a s (ids_reachable retention e1 Hr) Hx Hs) as (s' & Hs' & Hch).
  exists s', o, t. split; [done|]. split; [|by eapply replies_grow].
  eapply outcome_kept; [by apply (ends_reachable retention)|done..].
Qed.

(** A poll that waits gets the outcome of its goal: whatever the tasks do
    from there, it still waits, or an ending that stored its outcome is about to
    wake it, or it was sent exactly the outcome that the slot holds, or the
    future of the ending was dropped before it was over. *)
Lemma parked_poll_gets_the_outcome e l e' a s ws r :
  reachable e → t_slots (en_tables e) !! a = Some s → gs_state s = Pending ws → r ∈ ws →
  run retention l e = Some e' →
  waits e' a r ∨ woken e' a r ∨ told e' a r ∨ a ∈ lg_cut (en_log e').
Proof.
  intros Hr Hs Hp Hin Hrun.
  refine (proj1 (run_ind retention (λ e, waits e a r ∨ woken e a r ∨ told e a r ∨ a ∈ lg_cut (en_log e))
    l e e' _ Hr (or_introl _) Hrun)); [|by exists s, ws].
  intros x e1 e2 Hr1 [Hw|[Hw|[Ht|Hc]]] Hx.
  - destruct (waits_step x e1 e2 a r Hr1 Hx Hw); auto.
  - destruct (woken_step x e1 e2 a r Hr1 Hx Hw) as [|[|]]; auto.
  - do 2 right. left. by eapply told_step.
  - do 3 right. by eapply cut_grows.
Qed.

(** No poll is lost to a race with the accept of its goal: in every run, a
    poll that is parked although its goal is registered is one that an accept of
    that goal has still to take; when the accept may take the lock it moves the
    whole list into its own hands, and its next step puts it in the slot. *)
Lemma no_poll_is_orphaned e g l :
  reachable e → t_pending (en_tables e) !! g = Some l → is_Some (t_registry (en_tables e) !! g) →
  ∃ r ac, k_accepts (en_tasks e) !! r = Some ac ∧ pg_goal_id (ac_goal ac) = g ∧
    (ac_phase ac = AEarly ∨
     ac_phase ac = ATake ∧
     (pending_held e = false → ∀ d, ∃ e1 e2 s,
        act (StepAccept r d) e = Some e1 ∧ t_pending (en_tables e1) !! g = None ∧
        t_slots (en_tables e) !! ac_slot ac = Some s ∧
        act (StepAccept r d) e1 = Some e2 ∧ t_slots (en_tables e2) !! ac_slot ac = Some (adopt l s))).
Proof.
  intros Hr Hl Hreg. destruct (polls_reachable retention e Hr g) as (r & ac & Hac & Hg & Hph); [left; eauto|done|].
  exists r, ac. do 2 (split; [done|]). destruct Hph as [Hph|Hph]; [by left|right]. split; [done|].
  intros Hh d. destruct (refs_accepts _ (refs_reachable retention e Hr) r ac Hac) as (_ & s & Hs & _).
  cbn [ActionEngine.act]. unfold step_accept, accept_take. rewrite Hac. cbn [mbind option_bind].
  rewrite Hph, Hh, Hg, Hl. eexists _, _, s. split; [done|]. eng_simpl. rewrite lookup_delete_eq.
  do 2 (split; [done|]). rewrite lookup_insert_eq. cbn [mbind option_bind]. eng_simpl.
  split; [done|]. eng_simpl. by rewrite lookup_alter_eq, Hs.
Qed.
End polls.
