(* ===== verification/ActionResults.v ===== *)
(** * Endings, results and memory of the goal engine

    Over every run of [ActionEngine]: an ending that is stepped to its end wakes
    every poll that waits, a result stays fetchable for its retention, a poll
    whose ending was dropped half-way waits for ever, and the tables that a
    client can fill stay within their bounds. *)

From S2P Require Import Prelude Names ActionWire ActionEngine ActionSafety ActionEndings ActionPolls.
#[local] Open Scope nat_scope.
#[local] Opaque PENDING_WAITERS_CAP EARLY_CANCELS_CAP EXPIRED_TOMBSTONE_CAP.

Section results.
Context `{Capnp} (retention : Z).
Notation reachable := (reachable retention).
Notation act := (act retention).
Notation run := (run retention).

(** ** An ending runs to its end *)

Definition wake (o : GoalOutcome) (ws : list nat) : list (nat * Reply) :=
  map (λ w, (w, Response (wrap_result_outcome o))) ws.

(** What the end of an ending leaves. *)
Definition done_ending (n : nat) (d : DeliverTask) (ws : list nat) (e e' : Engine) : Prop :=
  k_delivers (en_tasks e') !! n = None ∧
  lg_replies (en_log e') = lg_replies (en_log e) ++ wake (dl_outcome d) ws ∧
  lg_ends (en_log e') = lg_ends (en_log e) ++ (if dl_feedback d then [dl_slot d] else []) ∧
  t_slots (en_tables e') = t_slots (en_tables e).

Definition at_phase (d : DeliverTask) (phase : DeliverPhase) : DeliverTask :=
  mkDeliver (dl_caller d) (dl_slot d) (dl_outcome d) (dl_feedback d) phase.

Lemma deliver_step n d e :
  k_delivers (en_tasks e) !! n = Some d →
  act (StepDeliver n) e =
  match dl_phase d with
  | DSwap =>
      '(ended, t) ← terminal_swap (dl_slot d) (en_tables e);
      Some (if ended : bool then drop_deliver n e else put_deliver n (at_phase d DReplace) (set_tables t e))
  | DReplace =>
      '(waiters, t) ← terminal_replace (dl_slot d) (dl_outcome d) retention (en_tables e);
      Some (put_deliver n (at_phase d (DWake waiters)) (set_tables t e))
  | DWake [] => Some (put_deliver n (at_phase d DEnd) e)
  | DWake (w :: ws) =>
      Some (put_deliver n (at_phase d (DWake ws))
              (send_reply w (Response (wrap_result_outcome (dl_outcome d))) e))
  | DEnd => Some (drop_deliver n (if dl_feedback d then publish_end (dl_slot d) e else e))
  end.
Proof. intros Hd. cbn [ActionEngine.act]. unfold step_deliver. by rewrite Hd. Qed.

Lemma wake_completes n d ws e :
  k_delivers (en_tasks e) !! n = Some d → dl_phase d = DWake ws →
  ∃ e', run (replicate (2 + length ws) (StepDeliver n)) e = Some e' ∧ done_ending n d ws e e'.
Proof.
  revert d e. induction ws as [|w ws IH]; intros d e Hd Hph.
  - cbn [length Nat.add replicate ActionEngine.run]. rewrite (deliver_step n d e Hd), Hph.
    cbn [mbind option_bind]. rewrite (deliver_step n (at_phase d DEnd)) by (eng_simpl; apply lookup_insert_eq).
    eexists. split; [done|]. unfold done_ending. cbn. destruct (dl_feedback d); eng_simpl;
      rewrite lookup_delete_eq, ?app_nil_r; done.
  - destruct (IH (at_phase d (DWake ws)) (put_deliver n (at_phase d (DWake ws))
         (send_reply w (Response (wrap_result_outcome (dl_outcome d))) e))) as (e' & Hrun & Hn & Hrep & Hends & Hsl);
      [eng_simpl; apply lookup_insert_eq|done|].
    exists e'. split.
    + cbn [length Nat.add replicate ActionEngine.run]. rewrite (deliver_step n d e Hd), Hph. exact Hrun.
    + eng_simpl. rewrite <-app_assoc in Hrep. done.
Qed.

(** An ending terminates and wakes everyone: from any state of any run, the
    ending that won its goal and is stepped on stores its outcome, answers each
    of the polls that wait, in order and with that outcome, ends the feedback
    once and is over, in a number of steps fixed by the polls that wait. *)
Lemma ending_completes e n d s ws :
  reachable e → k_delivers (en_tasks e) !! n = Some d → dl_phase d = DReplace →
  t_slots (en_tables e) !! dl_slot d = Some s → gs_state s = Pending ws →
  ∃ e', run (replicate (3 + length ws) (StepDeliver n)) e = Some e' ∧
    k_delivers (en_tasks e') !! n = None ∧
    lg_replies (en_log e') = lg_replies (en_log e) ++ wake (dl_outcome d) ws ∧
    lg_ends (en_log e') = lg_ends (en_log e) ++ (if dl_feedback d then [dl_slot d] else []) ∧
    dl_slot d ∉ lg_ends (en_log e) ∧
    t_slots (en_tables e') !! dl_slot d =
      Some (set_gs_state (Terminal (dl_outcome d) (t_now (en_tables e) + retention)) s).
Proof.
  intros Hr Hd Hph Hs Hp.
  set (e1 := put_deliver n (at_phase d (DWake ws)) (set_tables
    (update_slot (set_gs_state (Terminal (dl_outcome d) (t_now (en_tables e) + retention))) (dl_slot d)
       (en_tables e)) e)).
  assert (Hstep : act (StepDeliver n) e = Some e1).
  { rewrite (deliver_step n d e Hd), Hph. unfold terminal_replace. rewrite Hs. cbn. by rewrite Hp. }
  destruct (wake_completes n (at_phase d (DWake ws)) ws e1) as (e' & Hrun & Hn & Hrep & Hends & Hsl); [|done|].
  { unfold e1. eng_simpl. apply lookup_insert_eq. }
  exists e'. split.
  { cbn [Nat.add replicate ActionEngine.run]. rewrite Hstep. exact Hrun. }
  do 3 (split; [done|]). split.
  - apply (ends_past e (ends_reachable retention e Hr) n d Hd). unfold past. congruence.
  - rewrite Hsl. unfold e1. eng_simpl. by rewrite lookup_alter_eq, Hs.
Qed.

(** ** An ending that was dropped *)

Definition stranded (e : Engine) (a : nat) (ws : list nat) : Prop :=
  (∀ n d, k_delivers (en_tasks e) !! n = Some d → dl_slot d = a → dl_phase d ≠ DReplace) ∧
  ∃ s ws', t_slots (en_tables e) !! a = Some s ∧ gs_terminal s = true ∧
    gs_state s = Pending (ws ++ ws').

Lemma stranded_step x e1 e2 a ws :
  reachable e1 → stranded e1 a ws → act x e1 = Some e2 → stranded e2 a ws.
Proof.
  intros Hr (Hno & s & ws' & Hs & Ht & Hp) Hx. split.
  - intros n d Hd Ha Hph. destruct (delivers_origin retention x e1 e2 n d Hx Hd) as
      [Hd'|[(_ & d0 & Hd0 & Hch & Ha0 & _)|[_ ?]]]; [by eapply Hno|..|congruence].
    rewrite Hph in Hch. inversion Hch as [s0 Hph0 Hs0 Ht0| | |]. rewrite <-Ha0, Ha in Hs0. congruence.
  - destruct (slot_step retention x e1 e2 a s (ids_reachable retention e1 Hr) Hx Hs) as (s' & Hs' & Hch).
    destruct Hch as [| | | |r' ws0 _ Hp0|r' ac l _ _ _| |n d _ Hd Ha Hph];
      try (eexists _, ws'; by split_and!).
    + rewrite Hp in Hp0. injection Hp0 as <-. eexists _, (ws' ++ [r']). by rewrite app_assoc.
    + unfold adopt in Hs'. rewrite Hp in Hs'. eexists _, (ws' ++ map pw_responder l).
      rewrite app_assoc. by split_and!.
    + exfalso. by eapply Hno.
Qed.

(** A poll whose goal's ending was dropped between the flag and the outcome
    is never answered, whatever happens next: its goal stays without an outcome,
    the poll keeps waiting and gets no reply, and no sweep evicts the goal. *)
Lemma dropped_ending_strands_polls e l e' a s ws :
  reachable e → t_slots (en_tables e) !! a = Some s → gs_terminal s = true → gs_state s = Pending ws →
  (∀ n d, k_delivers (en_tasks e) !! n = Some d → dl_slot d = a → dl_phase d ≠ DReplace) →
  run l e = Some e' →
  (∃ s' ws', t_slots (en_tables e') !! a = Some s' ∧ gs_terminal s' = true ∧ gs_state s' = Pending (ws ++ ws')) ∧
  (∀ r, r ∈ ws → r ∉ map fst (lg_replies (en_log e'))) ∧
  ∀ now busy, expired_at now busy (t_slots (en_tables e')) a = false.
Proof.
  intros Hr Hs Ht Hp Hno Hrun.
  destruct (run_ind retention (λ e, stranded e a ws) l e e') as [(_ & s' & ws' & Hs' & Ht' & Hp') Hr'];
    [|done| |done|].
  { intros x e1 e2 Hr1 Hst Hx. by eapply stranded_step. }
  { split; [done|]. exists s, []. by rewrite app_nil_r. }
  split; [by exists s', ws'|]. split.
  - intros r Hin. apply (waits_alone retention e' a r Hr'). exists s', (ws ++ ws').
    split_and!; [done..|]. rewrite elem_of_app. auto.
  - intros now busy. unfold expired_at. rewrite Hs', Hp'. by rewrite andb_false_r.
Qed.

(** ** A goal that is being accepted has not ended *)

Record young_inv (e : Engine) : Prop := {
  young_unique r1 ac1 r2 ac2 :
    k_accepts (en_tasks e) !! r1 = Some ac1 → k_accepts (en_tasks e) !! r2 = Some ac2 →
    ac_slot ac1 = ac_slot ac2 → r1 = r2;
  young_contexts r ac r' cx :
    k_accepts (en_tasks e) !! r = Some ac → k_contexts (en_tasks e) !! r' = Some cx → gc_slot cx ≠ ac_slot ac;
  young_delivers r ac n d :
    k_accepts (en_tasks e) !! r = Some ac → k_delivers (en_tasks e) !! n = Some d → dl_slot d ≠ ac_slot ac;
  young_slot r ac s :
    k_accepts (en_tasks e) !! r = Some ac → t_slots (en_tables e) !! ac_slot ac = Some s → gs_terminal s = false;
}.

Lemma made_old e a goal : ids_inv e → made e a goal → a ≠ en_fresh e.
Proof. intros Hids (_ & s & Hs%(ids_slots _ Hids) & _). lia. Qed.

Lemma young_reachable e : reachable e → young_inv e.
Proof.
  apply reachable_ind; [by split|]. intros x e1 e2 Hr [Hu Hc Hd Hs] Hx.
  assert (Hids := ids_reachable retention e1 Hr). assert (Hrefs := refs_reachable retention e1 Hr).
  assert (Hac : ∀ r ac, k_accepts (en_tasks e1) !! r = Some ac → ac_slot ac ≠ en_fresh e1)
    by (intros r ac Hr'; eapply made_old; [done|by eapply (refs_accepts _ Hrefs)]).
  assert (Hcx : ∀ r cx, k_contexts (en_tasks e1) !! r = Some cx → gc_slot cx ≠ en_fresh e1)
    by (intros r cx Hr'; destruct (refs_contexts _ Hrefs r cx Hr') as [goal ?]; by eapply made_old).
  assert (Hdl : ∀ n d, k_delivers (en_tasks e1) !! n = Some d → dl_slot d ≠ en_fresh e1)
    by (intros n d Hn; destruct (refs_delivers _ Hrefs n d Hn) as [goal ?]; by eapply made_old).
  split.
  - intros r1 ac1 r2 ac2 H1 H2 Heq. clear Hs Hc Hd Hcx Hdl.
    act_cases Hx; eng_simpl; map_cases; eng_simpl; eauto; try (exfalso; eapply Hac; [eassumption|]; congruence).
  - intros r ac r' cx H1 H2. clear Hs Hd Hdl.
    act_cases Hx; eng_simpl; map_cases; eng_simpl; eauto.
    all: intros Heq; eapply H0, Hu; eauto.
  - intros r ac n d H1 H2. clear Hs.
    act_cases Hx; eng_simpl; map_cases; eng_simpl; eauto.
  - intros r ac s H1 H2.
    destruct (accepts_origin retention x e1 e2 r ac Hx H1) as [(ac0 & H0 & Ha & _)|(resp & -> & Hg & Ha & _)].
    + rewrite <-Ha in H2. destruct (refs_accepts _ Hrefs r ac0 H0) as (_ & s1 & Hs1 & _).
      destruct (slot_step retention x e1 e2 _ s1 Hids Hx Hs1) as (s' & Hs' & Hch). simplify_eq.
      assert (Ht := Hs r ac0 s1 H0 Hs1). destruct Hch as [| | | | | |n d _ Hn Hsl _ _|]; try done.
      * unfold adopt. by destruct (gs_state s1).
      * exfalso. by eapply (Hd r ac0 n d).
    + rewrite Ha in H2.
      destruct (slot_born retention _ e1 e2 (en_fresh e1) s Hx) as (? & ? & ? & _ & _ & _ & ->); [|done|done].
      apply eq_None_not_Some. intros [s0 Hs0%(ids_slots _ Hids)]. lia.
Qed.

(** ** No task is stuck *)

(** A task stepped alone: [n] of its own steps at most lead from [e] to [e']. *)
Definition own_steps (own : Action → Prop) (n : nat) (e e' : Engine) : Prop :=
  ∃ l, length l ≤ n ∧ Forall own l ∧ run l e = Some e'.

(** A task each step of which lowers its rank is over in so many steps. *)
Lemma rank_finishes (own : Action → Prop) (rank : Engine → nat) (P : Engine → Prop) e :
  (∀ e, P e → rank e ≠ 0 → ∃ x e', own x ∧ act x e = Some e' ∧ P e' ∧ rank e' < rank e) →
  P e → ∃ e', own_steps own (rank e) e e' ∧ rank e' = 0 ∧ P e'.
Proof.
  intros Hstep. assert (Hn : ∀ n e, rank e ≤ n → P e → ∃ e', own_steps own (rank e) e e' ∧ rank e' = 0 ∧ P e').
  { clear e. induction n as [|n IH]; intros e Hle HP.
    - exists e. split; [|split; [lia|done]]. exists []. split; [cbn; lia|]. by split.
    - destruct (decide (rank e = 0)) as [Hz|Hz].
      + exists e. split; [|done]. exists []. split; [cbn; lia|]. by split.
      + destruct (Hstep e HP Hz) as (x & e1 & Hown & Hx & HP1 & Hlt).
        destruct (IH e1) as (e' & (l & Hl & Hall & Hrun) & Hr & HP'); [lia|done|].
        exists e'. split; [|done]. exists (x :: l). split; [cbn; lia|]. split; [by constructor|].
        cbn [ActionEngine.run]. by rewrite Hx. }
  by apply (Hn (rank e)).
Qed.

Definition result_rank (k : ResultPhase) : nat :=
  match k with
  | RIdle => 0 | RSend _ _ | RPark _ _ => 1 | RSlot _ _ | RTomb _ _ => 2 | RLock _ _ => 3 | RRoute _ _ => 4
  end.

Lemma result_steps e :
  reachable e → result_rank (k_result (en_tasks e)) ≠ 0 →
  ∃ e', act StepResult e = Some e' ∧ result_rank (k_result (en_tasks e')) < result_rank (k_result (en_tasks e)).
Proof.
  intros Hr Hne. assert (Hrefs := refs_reachable retention e Hr). cbn [ActionEngine.act]. unfold step_result.
  destruct (k_result (en_tasks e)) as [|g r|g r|g r|g r|a r|] eqn:E; cbn in Hne; try done.
  - eexists. split; [done|]. eng_simpl. destruct (t_registry _ !! g); cbn; lia.
  - eexists. split; [done|]. eng_simpl. destruct (t_registry _ !! g); cbn; lia.
  - eexists. split; [done|]. eng_simpl. destruct (tombstone_contains _ _); cbn; lia.
  - destruct (park_poll _ _ _). eexists. split; [done|]. cbn. lia.
  - destruct (refs_result _ Hrefs a r E) as (goal & _ & s & Hs & _). unfold act_on_slot. rewrite Hs.
    cbn [mbind option_bind]. destruct (gs_state s); cbn [mbind option_bind]; eexists; (split; [done|]); cbn; lia.
  - eexists. split; [done|]. cbn. lia.
Qed.

Definition cancel_rank (k : CancelPhase) : nat :=
  match k with
  | CIdle => 0 | CSend _ _ => 1 | CSlot _ _ _ _ | CRemember _ _ _ => 2
  | CEarly _ _ _ => 3 | CTomb _ _ _ => 4 | CLook _ _ _ => 5
  end.

Lemma cancel_at_made e g a c goal : made e a goal → ∃ state t, cancel_at g a c (en_tables e) = Some (state, t).
Proof.
  intros (_ & s & Hs & _). unfold cancel_at. rewrite Hs. cbn. destruct (cancel_slot g s c). eauto.
Qed.

Lemma cancel_steps e :
  reachable e → cancel_rank (k_cancel (en_tasks e)) ≠ 0 →
  ∃ e', act StepCancel e = Some e' ∧ cancel_rank (k_cancel (en_tasks e')) < cancel_rank (k_cancel (en_tasks e)).
Proof.
  intros Hr Hne. assert (Hrefs := refs_reachable retention e Hr). cbn [ActionEngine.act]. unfold step_cancel.
  destruct (k_cancel (en_tasks e)) as [|g c r|g a c r|g c r|g c r|g c r|] eqn:E; cbn in Hne; try done.
  - eexists. split; [done|]. eng_simpl. destruct (t_registry _ !! g); cbn; lia.
  - destruct (refs_cancel _ Hrefs g a c r E) as (goal & Hm & _).
    destruct (cancel_at_made e g a c goal Hm) as (st & t & ->). eexists. split; [done|]. cbn. lia.
  - eexists. split; [done|]. eng_simpl. destruct (tombstone_contains _ _); cbn; lia.
  - destruct (t_registry (en_tables e) !! g) as [a|] eqn:Hg; [|eexists; split; [done|]; cbn; lia].
    destruct (refs_registry _ Hrefs g a Hg) as (goal & Hm & _).
    destruct (cancel_at_made e g a c goal Hm) as (st & t & ->). eexists. split; [done|]. cbn. lia.
  - eexists. split; [done|]. cbn. lia.
  - eexists. split; [done|]. cbn. lia.
Qed.

Definition slot_waiters (t : Tables) (a : nat) : nat :=
  match gs_state <$> t_slots t !! a with Some (Pending ws) => length ws | _ => 0 end.

Definition deliver_rank (n : nat) (e : Engine) : nat :=
  match k_delivers (en_tasks e) !! n with
  | None => 0
  | Some d =>
      match dl_phase d with
      | DEnd => 1
      | DWake ws => 2 + length ws
      | DReplace => 3 + slot_waiters (en_tables e) (dl_slot d)
      | DSwap => 4 + slot_waiters (en_tables e) (dl_slot d)
      end
  end.

Lemma deliver_steps n e :
  reachable e → deliver_rank n e ≠ 0 →
  ∃ e', act (StepDeliver n) e = Some e' ∧ deliver_rank n e' < deliver_rank n e.
Proof.
  intros Hr. unfold deliver_rank at 1 3. destruct (k_delivers (en_tasks e) !! n) as [d|] eqn:Hd; [|done]. intros _.
  destruct (refs_delivers _ (refs_reachable retention e Hr) n d Hd) as (goal & _ & s & Hs & _).
  rewrite (deliver_step n d e Hd). unfold terminal_swap, terminal_replace, slot_waiters. rewrite Hs. cbn [mbind option_bind].
  destruct (dl_phase d) as [| |[|w ws]|] eqn:Hph.
  - destruct (gs_terminal s); eexists; (split; [done|]); unfold deliver_rank, slot_waiters; eng_simpl;
      rewrite ?lookup_delete_eq, ?lookup_insert_eq; [lia|].
    cbn. rewrite lookup_alter_eq, Hs. cbn. destruct (gs_state s); lia.
  - eexists. split; [done|]. unfold deliver_rank. eng_simpl. rewrite lookup_insert_eq. cbn. destruct (gs_state s); cbn; lia.
  - eexists. split; [done|]. unfold deliver_rank. eng_simpl. rewrite lookup_insert_eq. cbn. lia.
  - eexists. split; [done|]. unfold deliver_rank. eng_simpl. rewrite lookup_insert_eq. cbn. lia.
  - eexists. split; [done|]. unfold deliver_rank. eng_simpl. destruct (dl_feedback d); eng_simpl; rewrite lookup_delete_eq; lia.
Qed.

Definition locks_free (e : Engine) : Prop := pending_held e = false ∧ early_held e = false.

Definition accept_rank (r : nat) (e : Engine) : nat :=
  match ac_phase <$> k_accepts (en_tasks e) !! r with
  | None => 0
  | Some AForget | Some ATrack => 1
  | Some AReply => 2
  | Some (AAdopt _) => 3
  | Some ATake => 4
  | Some AEarly => 5
  end.

Lemma accept_steps r d e :
  locks_free e → accept_rank r e ≠ 0 →
  ∃ e', act (StepAccept r d) e = Some e' ∧ locks_free e' ∧ accept_rank r e' < accept_rank r e.
Proof.
  intros [Hp He]. unfold accept_rank at 1 3. destruct (k_accepts (en_tasks e) !! r) as [ac|] eqn:Hac; [|done].
  cbn [fmap option_fmap option_map]. intros Hne. cbn [ActionEngine.act]. unfold step_accept. rewrite Hac, Hp, He. cbn [mbind option_bind].
  unfold locks_free, pending_held, early_held, accept_rank in *.
  destruct (ac_phase ac) as [| |l| | |] eqn:Hph.
  - eexists. split; [done|]. eng_simpl. rewrite lookup_insert_eq. cbn. split; [done|lia].
  - eexists. split; [done|]. eng_simpl. rewrite lookup_insert_eq. split; [done|].
    cbn. destruct (t_pending _ !! _); cbn; lia.
  - eexists. split; [done|]. eng_simpl. rewrite lookup_insert_eq. cbn. split; [done|lia].
  - eexists. split; [done|]. destruct d; eng_simpl; rewrite lookup_insert_eq; cbn; (split; [done|lia]).
  - eexists. split; [done|]. eng_simpl. rewrite lookup_delete_eq. cbn. split; [done|lia].
  - destruct (track_sender_goal _ _ _ _) as [first t]. eexists. split; [done|].
    destruct first; eng_simpl; rewrite lookup_delete_eq; cbn; (split; [done|lia]).
Qed.

Definition sweep_rank (k : SweepPhase) : nat :=
  match k with SIdle => 0 | SEarly _ => 1 | SWatches _ => 2 | SPending _ => 3 | STomb _ _ => 4 end.

Definition sweeps (x : Action) : Prop := ∃ busy order, x = StepSweeper busy order.

Lemma sweep_steps e :
  locks_free e → sweep_rank (k_sweeper (en_tasks e)) ≠ 0 →
  ∃ order e', act (StepSweeper ∅ order) e = Some e' ∧ locks_free e' ∧
    sweep_rank (k_sweeper (en_tasks e')) < sweep_rank (k_sweeper (en_tasks e)).
Proof.
  intros [Hp He] Hne. exists match k_sweeper (en_tasks e) with STomb _ ids => elements ids | _ => [] end.
  cbn [ActionEngine.act]. unfold step_sweeper. rewrite Hp, He. unfold locks_free, pending_held, early_held in *.
  destruct (k_sweeper (en_tasks e)) as [|now ids|now|now|now]; cbn in Hne; try done.
  - rewrite !bool_decide_eq_true_2 by (apply NoDup_elements || apply list_to_set_elements_L).
    cbn [andb]. eexists. split; [done|]. cbn. split; [done|lia].
  - eexists. split; [done|]. cbn. split; [done|lia].
  - destruct (end_idle_sender_watches _). eexists. split; [done|]. cbn. split; [done|lia].
  - eexists. split; [done|]. cbn. split; [done|lia].
Qed.

(** A watch past its wait: it forgets its sender or signals its goals. *)
Definition watch_rank (n : nat) (e : Engine) : nat :=
  match k_watches (en_tasks e) !! n with
  | None => 0
  | Some w =>
      match wt_phase w with
      | WOpen | WWait | WGrace | WForget => 1
      | WSignal l => 1 + length l
      | WCollect goals => 2 + length (sender_slots goals (en_tables e))
      | WGone =>
          3 + length (sender_slots (default ∅ (sw_goals <$> t_senders (en_tables e) !! wt_sender w)) (en_tables e))
      end
  end.

Definition awaits (p : WatchPhase) : bool := match p with WOpen | WWait | WGrace => true | _ => false end.

Definition watch_on (n : nat) (e : Engine) : Prop :=
  ∀ w, k_watches (en_tasks e) !! n = Some w → awaits (wt_phase w) = true → wt_aborted w = true.

Lemma watch_steps n e :
  watch_on n e → watch_rank n e ≠ 0 →
  ∃ e', act (StepWatch n) e = Some e' ∧ watch_on n e' ∧ watch_rank n e' < watch_rank n e.
Proof.
  unfold watch_on. intros Hon. unfold watch_rank at 1 3.
  destruct (k_watches (en_tasks e) !! n) as [w|] eqn:Hw; [|done]. specialize (Hon w eq_refl). intros _.
  cbn [ActionEngine.act]. unfold step_watch. rewrite Hw. cbn [mbind option_bind].
  unfold watch_rank. destruct (wt_phase w) as [| | | | |goals|[|a l]] eqn:Hph; try rewrite (Hon eq_refl).
  all: eexists; (split; [done|]); eng_simpl; rewrite ?lookup_delete_eq, ?lookup_insert_eq; cbn.
  all: (split; [by intros ? [= <-]|]); try lia.
  unfold sender_slots. eng_simpl. lia.
Qed.

(** The steps that let go of the lock a loop holds. *)
Lemma pending_let_go e :
  pending_held e = true → ∃ e', own_steps (λ x, x = StepResult) 2 e e' ∧ pending_held e' = false.
Proof.
  unfold pending_held. destruct (k_result (en_tasks e)) as [| | |g r|g r| |] eqn:E; try done; intros _.
  - destruct (tombstone_contains g (t_tombs (en_tables e))) eqn:Ht.
    + eexists. split; [exists [StepResult]; split; [cbn; lia|]; split; [by repeat constructor|]|].
      * cbn [ActionEngine.run ActionEngine.act]. unfold step_result. rewrite E, Ht. done.
      * done.
    + destruct (park_poll g r (en_tables e)) as [b t] eqn:Hp.
      eexists. split; [exists [StepResult; StepResult]; split; [cbn; lia|]; split; [by repeat constructor|]|].
      * cbn [ActionEngine.run ActionEngine.act]. unfold step_result. rewrite E, Ht. cbn [mbind option_bind].
        eng_simpl. rewrite Hp. done.
      * done.
  - destruct (park_poll g r (en_tables e)) as [b t] eqn:Hp.
    eexists. split; [exists [StepResult]; split; [cbn; lia|]; split; [by repeat constructor|]|].
    + cbn [ActionEngine.run ActionEngine.act]. unfold step_result. rewrite E, Hp. done.
    + done.
Qed.

Lemma early_let_go e :
  early_held e = true → ∃ e', act StepCancel e = Some e' ∧ early_held e' = false.
Proof.
  unfold early_held. destruct (k_cancel (en_tasks e)) as [| | | | |g c r|] eqn:E; try done; intros _.
  cbn [ActionEngine.act]. unfold step_cancel. rewrite E. eexists. split; [done|]. done.
Qed.

Lemma own_weaken own n m e e' : n ≤ m → own_steps own n e e' → own_steps own m e e'.
Proof. intros Hle (l & Hl & ?). exists l. split; [lia|done]. Qed.

Lemma result_ends e : reachable e → ∃ e', own_steps (λ x, x = StepResult) 4 e e' ∧ k_result (en_tasks e') = RIdle.
Proof.
  intros Hr. destruct (rank_finishes (λ x, x = StepResult) (λ e, result_rank (k_result (en_tasks e))) reachable e)
    as (e' & Hs & Hz & _); [|done|].
  - intros e1 Hr1 Hne. destruct (result_steps e1 Hr1 Hne) as (e2 & Hx & Hlt). exists StepResult, e2.
    split_and!; [done..|by eapply reachable_step|done].
  - cbn in Hz. exists e'. split; [|by destruct (k_result (en_tasks e'))]. eapply own_weaken; [|exact Hs].
    destruct (k_result (en_tasks e)); cbn; lia.
Qed.

Lemma cancel_ends e : reachable e → ∃ e', own_steps (λ x, x = StepCancel) 5 e e' ∧ k_cancel (en_tasks e') = CIdle.
Proof.
  intros Hr. destruct (rank_finishes (λ x, x = StepCancel) (λ e, cancel_rank (k_cancel (en_tasks e))) reachable e)
    as (e' & Hs & Hz & _); [|done|].
  - intros e1 Hr1 Hne. destruct (cancel_steps e1 Hr1 Hne) as (e2 & Hx & Hlt). exists StepCancel, e2.
    split_and!; [done..|by eapply reachable_step|done].
  - cbn in Hz. exists e'. split; [|by destruct (k_cancel (en_tasks e'))]. eapply own_weaken; [|exact Hs].
    destruct (k_cancel (en_tasks e)); cbn; lia.
Qed.

Lemma deliver_ends n e :
  reachable e → ∃ e', own_steps (λ x, x = StepDeliver n) (deliver_rank n e) e e' ∧ k_delivers (en_tasks e') !! n = None.
Proof.
  intros Hr. destruct (rank_finishes (λ x, x = StepDeliver n) (deliver_rank n) reachable e) as (e' & Hs & Hz & _); [|done|].
  - intros e1 Hr1 Hne. destruct (deliver_steps n e1 Hr1 Hne) as (e2 & Hx & Hlt). exists (StepDeliver n), e2.
    split_and!; [done..|by eapply reachable_step|done].
  - exists e'. split; [done|]. unfold deliver_rank in Hz. destruct (k_delivers _ !! n) as [d|]; [|done].
    by destruct (dl_phase d).
Qed.

Lemma accept_ends r d e :
  locks_free e → ∃ e', own_steps (λ x, x = StepAccept r d) 5 e e' ∧ k_accepts (en_tasks e') !! r = None.
Proof.
  intros Hf. destruct (rank_finishes (λ x, x = StepAccept r d) (accept_rank r) locks_free e) as (e' & Hs & Hz & _); [|done|].
  - intros e1 Hf1 Hne. destruct (accept_steps r d e1 Hf1 Hne) as (e2 & Hx & ? & ?). by exists (StepAccept r d), e2.
  - unfold accept_rank in *. exists e'. split.
    + eapply own_weaken; [|done]. destruct (k_accepts (en_tasks e) !! r) as [[? ? ? []]|]; cbn; lia.
    + destruct (k_accepts (en_tasks e') !! r) as [[? ? ? []]|]; done.
Qed.

Lemma sweep_ends e : locks_free e → ∃ e', own_steps sweeps 4 e e' ∧ k_sweeper (en_tasks e') = SIdle.
Proof.
  intros Hf. destruct (rank_finishes sweeps (λ e, sweep_rank (k_sweeper (en_tasks e))) locks_free e) as (e' & Hs & Hz & _); [|done|].
  - intros e1 Hf1 Hne. destruct (sweep_steps e1 Hf1 Hne) as (order & e2 & Hx & ? & ?).
    exists (StepSweeper ∅ order), e2. split_and!; [by eexists _, _|done..].
  - cbn in Hz. exists e'. split; [|by destruct (k_sweeper (en_tasks e'))]. eapply own_weaken; [|exact Hs].
    destruct (k_sweeper (en_tasks e)); cbn; lia.
Qed.

(** What ends the wait of a watch that nobody aborted. *)
Definition watch_hears (p : WatchPhase) (ev : WatchEvent) : bool :=
  match p, ev with
  | WOpen, (Opened | OpenFailed) | WWait, (WatchClosed | ConfirmedGone _) | WGrace, Probed _ => true
  | _, _ => false
  end.

Lemma watch_ends n w e :
  k_watches (en_tasks e) !! n = Some w →
  if awaits (wt_phase w) && negb (wt_aborted w)
  then ∀ ev, watch_hears (wt_phase w) ev = true → is_Some (act (OnWatch n ev) e)
  else ∃ e', own_steps (λ x, x = StepWatch n) (watch_rank n e) e e' ∧ k_watches (en_tasks e') !! n = None.
Proof.
  intros Hw. destruct (awaits (wt_phase w) && negb (wt_aborted w)) eqn:Ha.
  - intros ev Hev. cbn [ActionEngine.act]. unfold watch_event. rewrite Hw. cbn [mbind option_bind].
    destruct (wt_phase w), ev; cbn in *; try done; eauto.
  - destruct (rank_finishes (λ x, x = StepWatch n) (watch_rank n) (watch_on n) e) as (e' & Hs & Hz & _).
    + intros e1 Hon Hne. destruct (watch_steps n e1 Hon Hne) as (e2 & Hx & ? & ?). by exists (StepWatch n), e2.
    + intros w' Hw' Haw. assert (w' = w) as -> by congruence. rewrite Haw in Ha. by destruct (wt_aborted w).
    + exists e'. split; [done|]. unfold watch_rank in Hz. destruct (k_watches (en_tasks e') !! n) as [w'|]; [|done].
      by destruct (wt_phase w').
Qed.

(** C19: No task of the engine is ever stuck. In every run, stepped on its own: the
    result loop and the cancel loop are done with their request in at most four
    and five steps; an ending is over, and so is a sender watch that was aborted
    or is past its wait, while one that waits takes whatever event comes; and,
    once nobody holds the parked polls or the early cancels, an accept is over in
    at most five steps and a sweep in at most four, whatever it is at. A loop that
    holds one of those locks lets go of it within two steps of its own. *)
Theorem no_task_is_stuck e :
  reachable e →
  (∃ e', own_steps (λ x, x = StepResult) 4 e e' ∧ k_result (en_tasks e') = RIdle) ∧
  (∃ e', own_steps (λ x, x = StepCancel) 5 e e' ∧ k_cancel (en_tasks e') = CIdle) ∧
  (∀ n d, k_delivers (en_tasks e) !! n = Some d →
     ∃ e', own_steps (λ x, x = StepDeliver n) (deliver_rank n e) e e' ∧ k_delivers (en_tasks e') !! n = None) ∧
  (∀ n w, k_watches (en_tasks e) !! n = Some w →
     if awaits (wt_phase w) && negb (wt_aborted w)
     then ∀ ev, watch_hears (wt_phase w) ev = true → is_Some (act (OnWatch n ev) e)
     else ∃ e', own_steps (λ x, x = StepWatch n) (watch_rank n e) e e' ∧ k_watches (en_tasks e') !! n = None) ∧
  (pending_held e = true → ∃ e', own_steps (λ x, x = StepResult) 2 e e' ∧ pending_held e' = false) ∧
  (early_held e = true → ∃ e', own_steps (λ x, x = StepCancel) 1 e e' ∧ early_held e' = false) ∧
  (pending_held e = false → early_held e = false →
     (∀ r ac d, k_accepts (en_tasks e) !! r = Some ac →
        ∃ e', own_steps (λ x, x = StepAccept r d) 5 e e' ∧ k_accepts (en_tasks e') !! r = None) ∧
     (∃ e', own_steps sweeps 4 e e' ∧ k_sweeper (en_tasks e') = SIdle) ∧
     (k_sweeper (en_tasks e) = SIdle → ∀ busy, is_Some (act (StepSweeper busy []) e))).
Proof.
  intros Hr. split_and!; [by apply result_ends|by apply cancel_ends|intros; by apply deliver_ends|..].
  - intros n w Hw. by apply watch_ends.
  - apply pending_let_go.
  - intros (e' & Hx & Hh)%early_let_go. exists e'. split; [|done]. exists [StepCancel].
    split; [cbn; lia|]. split; [by repeat constructor|]. cbn [ActionEngine.run]. by rewrite Hx.
  - intros Hp He. split_and!; [intros; by apply accept_ends|by apply sweep_ends|].
    intros Hk busy. cbn [ActionEngine.act]. unfold step_sweeper. rewrite Hk. destruct (sweep_evict _ _ _). eauto.
Qed.

(** ** A result stays fetchable *)

Definition only_slot (e : Engine) (g : string) (a : nat) : Prop :=
  ∀ b goal, lg_made (en_log e) !! b = Some goal → pg_goal_id goal = g → b = a.

Lemma log_made_grows x e1 e2 b goal :
  act x e1 = Some e2 → lg_made (en_log e1) !! b = Some goal → b ≠ en_fresh e1 →
  lg_made (en_log e2) !! b = Some goal.
Proof. intros Hx Hm Hb. act_cases Hx; eng_simpl; try done. by rewrite lookup_insert_ne. Qed.

Lemma now_step x e1 e2 : act x e1 = Some e2 → (t_now (en_tables e1) ≤ t_now (en_tables e2))%Z.
Proof. intros Hx. act_cases Hx; eng_simpl; lia. Qed.

(** What takes a goal out of the registry, or puts another slot in its place. *)
Lemma registry_kept x e1 e2 g a :
  act x e1 = Some e2 → t_registry (en_tables e1) !! g = Some a →
  t_registry (en_tables e2) !! g = Some a ∨
  (∃ busy, expired_at (t_now (en_tables e1)) busy (t_slots (en_tables e1)) a = true) ∨
  (∃ r ac, k_accepts (en_tasks e1) !! r = Some ac ∧ pg_goal_id (ac_goal ac) = g) ∨
  (∃ goal, lg_made (en_log e2) !! en_fresh e1 = Some goal ∧ pg_goal_id goal = g).
Proof.
  intros Hx Hg. act_cases Hx; eng_simpl; auto.
  1, 2: destruct (expired_at (t_now (en_tables e1)) busy (t_slots (en_tables e1)) a) eqn:E; [eauto|];
    left; by apply map_lookup_filter_Some.
  - destruct (decide (pg_goal_id H0 = g)) as [He|]; [|by rewrite lookup_insert_ne by done; left].
    do 3 right. exists H0. by rewrite lookup_insert_eq.
  - destruct (decide (pg_goal_id (ac_goal H0) = g)) as [He|]; [|by rewrite lookup_delete_ne by done; left].
    right. right. left. eauto.
Qed.

Lemma log_made_old e b goal : reachable e → lg_made (en_log e) !! b = Some goal → b < en_fresh e.
Proof.
  intros Hr. revert e Hr b goal. apply (reachable_ind retention (λ e, ∀ b goal, _ → _)); [done|].
  intros x e1 e2 _ Hinv Hx b goal Hb. act_cases Hx; eng_simpl; map_cases; try lia.
  all: apply Hinv in Hb; lia.
Qed.

Lemma only_slot_back x e1 e2 g a :
  reachable e1 → act x e1 = Some e2 → only_slot e2 g a → only_slot e1 g a.
Proof.
  intros Hr Hx Ho b goal Hb. apply Ho. apply (log_made_grows x e1 e2 b goal Hx Hb).
  apply log_made_old in Hb; [lia|done].
Qed.

Definition fetchable (g : string) (a : nat) (o : GoalOutcome) (t : Z) (e : Engine) : Prop :=
  (∃ s, t_slots (en_tables e) !! a = Some s ∧ gs_terminal s = true ∧ gs_state s = Terminal o t) ∧
  ((t_now (en_tables e) < t)%Z → only_slot e g a → t_registry (en_tables e) !! g = Some a).

Lemma fetchable_step g a o t x e1 e2 :
  reachable e1 → fetchable g a o t e1 → act x e1 = Some e2 → fetchable g a o t e2.
Proof.
  intros Hr [(s & Hs & Ht & Hst) Hreg] Hx. assert (Hids := ids_reachable retention e1 Hr). split.
  - destruct (slot_step retention x e1 e2 a s Hids Hx Hs) as (s' & Hs' & Hch). exists s'. split; [done|].
    split; [by eapply terminal_kept|]. eapply outcome_kept; [by apply (ends_reachable retention)|done..].
  - intros Hnow Ho. assert (Hle := now_step x e1 e2 Hx).
    assert (Hreg1 : t_registry (en_tables e1) !! g = Some a).
    { apply Hreg; [lia|by eapply only_slot_back]. }
    destruct (registry_kept x e1 e2 g a Hx Hreg1) as [|[[busy He]|[(r & ac & Hac & Hg)|(goal & Hm & Hg)]]]; [done|..].
    + unfold expired_at in He. rewrite Hs, Hst in He. apply andb_true_iff in He as [_ He]. lia.
    + exfalso. destruct (refs_accepts _ (refs_reachable retention e1 Hr) r ac Hac) as [Hm _].
      assert (ac_slot ac = a) as Ha by (by eapply (only_slot_back x e1 e2 g a Hr Hx Ho)).
      assert (Hf := young_slot _ (young_reachable e1 Hr) r ac s Hac). rewrite Ha in Hf. by rewrite Hf in Ht.
    + exfalso. assert (en_fresh e1 = a) as <- by (by eapply Ho). apply (ids_slots _ Hids) in Hs. lia.
Qed.

(** What a poll of a registered goal gets. *)
Lemma poll_terminal e p g a s o t :
  k_result (en_tasks e) = RIdle → goal_id_from_request p = Ok g → t_registry (en_tables e) !! g = Some a →
  t_slots (en_tables e) !! a = Some s → gs_state s = Terminal o t → (t_now (en_tables e) < t)%Z →
  ∃ e', run [RecvResult p; StepResult; StepResult; StepResult] e = Some e' ∧
    lg_replies (en_log e') = lg_replies (en_log e) ++ [(en_fresh e, Response (wrap_result_outcome o))] ∧
    en_tables e' = en_tables e ∧ k_result (en_tasks e') = RIdle.
Proof.
  intros Hidle Hp Hg Hs Hst Hnow. cbn [ActionEngine.run ActionEngine.act]. unfold recv_result.
  rewrite Hidle, Hp. cbn [mbind option_bind]. unfold step_result. eng_simpl. rewrite Hg.
  cbn [mbind option_bind]. eng_simpl. unfold act_on_slot. rewrite Hs. cbn [mbind option_bind]. rewrite Hst.
  apply Z.ltb_lt in Hnow. rewrite Hnow. cbn [mbind option_bind]. eng_simpl.
  eexists. split; [done|]. by eng_simpl.
Qed.

(** C16: A result stays fetchable for its retention: from any state of any run in
    which a registered goal has its outcome, whatever the tasks do until its
    window ends, as long as no other goal was accepted under its id (which would
    take its place in the registry, [second_goal_hides_the_result]), the goal is
    still registered, and a poll that comes while the result loop is free is sent
    that very outcome. *)
Theorem results_stay_fetchable e l e' g a s o t :
  reachable e → t_registry (en_tables e) !! g = Some a → t_slots (en_tables e) !! a = Some s →
  gs_state s = Terminal o t → run l e = Some e' → (t_now (en_tables e') < t)%Z → only_slot e' g a →
  t_registry (en_tables e') !! g = Some a ∧
  ∀ p, k_result (en_tasks e') = RIdle → goal_id_from_request p = Ok g →
    ∃ e'', run [RecvResult p; StepResult; StepResult; StepResult] e' = Some e'' ∧
      lg_replies (en_log e'') =
        lg_replies (en_log e') ++ [(en_fresh e', Response (wrap_result_outcome o))].
Proof.
  intros Hr Hg Hs Hst Hrun Hnow Ho.
  destruct (run_ind retention (fetchable g a o t) l e e') as [[(s' & Hs' & _ & Hst') Hreg] Hr'];
    [intros x e1 e2 ???; by eapply fetchable_step|done| |done|].
  { split; [|done]. exists s. split; [done|]. split; [|done]. destruct (gs_terminal s) eqn:Ht; [done|].
    destruct (ends_flag e (ends_reachable retention e Hr) a s Hs Ht) as [[ws Hws] _]. congruence. }
  split; [by apply Hreg|]. intros p Hidle Hp.
  destruct (poll_terminal e' p g a s' o t) as (e'' & ? & ? & _); auto; eauto.
Qed.
End results.
