(* ===== verification/ActionBounds.v ===== *)
(** * The memory of the goal engine

    What a client can make the engine keep without a goal being accepted is
    bounded: the polls that are parked, the cancels that are remembered and the
    ids of the goals that were evicted. *)

From S2P Require Import Prelude Names ActionWire ActionEngine ActionSafety ActionPolls.
#[local] Open Scope nat_scope.
#[local] Opaque PENDING_WAITERS_CAP EARLY_CANCELS_CAP EXPIRED_TOMBSTONE_CAP.

(** ** Tombstones *)

Record tombs_ok (t : ExpiredTombstones) : Prop := {
  tombs_nodup : NoDup (tb_order t);
  tombs_set : tb_set t = list_to_set (tb_order t);
  tombs_len : length (tb_order t) ≤ tb_cap t;
}.

(** [make_room] keeps the newest ids, one fewer than the cap. *)
Lemma make_room_spec cap order set order' set' :
  NoDup order → set = list_to_set order → make_room cap order set = (order', set') →
  (∃ k, order' = drop k order) ∧ set' = list_to_set order' ∧ (cap ≠ 0 → length order' < cap).
Proof.
  revert set. induction order as [|old rest IH]; intros set Hnd Hset; cbn.
  { intros [= <- <-]. split; [by exists 0|]. split; [done|]. cbn. lia. }
  apply NoDup_cons in Hnd as [Hold Hnd]. destruct (cap <=? S (length rest)) eqn:E.
  - intros Hm. destruct (IH (set ∖ {[old]}) Hnd) as ([k ->] & Hs & Hl); [subst; cbn; set_solver|done|].
    split; [by exists (S k)|]. done.
  - intros [= <- <-]. split; [by exists 0|]. split; [done|]. cbn. apply Nat.leb_gt in E. lia.
Qed.

Lemma tombstone_insert_ok id t : tb_cap t ≠ 0 → tombs_ok t → tombs_ok (tombstone_insert id t).
Proof.
  intros Hcap [Hnd Hset Hlen]. unfold tombstone_insert. case_bool_decide as Hin; [done|].
  destruct (make_room (tb_cap t) (tb_order t) (tb_set t)) as [order set] eqn:E.
  destruct (make_room_spec _ _ _ _ _ Hnd Hset E) as ([k ->] & -> & Hl). specialize (Hl Hcap).
  assert (Hnew : id ∉ drop k (tb_order t)).
  { intros Hk. apply Hin. rewrite Hset, elem_of_list_to_set. by eapply subseteq_drop. }
  split; cbn.
  - apply NoDup_app. split; [|split; [|apply NoDup_singleton]].
    + eapply sublist_NoDup; [done|apply sublist_drop].
    + intros y Hy ->%list_elem_of_singleton. done.
  - rewrite list_to_set_app_L. cbn. set_solver.
  - rewrite length_app. cbn. lia.
Qed.

Lemma tombstone_insert_cap id t : tb_cap (tombstone_insert id t) = tb_cap t.
Proof. unfold tombstone_insert. repeat case_match; done. Qed.

Lemma tombstone_inserts_ok ids t :
  tb_cap t ≠ 0 → tombs_ok t →
  tombs_ok (fold_left (λ tombs id, tombstone_insert id tombs) ids t) ∧
  tb_cap (fold_left (λ tombs id, tombstone_insert id tombs) ids t) = tb_cap t.
Proof.
  revert t. induction ids as [|id ids IH]; intros t Hcap Hok; cbn; [done|].
  rewrite <-(tombstone_insert_cap id t). apply IH; [by rewrite tombstone_insert_cap|].
  by apply tombstone_insert_ok.
Qed.

(** ** The parked polls *)

Lemma total_pending_sum m : total_pending m = map_sum length m.
Proof.
  unfold total_pending, map_sum. rewrite map_fold_foldr.
  induction (map_to_list m) as [|[g l] ls IH]; cbn; [done|]. by rewrite IH.
Qed.

Lemma swept_length now l l' :
  match retain (λ w, Z.ltb now (pw_deadline w)) l with [] => None | l => Some l end = Some l' →
  length l' ≤ length l.
Proof.
  intros Hl. assert (l' = retain (λ w, Z.ltb now (pw_deadline w)) l) as -> by (by case_match; simplify_eq).
  apply List.filter_length_le.
Qed.

Section bounds.
Context `{Capnp} (retention : Z).
Notation reachable := (reachable retention).
Notation act := (act retention).

Record bounds_inv (e : Engine) : Prop := {
  bounds_pending : total_pending (t_pending (en_tables e)) ≤ PENDING_WAITERS_CAP;
  bounds_early : size (t_early (en_tables e)) ≤ EARLY_CANCELS_CAP;
  bounds_tombs : tombs_ok (t_tombs (en_tables e));
  bounds_cap : tb_cap (t_tombs (en_tables e)) = EXPIRED_TOMBSTONE_CAP;
}.

Lemma tombstone_cap_pos : EXPIRED_TOMBSTONE_CAP ≠ 0.
Proof. #[local] Transparent EXPIRED_TOMBSTONE_CAP. unfold EXPIRED_TOMBSTONE_CAP. lia. Qed.

Lemma park_length (m : gmap string (list PendingWaiter)) g w :
  map_sum length (<[g := default [] (m !! g) ++ [w]]> m) = S (map_sum length m).
Proof.
  rewrite map_sum_insert, (map_sum_split length m g), length_app. cbn. destruct (m !! g); cbn; lia.
Qed.

Lemma delete_length (m : gmap string (list PendingWaiter)) g n :
  map_sum length m ≤ n → map_sum length (delete g m) ≤ n.
Proof. rewrite (map_sum_split length m g). lia. Qed.

Lemma bounds_reachable e : reachable e → bounds_inv e.
Proof.
  apply reachable_ind.
  { intros now. split; cbn; [rewrite total_pending_sum, map_sum_empty; lia|rewrite map_size_empty; lia| |done].
    split; cbn; [constructor|done|lia]. }
  intros x e1 e2 _ [Hp He Ht Hc] Hx. rewrite total_pending_sum in Hp.
  assert (Hpos := tombstone_cap_pos).
  split; act_cases Hx; eng_simpl; rewrite ?total_pending_sum in *; auto.
  all: try (apply tombstone_inserts_ok; [congruence|done]).
  all: try (rewrite <-Hc; apply tombstone_inserts_ok; [congruence|done]).
  - rewrite park_length. apply Nat.leb_gt in H2. lia.
  - etrans; [|exact Hp]. apply map_sum_omap_le, swept_length.
  - etrans; [|exact Hp]. apply map_sum_omap_le, swept_length.
  - by apply delete_length.
  - by apply delete_length.
  - rewrite map_size_insert. apply Nat.ltb_lt in H1. case_match; unfold id; lia.
  - etrans; [|exact He]. apply map_subseteq_size, map_filter_subseteq.
  - etrans; [|exact He]. apply map_subseteq_size, map_filter_subseteq.
  - etrans; [|exact He]. apply map_subseteq_size, delete_subseteq.
Qed.

(** C21: The memory a client can claim without a goal is bounded: in every run at
    most 1024 polls are parked, at most 1024 cancels are remembered, at most 4096
    ids of evicted goals are kept, each of them once, and the table that answers
    whether a goal was evicted holds exactly those. *)
Theorem engine_memory_bounded e :
  reachable e →
  total_pending (t_pending (en_tables e)) ≤ PENDING_WAITERS_CAP ∧
  size (t_early (en_tables e)) ≤ EARLY_CANCELS_CAP ∧
  length (tb_order (t_tombs (en_tables e))) ≤ EXPIRED_TOMBSTONE_CAP ∧
  NoDup (tb_order (t_tombs (en_tables e))) ∧
  ∀ g, tombstone_contains g (t_tombs (en_tables e)) = true ↔ g ∈ tb_order (t_tombs (en_tables e)).
Proof.
  intros [Hp He [Hnd Hset Hlen] Hc]%bounds_reachable. split; [done|]. split; [done|].
  split; [by rewrite <-Hc|]. split; [done|]. intros g. unfold tombstone_contains.
  rewrite bool_decide_eq_true, Hset. apply elem_of_list_to_set.
Qed.
End bounds.
