(* ===== verification/CancelLinks.v ===== *)
(** * Tokens linked to the cancel signal of a goal

    The [linked] tokens of a [GoalSlot] ([actions.rs]): [signal_cancel],
    [link] and the drop of a [CancelLink], which run on any thread. A call of
    [signal_cancel] is four steps, as the cause, the cancel token and the linked
    tokens are set one after the other and the tokens it took are cancelled
    without a lock. A call of [link] is one critical section, and a step more
    when it cancels the token itself. A token is a number; [External] is a cancel
    of it from elsewhere. The ids of the links are [u64] in the source and are
    taken not to run out. *)

From S2P Require Import Prelude ActionEngine.
#[local] Open Scope nat_scope.

Inductive SignalPhase : Type :=
| SgCause
| SgCancel
| SgTake
| SgRun (tokens : list (nat * nat)).

Record LinkState : Type := mkLinkState {
  ls_cause : option CancelCause;
  ls_cancelled : bool;
  ls_next : nat;
  ls_tokens : list (nat * nat);
  ls_done : gset nat;
  ls_external : gset nat;
  ls_signals : gmap nat (CancelCause * SignalPhase);
  ls_linking : gmap nat nat;
  ls_links : gmap nat nat;
  ls_returned : list nat;
}.

Definition links_start : LinkState := mkLinkState None false 0 [] ∅ ∅ ∅ ∅ ∅ [].

Definition put_signal (n : nat) (x : CancelCause * SignalPhase) (st : LinkState) : LinkState :=
  mkLinkState (ls_cause st) (ls_cancelled st) (ls_next st) (ls_tokens st) (ls_done st) (ls_external st)
    (<[n := x]> (ls_signals st)) (ls_linking st) (ls_links st) (ls_returned st).

Definition cancel_token (token : nat) (st : LinkState) : LinkState :=
  mkLinkState (ls_cause st) (ls_cancelled st) (ls_next st) (ls_tokens st) ({[token]} ∪ ls_done st)
    (ls_external st) (ls_signals st) (ls_linking st) (ls_links st) (ls_returned st).

(** The steps of [signal_cancel]. *)
Definition step_signal (n : nat) (st : LinkState) : option LinkState :=
  '(cause, phase) ← ls_signals st !! n;
  match phase with
  | SgCause =>
      Some (put_signal n (cause, SgCancel)
              (mkLinkState (option_or (ls_cause st) (Some cause)) (ls_cancelled st) (ls_next st) (ls_tokens st)
                 (ls_done st) (ls_external st) (ls_signals st) (ls_linking st) (ls_links st) (ls_returned st)))
  | SgCancel =>
      Some (put_signal n (cause, SgTake)
              (mkLinkState (ls_cause st) true (ls_next st) (ls_tokens st)
                 (ls_done st) (ls_external st) (ls_signals st) (ls_linking st) (ls_links st) (ls_returned st)))
  | SgTake =>
      Some (put_signal n (cause, SgRun (ls_tokens st))
              (mkLinkState (ls_cause st) (ls_cancelled st) (ls_next st) []
                 (ls_done st) (ls_external st) (ls_signals st) (ls_linking st) (ls_links st) (ls_returned st)))
  | SgRun ((id, token) :: rest) => Some (put_signal n (cause, SgRun rest) (cancel_token token st))
  | SgRun [] =>
      Some (mkLinkState (ls_cause st) (ls_cancelled st) (ls_next st) (ls_tokens st) (ls_done st) (ls_external st)
              (delete n (ls_signals st)) (ls_linking st) (ls_links st) (ls_returned st ++ [n]))
  end.

(** [link], up to the end of its critical section. *)
Definition link (token : nat) (st : LinkState) : LinkState :=
  let id := ls_next st in
  if ls_cancelled st
  then mkLinkState (ls_cause st) (ls_cancelled st) (S id) (ls_tokens st) (ls_done st) (ls_external st)
         (ls_signals st) (<[id := token]> (ls_linking st)) (ls_links st) (ls_returned st)
  else mkLinkState (ls_cause st) (ls_cancelled st) (S id) (ls_tokens st ++ [(id, token)]) (ls_done st)
         (ls_external st) (ls_signals st) (ls_linking st) (<[id := token]> (ls_links st)) (ls_returned st).

(** [link], the cancel of a token that came late, and its return. *)
Definition step_link (id : nat) (st : LinkState) : option LinkState :=
  token ← ls_linking st !! id;
  Some (mkLinkState (ls_cause st) (ls_cancelled st) (ls_next st) (ls_tokens st) ({[token]} ∪ ls_done st)
          (ls_external st) (ls_signals st) (delete id (ls_linking st)) (<[id := token]> (ls_links st))
          (ls_returned st)).

(** The drop of a [CancelLink]. *)
Definition drop_link (id : nat) (st : LinkState) : option LinkState :=
  _ ← ls_links st !! id;
  Some (mkLinkState (ls_cause st) (ls_cancelled st) (ls_next st)
          (retain (λ x : nat * nat, negb (Nat.eqb x.1 id)) (ls_tokens st)) (ls_done st)
          (ls_external st) (ls_signals st) (ls_linking st) (delete id (ls_links st)) (ls_returned st)).

Inductive LinkAction : Type :=
| Signal (n : nat) (cause : CancelCause)
| StepSignal (n : nat)
| Link (token : nat)
| StepLink (id : nat)
| DropLink (id : nat)
| External (token : nat).

Definition link_act (x : LinkAction) (st : LinkState) : option LinkState :=
  match x with
  | Signal n cause =>
      match ls_signals st !! n with Some _ => None | None => Some (put_signal n (cause, SgCause) st) end
  | StepSignal n => step_signal n st
  | Link token => Some (link token st)
  | StepLink id => step_link id st
  | DropLink id => drop_link id st
  | External token =>
      Some (mkLinkState (ls_cause st) (ls_cancelled st) (ls_next st) (ls_tokens st) ({[token]} ∪ ls_done st)
              ({[token]} ∪ ls_external st) (ls_signals st) (ls_linking st) (ls_links st) (ls_returned st))
  end.

Fixpoint link_run (l : list LinkAction) (st : LinkState) : option LinkState :=
  match l with [] => Some st | x :: l => st ← link_act x st; link_run l st end.

Definition link_reachable (st : LinkState) : Prop := ∃ l, link_run l links_start = Some st.

Lemma link_run_app l1 l2 st : link_run (l1 ++ l2) st = link_run l1 st ≫= link_run l2.
Proof.
  revert st. induction l1 as [|x l1 IH]; intros st; cbn; [done|].
  destruct (link_act x st) as [st'|]; [|done]. apply IH.
Qed.

Lemma link_reachable_ind (P : LinkState → Prop) :
  P links_start → (∀ x st st', P st → link_act x st = Some st' → P st') → ∀ st, link_reachable st → P st.
Proof.
  intros Hstart Hstep st (l & Hrun). revert st Hrun.
  induction l as [|x l IH] using rev_ind; intros st Hrun; [by injection Hrun as <-|].
  rewrite link_run_app in Hrun. destruct (link_run l links_start) as [st0|]; [|done].
  cbn in Hrun. destruct (link_act x st0) as [st1|] eqn:Hx; [|done]. injection Hrun as <-. eauto.
Qed.

(** A signal that has still to take the tokens, or took one and has still to
    cancel it. *)
Definition will_take (st : LinkState) : Prop := ∃ n cause, ls_signals st !! n = Some (cause, SgTake).

Definition took (st : LinkState) (p : nat * nat) : Prop :=
  ∃ n cause l, ls_signals st !! n = Some (cause, SgRun l) ∧ p ∈ l.

Record links_inv (st : LinkState) : Prop := {
  links_ids id token : ls_links st !! id = Some token ∨ ls_linking st !! id = Some token → id < ls_next st;
  links_apart id token token' : ls_linking st !! id = Some token → ls_links st !! id ≠ Some token';
  links_held id token : (id, token) ∈ ls_tokens st → ls_links st !! id = Some token;
  links_live id token : ls_links st !! id = Some token →
    (id, token) ∈ ls_tokens st ∨ took st (id, token) ∨ token ∈ ls_done st;
  links_taken : ls_cancelled st = true → ls_tokens st ≠ [] → will_take st;
  links_flag n cause phase : ls_signals st !! n = Some (cause, phase) →
    match phase with SgCause => True | SgCancel => is_Some (ls_cause st) | _ => ls_cancelled st = true end;
  links_cause : ls_cancelled st = true → is_Some (ls_cause st);
  links_quiet : ls_cancelled st = false → ls_done st = ls_external st ∧ ls_linking st = ∅;
}.

(** What a step of one signal keeps of the others. *)
Lemma will_take_put st st' n x :
  ls_signals st' = <[n := x]> (ls_signals st) →
  (∀ cause, ls_signals st !! n ≠ Some (cause, SgTake)) → will_take st → will_take st'.
Proof.
  intros Heq Hn (m & cause & Hm). exists m, cause. rewrite Heq, lookup_insert_ne; [done|].
  intros ->. by apply (Hn cause).
Qed.

Lemma took_put st st' n x p :
  ls_signals st' = <[n := x]> (ls_signals st) →
  (∀ cause l, ls_signals st !! n = Some (cause, SgRun l) → p ∉ l) → took st p → took st' p.
Proof.
  intros Heq Hn (m & cause & l & Hm & Hp). exists m, cause, l. rewrite Heq, lookup_insert_ne; [done|].
  intros ->. by apply (Hn cause l).
Qed.

Lemma step_signal_inv n st st' : links_inv st → step_signal n st = Some st' → links_inv st'.
Proof.
  intros [Hids Hapart Hheld Hlive Htaken Hflag Hcause Hquiet] Hx. unfold step_signal in Hx.
  destruct (ls_signals st !! n) as [[cause phase]|] eqn:Hn; [|done]. cbn [mbind option_bind] in Hx.
  assert (Hf := Hflag n cause phase Hn).
  destruct phase as [| | |[|[id token] rest]]; injection Hx as <-; split; cbn; try done.
  - intros id token Hl. destruct (Hlive id token Hl) as [|[|]]; auto. right. left.
    eapply (took_put st); [done| |done]. intros; congruence.
  - intros Hc Ht. eapply (will_take_put st); [done| |by apply Htaken]. intros; congruence.
  - intros m c ph Hm. apply lookup_insert_Some in Hm as [[<- [= <- <-]]|[? Hm]].
    + by destruct (ls_cause st).
    + apply Hflag in Hm. destruct ph; try done. destruct Hm as [? ->]. by eexists.
  - intros Hc. destruct (Hcause Hc) as [? ->]. by eexists.
  - intros id token Hl. destruct (Hlive id token Hl) as [|[|]]; auto. right. left.
    eapply (took_put st); [done| |done]. intros; congruence.
  - intros _ Ht. exists n, cause. apply lookup_insert_eq.
  - intros m c ph Hm. apply lookup_insert_Some in Hm as [[<- [= <- <-]]|[? Hm]]; [done|].
    apply Hflag in Hm. by destruct ph.
  - by intros ? ? ?%elem_of_nil.
  - intros id token Hl. destruct (Hlive id token Hl) as [Hin|[Ht|]]; auto.
    + right. left. exists n, cause, (ls_tokens st). split; [apply lookup_insert_eq|done].
    + right. left. eapply (took_put st); [done| |done]. intros; congruence.
  - intros m c ph Hm. apply lookup_insert_Some in Hm as [[<- [= <- <-]]|[? Hm]]; [done|]. by apply Hflag in Hm.
  - intros id token Hl. destruct (Hlive id token Hl) as [|[(m & c & l & Hm & Hp)|]]; auto.
    right. left. exists m, c, l. split; [|done]. apply lookup_delete_Some. split; [|done].
    intros <-. rewrite Hn in Hm. injection Hm as <- <-. by apply elem_of_nil in Hp.
  - intros Hc Ht. destruct (Htaken Hc Ht) as (m & c & Hm). exists m, c. cbn. apply lookup_delete_Some.
    split; [congruence|done].
  - intros m c ph [_ Hm]%lookup_delete_Some. by apply Hflag in Hm.
  - intros id' token' Hl. destruct (Hlive id' token' Hl) as [|[(m & c & l & Hm & Hp)|]]; [by left| |set_solver].
    destruct (decide (m = n)) as [->|Hne].
    + rewrite Hn in Hm. injection Hm as <- <-. apply elem_of_cons in Hp as [[= -> ->]|Hp]; [set_solver|].
      right. left. exists n, cause, rest. split; [apply lookup_insert_eq|done].
    + right. left. exists m, c, l. split; [|done]. by apply lookup_insert_Some; right.
  - intros Hc Ht. eapply (will_take_put st); [done| |by apply Htaken]. intros; congruence.
  - intros m c ph Hm. apply lookup_insert_Some in Hm as [[<- [= <- <-]]|[? Hm]]; [done|]. by apply Hflag in Hm.
  - intros Hc. congruence.
Qed.

Lemma link_inv token st : links_inv st → links_inv (link token st).
Proof.
  intros [Hids Hapart Hheld Hlive Htaken Hflag Hcause Hquiet].
  assert (Hnew : ls_links st !! ls_next st = None).
  { apply eq_None_not_Some. intros [k Hk]. specialize (Hids (ls_next st) k (or_introl Hk)). lia. }
  unfold link. destruct (ls_cancelled st) eqn:Hc; split; cbn; try done.
  - intros id tok [Hl|Hl]; [specialize (Hids id tok (or_introl Hl)); lia|].
    apply lookup_insert_Some in Hl as [[<- _]|[_ Hl]]; [lia|]. specialize (Hids id tok (or_intror Hl)). lia.
  - intros id tok tok' Hl. apply lookup_insert_Some in Hl as [[<- _]|[_ Hl]]; [congruence|eauto].
  - intros id tok [Hl|Hl]; [|specialize (Hids id tok (or_intror Hl)); lia].
    apply lookup_insert_Some in Hl as [[<- _]|[_ Hl]]; [lia|]. specialize (Hids id tok (or_introl Hl)). lia.
  - intros id tok tok' Hl. destruct (Hquiet eq_refl) as [_ He]. by rewrite He in Hl.
  - intros id tok [Hin|[= -> ->]%list_elem_of_singleton]%elem_of_app; [|apply lookup_insert_eq].
    apply Hheld in Hin. rewrite lookup_insert_ne; [done|]. intros <-. congruence.
  - intros id tok Hl. rewrite elem_of_app, list_elem_of_singleton.
    apply lookup_insert_Some in Hl as [[<- <-]|[_ Hl]]; [auto|]. destruct (Hlive id tok Hl) as [|[|]]; auto.
Qed.

Lemma links_reachable st : link_reachable st → links_inv st.
Proof.
  revert st. apply link_reachable_ind.
  { split; cbn; try done; intros; by (set_solver || naive_solver). }
  intros x st st' Hinv Hx. destruct x as [n cause|n|token|id|id|token]; cbn [link_act] in Hx;
    [|by eapply step_signal_inv|injection Hx as <-; by apply link_inv|..];
    destruct Hinv as [Hids Hapart Hheld Hlive Htaken Hflag Hcause Hquiet].
  - destruct (ls_signals st !! n) eqn:Hn; [done|]. injection Hx as <-. split; cbn; try done.
    + intros id token Hl. destruct (Hlive id token Hl) as [|[|]]; auto. right. left.
      eapply (took_put st); [done| |done]. intros; congruence.
    + intros Hc Ht. eapply (will_take_put st); [done| |by apply Htaken]. intros; congruence.
    + intros m c ph Hm. apply lookup_insert_Some in Hm as [[<- [= <- <-]]|[? Hm]]; [done|]. by apply Hflag in Hm.
  - unfold step_link in Hx. destruct (ls_linking st !! id) as [token|] eqn:Hid; [|done]. injection Hx as <-.
    assert (Hc : ls_cancelled st = true).
    { destruct (ls_cancelled st); [done|]. destruct (Hquiet eq_refl) as [_ He]. by rewrite He in Hid. }
    split; cbn; try done.
    + intros id' tok [Hl|Hl].
      * apply lookup_insert_Some in Hl as [[<- <-]|[_ Hl]]; eauto.
      * apply lookup_delete_Some in Hl as [_ Hl]. eauto.
    + intros id' tok tok' [Hne Hl]%lookup_delete_Some. rewrite lookup_insert_ne by done. eauto.
    + intros id' tok Hin. apply Hheld in Hin. rewrite lookup_insert_ne; [done|]. intros <-. by eapply Hapart.
    + intros id' tok Hl. apply lookup_insert_Some in Hl as [[<- <-]|[_ Hl]]; [set_solver|].
      destruct (Hlive id' tok Hl) as [|[|]]; auto. set_solver.
    + congruence.
  - unfold drop_link in Hx. destruct (ls_links st !! id) as [token|] eqn:Hid; [|done]. injection Hx as <-.
    split; cbn; try done.
    + intros id' tok [Hl|Hl]; [apply lookup_delete_Some in Hl as [_ Hl]|]; eauto.
    + intros id' tok tok' Hl. rewrite lookup_delete_Some. intros [_ ?]. by eapply Hapart.
    + intros id' tok [Hin Hne]%elem_of_retain. apply Hheld in Hin. apply lookup_delete_Some. split; [|done].
      cbn in Hne. apply negb_true_iff, Nat.eqb_neq in Hne. done.
    + intros id' tok [Hne Hl]%lookup_delete_Some. destruct (Hlive id' tok Hl) as [Hin|[|]]; auto.
      left. apply elem_of_retain. split; [done|]. cbn. apply negb_true_iff, Nat.eqb_neq. done.
    + intros Hc Ht. apply Htaken; [done|]. intros E. by rewrite E in Ht.
  - injection Hx as <-. split; cbn; try done.
    + intros id tok Hl. destruct (Hlive id tok Hl) as [|[|]]; auto. set_solver.
    + intros Hc. destruct (Hquiet Hc) as [-> ?]. done.
Qed.

(** No linked token misses the cancel signal: however the calls interleave,
    once the goal has its signal a token whose link is held is cancelled, or a
    call of [signal_cancel] took it and is still to cancel it, or one has still
    to take it; when every call returned it is cancelled. Before the signal the
    goal cancels no token. *)
Lemma no_linked_token_missed st id token :
  link_reachable st → ls_links st !! id = Some token →
  (ls_cancelled st = true →
     (token ∈ ls_done st ∨ took st (id, token) ∨ ((id, token) ∈ ls_tokens st ∧ will_take st)) ∧
     (ls_signals st = ∅ → token ∈ ls_done st) ∧ is_Some (ls_cause st)) ∧
  (ls_cancelled st = false → (id, token) ∈ ls_tokens st ∨ token ∈ ls_external st).
Proof.
  intros Hr Hl. destruct (links_reachable st Hr) as [_ _ _ Hlive Htaken Hflag Hcause Hquiet]. split; intros Hc.
  - assert (Hcase : token ∈ ls_done st ∨ took st (id, token) ∨ ((id, token) ∈ ls_tokens st ∧ will_take st)).
    { destruct (Hlive id token Hl) as [Hin|[Ht|Hd]]; auto. do 2 right. split; [done|]. apply Htaken; [done|].
      intros E. rewrite E in Hin. by apply elem_of_nil in Hin. }
    split; [done|]. split; [|auto]. intros He.
    destruct Hcase as [|[(n & c & l & Hn & _)|(_ & n & c & Hn)]]; [done|..]; by rewrite He in Hn.
  - destruct (Hquiet Hc) as [Hd _]. rewrite <-Hd. destruct (Hlive id token Hl) as [|[(n & c & l & Hn & _)|]]; auto.
    apply Hflag in Hn. congruence.
Qed.

(** The answer of one cancel may come before the linked token is cancelled, when
    another signal, of a sender that is gone, took it. *)
Definition two_signals : list LinkAction :=
  [Link 7; Signal 0 CausedBySenderGone; StepSignal 0; StepSignal 0; StepSignal 0;
   Signal 1 CausedByCaller; StepSignal 1; StepSignal 1; StepSignal 1; StepSignal 1].

(** A call of [signal_cancel] can return while a token that was linked before
    both, and still is, is not cancelled: another call took it. *)
Lemma answered_before_the_linked_token :
  ∃ st, link_reachable st ∧ ls_returned st = [1] ∧ ls_links st !! 0 = Some 7 ∧ 7 ∉ ls_done st.
Proof.
  destruct (link_run two_signals links_start) as [st|] eqn:E; [|by vm_compute in E].
  exists st. split; [by exists two_signals|]. vm_compute in E. injection E as <-.
  split_and!; [done|done|]. apply (bool_decide_unpack _). vm_compute. exact I.
Qed.
