(* ===== verification/ActionRuns.v ===== *)
(** * Runs of the goal engine

    Concrete runs of [ActionEngine]: one for each theorem on its runs, at which
    the theorem applies, and those that show what the theorems except: a poll and a
    cancel that are lost, a result that a second goal hides. *)

From S2P Require Import Prelude Names ActionWire ActionEngine ActionSafety ActionCancel ActionEndings ActionPolls ActionResults ActionBounds CancelLinks.
#[local] Open Scope Z_scope.

#[local] Instance one_byte : Capnp := {|
  encode_state n := Ok [as_u8 n];
  decode_state b := match b with [x] => Ok (u8 x) | _ => Err "not one byte" end;
|}.

Definition me : option VerifiedCaller := Some (mkVerifiedCaller "core" "client" InstanceCaller).

Definition wire_of (w : result EnvelopeError bytes) : bytes := match w with Ok b => b | Err _ => [] end.

Definition goal_wire : bytes := wire_of (wrap_goal_request "g1" "gen" []).
Definition poll_wire : bytes := wire_of (wrap_goal_payload "g1" []).

Definition the_goal : PendingGoal :=
  mkPendingGoal "g1" (mkClientPresence "core" "client" "gen") me [] true.

(** The states the runs lead to, with a retention of 30. *)
Definition after (l : list Action) : Engine := default (engine_start 0) (run 30 l (engine_start 0)).

Lemma after_reachable l : opt_is_some (run 30 l (engine_start 0)) = true → reachable 30 (after l).
Proof. unfold after. destruct (run 30 l (engine_start 0)) eqn:E; [|done]. intros _. by exists 0, l. Qed.

Ltac reach := apply after_reachable; vm_compute; reflexivity.
Ltac decided := apply (bool_decide_unpack _); vm_compute; exact I.

Definition accepted : list Action :=
  [RecvGoal "core" "client" me (Some true) goal_wire; Accept 0 [];
   StepAccept 0 true; StepAccept 0 true; StepAccept 0 true; StepAccept 0 true].

Definition polled : list Action := [RecvResult poll_wire; StepResult; StepResult].

Definition ended : list Action := [EndGoal 0 (Completed []); StepDeliver 3; StepDeliver 3; StepDeliver 3; StepDeliver 3].

(** ** Runs for the theorems *)

Lemma cancelled_by_right_witness :
  ∃ goal cause,
    lg_made (en_log (after (accepted ++ [RecvCancel me poll_wire; StepCancel; StepCancel]))) !! 1%nat = Some goal ∧
    cause = CausedByCaller.
Proof.
  destruct (cancelled_by_right 30 (after (accepted ++ [RecvCancel me poll_wire; StepCancel; StepCancel])) 1
    (mkGoalSlot me true (Some CausedByCaller) (Pending []) false)) as (goal & cause & Hm & _ & Hc & _);
    [reach|vm_compute; reflexivity|reflexivity|].
  exists goal, cause. split; [exact Hm|]. injection Hc as <-. reflexivity.
Defined.

Definition cancelled_first : list Action :=
  [RecvCancel me poll_wire; StepCancel; StepCancel; StepCancel; StepCancel; StepCancel;
   RecvGoal "core" "client" me (Some true) goal_wire; Accept 1 []].

Lemma no_cancel_is_lost_witness :
  ∃ r ac, k_accepts (en_tasks (after cancelled_first)) !! r = Some ac ∧
    (early_held (after cancelled_first) = false → ∀ d, ∃ e' s,
       act 30 (StepAccept r d) (after cancelled_first) = Some e' ∧
       t_slots (en_tables e') !! ac_slot ac = Some s ∧ gs_cancelled s = true).
Proof.
  destruct (no_cancel_is_lost 30 (after cancelled_first) "g1" me) as (_ & _ & _ & _ & Htake); [reach|].
  destruct Htake as (r & ac & Hac & _ & _ & _ & Hstep).
  - decided.
  - exists 2%nat, (GoalSlot_new me). split_and!; vm_compute; reflexivity.
  - exists r, ac. split; [exact Hac|]. intros Hh d. destruct (Hstep Hh d) as (e' & s & ? & _ & ? & ?). eauto.
Defined.

Definition polled_first : list Action :=
  [RecvResult poll_wire; StepResult; StepResult; StepResult; StepResult;
   RecvGoal "core" "client" me (Some true) goal_wire; Accept 1 []; StepAccept 1 true].

Lemma slots_well_typed_witness :
  ∃ goal, lg_made (en_log (after polled_first)) !! 2%nat = Some goal ∧ pg_goal_id goal = "g1".
Proof.
  destruct (slots_well_typed 30 (after polled_first)) as (Hreg & _); [reach|].
  destruct (Hreg "g1" 2%nat) as (goal & [Hm _] & Hg); [vm_compute; reflexivity|].
  exists goal. split; [exact Hm|exact Hg].
Defined.

Lemma no_task_is_stuck_witness :
  ∃ e', own_steps 30 (λ x, x = StepCancel) 5 (after (firstn 3 cancelled_first)) e' ∧ k_cancel (en_tasks e') = CIdle.
Proof.
  destruct (no_task_is_stuck 30 (after (firstn 3 cancelled_first))) as (_ & Hc & _); [reach|]. exact Hc.
Defined.

Lemma answered_once_witness : NoDup (map fst (lg_replies (en_log (after (accepted ++ polled))))).
Proof. apply (answered_once 30 (after (accepted ++ polled))). reach. Defined.

Definition waiting_slot : GoalSlot := mkGoalSlot me false None (Pending [3%nat]) false.

Definition ending : list Action :=
  [EndGoal 0 (Completed []); StepDeliver 4; StepDeliver 4; StepDeliver 4; StepDeliver 4; StepDeliver 4].

Lemma parked_poll_gets_the_outcome_witness :
  let e' := after ((accepted ++ polled) ++ ending) in
  waits e' 1 3 ∨ woken e' 1 3 ∨ told e' 1 3 ∨ 1%nat ∈ lg_cut (en_log e').
Proof.
  apply (parked_poll_gets_the_outcome 30 (after (accepted ++ polled)) ending _ 1 waiting_slot [3%nat] 3).
  - reach.
  - vm_compute. reflexivity.
  - reflexivity.
  - decided.
  - vm_compute. reflexivity.
Defined.

Lemma no_poll_is_orphaned_witness :
  ∃ r ac, k_accepts (en_tasks (after polled_first)) !! r = Some ac ∧
    (ac_phase ac = AEarly ∨ ac_phase ac = ATake).
Proof.
  destruct (no_poll_is_orphaned 30 (after polled_first) "g1" [mkPendingWaiter 0 (30 * NANOS_PER_SEC)])
    as (r & ac & Hac & _ & Hph).
  - reach.
  - vm_compute. reflexivity.
  - decided.
  - exists r, ac. split; [exact Hac|]. destruct Hph as [?|[? _]]; auto.
Defined.

Definition swapped : list Action := (accepted ++ polled) ++ [EndGoal 0 (Completed []); StepDeliver 4].

Definition flagged_slot : GoalSlot := mkGoalSlot me false None (Pending [3%nat]) true.

Lemma first_ending_wins_witness :
  NoDup (lg_ends (en_log (after (swapped ++ [EndGoal 0 (Cancelled "late" []); StepDeliver 4])))) ∧
  ∃ s', t_slots (en_tables (after (swapped ++ [EndGoal 0 (Cancelled "late" []); StepDeliver 4]))) !! 1%nat = Some s' ∧
    gs_terminal s' = true.
Proof.
  destruct (first_ending_wins 30 (after swapped) [EndGoal 0 (Cancelled "late" []); StepDeliver 4]
    (after (swapped ++ [EndGoal 0 (Cancelled "late" []); StepDeliver 4])) 1 flagged_slot) as (_ & Hnd & s' & Hs & Ht & _).
  - reach.
  - vm_compute. reflexivity.
  - reflexivity.
  - vm_compute. reflexivity.
  - split; [exact Hnd|]. exists s'. split; [exact Hs|exact Ht].
Defined.

Lemma ending_completes_witness :
  ∃ e', run 30 (replicate 4 (StepDeliver 4)) (after swapped) = Some e' ∧
    lg_replies (en_log e') =
      lg_replies (en_log (after swapped)) ++ [(3%nat, Response (wrap_result_outcome (Completed [])))].
Proof.
  destruct (ending_completes 30 (after swapped) 4 (mkDeliver (Some 0%nat) 1 (Completed []) true DReplace)
    flagged_slot [3%nat]) as (e' & Hrun & _ & Hrep & _).
  - reach.
  - vm_compute. reflexivity.
  - reflexivity.
  - vm_compute. reflexivity.
  - reflexivity.
  - exists e'. split; [exact Hrun|exact Hrep].
Defined.

(** The future of [complete] is dropped after it raised the flag. *)
Definition dropped : list Action := swapped ++ [DropEnding 4].

Lemma dropped_ending_strands_polls_witness :
  reachable 30 (after dropped) ∧
  3%nat ∉ map fst (lg_replies (en_log (after (dropped ++ [Tick 1000; DropContext 0; StepSweeper ∅ []])))).
Proof.
  split; [reach|].
  destruct (dropped_ending_strands_polls 30 (after dropped) [Tick 1000; DropContext 0; StepSweeper ∅ []]
    (after (dropped ++ [Tick 1000; DropContext 0; StepSweeper ∅ []])) 1 flagged_slot [3%nat]) as (_ & Hno & _).
  - reach.
  - vm_compute. reflexivity.
  - reflexivity.
  - reflexivity.
  - intros n d Hn. exfalso. assert (He : k_delivers (en_tasks (after dropped)) = ∅) by (vm_compute; reflexivity).
    rewrite He, lookup_empty in Hn. discriminate Hn.
  - vm_compute. reflexivity.
  - apply Hno. decided.
Defined.

Lemma results_stay_fetchable_witness :
  t_registry (en_tables (after ((accepted ++ ended) ++ [Tick 5; StepSweeper ∅ []]))) !! "g1" = Some 1%nat.
Proof.
  apply (results_stay_fetchable 30 (after (accepted ++ ended)) [Tick 5; StepSweeper ∅ []] _ "g1" 1
    (mkGoalSlot me false None (Terminal (Completed []) 30) true) (Completed []) 30).
  - reach.
  - vm_compute. reflexivity.
  - vm_compute. reflexivity.
  - reflexivity.
  - vm_compute. reflexivity.
  - vm_compute. reflexivity.
  - intros b goal Hb _.
    assert (He : lg_made (en_log (after ((accepted ++ ended) ++ [Tick 5; StepSweeper ∅ []]))) = {[1%nat := the_goal]})
      by (vm_compute; reflexivity).
    rewrite He in Hb. apply lookup_singleton_Some in Hb as [<- _]. reflexivity.
Defined.

Lemma engine_memory_bounded_witness :
  (total_pending (t_pending (en_tables (after polled_first))) ≤ PENDING_WAITERS_CAP)%nat.
Proof. apply (engine_memory_bounded 30 (after polled_first)). reach. Defined.

Lemma no_linked_token_missed_witness :
  ∃ st, link_run two_signals links_start = Some st ∧ (7%nat ∈ ls_done st ∨ took st (0%nat, 7%nat) ∨ will_take st).
Proof.
  set (st := default links_start (link_run two_signals links_start)).
  assert (Hrun : link_run two_signals links_start = Some st) by (vm_compute; reflexivity).
  exists st. split; [exact Hrun|].
  destruct (no_linked_token_missed st 0 7) as [Hc _]; [by exists two_signals|vm_compute; reflexivity|].
  destruct Hc as [Hcase _]; [vm_compute; reflexivity|]. destruct Hcase as [|[|[_ ?]]]; auto.
Defined.

(** ** A cancel that expires before its goal *)

(** The cancel came thirty seconds before its goal was registered, and the
    sweeper runs before the accept looks: the goal is registered, not cancelled. *)
Definition cancelled_too_early : list Action :=
  firstn 6 cancelled_first ++
  [Tick PENDING_WAITER_MAX_PARK; RecvGoal "core" "client" me (Some true) goal_wire; Accept 1 [];
   StepSweeper ∅ []; StepSweeper ∅ []; StepSweeper ∅ []; StepSweeper ∅ []; StepAccept 1 true].

Lemma expired_cancel_is_lost :
  ∃ e s, run 30 cancelled_too_early (engine_start 0) = Some e ∧
    lg_asked (en_log e) = [("g1", me)] ∧ t_early (en_tables e) = ∅ ∧
    t_registry (en_tables e) !! "g1" = Some 2%nat ∧ t_slots (en_tables e) !! 2%nat = Some s ∧
    gs_owner s = me ∧ gs_cancelled s = false.
Proof. exists (after cancelled_too_early), (GoalSlot_new me). split_and!; vm_compute; reflexivity. Qed.

(** ** A second goal of the same id *)

(** The goal ended and its result is within its window when a goal of the same id
    is accepted: the registry has the new slot, and a poll waits there. *)
Definition id_taken_again : list Action :=
  (accepted ++ ended) ++ [RecvGoal "core" "client" me (Some true) goal_wire; Accept 4 []] ++ polled.

Lemma second_goal_hides_the_result :
  ∃ e s, run 30 id_taken_again (engine_start 0) = Some e ∧
    (∃ s1, t_slots (en_tables e) !! 1%nat = Some s1 ∧ gs_state s1 = Terminal (Completed []) 30) ∧
    t_now (en_tables e) = 0 ∧ t_registry (en_tables e) !! "g1" = Some 5%nat ∧
    t_slots (en_tables e) !! 5%nat = Some s ∧ gs_state s = Pending [6%nat] ∧
    6%nat ∉ map fst (lg_replies (en_log e)).
Proof.
  exists (after id_taken_again), (mkGoalSlot me false None (Pending [6%nat]) false).
  split; [vm_compute; reflexivity|]. split; [eexists; split; vm_compute; reflexivity|].
  do 4 (split; [vm_compute; reflexivity|]). decided.
Qed.

(** ** A poll that arrives in the middle of a sweep *)

(** The goal ended and its window is over. The sweeper has taken it out of the
    registry and not yet written its tombstone. *)
Definition swept_midway : list Action := (accepted ++ ended) ++ [Tick 30; StepSweeper ∅ []].

Definition late_poll : list Action :=
  [RecvResult poll_wire; StepResult; StepResult; StepResult; StepResult].

Definition sweep_on : list Action := [StepSweeper ∅ ["g1"]; StepSweeper ∅ []; StepSweeper ∅ []; StepSweeper ∅ []].

Definition missed : list Action :=
  (swept_midway ++ late_poll) ++ sweep_on ++ Tick PENDING_WAITER_MAX_PARK :: StepSweeper ∅ [] :: [StepSweeper ∅ []].

(** A poll that comes while the sweeper evicts its goal can be parked as if
    the goal had never been: the goal ended and has its tombstone, yet the poll
    waits its thirty seconds and is then dropped with no answer. *)
Lemma poll_in_a_sweep_is_dropped :
  ∃ e1 e2,
    run 30 (swept_midway ++ late_poll) (engine_start 0) = Some e1 ∧
    t_pending (en_tables e1) !! "g1" = Some [mkPendingWaiter 4 (30 + PENDING_WAITER_MAX_PARK)] ∧
    (∃ s, t_slots (en_tables e1) !! 1%nat = Some s ∧ gs_state s = Terminal (Completed []) 30) ∧
    run 30 missed (engine_start 0) = Some e2 ∧
    tombstone_contains "g1" (t_tombs (en_tables e2)) = true ∧
    t_pending (en_tables e2) = ∅ ∧ k_result (en_tasks e2) = RIdle ∧
    4%nat ∉ map fst (lg_replies (en_log e2)).
Proof.
  exists (after (swept_midway ++ late_poll)), (after missed).
  split; [vm_compute; reflexivity|]. split; [vm_compute; reflexivity|].
  split; [eexists; split; vm_compute; reflexivity|]. do 4 (split; [vm_compute; reflexivity|]). decided.
Qed.
