(* ===== verification/ServiceCall.v ===== *)
(** * Service calls

    A call of a service from both sides: [peppylib-rs/src/messaging.rs]
    ([poll_service] and the helpers above it), [messaging/discovery.rs],
    [messaging/services.rs], [messaging/call_check.rs] and the senders of
    [peppy-messaging-interface/src/wire.rs]. Cancels, polls and goals of an
    action are such calls too.

    The transport is what a call meets: an [CallAttempt] is what one turn of the
    retry loop reads from it and from the clock, and a call takes the list of its
    attempts. Times are in nanoseconds. The signature of a call is not modelled,
    only whether the call is signed and for whom. *)

From S2P Require Import Prelude Names ActionWire ActionEngine.
#[local] Open Scope Z_scope.

(** ** Addresses *)

Inductive SenderTarget : Type :=
| TargetContract (name tag : string)
| TargetNode (name tag : string)
| TargetPairing (name tag : string).

Inductive ServiceKind : Type := KService | KActionGoal | KActionCancel | KActionResult.

Inductive ServiceQueryKind : Type := UserRequest | Probe.

#[export] Instance ServiceQueryKind_eq_dec : EqDecision ServiceQueryKind.
Proof. solve_decision. Defined.

Record ServiceWireSender : Type := mkSender {
  sw_bound_core_node : string;
  sw_as_instance_id : string;
  sw_target_core_node : option string;
  sw_target_instance_id : option string;
  sw_to_target : SenderTarget;
  sw_to_service_name : string;
  sw_kind : ServiceKind;
}.

Definition producer_slots (target : option ProducerRef) :
    result SegmentError (option string * option string) :=
  match target with
  | None => Ok (None, None)
  | Some p =>
      core ← Segment_try_from (core_node p);
      inst ← Segment_try_from (instance_id p);
      Ok (Some core, Some inst)
  end.

Definition ServiceWireSender_new (bound_core_node as_instance_id : string) (target : option ProducerRef)
    (to_target : SenderTarget) (to_service_name : string) (kind : ServiceKind) :
    result SegmentError ServiceWireSender :=
  bound ← Segment_try_from bound_core_node;
  inst ← Segment_try_from as_instance_id;
  '(target_core, target_inst) ← producer_slots target;
  name ← Segment_try_from to_service_name;
  Ok (mkSender bound inst target_core target_inst to_target name kind).

Definition scoped_to_core_node (target : string) (s : ServiceWireSender) :
    result SegmentError ServiceWireSender :=
  core ← Segment_try_from target;
  Ok (mkSender (sw_bound_core_node s) (sw_as_instance_id s) (Some core) None (sw_to_target s)
        (sw_to_service_name s) (sw_kind s)).

Inductive ServiceTarget : Type :=
| AnyProducer
| OnCoreNode (core_node : string)
| PinnedProducer (producer : ProducerRef).

Definition wire_sender (target : ServiceTarget) (bound_core_node as_instance_id : string)
    (to_target : SenderTarget) (to_service_name : string) : result SegmentError ServiceWireSender :=
  let pinned := match target with PinnedProducer p => Some p | AnyProducer | OnCoreNode _ => None end in
  sender ← ServiceWireSender_new bound_core_node as_instance_id pinned to_target to_service_name KService;
  match target with
  | OnCoreNode core => scoped_to_core_node core sender
  | AnyProducer | PinnedProducer _ => Ok sender
  end.

(** *** Signed calls *)

Definition CORE_NODE_TAG : string := "core".

Definition DAEMON_INTERFACES : list (string * string) := [("robot_membership", "v1"); ("robot_leases", "v1")].

Definition is_daemon_interface (name tag : string) : bool := bool_decide ((name, tag) ∈ DAEMON_INTERFACES).

Inductive CallReceiver : Type := ThisMachine | OtherMachine.

Definition daemon_receiver (s : ServiceWireSender) : option CallReceiver :=
  let receiver (core : option string) :=
    Some (if bool_decide (core = Some (sw_bound_core_node s)) then ThisMachine else OtherMachine) in
  match sw_to_target s with
  | TargetNode name tag => if bool_decide (tag = CORE_NODE_TAG) then receiver (Some name) else None
  | TargetContract name tag => if is_daemon_interface name tag then receiver (sw_target_core_node s) else None
  | TargetPairing _ _ => None
  end.

(** Whom the handle signs a call for, when it has a signer. *)
Definition signed_for_daemon (signer : bool) (s : ServiceWireSender) (kind : ServiceQueryKind) :
    option CallReceiver :=
  if negb signer then None
  else if negb (bool_decide (kind = UserRequest)) then None
  else daemon_receiver s.

(** ** Calling *)

Record Message : Type := mkMessage {
  m_core_node : string;
  m_instance_id : string;
  m_payload : bytes;
}.

Inductive ServiceReply : Type :=
| AckReply
| ResponseReply (m : Message)
| FailureReply (m : Message).

(** How a stream of replies ends for its reader: the query was finalized, or the
    deadline of the call passed. *)
Inductive StreamEnd : Type := StreamClosed | DeadlinePassed.

Inductive ServiceError : Type :=
| ServiceUnreachable (instance_id : option string) (service_name : string)
| ServiceTimeout (instance_id : option string) (service_name : string)
| ServiceFailed (instance_id : option string) (service_name : string) (failure : Failure)
| NotAFailure (service_name : string) (err : FailureDecodeError)
| Interface (err : string)
| InvalidSegment (err : SegmentError).

Definition service_unreachable (s : ServiceWireSender) : ServiceError :=
  ServiceUnreachable (sw_target_instance_id s) (sw_to_service_name s).

Definition service_timed_out (s : ServiceWireSender) : ServiceError :=
  ServiceTimeout (sw_target_instance_id s) (sw_to_service_name s).

Inductive QueryAttempt : Type := TerminalReply (r : ServiceReply) | NotReached.

Fixpoint receive_replies (s : ServiceWireSender) (received_ack : bool) (replies : list ServiceReply)
    (ending : StreamEnd) : result ServiceError QueryAttempt :=
  match replies with
  | [] =>
      match ending with
      | DeadlinePassed => Err (if received_ack then service_timed_out s else service_unreachable s)
      | StreamClosed => if received_ack then Err (service_timed_out s) else Ok NotReached
      end
  | AckReply :: replies => receive_replies s true replies ending
  | (ResponseReply _ | FailureReply _) as r :: _ => Ok (TerminalReply r)
  end.

Definition receive_terminal_reply (s : ServiceWireSender) (replies : list ServiceReply) (ending : StreamEnd) :
    result ServiceError QueryAttempt :=
  receive_replies s false replies ending.

(** One turn of the loop: when the lock of the messenger was taken ([None]: not
    before the deadline) and the deadline was checked, when the timeout of the
    query was read off the clock, whether the query went out ([None]: not before
    the deadline), its replies, and the time after them. *)
Record CallAttempt : Type := mkCallAttempt {
  at_lock : option Z;
  at_timed : Z;
  at_call : option (result string unit);
  at_replies : list ServiceReply;
  at_end : StreamEnd;
  at_after : Z;
}.

(** A query that was issued: when the deadline was checked, when its timeout was
    read, and what timeout it has. *)
Record Issue : Type := mkIssue {
  is_at : Z;
  is_timed : Z;
  is_timeout : option Z;
}.

Definition COLD_START_BACKOFF : Z := 50 * 1000000.

Definition service_deadline_passed (deadline : option Z) (now : Z) : bool :=
  match deadline with Some d => d <=? now | None => false end.

(** [saturating_duration_since]. *)
Definition time_left (deadline now : Z) : Z := Z.max 0 (deadline - now).

(** What the terminal reply says; the code takes an ack here for unreachable and
    panics. *)
Definition finish_call (s : ServiceWireSender) (r : ServiceReply) : option (result ServiceError Message) :=
  match r with
  | FailureReply m =>
      Some match Failure_decode (m_payload m) with
           | Ok failure => Err (ServiceFailed (sw_target_instance_id s) (sw_to_service_name s) failure)
           | Err err => Err (NotAFailure (sw_to_service_name s) err)
           end
  | ResponseReply m => Some (Ok m)
  | AckReply => None
  end.

(** The queries a call issued, and what it returned; [None] while it runs, and
    for a panic. *)
Fixpoint poll_loop (s : ServiceWireSender) (deadline : option Z) (script : list CallAttempt) :
    list Issue * option (result ServiceError Message) :=
  match script with
  | [] => ([], None)
  | a :: script =>
      match at_lock a with
      | None => ([], Some (Err (service_unreachable s)))
      | Some now =>
          if service_deadline_passed deadline now then ([], Some (Err (service_unreachable s)))
          else
            let issue := mkIssue now (at_timed a) ((λ d, time_left d (at_timed a)) <$> deadline) in
            match at_call a with
            | None => ([issue], Some (Err (service_unreachable s)))
            | Some (Err err) => ([issue], Some (Err (Interface err)))
            | Some (Ok _) =>
                match receive_terminal_reply s (at_replies a) (at_end a) with
                | Err err => ([issue], Some (Err err))
                | Ok (TerminalReply r) => ([issue], finish_call s r)
                | Ok NotReached =>
                    match deadline with
                    | None => ([issue], Some (Err (service_unreachable s)))
                    | Some d =>
                        if time_left d (at_after a) =? 0
                        then ([issue], Some (Err (service_unreachable s)))
                        else
                          let '(issues, r) := poll_loop s deadline script in (issue :: issues, r)
                    end
                end
            end
      end
  end.

(** [started] is the time read first; a probe or a request differ in [signed_for_daemon]. *)
Definition poll_service (s : ServiceWireSender) (started : Z) (response_timeout : option Z)
    (script : list CallAttempt) : list Issue * option (result ServiceError Message) :=
  poll_loop s ((λ t, started + t) <$> response_timeout) script.

(** ** Discovery *)

Definition DISCOVERY_TIMEOUT : Z := 2 * NANOS_PER_SEC.

Definition discovery_timeout (caller_budget : option Z) : Z :=
  match caller_budget with None => DISCOVERY_TIMEOUT | Some budget => Z.min budget DISCOVERY_TIMEOUT end.

Definition discover_producer (probe_sender : ServiceWireSender) (started : Z) (caller_budget : option Z)
    (script : list CallAttempt) : list Issue * option (result ServiceError ProducerRef) :=
  let '(issues, r) := poll_service probe_sender started (Some (discovery_timeout caller_budget)) script in
  (issues, (λ r, m ← r; Ok (mkProducerRef (m_core_node m) (m_instance_id m))) <$> r).

(** [now] is the time at which [elapsed] is read. *)
Definition budget_left_after_discovery (total started_at now : Z) (resolved : ProducerRef)
    (service_name : string) : result ServiceError Z :=
  let remaining := Z.max 0 (total - (now - started_at)) in
  if remaining =? 0 then Err (ServiceTimeout (Some (instance_id resolved)) service_name) else Ok remaining.

Definition probe_reachable (outcome : result ServiceError Message) : result ServiceError bool :=
  match outcome with
  | Ok _ => Ok true
  | Err (ServiceUnreachable _ _) => Ok false
  | Err (ServiceTimeout _ _) => Ok true
  | Err e => Err e
  end.

(** What a call of [ServiceMessenger::poll] meets: the time it starts, the
    attempts of its probe, the time after it, and the attempts of the call. *)
Record PollScript : Type := mkPollScript {
  ps_started : Z;
  ps_probe : list CallAttempt;
  ps_found : Z;
  ps_call_started : Z;
  ps_call : list CallAttempt;
}.

(** The queries of a call: of the probe, and of the request with its sender. *)
Record PollQueries : Type := mkPollQueries {
  pq_probe : list Issue;
  pq_request : option (ServiceWireSender * list Issue);
}.

Definition service_poll (bound_core_node as_instance_id : string) (to_target : SenderTarget)
    (to_service_name : string) (target : ServiceTarget) (response_timeout : option Z) (script : PollScript) :
    PollQueries * option (result ServiceError Message) :=
  let discovered :=
    match target with
    | PinnedProducer p => ([], Some (Ok p))
    | AnyProducer | OnCoreNode _ =>
        match wire_sender target bound_core_node as_instance_id to_target to_service_name with
        | Err err => ([], Some (Err (InvalidSegment err)))
        | Ok probe_sender => discover_producer probe_sender (ps_started script) response_timeout (ps_probe script)
        end
    end in
  let '(probes, resolved) := discovered in
  let stop r := (mkPollQueries probes None, r) in
  match resolved with
  | None => stop None
  | Some (Err err) => stop (Some (Err err))
  | Some (Ok resolved) =>
      let budget :=
        match response_timeout with
        | None => Ok None
        | Some total =>
            left_ ← budget_left_after_discovery total (ps_started script) (ps_found script) resolved
                      to_service_name;
            Ok (Some left_)
        end in
      match budget with
      | Err err => stop (Some (Err err))
      | Ok budget =>
          match wire_sender (PinnedProducer resolved) bound_core_node as_instance_id to_target to_service_name with
          | Err err => stop (Some (Err (InvalidSegment err)))
          | Ok sender =>
              let '(issues, r) := poll_service sender (ps_call_started script) budget (ps_call script) in
              (mkPollQueries probes (Some (sender, issues)), r)
          end
      end
  end.

(** ** Serving *)

Record IncomingRequest : Type := mkIncoming {
  in_kind : ServiceQueryKind;
  in_caller_core : string;
  in_caller_inst : string;
  in_payload : bytes;
  in_link_id : string;
  in_proof : option bytes;
  in_token : nat;
}.

Record ServiceRequestContext : Type := mkContext {
  cx_message : Message;
  cx_link_id : string;
  cx_verified_caller : option VerifiedCaller;
}.

(** A check of the session, or none. *)
Definition CallCheck : Type := IncomingRequest → result Failure VerifiedCaller.

Definition endpoint_verify (check : option CallCheck) (incoming : IncomingRequest) :
    result Failure (option VerifiedCaller) :=
  match check with
  | None => Ok None
  | Some check => caller ← check incoming; Ok (Some caller)
  end.

(** What the endpoint replied, by the token of the request. *)
Inductive EndpointReply : Type :=
| AckSent (token : nat)
| AckFailed (token : nat)
| RefusedCall (token : nat) (failure : Failure).

(** [recv_next_request], with [next_request] in it: the requests that came, each
    with whether its ack could be sent. The transport answers probes itself; one
    that comes here all the same is skipped, as in a release build (a debug build
    panics). [None] is a loop that waits for more. *)
Fixpoint recv_next_request (check : option CallCheck) (arrived : list (IncomingRequest * bool)) :
    list EndpointReply * option (ServiceRequestContext * nat) * list (IncomingRequest * bool) :=
  match arrived with
  | [] => ([], None, [])
  | (incoming, acks) :: arrived =>
      match in_kind incoming with
      | Probe => recv_next_request check arrived
      | UserRequest =>
          match endpoint_verify check incoming with
          | Err refusal =>
              let '(replies, found, rest) := recv_next_request check arrived in
              (RefusedCall (in_token incoming) refusal :: replies, found, rest)
          | Ok caller =>
              if acks : bool then
                let m := mkMessage (in_caller_core incoming) (in_caller_inst incoming) (in_payload incoming) in
                ([AckSent (in_token incoming)],
                 Some (mkContext m (in_link_id incoming) caller, in_token incoming), arrived)
              else
                let '(replies, found, rest) := recv_next_request check arrived in
                (AckFailed (in_token incoming) :: replies, found, rest)
          end
      end
  end.

(** ** What one attempt gives *)

Definition is_terminal (r : ServiceReply) : bool := match r with AckReply => false | _ => true end.

(** The reference: the first terminal reply, or else whether there was any. *)
Definition attempt_gives (s : ServiceWireSender) (replies : list ServiceReply) (ending : StreamEnd) :
    result ServiceError QueryAttempt :=
  match List.find is_terminal replies, replies, ending with
  | Some r, _, _ => Ok (TerminalReply r)
  | None, _ :: _, _ => Err (service_timed_out s)
  | None, [], DeadlinePassed => Err (service_unreachable s)
  | None, [], StreamClosed => Ok NotReached
  end.

Lemma receive_acked s replies ending :
  receive_replies s true replies ending =
  match List.find is_terminal replies with
  | Some r => Ok (TerminalReply r)
  | None => Err (service_timed_out s)
  end.
Proof. induction replies as [|[] replies IH]; cbn; [by destruct ending|done..]. Qed.

Lemma receive_terminal_reply_exact s replies ending :
  receive_terminal_reply s replies ending = attempt_gives s replies ending.
Proof.
  unfold receive_terminal_reply, attempt_gives. destruct replies as [|[] replies]; cbn; [by destruct ending| |done..].
  rewrite receive_acked. by destruct (List.find is_terminal replies).
Qed.

(** An attempt whose query went out and was finalized with no reply. *)
Definition unreached (deadline : option Z) (a : CallAttempt) : Prop :=
  ∃ now, at_lock a = Some now ∧ service_deadline_passed deadline now = false ∧
    at_call a = Some (Ok tt) ∧ at_replies a = [] ∧ at_end a = StreamClosed.

Definition issue_of (deadline : option Z) (a : CallAttempt) : Issue :=
  mkIssue (default 0 (at_lock a)) (at_timed a) ((λ d, time_left d (at_timed a)) <$> deadline).

(** What the last attempt of a call gives. *)
Definition last_gives (s : ServiceWireSender) (deadline : option Z) (a : CallAttempt) :
    list Issue * option (result ServiceError Message) :=
  match at_lock a with
  | None => ([], Some (Err (service_unreachable s)))
  | Some now =>
      if service_deadline_passed deadline now then ([], Some (Err (service_unreachable s)))
      else
        ([issue_of deadline a],
         match at_call a with
         | None => Some (Err (service_unreachable s))
         | Some (Err err) => Some (Err (Interface err))
         | Some (Ok _) =>
             match attempt_gives s (at_replies a) (at_end a) with
             | Err err => Some (Err err)
             | Ok (TerminalReply r) => finish_call s r
             | Ok NotReached => Some (Err (service_unreachable s))
             end
         end)
  end.

Lemma poll_loop_splits s deadline script issues r :
  poll_loop s deadline script = (issues, Some r) →
  ∃ before a rest issues', script = before ++ a :: rest ∧ Forall (unreached deadline) before ∧
    last_gives s deadline a = (issues', Some r) ∧ issues = map (issue_of deadline) before ++ issues'.
Proof.
  revert issues. induction script as [|a script IH]; intros issues; cbn [poll_loop]; [done|].
  intros Hp.
  assert (Hlast : last_gives s deadline a = (issues, Some r) →
    ∃ before a0 rest issues', a :: script = before ++ a0 :: rest ∧ Forall (unreached deadline) before ∧
      last_gives s deadline a0 = (issues', Some r) ∧ issues = map (issue_of deadline) before ++ issues')
    by (intros Hl; exists [], a, script, issues; auto).
  unfold last_gives in Hlast at 1. unfold issue_of in Hlast at 1.
  destruct (at_lock a) as [now|] eqn:Hlock; [|by apply Hlast].
  destruct (service_deadline_passed deadline now) eqn:Hd; [by apply Hlast|].
  cbn [default] in Hlast. destruct (at_call a) as [[[]|err]|] eqn:Hcall; [|by apply Hlast..].
  rewrite receive_terminal_reply_exact in Hp.
  destruct (attempt_gives s (at_replies a) (at_end a)) as [[rep|]|err] eqn:Hg; [by apply Hlast| |by apply Hlast].
  destruct deadline as [d|]; [|by apply Hlast].
  destruct (time_left d (at_after a) =? 0); [by apply Hlast|]. clear Hlast.
  destruct (poll_loop s (Some d) script) as [issues0 r0] eqn:Hloop. injection Hp as <- ->.
  destruct (IH issues0 eq_refl) as (before & b & rest & issues' & -> & Hb & Hl & ->).
  exists (a :: before), b, rest, issues'. split; [done|]. split; [|split; [done|]].
  - constructor; [|done]. exists now. unfold attempt_gives in Hg.
    destruct (List.find is_terminal (at_replies a)); [done|]. destruct (at_replies a) eqn:?; [|done].
    by destruct (at_end a).
  - cbn. unfold issue_of at 2. by rewrite Hlock.
Qed.

(** ** What a call gives *)

(** The replies of an attempt that the call read. *)
Definition replies_read (deadline : option Z) (a : CallAttempt) : list ServiceReply :=
  match at_lock a, at_call a with
  | Some now, Some (Ok _) => if service_deadline_passed deadline now then [] else at_replies a
  | _, _ => []
  end.

(** What an answer says of the replies that were read. *)
Definition answer_of (a : CallAttempt) (replies : list ServiceReply) (r : result ServiceError Message) : Prop :=
  match r with
  | Ok m => List.find is_terminal replies = Some (ResponseReply m)
  | Err (ServiceUnreachable _ _) => replies = []
  | Err (ServiceTimeout _ _) => replies ≠ [] ∧ List.find is_terminal replies = None
  | Err (ServiceFailed _ _ failure) =>
      ∃ m, List.find is_terminal replies = Some (FailureReply m) ∧ Failure_decode (m_payload m) = Ok failure
  | Err (NotAFailure _ err) =>
      ∃ m, List.find is_terminal replies = Some (FailureReply m) ∧ Failure_decode (m_payload m) = Err err
  | Err (Interface err) => replies = [] ∧ at_call a = Some (Err err)
  | Err (InvalidSegment _) => False
  end.

Lemma last_gives_answer s deadline a issues r :
  last_gives s deadline a = (issues, Some r) →
  answer_of a (replies_read deadline a) r ∧
  ∀ i d, i ∈ issues → deadline = Some d → is_at i < d ∧ is_timeout i = Some (time_left d (is_timed i)).
Proof.
  unfold last_gives, replies_read. destruct (at_lock a) as [now|] eqn:Hl.
  2: { intros [= <- <-]. split; [done|]. by intros ? ? ?%elem_of_nil. }
  destruct (service_deadline_passed deadline now) eqn:Hd.
  { intros [= <- <-]. split; [by destruct (at_call a) as [[]|]|]. by intros ? ? ?%elem_of_nil. }
  intros [= <- Hr]. split.
  - destruct (at_call a) as [[[]|err]|] eqn:Hc; [|by injection Hr as <-..].
    unfold attempt_gives in Hr. destruct (List.find is_terminal (at_replies a)) as [rep|] eqn:Hf.
    + destruct rep as [|m|m]; cbn in Hr; [done|by injection Hr as <-|].
      destruct (Failure_decode (m_payload m)) eqn:Hdec; injection Hr as <-; cbn; eauto.
    + destruct (at_replies a); [destruct (at_end a)|]; by injection Hr as <-.
  - intros i d Hi%list_elem_of_singleton ->. subst i. unfold issue_of. rewrite Hl. cbn in *.
    by apply Z.leb_gt in Hd.
Qed.

(** C23: A service call is issued again only while its target was not reached:
    every attempt of a call but the last had its query finalized with no reply,
    and what the call returns is what the last attempt read: a response is its
    first terminal reply, a failure the failure that reply carries, a timeout
    means that it was acknowledged and not answered, unreachable that nothing
    was read. A query goes out only after a check that the deadline is not
    passed, with the time left when its timeout was read. *)
Theorem service_call_exact s started timeout script issues r :
  poll_service s started timeout script = (issues, Some r) →
  let deadline := (λ t, started + t) <$> timeout in
  ∃ before a rest, script = before ++ a :: rest ∧ Forall (unreached deadline) before ∧
    answer_of a (replies_read deadline a) r ∧
    (∀ i d, i ∈ issues → deadline = Some d → is_at i < d ∧ is_timeout i = Some (time_left d (is_timed i))) ∧
    (length issues ≤ S (length before))%nat.
Proof.
  unfold poll_service. set (deadline := (λ t, started + t) <$> timeout). intros Hp.
  destruct (poll_loop_splits s deadline script issues r Hp) as (before & a & rest & issues' & -> & Hb & Hl & ->).
  destruct (last_gives_answer s deadline a issues' r Hl) as [Ha Hi].
  exists before, a, rest. split; [done|]. split; [done|]. split; [done|]. split.
  - intros i d [Hin|Hin]%elem_of_app Hd; [|by eapply Hi]. apply list_elem_of_fmap in Hin as (b & -> & Hin).
    rewrite Forall_forall in Hb. destruct (Hb b Hin) as (now & Hnow & Hpass & _). unfold issue_of. rewrite Hnow.
    rewrite Hd in Hpass |- *. cbn in *. by apply Z.leb_gt in Hpass.
  - rewrite length_app, length_map. assert (length issues' ≤ 1)%nat; [|lia].
    unfold last_gives in Hl. repeat case_match; simplify_eq; cbn; lia.
Qed.

(** ** A call returns *)

(** The times an attempt reads follow those before it, and a sleep lasts as long
    as it was asked to. *)
Fixpoint clock_runs (deadline now : Z) (script : list CallAttempt) : Prop :=
  match script with
  | [] => True
  | a :: script =>
      match at_lock a with
      | None => True
      | Some t =>
          now ≤ t ∧ t ≤ at_timed a ∧ at_timed a ≤ at_after a ∧
          clock_runs deadline (at_after a + Z.min COLD_START_BACKOFF (time_left deadline (at_after a))) script
      end
  end.

(** How many attempts a call can make from [now]. *)
Definition attempts_left (deadline now : Z) : Z :=
  if deadline <=? now then 1 else (deadline - now) / COLD_START_BACKOFF + 2.

Lemma attempts_left_step deadline now t after :
  now ≤ t → t < deadline → t ≤ after → time_left deadline after ≠ 0 →
  attempts_left deadline (after + Z.min COLD_START_BACKOFF (time_left deadline after)) <
  attempts_left deadline now.
Proof.
  unfold attempts_left, time_left, COLD_START_BACKOFF. intros H1 H2 H3 H4.
  replace (deadline <=? now) with false by lia.
  assert (0 ≤ (deadline - now) / (50 * 1000000)) by (apply Z.div_pos; lia).
  destruct (deadline <=? _) eqn:E; [lia|].
  assert ((deadline - (after + Z.min (50 * 1000000) (Z.max 0 (deadline - after)))) / (50 * 1000000)
    ≤ (deadline - now + -1 * (50 * 1000000)) / (50 * 1000000)) by (apply Z.div_le_mono; lia).
  rewrite Z.div_add in * by lia. lia.
Qed.

Lemma finish_terminal s replies ending r :
  attempt_gives s replies ending = Ok (TerminalReply r) → is_Some (finish_call s r).
Proof.
  unfold attempt_gives. destruct (List.find is_terminal replies) as [r0|] eqn:Hf.
  - intros [= <-]. apply find_some in Hf as [_ Hf]. by destruct r0; cbn; eauto.
  - by destruct replies, ending.
Qed.

Lemma poll_loop_returns s deadline now script :
  clock_runs deadline now script → attempts_left deadline now ≤ Z.of_nat (length script) →
  is_Some (poll_loop s (Some deadline) script).2 ∧
  Z.of_nat (length (poll_loop s (Some deadline) script).1) < attempts_left deadline now.
Proof.
  revert now. induction script as [|a script IH]; intros now Hclock Hlen.
  { exfalso. unfold attempts_left, COLD_START_BACKOFF in Hlen. cbn in Hlen. case_match; [lia|].
    assert (0 ≤ (deadline - now) / (50 * 1000000)) by (apply Z.div_pos; lia). lia. }
  assert (Hpos : 0 < attempts_left deadline now ∧ (now < deadline → 1 < attempts_left deadline now)).
  { unfold attempts_left, COLD_START_BACKOFF. case_match; [lia|].
    assert (0 ≤ (deadline - now) / (50 * 1000000)) by (apply Z.div_pos; lia). lia. }
  cbn [poll_loop clock_runs length] in *. destruct (at_lock a) as [t|]; [|cbn; split; [eauto|lia]].
  destruct Hclock as (Ht & Htimed & Hread & Hclock). assert (Haft : t ≤ at_after a) by lia. cbn [service_deadline_passed].
  destruct (deadline <=? t) eqn:Hd; [cbn; split; [eauto|lia]|]. apply Z.leb_gt in Hd.
  destruct (at_call a) as [[[]|err]|]; [|cbn; split; [eauto|lia]..].
  rewrite receive_terminal_reply_exact. destruct (attempt_gives s (at_replies a) (at_end a)) as [[r|]|err] eqn:Hg.
  - cbn. split; [by eapply finish_terminal|lia].
  - destruct (time_left deadline (at_after a) =? 0) eqn:E; [cbn; split; [eauto|lia]|]. apply Z.eqb_neq in E.
    assert (Hless := attempts_left_step deadline now t (at_after a) Ht Hd Haft E).
    destruct (IH _ Hclock) as [Hr Hn]; [lia|].
    destruct (poll_loop s (Some deadline) script). cbn [fst snd length] in *. split; [done|lia].
  - cbn. split; [eauto|lia].
Qed.

(** C25: A service call with a timeout returns: however often its target is not
    reached, after as many attempts as the timeout holds pauses of the retry,
    and two more, the call has returned, and it issued fewer queries than that. *)
Theorem service_call_returns s started timeout script :
  0 ≤ timeout → clock_runs (started + timeout) started script →
  timeout / COLD_START_BACKOFF + 2 ≤ Z.of_nat (length script) →
  is_Some (poll_service s started (Some timeout) script).2 ∧
  Z.of_nat (length (poll_service s started (Some timeout) script).1) ≤ timeout / COLD_START_BACKOFF + 1.
Proof.
  intros Ht Hclock Hlen. unfold poll_service. cbn [fmap option_fmap option_map].
  assert (Hle : attempts_left (started + timeout) started ≤ timeout / COLD_START_BACKOFF + 2).
  { unfold attempts_left. assert (0 ≤ timeout / COLD_START_BACKOFF) by (apply Z.div_pos; unfold COLD_START_BACKOFF; lia).
    case_match; [lia|]. replace (started + timeout - started) with timeout by lia. lia. }
  destruct (poll_loop_returns s (started + timeout) started script Hclock) as [Hr Hn]; [lia|]. split; [done|lia].
Qed.

(** ** What a handler sees *)

(** A request that the endpoint hands out. *)
Definition handed (check : option CallCheck) (x : IncomingRequest * bool) : bool :=
  bool_decide (in_kind x.1 = UserRequest) && is_ok (endpoint_verify check x.1) && x.2.

(** What the endpoint replies to a request that it does not hand out. *)
Definition passed_over (check : option CallCheck) (x : IncomingRequest * bool) : list EndpointReply :=
  match in_kind x.1, endpoint_verify check x.1 with
  | Probe, _ => []
  | UserRequest, Err refusal => [RefusedCall (in_token x.1) refusal]
  | UserRequest, Ok _ => [AckFailed (in_token x.1)]
  end.

(** C24: An endpoint hands a handler the first request that is one of a user, that
    the session's check accepts and whose ack went out, with the caller that the
    check verified, and with no reply to it but the ack. Of the requests before
    it, a probe gets nothing, one the check refuses gets the refusal, and the
    others have lost their caller. *)
Theorem recv_next_request_exact check arrived replies found rest :
  recv_next_request check arrived = (replies, found, rest) →
  match found with
  | None =>
      Forall (λ x, handed check x = false) arrived ∧ rest = [] ∧
      replies = flat_map (passed_over check) arrived
  | Some (cx, token) =>
      ∃ before i, arrived = before ++ (i, true) :: rest ∧ Forall (λ x, handed check x = false) before ∧
        in_kind i = UserRequest ∧ endpoint_verify check i = Ok (cx_verified_caller cx) ∧
        cx_message cx = mkMessage (in_caller_core i) (in_caller_inst i) (in_payload i) ∧
        cx_link_id cx = in_link_id i ∧ token = in_token i ∧
        replies = flat_map (passed_over check) before ++ [AckSent token]
  end.
Proof.
  revert replies. induction arrived as [|[i acks] arrived IH]; intros replies; cbn [recv_next_request].
  { intros [= <- <- <-]. split; [constructor|done]. }
  assert (Hskip : ∀ skipped replies0,
    handed check (i, acks) = false → passed_over check (i, acks) = skipped →
    recv_next_request check arrived = (replies0, found, rest) → replies = skipped ++ replies0 →
    match found with
    | None => Forall (λ x, handed check x = false) ((i, acks) :: arrived) ∧ rest = [] ∧
        replies = flat_map (passed_over check) ((i, acks) :: arrived)
    | Some (cx, token) => ∃ before i0, (i, acks) :: arrived = before ++ (i0, true) :: rest ∧
        Forall (λ x, handed check x = false) before ∧ in_kind i0 = UserRequest ∧
        endpoint_verify check i0 = Ok (cx_verified_caller cx) ∧
        cx_message cx = mkMessage (in_caller_core i0) (in_caller_inst i0) (in_payload i0) ∧
        cx_link_id cx = in_link_id i0 ∧ token = in_token i0 ∧
        replies = flat_map (passed_over check) before ++ [AckSent token]
    end).
  { intros skipped replies0 Hh Hp Hr ->. specialize (IH replies0 Hr). destruct found as [[cx token]|].
    - destruct IH as (before & i0 & -> & Hb & Hrest). exists ((i, acks) :: before), i0.
      split; [done|]. split; [by constructor|]. cbn. rewrite Hp, <-app_assoc.
      destruct Hrest as (? & ? & ? & ? & ? & ->). by split_and!.
    - destruct IH as (Hf & -> & ->). split; [by constructor|]. split; [done|]. cbn. by rewrite Hp. }
  destruct (in_kind i) eqn:Hk.
  - destruct (endpoint_verify check i) as [caller|refusal] eqn:Hv.
    + destruct acks.
      * intros [= <- <- <-]. exists [], i. by split_and!.
      * destruct (recv_next_request check arrived) as [[replies0 found0] rest0] eqn:Hr. intros [= <- <- <-].
        eapply (Hskip [AckFailed (in_token i)]); [|by unfold passed_over; cbn; rewrite Hk, Hv|done|done].
        unfold handed. cbn. by rewrite andb_false_r.
    + destruct (recv_next_request check arrived) as [[replies0 found0] rest0] eqn:Hr. intros [= <- <- <-].
      eapply (Hskip [RefusedCall (in_token i) refusal]); [|by unfold passed_over; cbn; rewrite Hk, Hv|done|done].
      unfold handed. cbn. by rewrite Hv, andb_false_r.
  - intros Hr. eapply (Hskip []); [|by unfold passed_over; cbn; rewrite Hk|done|done].
    unfold handed. cbn. by rewrite Hk.
Qed.

(** ** One producer gets the request *)

Lemma Segment_try_from_same s s' : Segment_try_from s = Ok s' → s' = s.
Proof.
  unfold Segment_try_from. destruct (validate_segment_chars s); cbn; [|done].
  destruct (is_reserved_sentinel s); [done|]. congruence.
Qed.

Lemma producer_slots_same target tc ti :
  producer_slots target = Ok (tc, ti) → tc = core_node <$> target ∧ ti = instance_id <$> target.
Proof.
  unfold producer_slots. destruct target as [p|]; [|by intros [= <- <-]]. rewrite result_bind_ok.
  intros (c & Hc & Hp). apply result_bind_ok in Hp as (i & Hi & [= <- <-]).
  apply Segment_try_from_same in Hc as ->, Hi as ->. done.
Qed.

Lemma sender_new_slots core inst target to name kind s :
  ServiceWireSender_new core inst target to name kind = Ok s →
  sw_target_core_node s = core_node <$> target ∧ sw_target_instance_id s = instance_id <$> target.
Proof.
  unfold ServiceWireSender_new. rewrite !result_bind_ok. intros (? & _ & Hs).
  apply result_bind_ok in Hs as (? & _ & Hs). apply result_bind_ok in Hs as ([tc ti] & Hp & Hs).
  apply result_bind_ok in Hs as (? & _ & [= <-]). cbn. by apply producer_slots_same.
Qed.

Lemma wire_sender_slots target core inst to name s :
  wire_sender target core inst to name = Ok s →
  sw_target_core_node s =
    match target with AnyProducer => None | OnCoreNode c => Some c | PinnedProducer p => Some (core_node p) end ∧
  sw_target_instance_id s = match target with PinnedProducer p => Some (instance_id p) | _ => None end.
Proof.
  unfold wire_sender. rewrite result_bind_ok. intros (s0 & Hs0 & Hs). apply sender_new_slots in Hs0 as [Hc Hi].
  destruct target as [|c|p]; cbn in *; [by injection Hs as <-| |by injection Hs as <-].
  unfold scoped_to_core_node in Hs. apply result_bind_ok in Hs as (c' & Hc' & [= <-]).
  apply Segment_try_from_same in Hc' as ->. done.
Qed.

(** The request of a call goes to one producer, that answered for itself: when
    a call issues its request, the request names both halves of one producer's
    address, which is the one the caller pinned, with no probe sent, or the one
    whose response the probe read first, and the probe was limited to the core
    node the caller gave. *)
Lemma request_goes_to_one_producer core inst to name target timeout script queries r sender issues :
  service_poll core inst to name target timeout script = (queries, r) →
  pq_request queries = Some (sender, issues) →
  ∃ p, sw_target_core_node sender = Some (core_node p) ∧ sw_target_instance_id sender = Some (instance_id p) ∧
    match target with
    | PinnedProducer pinned => p = pinned ∧ pq_probe queries = []
    | AnyProducer | OnCoreNode _ =>
        ∃ probe m, wire_sender target core inst to name = Ok probe ∧
          poll_service probe (ps_started script) (Some (discovery_timeout timeout)) (ps_probe script) =
            (pq_probe queries, Some (Ok m)) ∧
          p = mkProducerRef (m_core_node m) (m_instance_id m) ∧
          sw_target_instance_id probe = None ∧
          sw_target_core_node probe = match target with OnCoreNode c => Some c | _ => None end
    end.
Proof.
  unfold service_poll. set (discovered := match target with PinnedProducer p => _ | _ => _ end). intros Hp Hreq.
  destruct discovered as [probes [[resolved|err]|]] eqn:Hd; [|by simplify_eq..].
  destruct (match timeout with None => Ok None | Some _ => _ end) as [budget|err] in Hp; [|by simplify_eq].
  destruct (wire_sender (PinnedProducer resolved) core inst to name) as [s|err] eqn:Hs; [|by simplify_eq].
  destruct (poll_service s _ budget _) as [issues0 r0]. injection Hp as <- <-. injection Hreq as -> ->.
  apply wire_sender_slots in Hs as [Hc Hi]. exists resolved. split; [done|]. split; [done|]. cbn [pq_probe].
  assert (Hprobe : ∀ probe, wire_sender target core inst to name = Ok probe →
    discover_producer probe (ps_started script) timeout (ps_probe script) = (probes, Some (Ok resolved)) →
    ∃ m, poll_service probe (ps_started script) (Some (discovery_timeout timeout)) (ps_probe script) =
        (probes, Some (Ok m)) ∧ resolved = mkProducerRef (m_core_node m) (m_instance_id m)).
  { intros probe _ Hdisc. unfold discover_producer in Hdisc.
    destruct (poll_service probe _ _ _) as [issues0 [[m|err]|]]; cbn in Hdisc; simplify_eq. eauto. }
  unfold discovered in Hd. destruct target as [|c|p]; [| |by simplify_eq].
  all: destruct (wire_sender _ core inst to name) as [probe|err] eqn:Hw; [|done].
  all: destruct (Hprobe probe eq_refl Hd) as (m & Hm & Hres); apply wire_sender_slots in Hw as [Hwc Hwi];
    exists probe, m; by split_and!.
Qed.

(** ** Example calls *)

Definition example_sender : ServiceWireSender :=
  mkSender "hub" "cli" (Some "hub") (Some "arm") (TargetNode "arm" "v1") "status" KService.

Definition example_reply : Message := mkMessage "hub" "arm" [Byte.x01].

(** An attempt that reaches nobody, and one that is acknowledged and answered. *)
Definition example_cold (now : Z) : CallAttempt := mkCallAttempt (Some now) (now + 1) (Some (Ok tt)) [] StreamClosed (now + 10).
Definition example_answered (now : Z) : CallAttempt :=
  mkCallAttempt (Some now) (now + 1) (Some (Ok tt)) [AckReply; ResponseReply example_reply] StreamClosed (now + 10).

Definition example_calls : list CallAttempt := [example_cold 1010; example_answered (60 * 1000000)].

Lemma service_call_exact_witness :
  let d := 1000 + NANOS_PER_SEC in
  ∃ before a rest, example_calls = before ++ a :: rest ∧ Forall (unreached (Some d)) before ∧
    answer_of a (replies_read (Some d) a) (Ok example_reply) ∧
    (∀ i d', i ∈ [mkIssue 1010 1011 (Some (d - 1011)); mkIssue (60 * 1000000) (60 * 1000000 + 1) (Some (d - 60 * 1000000 - 1))] →
       Some d = Some d' → is_at i < d' ∧ is_timeout i = Some (time_left d' (is_timed i))) ∧
    (2 ≤ S (length before))%nat.
Proof.
  apply (service_call_exact example_sender 1000 (Some NANOS_PER_SEC) example_calls). vm_compute. reflexivity.
Defined.

(** A target that no attempt reaches within a timeout of a tenth of a second. *)
Definition example_unreached : list CallAttempt :=
  map (λ n, example_cold (1000 + Z.of_nat n * (COLD_START_BACKOFF + 10))) (seq 0 4).

Lemma service_call_returns_witness :
  is_Some (poll_service example_sender 1000 (Some (2 * COLD_START_BACKOFF)) example_unreached).2 ∧
  Z.of_nat (length (poll_service example_sender 1000 (Some (2 * COLD_START_BACKOFF)) example_unreached).1) ≤ 3.
Proof.
  apply (service_call_returns example_sender 1000 (2 * COLD_START_BACKOFF) example_unreached).
  - vm_compute. discriminate.
  - vm_compute. repeat split; discriminate.
  - vm_compute. discriminate.
Defined.

Definition example_incoming (kind : ServiceQueryKind) (token : nat) (proof : option bytes) : IncomingRequest :=
  mkIncoming kind "hub" "cli" [Byte.x02] "_" proof token.

(** A check that refuses a request with no proof. *)
Definition example_check : CallCheck := λ i,
  match in_proof i with
  | Some _ => Ok (mkVerifiedCaller "hub" "cli" CommandLine)
  | None => Err (Failure_of_kind Rejected "unsigned")
  end.

Definition example_arrived : list (IncomingRequest * bool) :=
  [(example_incoming Probe 0 None, true); (example_incoming UserRequest 1 None, true);
   (example_incoming UserRequest 2 (Some []), false); (example_incoming UserRequest 3 (Some []), true);
   (example_incoming UserRequest 4 (Some []), true)].

Lemma recv_next_request_exact_witness :
  ∃ before i, example_arrived = before ++ (i, true) :: [(example_incoming UserRequest 4 (Some []), true)] ∧
    Forall (λ x, handed (Some example_check) x = false) before ∧
    in_kind i = UserRequest ∧ endpoint_verify (Some example_check) i = Ok (Some (mkVerifiedCaller "hub" "cli" CommandLine)) ∧
    mkMessage "hub" "cli" [Byte.x02] = mkMessage (in_caller_core i) (in_caller_inst i) (in_payload i) ∧
    "_" = in_link_id i ∧ 3%nat = in_token i ∧
    [RefusedCall 1 (Failure_of_kind Rejected "unsigned"); AckFailed 2; AckSent 3] =
      flat_map (passed_over (Some example_check)) before ++ [AckSent 3].
Proof.
  apply (recv_next_request_exact (Some example_check) example_arrived _
    (Some (mkContext (mkMessage "hub" "cli" [Byte.x02]) "_" (Some (mkVerifiedCaller "hub" "cli" CommandLine)), 3%nat)) _).
  vm_compute. reflexivity.
Defined.

Definition example_poll : PollScript :=
  mkPollScript 1000 [example_cold 1010; example_answered (60 * 1000000)] (70 * 1000000) (70 * 1000000)
    [example_answered (71 * 1000000)].

Lemma request_goes_to_one_producer_witness :
  ∃ queries r sender issues,
    service_poll "hub" "cli" (TargetNode "arm" "v1") "status" (OnCoreNode "hub") (Some NANOS_PER_SEC) example_poll =
      (queries, r) ∧ pq_request queries = Some (sender, issues) ∧
    ∃ p, sw_target_core_node sender = Some (core_node p) ∧ sw_target_instance_id sender = Some (instance_id p).
Proof.
  eexists _, _, _, _. split; [vm_compute; reflexivity|]. split; [reflexivity|].
  edestruct (request_goes_to_one_producer "hub" "cli" (TargetNode "arm" "v1") "status" (OnCoreNode "hub")
    (Some NANOS_PER_SEC) example_poll) as (p & Hc & Hi & _); [vm_compute; reflexivity|reflexivity|].
  exists p. split; [exact Hc|exact Hi].
Defined.
