(* ===== verification/ActionClient.v ===== *)
(** * The client of an action

    The client half of [peppylib-rs/src/messaging/actions.rs]: sending a goal,
    following its feedback, watching its producer, cancelling it and asking for
    its result. A call takes the answers it meets from the transport and the
    clock, and gives what it did, in order, and what it returned. The goal
    request itself is a call of [ServiceCall]. *)

From S2P Require Import Prelude Names ActionWire ActionEngine ServiceCall.
#[local] Open Scope Z_scope.

(** ** Senders *)

Record ActionWireSender : Type := mkActionSender {
  aw_as_core_node : string;
  aw_as_instance_id : string;
  aw_target_core_node : option string;
  aw_target_instance_id : option string;
  aw_to_target : SenderTarget;
  aw_to_action_name : string;
}.

Definition ActionWireSender_new (as_core_node as_instance_id : string) (target : option ProducerRef)
    (to_target : SenderTarget) (to_action_name : string) : result SegmentError ActionWireSender :=
  core ← Segment_try_from as_core_node;
  inst ← Segment_try_from as_instance_id;
  '(target_core, target_inst) ← producer_slots target;
  name ← Segment_try_from to_action_name;
  Ok (mkActionSender core inst target_core target_inst to_target name).

Definition action_service (kind : ServiceKind) (s : ActionWireSender) : ServiceWireSender :=
  mkSender (aw_as_core_node s) (aw_as_instance_id s) (aw_target_core_node s) (aw_target_instance_id s)
    (aw_to_target s) (aw_to_action_name s) kind.

Inductive ActionError : Type :=
| ServiceErr (err : ServiceError)
| EnvelopeErr (err : EnvelopeError)
| ActionResultTimeout (instance_id : option string) (action_name : string)
| ActionResultUnreachable (instance_id : option string) (action_name : string)
| ActionFeedbackChannelClosed
| ActionFeedbackOverflow (instance_id : option string) (action_name : string) (bound : nat)
| ActionFeedbackProducerGone (instance_id : option string) (action_name : string)
| ActionGoalCancelled (instance_id : option string) (action_name reason : string)
| ActionGoalFailed (instance_id : option string) (action_name : string) (failure : Failure)
| ActionGoalAbandoned (instance_id : option string) (action_name : string)
| ActionResultExpired (instance_id : option string) (action_name : string).

(** ** What a client does *)

Inductive ClientEvent : Type :=
| PresenceDeclared (client : ClientPresence)
| ProbeSent (sender : ServiceWireSender) (queries : list Issue)
| FeedbackSubscribed (sender : ActionWireSender) (goal_id : string)
| ProducerWatched (sender : ActionWireSender)
| GoalRequested (sender : ServiceWireSender) (payload : bytes) (queries : list Issue)
| OwnCancel (sender : ActionWireSender) (goal_id : string).

(** The events of a call, and what it returned; [None] while it runs. *)
Definition client (A : Type) : Type := list ClientEvent * option (result ActionError A).

Definition client_ret {A} (a : A) : client A := ([], Some (Ok a)).

Definition client_bind {A B} (m : client A) (k : A → client B) : client B :=
  match m with
  | (es, Some (Ok a)) => let '(es', r) := k a in (es ++ es', r)
  | (es, Some (Err err)) => (es, Some (Err err))
  | (es, None) => (es, None)
  end.

Notation "'let*' x := m 'in' k" := (client_bind m (λ x, k))
  (at level 10, x pattern, m at level 100, k at level 200) : peppy_scope.
#[local] Open Scope peppy_scope.

Definition tell (e : ClientEvent) : client unit := ([e], Some (Ok tt)).
Definition fail_with {A} (err : ActionError) : client A := ([], Some (Err err)).
Definition lift {E A} (f : E → ActionError) (r : result E A) : client A := ([], Some (map_err f r)).

(** What a call of [send_goal] meets. *)
Record GoalScript : Type := mkGoalScript {
  gsc_goal_id : string;
  gsc_generation : string;
  gsc_tokens : list (string * string);
  gsc_presence : result string unit;
  gsc_started : Z;
  gsc_probe_started : Z;
  gsc_probe : list CallAttempt;
  gsc_subscribe : result string unit;
  gsc_watch : result string unit;
  gsc_found : Z;
  gsc_call_started : Z;
  gsc_call : list CallAttempt;
}.

Record ActionGoalHandle : Type := mkGoalHandle {
  gh_sender : ActionWireSender;
  gh_goal_id : string;
  gh_answer : GoalAnswer;
  gh_instance_id : string;
  gh_core_node : string;
  gh_feedback_bound : nat;
}.

(** [MessengerHandle::client_presence]: the presence token of a sender is
    declared at its first goal, and held from then on; [tokens] are the senders
    whose tokens are held, and [declared] is what the transport answers. *)
Definition client_presence (tokens : list (string * string)) (core inst generation : string)
    (declared : result string unit) : client ClientPresence :=
  let* core := lift (λ e, ServiceErr (InvalidSegment e)) (Segment_try_from core) in
  let* inst := lift (λ e, ServiceErr (InvalidSegment e)) (Segment_try_from inst) in
  let c := mkClientPresence core inst generation in
  if bool_decide ((core, inst) ∈ tokens) then client_ret c
  else
    let* _ := lift (λ e, ServiceErr (Interface e)) declared in
    let* _ := tell (PresenceDeclared c) in
    client_ret c.

Definition request_may_have_started_a_goal (err : ServiceError) : bool :=
  match err with ServiceTimeout _ _ => true | _ => false end.

Definition resolve_producer (as_core_node as_instance_id : string) (to_target : SenderTarget)
    (to_action_name : string) (target : option ProducerRef) (goal_timeout : Z) (sc : GoalScript) :
    client ProducerRef :=
  match target with
  | Some producer => client_ret producer
  | None =>
      let* probe := lift (λ e, ServiceErr (InvalidSegment e))
        (ActionWireSender_new as_core_node as_instance_id None to_target to_action_name) in
      let sender := action_service KActionGoal probe in
      let '(queries, r) := discover_producer sender (gsc_probe_started sc) (Some goal_timeout) (gsc_probe sc) in
      ([ProbeSent sender queries], map_err ServiceErr <$> r)
  end.

Definition send_goal (as_core_node as_instance_id : string) (to_target : SenderTarget)
    (to_action_name : string) (target : option ProducerRef) (user_payload : bytes) (feedback_bound : nat)
    (goal_timeout : Z) (sc : GoalScript) : client ActionGoalHandle :=
  let goal_id := gsc_goal_id sc in
  let* presence :=
    client_presence (gsc_tokens sc) as_core_node as_instance_id (gsc_generation sc) (gsc_presence sc) in
  let* goal_payload := lift EnvelopeErr (wrap_goal_request goal_id (cp_generation presence) user_payload) in
  let* resolved :=
    resolve_producer as_core_node as_instance_id to_target to_action_name target goal_timeout sc in
  let* sender := lift (λ e, ServiceErr (InvalidSegment e))
    (ActionWireSender_new as_core_node as_instance_id (Some resolved) to_target to_action_name) in
  let* _ := lift (λ e, ServiceErr (Interface e)) (gsc_subscribe sc) in
  let* _ := tell (FeedbackSubscribed sender goal_id) in
  let* _ := lift (λ e, ServiceErr (Interface e)) (gsc_watch sc) in
  let* _ := tell (ProducerWatched sender) in
  let* budget := lift ServiceErr
    (budget_left_after_discovery goal_timeout (gsc_started sc) (gsc_found sc) resolved to_action_name) in
  let service := action_service KActionGoal sender in
  let '(queries, r) := poll_service service (gsc_call_started sc) (Some budget) (gsc_call sc) in
  let* _ := tell (GoalRequested service goal_payload queries) in
  match r with
  | None => ([], None)
  | Some (Err err) =>
      if request_may_have_started_a_goal err
      then let* _ := tell (OwnCancel sender goal_id) in fail_with (ServiceErr err)
      else fail_with (ServiceErr err)
  | Some (Ok m) =>
      match unwrap_goal_ack (m_payload m) with
      | Err err => let* _ := tell (OwnCancel sender goal_id) in fail_with (EnvelopeErr err)
      | Ok answer =>
          client_ret (mkGoalHandle sender goal_id answer (m_instance_id m) (m_core_node m) feedback_bound)
      end
  end.

(** ** A goal that was sent stays in hand *)

Lemma client_bind_ok {A B} (m : client A) (k : A → client B) es r :
  client_bind m k = (es, r) →
  (∃ es1 a es2, m = (es1, Some (Ok a)) ∧ k a = (es2, r) ∧ es = es1 ++ es2) ∨
  (∃ r', m = (es, r') ∧ (∀ a, r' ≠ Some (Ok a)) ∧ ∀ b, r ≠ Some (Ok b)).
Proof.
  unfold client_bind. destruct m as [es1 [[a|err]|]].
  - destruct (k a) as [es2 r2] eqn:Hk. intros [= <- <-]. left. eauto 8.
  - intros [= <- <-]. right. eauto.
  - intros [= <- <-]. right. eauto.
Qed.

Definition asks_goal (e : ClientEvent) : Prop := ∃ s p q, e = GoalRequested s p q.

(** A step before the request ended the call. *)
Lemma early_end {A} (m : client A) k (es : list ClientEvent) (r : option (result ActionError ActionGoalHandle)) e :
  client_bind m k = (es, r) → e ∈ es → asks_goal e →
  Forall (λ e, ¬ asks_goal e) m.1 →
  ∃ es1 a es2, m = (es1, Some (Ok a)) ∧ k a = (es2, r) ∧ es = es1 ++ es2 ∧ e ∈ es2.
Proof.
  intros Hb He Hask Hm. rewrite Forall_forall in Hm.
  destruct (client_bind_ok m k es r Hb) as [(es1 & a & es2 & -> & Hk & ->)|(r' & -> & _)].
  - exists es1, a, es2. apply elem_of_app in He as [He|He]; [|done]. exfalso. by eapply Hm.
  - exfalso. by eapply Hm.
Qed.

Lemma lift_end {E A B} (f : E → ActionError) (r : result E A) (k : A → client B) es res e :
  client_bind (lift f r) k = (es, res) → e ∈ es → ∃ a, r = Ok a ∧ k a = (es, res).
Proof.
  unfold lift, client_bind. destruct r as [a|err]; cbn.
  - destruct (k a) as [es2 r2] eqn:Hk. intros [= <- <-] _. eauto.
  - intros [= <- <-] ?%elem_of_nil. done.
Qed.

Lemma tell_end {B} ev (k : unit → client B) es res :
  client_bind (tell ev) k = (es, res) → ∃ es', k tt = (es', res) ∧ es = ev :: es'.
Proof. unfold tell, client_bind. destruct (k tt) as [es2 r2] eqn:Hk. intros [= <- <-]. eauto. Qed.

(** What a call does for the presence of its sender. *)
Definition presence_events (tokens : list (string * string)) (c : ClientPresence) : list ClientEvent :=
  if bool_decide ((cp_core_node c, cp_instance_id c) ∈ tokens) then [] else [PresenceDeclared c].

Lemma client_presence_inv tokens core inst generation declared es c :
  client_presence tokens core inst generation declared = (es, Some (Ok c)) →
  es = presence_events tokens c ∧ c = mkClientPresence core inst generation ∧
  Segment_try_from core = Ok core ∧ Segment_try_from inst = Ok inst.
Proof.
  unfold client_presence, lift. destruct (Segment_try_from core) as [core'|] eqn:Hc; [|done].
  assert (Hc' := Segment_try_from_same _ _ Hc). subst core'.
  destruct (Segment_try_from inst) as [inst'|] eqn:Hi; [|done].
  assert (Hi' := Segment_try_from_same _ _ Hi). subst inst'.
  unfold presence_events. cbn. destruct (bool_decide ((core, inst) ∈ tokens)) eqn:E.
  - intros [= <- <-]. cbn. by rewrite E.
  - destruct declared; [|done]. cbn. intros [= <- <-]. cbn. by rewrite E.
Qed.

Lemma action_sender_slots core inst target to name s :
  ActionWireSender_new core inst target to name = Ok s →
  aw_target_core_node s = core_node <$> target ∧ aw_target_instance_id s = instance_id <$> target ∧
  aw_to_action_name s = name.
Proof.
  unfold ActionWireSender_new. rewrite !result_bind_ok. intros (? & _ & Hs).
  apply result_bind_ok in Hs as (? & _ & Hs). apply result_bind_ok in Hs as ([tc ti] & Hp & Hs).
  apply result_bind_ok in Hs as (n & Hn & [= <-]). apply Segment_try_from_same in Hn as ->. cbn.
  apply producer_slots_same in Hp as [-> ->]. done.
Qed.

(** Of a failed call: nothing was read of any attempt, or the last one read a
    failure, acknowledged or not. It says what the client read, not what a
    producer did. *)
Definition unread_or_failed (deadline : option Z) (script : list CallAttempt) : Prop :=
  ∃ before a rest, script = before ++ a :: rest ∧ Forall (unreached deadline) before ∧
    (replies_read deadline a = [] ∨
     ∃ m, List.find is_terminal (replies_read deadline a) = Some (FailureReply m)).

Lemma failed_call_unread s started timeout script queries err :
  poll_service s started timeout script = (queries, Some (Err err)) →
  request_may_have_started_a_goal err = false →
  unread_or_failed ((λ t, started + t) <$> timeout) script.
Proof.
  unfold poll_service. intros Hp Hno.
  destruct (poll_loop_splits s _ script queries _ Hp) as (before & a & rest & issues & -> & Hb & Hl & _).
  destruct (last_gives_answer s _ a issues _ Hl) as [Ha _]. exists before, a, rest. split; [done|]. split; [done|].
  destruct err; cbn in *; try done; [by left|..].
  - destruct Ha as (m & Hm & _). eauto.
  - destruct Ha as (m & Hm & _). eauto.
  - destruct Ha as [Ha _]. by left.
Qed.

Lemma resolve_producer_inv core inst to name target timeout sc es producer :
  resolve_producer core inst to name target timeout sc = (es, Some (Ok producer)) →
  (∀ pinned, target = Some pinned → producer = pinned ∧ es = []).
Proof. unfold resolve_producer. intros Hr pinned ->. by injection Hr as <- <-. Qed.

Lemma resolve_producer_probes core inst to name target timeout sc :
  Forall (λ e, ∃ s q, e = ProbeSent s q) (resolve_producer core inst to name target timeout sc).1.
Proof.
  unfold resolve_producer. destruct target; [constructor|]. unfold lift, client_bind.
  destruct (ActionWireSender_new core inst None to name); cbn; [|constructor].
  destruct (discover_producer _ _ _ _). cbn. constructor; [eauto|constructor].
Qed.

(** The part of [send_goal] that asks. *)
Lemma goal_call_inv sender goal_id p bound queries r es res :
  client_bind (tell (GoalRequested (action_service KActionGoal sender) p queries))
    (λ _, match r with
     | None => ([], None)
     | Some (Err err) =>
         if request_may_have_started_a_goal err
         then client_bind (tell (OwnCancel sender goal_id)) (λ _, fail_with (ServiceErr err))
         else fail_with (ServiceErr err)
     | Some (Ok m) =>
         match unwrap_goal_ack (m_payload m) with
         | Err err => client_bind (tell (OwnCancel sender goal_id)) (λ _, fail_with (EnvelopeErr err))
         | Ok answer =>
             client_ret (mkGoalHandle sender goal_id answer (m_instance_id m) (m_core_node m) bound)
         end
     end) = (es, res) →
  ∃ tail, es = GoalRequested (action_service KActionGoal sender) p queries :: tail ∧
    match res with
    | None => tail = []
    | Some (Ok h) => tail = [] ∧ gh_sender h = sender ∧ gh_goal_id h = goal_id
    | Some (Err _) =>
        tail = [OwnCancel sender goal_id] ∨
        (tail = [] ∧ ∃ err, r = Some (Err err) ∧ request_may_have_started_a_goal err = false)
    end.
Proof.
  cbn. destruct r as [[m|err]|]; [destruct (unwrap_goal_ack (m_payload m))| |];
    [| |destruct (request_may_have_started_a_goal err) eqn:E|]; cbn; intros [= <- <-]; eauto 8.
Qed.

Lemma send_goal_inv core inst to name target payload bound timeout sc tr res service p queries :
  send_goal core inst to name target payload bound timeout sc = (tr, res) →
  GoalRequested service p queries ∈ tr →
  Segment_try_from core = Ok core ∧ Segment_try_from inst = Ok inst ∧
  ∃ sender producer probes tail budget,
    tr = presence_events (gsc_tokens sc) (mkClientPresence core inst (gsc_generation sc)) ++ probes ++
         [FeedbackSubscribed sender (gsc_goal_id sc); ProducerWatched sender; GoalRequested service p queries]
         ++ tail ∧
    (∀ pinned, target = Some pinned → producer = pinned ∧ probes = []) ∧
    (∀ e, e ∈ probes → ∃ s q, e = ProbeSent s q) ∧
    service = action_service KActionGoal sender ∧
    aw_target_core_node sender = Some (core_node producer) ∧
    aw_target_instance_id sender = Some (instance_id producer) ∧
    wrap_goal_request (gsc_goal_id sc) (gsc_generation sc) payload = Ok p ∧
    budget_left_after_discovery timeout (gsc_started sc) (gsc_found sc) producer name = Ok budget ∧
    match res with
    | None => tail = []
    | Some (Ok h) => tail = [] ∧ gh_sender h = sender ∧ gh_goal_id h = gsc_goal_id sc
    | Some (Err _) =>
        tail = [OwnCancel sender (gsc_goal_id sc)] ∨ (tail = [] ∧ unread_or_failed (Some (gsc_call_started sc + budget)) (gsc_call sc))
    end.
Proof.
  unfold send_goal. intros Hs Hin. assert (Hask : asks_goal (GoalRequested service p queries)) by (repeat eexists).
  apply (early_end _ _ _ _ _ Hs Hin) in Hask as H1.
  2: { unfold client_presence, lift. destruct (Segment_try_from core), (Segment_try_from inst); cbn;
         [destruct (bool_decide _); [|destruct (gsc_presence sc)]|..]; cbn; repeat constructor.
       by intros (? & ? & ? & ?). }
  destruct H1 as (es1 & c & es & Hc & Hk & -> & Hin1).
  apply client_presence_inv in Hc as (-> & -> & Hcore & Hinst). cbn [cp_generation] in Hk.
  apply (lift_end _ _ _ _ _ _ Hk) in Hin1 as Hw. destruct Hw as (gp & Hgp & Hk2). clear Hk.
  assert (Hprobes := resolve_producer_probes core inst to name target timeout sc).
  apply (early_end _ _ _ _ _ Hk2 Hin1) in Hask as H3.
  2: { eapply Forall_impl; [exact Hprobes|]. by intros e (s & q & ->) (? & ? & ? & ?). }
  destruct H3 as (probes & producer & es3 & Hres & Hk3 & -> & Hin3). rewrite Hres in Hprobes. clear Hk2 Hin1.
  apply (lift_end _ _ _ _ _ _ Hk3) in Hin3 as Hw. destruct Hw as (sender & Hsender & Hk4). clear Hk3.
  apply (lift_end _ _ _ _ _ _ Hk4) in Hin3 as Hw. destruct Hw as (_ & _ & Hk5). clear Hk4.
  apply tell_end in Hk5 as (es5 & Hk5 & ->). apply elem_of_cons in Hin3 as [|Hin5]; [done|].
  apply (lift_end _ _ _ _ _ _ Hk5) in Hin5 as Hw. destruct Hw as (_ & _ & Hk6). clear Hk5.
  apply tell_end in Hk6 as (es6 & Hk6 & ->). apply elem_of_cons in Hin5 as [|Hin6]; [done|].
  apply (lift_end _ _ _ _ _ _ Hk6) in Hin6 as Hw. destruct Hw as (budget & Hbudget & Hk7). clear Hk6.
  destruct (poll_service (action_service KActionGoal sender) _ _ _) as [queries0 r] eqn:Hcall.
  apply goal_call_inv in Hk7 as (tail & -> & Hend).
  assert (Heq : GoalRequested service p queries = GoalRequested (action_service KActionGoal sender) gp queries0).
  { apply elem_of_cons in Hin6 as [|Hin7]; [done|exfalso].
    assert (Hno : ∀ e, e ∈ tail → ¬ asks_goal e); [|by eapply Hno].
    intros e He (? & ? & ? & ->). destruct res as [[h|err]|].
    - destruct Hend as [-> _]. by apply elem_of_nil in He.
    - destruct Hend as [->|[-> _]]; [by apply list_elem_of_singleton in He|by apply elem_of_nil in He].
    - subst. by apply elem_of_nil in He. }
  injection Heq as -> -> ->. apply action_sender_slots in Hsender as (Htc & Hti & _).
  split; [exact Hcore|]. split; [exact Hinst|]. exists sender, producer, probes, tail, budget.
  split; [done|]. split; [by eapply resolve_producer_inv|]. split; [by rewrite Forall_forall in Hprobes|].
  do 5 (split; [done|]). destruct res as [[h|err]|]; [done| |done].
  destruct Hend as [->|(-> & err' & -> & Hno)]; [by left|right]. split; [done|].
  by apply (failed_call_unread _ _ _ _ _ _ Hcall).
Qed.

(** C26: A goal that was sent stays in hand: a goal request goes out after the
    presence of its sender is declared, unless its token is held already, the
    feedback is subscribed and the producer is watched, to the one producer that
    was pinned or found; and when the call then returns no handle, it sent that
    producer a cancel of the goal, unless all that the client read of the request
    was nothing or a failure reply. (The producer may have the goal all the same:
    its acknowledgement may come too late to be read, [late_ack_sends_no_cancel],
    or its failure reply may be one that does not decode,
    [undecoded_failure_sends_no_cancel].) *)
Theorem send_goal_keeps_hold core inst to name target payload bound timeout sc tr res service p queries :
  send_goal core inst to name target payload bound timeout sc = (tr, res) →
  GoalRequested service p queries ∈ tr →
  ∃ sender producer probes tail budget,
    tr = presence_events (gsc_tokens sc) (mkClientPresence core inst (gsc_generation sc)) ++ probes ++
         [FeedbackSubscribed sender (gsc_goal_id sc); ProducerWatched sender; GoalRequested service p queries]
         ++ tail ∧
    (∀ pinned, target = Some pinned → producer = pinned ∧ probes = []) ∧
    (∀ e, e ∈ probes → ∃ s q, e = ProbeSent s q) ∧
    service = action_service KActionGoal sender ∧
    aw_target_core_node sender = Some (core_node producer) ∧
    aw_target_instance_id sender = Some (instance_id producer) ∧
    wrap_goal_request (gsc_goal_id sc) (gsc_generation sc) payload = Ok p ∧
    budget_left_after_discovery timeout (gsc_started sc) (gsc_found sc) producer name = Ok budget ∧
    match res with
    | None => tail = []
    | Some (Ok h) => tail = [] ∧ gh_sender h = sender ∧ gh_goal_id h = gsc_goal_id sc
    | Some (Err _) =>
        tail = [OwnCancel sender (gsc_goal_id sc)] ∨ (tail = [] ∧ unread_or_failed (Some (gsc_call_started sc + budget)) (gsc_call sc))
    end.
Proof. intros Hs Hin. by destruct (send_goal_inv _ _ _ _ _ _ _ _ _ _ _ _ _ _ Hs Hin) as (_ & _ & Hrest). Qed.

(** ** The provider admits what the client sends *)

(** What [generate_short_id] gives: sixteen hexadecimal digits of a hash. *)
Definition is_hex (c : Ascii.ascii) : bool :=
  is_ascii_digit c || ((97 <=? byte_val c) && (byte_val c <=? 102)).

Definition short_id (s : string) : Prop := length (chars s) = 16%nat ∧ ∀ c, In c (chars s) → is_hex c = true.

Lemma hex_range c : is_hex c = true → 48 ≤ byte_val c ≤ 57 ∨ 97 ≤ byte_val c ≤ 102.
Proof.
  unfold is_hex, is_ascii_digit. rewrite orb_true_iff, !andb_true_iff, !Z.leb_le. tauto.
Qed.

Lemma short_id_str s : short_id s → is_str s = true.
Proof. intros [_ Hs]. apply ascii_is_str. intros c Hc%Hs%hex_range. lia. Qed.

Lemma short_id_safe s : short_id s → is_safe_goal_id s = true.
Proof.
  intros [Hl Hs]. unfold is_safe_goal_id. rewrite bool_decide_false by (by intros ->). cbn.
  apply forallb_forall. intros c Hc%Hs%hex_range.
  unfold is_ascii_alphanumeric, is_ascii_lowercase, is_ascii_uppercase, is_ascii_digit.
  rewrite !orb_true_iff, !andb_true_iff, !Z.leb_le. lia.
Qed.

Lemma no_char (p : Ascii.ascii → bool) l : (∀ c, In c l → p c = false) → existsb p l = false.
Proof. induction l as [|c l IH]; cbn; [done|]. intros H. rewrite H, IH by auto. done. Qed.

Lemma short_id_segment s : short_id s → Segment_try_from s = Ok s.
Proof.
  intros [Hl Hs]. unfold Segment_try_from, validate_segment_chars, is_reserved_sentinel.
  rewrite bool_decide_false by (by intros ->).
  rewrite !no_char by (intros c Hc%Hs%hex_range; apply Z.eqb_neq; lia). cbn.
  rewrite !bool_decide_false by (intros ->; cbn in Hl; lia). done.
Qed.

Lemma short_id_wraps s : short_id s → ∃ w, wrap_goal_payload s [] = Ok w ∧ goal_id_from_request w = Ok s.
Proof.
  intros Hs. destruct (wrap_goal_payload s []) as [w|err] eqn:Hw.
  - exists w. split; [done|]. assert (Hsplit := proj2 (split_goal_envelope_exact w s []) (conj (short_id_str s Hs) Hw)).
    unfold split_goal_envelope in Hsplit. unfold goal_id_from_request.
    apply result_bind_ok in Hsplit as ([id body] & -> & [= <- _]). done.
  - exfalso. destruct Hs as [Hl _]. unfold wrap_goal_payload in Hw. rewrite bool_decide_false in Hw.
    + rewrite length_as_bytes in Hw. rewrite Hl in Hw. done.
    + intros E. assert (Hlen := length_as_bytes s). rewrite E, Hl in Hlen. done.
Qed.

(** C27: The provider admits what the client sends: a goal request that
    [send_goal] issues is admitted by the engine as a goal of the id the client
    drew, from the presence it declared, with its payload, whatever caller the
    check verified; and the cancel it may send of that goal names the same id. *)
Theorem sent_goal_is_admitted core inst to name target payload bound timeout sc tr res service p queries
    caller feedback :
  short_id (gsc_goal_id sc) → short_id (gsc_generation sc) →
  send_goal core inst to name target payload bound timeout sc = (tr, res) →
  GoalRequested service p queries ∈ tr → feedback ≠ Some false →
  admit_goal core inst caller feedback p =
    Ok (mkPendingGoal (gsc_goal_id sc) (mkClientPresence core inst (gsc_generation sc)) caller payload
          (opt_is_some feedback)) ∧
  ((core, inst) ∈ gsc_tokens sc ∨ PresenceDeclared (mkClientPresence core inst (gsc_generation sc)) ∈ tr) ∧
  ∃ w, wrap_goal_payload (gsc_goal_id sc) [] = Ok w ∧ goal_id_from_request w = Ok (gsc_goal_id sc).
Proof.
  intros Hid Hgen Hs Hin Hfb.
  destruct (send_goal_inv _ _ _ _ _ _ _ _ _ _ _ _ _ _ Hs Hin)
    as (Hcore & Hinst & sender & producer & probes & tail & budget & Htr & _ & _ & _ & _ & _ & Hw & _).
  split; [|split; [|by apply short_id_wraps]].
  2: { rewrite Htr. unfold presence_events. cbn. case_bool_decide; [by left|right]. by left. }
  assert (Hsplit := proj2 (split_goal_request_exact p _ _ _)
    (conj (short_id_str _ Hid) (conj (short_id_str _ Hgen) Hw))).
  unfold admit_goal, parse_goal_request. rewrite Hsplit. cbn. rewrite short_id_safe by done. cbn.
  rewrite Hcore, Hinst. cbn. rewrite short_id_segment by done. cbn.
  destruct feedback as [[]|]; [|done..]. unfold declare_for_goal. by rewrite short_id_safe.
Qed.

(** ** Example goals *)

(** A goal whose request is acknowledged and not answered in time. *)
Definition example_goal : GoalScript :=
  mkGoalScript "00000000000000a1" "00000000000000b2" [("hub", "web")] (Ok tt) 1000 1000
    [example_answered 1010] (Ok tt) (Ok tt)
    2000 2000 [mkCallAttempt (Some 2010) 2010 (Some (Ok tt)) [AckReply] DeadlinePassed (NANOS_PER_SEC + 1000)].

Definition example_send : client ActionGoalHandle :=
  send_goal "hub" "cli" (TargetNode "arm" "v1") "move" None [Byte.x07] 4 NANOS_PER_SEC example_goal.

Definition example_request : bytes :=
  match wrap_goal_request "00000000000000a1" "00000000000000b2" [Byte.x07] with Ok p => p | Err _ => [] end.

Definition example_action : ActionWireSender :=
  mkActionSender "hub" "cli" (Some "hub") (Some "arm") (TargetNode "arm" "v1") "move".

Definition example_requested : ClientEvent :=
  GoalRequested (action_service KActionGoal example_action) example_request [mkIssue 2010 2010 (Some (NANOS_PER_SEC - 1010))].

Lemma send_goal_keeps_hold_witness :
  ∃ sender producer probes tail budget,
    example_send.1 = [PresenceDeclared (mkClientPresence "hub" "cli" "00000000000000b2")] ++ probes ++
      [FeedbackSubscribed sender "00000000000000a1"; ProducerWatched sender; example_requested] ++ tail ∧
    (tail = [OwnCancel sender "00000000000000a1"] ∨
     tail = [] ∧ unread_or_failed (Some (2000 + budget)) (gsc_call example_goal)) ∧
    aw_target_instance_id sender = Some (instance_id producer).
Proof.
  edestruct (send_goal_keeps_hold "hub" "cli" (TargetNode "arm" "v1") "move" None [Byte.x07] 4 NANOS_PER_SEC
    example_goal) as (sender & producer & probes & tail & budget & Htr & _ & _ & _ & _ & Hi & _ & _ & Hend);
    [vm_compute; reflexivity|..].
  - do 4 right. left.
  - exists sender, producer, probes, tail, budget. split; [exact Htr|]. split; [exact Hend|exact Hi].
Defined.

Lemma sent_goal_is_admitted_witness :
  admit_goal "hub" "cli" None (Some true) example_request =
    Ok (mkPendingGoal "00000000000000a1" (mkClientPresence "hub" "cli" "00000000000000b2") None [Byte.x07] true).
Proof.
  edestruct (sent_goal_is_admitted "hub" "cli" (TargetNode "arm" "v1") "move" None [Byte.x07] 4 NANOS_PER_SEC
    example_goal) as [H _]; [..|exact H].
  - split; [reflexivity|]. apply forallb_forall. vm_compute. reflexivity.
  - split; [reflexivity|]. apply forallb_forall. vm_compute. reflexivity.
  - vm_compute. reflexivity.
  - do 4 right. left.
  - discriminate.
Defined.

(** Goals that the producer may have and the client does not cancel: the request
    went out and its ack came after the deadline; it was acknowledged and answered
    with a failure that does not decode. *)
Definition with_call (a : CallAttempt) : client ActionGoalHandle :=
  send_goal "hub" "cli" (TargetNode "arm" "v1") "move" None [Byte.x07] 4 NANOS_PER_SEC
    (mkGoalScript "00000000000000a1" "00000000000000b2" [] (Ok tt) 1000 1000
       [example_answered 1010] (Ok tt) (Ok tt) 2000 2000 [a]).

Definition cancels (c : client ActionGoalHandle) : list ClientEvent :=
  List.filter (λ e, match e with OwnCancel _ _ => true | _ => false end) c.1.

Lemma late_ack_sends_no_cancel :
  let c := with_call (mkCallAttempt (Some 2010) 2010 (Some (Ok tt)) [] DeadlinePassed (NANOS_PER_SEC + 1000)) in
  c.2 = Some (Err (ServiceErr (ServiceUnreachable (Some "arm") "move"))) ∧ cancels c = [].
Proof. split; vm_compute; reflexivity. Qed.

Lemma undecoded_failure_sends_no_cancel :
  let c := with_call (mkCallAttempt (Some 2010) 2010 (Some (Ok tt))
             [AckReply; FailureReply (mkMessage "hub" "arm" [])] StreamClosed 2020) in
  (∃ err, c.2 = Some (Err (ServiceErr (NotAFailure "move" err)))) ∧ cancels c = [].
Proof. split; [eexists|]; vm_compute; reflexivity. Qed.
