(* ===== verification/GoalFollow.v ===== *)
(** * Following a goal

    What a client does with the handle of a goal it sent, in
    [peppylib-rs/src/messaging/actions.rs]: the watch on the producer
    ([confirm_gone], [wait_until_confirmed_gone]), the reads of the feedback
    ([on_next_feedback], [try_next_feedback], [follow_feedback]), the cancel of
    a goal whose feedback overflowed ([OverflowCancel]), and the requests for
    the result. The feedback waits in the buffer of [SubscriptionBuffer]; a
    result request is a call of [ServiceCall]. *)

From S2P Require Import Prelude Names ActionWire ActionEngine SubscriptionBuffer ServiceCall ActionClient.
#[local] Open Scope nat_scope.

(** ** Is the producer gone *)

Definition PRODUCER_GONE_CONFIRM_PROBES : nat := 2.

(** [confirm_gone], on the answers of the probes to come; [None] waits for one. *)
Fixpoint confirm_gone (n : nat) (probes : list (result string bool)) :
    option (bool * list (result string bool)) :=
  match n, probes with
  | 0, _ => Some (true, probes)
  | S n, [] => None
  | S n, Ok false :: probes => confirm_gone n probes
  | S n, (Ok true | Err _) :: probes => Some (false, probes)
  end.

Inductive LivelinessEvent : Type := TokenAlive | TokenGone.

(** The loop of [wait_until_confirmed_gone], on what its channel gives: an event,
    or [None] once it is closed. *)
Fixpoint watch_loop (events : list (option LivelinessEvent)) (probes : list (result string bool)) :
    option bool :=
  match events with
  | [] => None
  | Some TokenAlive :: events => watch_loop events probes
  | Some TokenGone :: events =>
      match confirm_gone PRODUCER_GONE_CONFIRM_PROBES probes with
      | None => None
      | Some (true, _) => Some true
      | Some (false, probes) => watch_loop events probes
      end
  | None :: _ => Some false
  end.

(** [first] is what the wait for the first event gave; [None] is its timeout. *)
Definition wait_until_confirmed_gone (first : option (option LivelinessEvent))
    (events : list (option LivelinessEvent)) (probes : list (result string bool)) : option bool :=
  match first with
  | Some (Some TokenAlive) => watch_loop events probes
  | Some (Some TokenGone) | None =>
      match confirm_gone PRODUCER_GONE_CONFIRM_PROBES probes with
      | None => None
      | Some (true, _) => Some true
      | Some (false, probes) => watch_loop events probes
      end
  | Some None => Some false
  end.

(** *** What the watch confirms *)

(** The reasons a watch has to suspect the producer, until its channel closes. *)
Fixpoint suspicions (events : list (option LivelinessEvent)) : nat :=
  match events with
  | [] | None :: _ => 0
  | Some TokenAlive :: events => suspicions events
  | Some TokenGone :: events => S (suspicions events)
  end.

(** The wait for the first event, as an event: silence is as good as a [Gone]. *)
Definition first_as_event (first : option (option LivelinessEvent)) : option LivelinessEvent :=
  default (Some TokenGone) first.

Lemma wait_is_watch first events probes :
  wait_until_confirmed_gone first events probes = watch_loop (first_as_event first :: events) probes.
Proof. by destruct first as [[[]|]|]. Qed.

(** The answers of a confirmation that failed: the last one is not an absence. *)
Definition refutes (run : list (result string bool)) : Prop :=
  ∃ k last, k < PRODUCER_GONE_CONFIRM_PROBES ∧ last ≠ Ok false ∧ run = replicate k (Ok false) ++ [last].

Lemma confirm_gone_inv n probes b rest :
  confirm_gone n probes = Some (b, rest) ↔
  if b then probes = replicate n (Ok false) ++ rest
  else ∃ k last, k < n ∧ last ≠ Ok false ∧ probes = (replicate k (Ok false) ++ [last]) ++ rest.
Proof.
  revert probes. induction n as [|n IH]; intros probes; cbn [confirm_gone].
  { destruct b; cbn; [split; congruence|]. split; [done|]. by intros (? & ? & ? & _); lia. }
  destruct probes as [|p probes].
  { split; [done|]. destruct b; [done|]. intros (k & last & _ & _ & Hp). by destruct k. }
  assert (Hstep : p ≠ Ok false → Some (false, probes) = Some (b, rest) ↔
    if b then p :: probes = replicate (S n) (Ok false) ++ rest
    else ∃ k last, k < S n ∧ last ≠ Ok false ∧ p :: probes = (replicate k (Ok false) ++ [last]) ++ rest).
  { intros Hp. destruct b; [split; [done|cbn; congruence]|]. split.
    - intros [= <-]. exists 0, p. split; [lia|done].
    - intros ([|k] & last & _ & _ & Heq); cbn in Heq; congruence. }
  destruct p as [[]|]; [by apply Hstep| |by apply Hstep].
  rewrite IH. destruct b; cbn; [split; congruence|]. split.
  - intros (k & last & Hk & Hl & ->). exists (S k), last. split; [lia|done].
  - intros ([|k] & last & Hk & Hl & Heq); cbn in Heq; [congruence|]. injection Heq as ->.
    exists k, last. split; [lia|done].
Qed.

(** Confirmations that failed, one for each suspicion before the last. *)
Definition all_refuted (runs : list (list (result string bool))) (probes rest : list (result string bool)) : Prop :=
  Forall refutes runs ∧ probes = concat runs ++ rest.

Lemma refuted_first runs probes rest :
  all_refuted runs probes rest → confirm_gone PRODUCER_GONE_CONFIRM_PROBES probes =
  match runs with
  | [] => confirm_gone PRODUCER_GONE_CONFIRM_PROBES rest
  | _ :: runs => Some (false, concat runs ++ rest)
  end.
Proof.
  intros [Hr ->]. destruct runs as [|run runs]; [done|]. apply Forall_cons in Hr as [(k & last & Hk & Hl & ->) _].
  apply confirm_gone_inv. exists k, last. cbn [concat]. by rewrite <-!app_assoc.
Qed.

Lemma watch_confirms events probes :
  watch_loop events probes = Some true ↔
  ∃ runs rest, all_refuted runs probes (replicate PRODUCER_GONE_CONFIRM_PROBES (Ok false) ++ rest) ∧
    length runs < suspicions events.
Proof.
  revert probes. induction events as [|[[]|] events IH]; intros probes; cbn [watch_loop suspicions].
  - split; [done|]. by intros (? & ? & _ & ?); lia.
  - apply IH.
  - split.
    + destruct (confirm_gone _ probes) as [[[] rest]|] eqn:Hc; [| |done].
      * intros _. apply confirm_gone_inv in Hc as ->. exists [], rest. split; [split; [constructor|done]|cbn; lia].
      * intros (runs & rest' & [Hr ->] & Hlen)%IH. apply confirm_gone_inv in Hc as (k & last & Hk & Hl & ->).
        exists ((replicate k (Ok false) ++ [last]) :: runs), rest'. split; [|cbn; lia]. split.
        -- constructor; [by exists k, last|done].
        -- cbn [concat]. by rewrite <-!app_assoc.
    + intros (runs & rest & Hall & Hlen). rewrite (refuted_first _ _ _ Hall). destruct runs as [|run runs].
      * by rewrite (proj2 (confirm_gone_inv _ _ true rest)).
      * apply IH. exists runs, rest. destruct Hall as [Hr _]. apply Forall_cons in Hr as [_ Hr].
        split; [by split|cbn in Hlen; lia].
  - split; [done|]. by intros (? & ? & _ & ?); lia.
Qed.

(** C30: The watch of a client says that a producer is gone if and only if, at a
    [Gone] event or at silence from the start, before the channel closed, every
    confirmation probe found no token; each earlier suspicion used up its own
    probes, the last of which saw the token or failed. *)
Theorem producer_gone_exact first events probes :
  wait_until_confirmed_gone first events probes = Some true ↔
  ∃ runs rest, Forall refutes runs ∧
    probes = concat runs ++ replicate PRODUCER_GONE_CONFIRM_PROBES (Ok false) ++ rest ∧
    length runs < suspicions (first_as_event first :: events).
Proof.
  rewrite wait_is_watch, watch_confirms. unfold all_refuted.
  split; intros (runs & rest & H); exists runs, rest; tauto.
Qed.

(** ** Reading the feedback *)

(** The task of [OverflowCancel]: not spawned, waiting for the overflow, past its
    cancel, or aborted by the drop of the handle. *)
Inductive OverflowTask : Type := NoTask | TaskWaits | TaskSent | TaskAborted.

(** A handle drops its subscription before its task. *)
Inductive HandlePhase : Type := Held | FeedbackDropped | HandleDropped.

Definition goal_is_accepted (a : GoalAnswer) : bool :=
  match a with Accepted _ => true | Refused _ => false end.

Definition is_end_sentinel (m : TopicMessage) : bool := ends_stream m.

Definition overflow_error (h : ActionGoalHandle) : ActionError :=
  ActionFeedbackOverflow (aw_target_instance_id (gh_sender h)) (aw_to_action_name (gh_sender h)) (gh_feedback_bound h).

Definition producer_gone_error (s : ActionWireSender) : ActionError :=
  ActionFeedbackProducerGone (aw_target_instance_id s) (aw_to_action_name s).

Section follow.
Context `{Flume}.

(** A handle in use: its buffer, whether the transport closed the channel,
    whether the watch latched the producer as gone, its task, the cancels that
    the task sent, and what the reads gave. *)
Record Following : Type := mkFollowing {
  fo_run : FeedbackRun;
  fo_closed : bool;
  fo_gone : bool;
  fo_task : OverflowTask;
  fo_phase : HandlePhase;
  fo_cancels : nat;
  fo_reads : list (result ActionError (option TopicMessage));
}.

Definition with_run (r : FeedbackRun) (f : Following) : Following :=
  mkFollowing r (fo_closed f) (fo_gone f) (fo_task f) (fo_phase f) (fo_cancels f) (fo_reads f).

Definition with_task (t : OverflowTask) (f : Following) : Following :=
  mkFollowing (fo_run f) (fo_closed f) (fo_gone f) t (fo_phase f) (fo_cancels f) (fo_reads f).

Definition with_phase (p : HandlePhase) (f : Following) : Following :=
  mkFollowing (fo_run f) (fo_closed f) (fo_gone f) (fo_task f) p (fo_cancels f) (fo_reads f).

Definition overflow_raised (f : Following) : bool := fs_overflow (fr_sink (fo_run f)).

(** [runtime] is whether the caller runs in one. *)
Definition follow_feedback (h : ActionGoalHandle) (runtime : bool) (f : Following) : Following :=
  match fo_task f with
  | NoTask =>
      if negb (goal_is_accepted (gh_answer h)) then f
      else if negb runtime then f
      else with_task TaskWaits f
  | _ => f
  end.

(** What the channel holds first, and the handle after taking it. *)
Definition next_message (f : Following) : option TopicMessage * Following :=
  ((try_recv (fs_chan (fr_sink (fo_run f)))).1, with_run (feedback_act (fo_run f) ReaderTakes) f).

Definition try_next_feedback (h : ActionGoalHandle) (runtime : bool) (f : Following) :
    result ActionError (option TopicMessage) * Following :=
  let f := follow_feedback h runtime f in
  if overflow_raised f then (Err (overflow_error h), f)
  else
    match next_message f with
    | (Some m, f) => (if is_end_sentinel m then Err ActionFeedbackChannelClosed else Ok (Some m), f)
    | (None, f) =>
        (if fo_closed f then Err ActionFeedbackChannelClosed
         else if fo_gone f then Err (producer_gone_error (gh_sender h))
         else Ok None, f)
    end.

(** [on_next_feedback], polled; [None] waits. *)
Definition on_next_feedback (h : ActionGoalHandle) (runtime : bool) (f : Following) :
    option (result ActionError TopicMessage) * Following :=
  let f := follow_feedback h runtime f in
  if overflow_raised f then (Some (Err (overflow_error h)), f)
  else
    let '(taken, f') := next_message f in
    let received :=
      match taken with
      | Some m => Some (Ok m)
      | None => if fo_closed f then Some (Err ActionFeedbackChannelClosed) else None
      end in
    match received with
    | Some (Err err) => (Some (Err err), f')
    | Some (Ok m) => (Some (if is_end_sentinel m then Err ActionFeedbackChannelClosed else Ok m), f')
    | None => if fo_gone f then (Some (Err (producer_gone_error (gh_sender h))), f') else (None, f')
    end.

(** *** What happens to a handle *)

Inductive FollowStep : Type :=
| Delivers
| ChannelCloses
| GoneLatched
| Reads (runtime : bool)
| TaskPolled
| DropsFeedback
| DropsRest.

Definition log_read (o : result ActionError (option TopicMessage)) (f : Following) : Following :=
  mkFollowing (fo_run f) (fo_closed f) (fo_gone f) (fo_task f) (fo_phase f) (fo_cancels f) (fo_reads f ++ [o]).

Definition follow_act (h : ActionGoalHandle) (f : Following) (step : FollowStep) : Following :=
  match step with
  | Delivers => if fo_closed f then f else with_run (feedback_act (fo_run f) Transport) f
  | ChannelCloses =>
      mkFollowing (fo_run f) true (fo_gone f) (fo_task f) (fo_phase f) (fo_cancels f) (fo_reads f)
  | GoneLatched =>
      mkFollowing (fo_run f) (fo_closed f) true (fo_task f) (fo_phase f) (fo_cancels f) (fo_reads f)
  | Reads runtime =>
      match fo_phase f with
      | Held => let '(o, f) := try_next_feedback h runtime f in log_read o f
      | _ => f
      end
  | TaskPolled =>
      match fo_task f with
      | TaskWaits =>
          if overflow_raised f
          then mkFollowing (fo_run f) (fo_closed f) (fo_gone f) TaskSent (fo_phase f) (S (fo_cancels f)) (fo_reads f)
          else f
      | _ => f
      end
  | DropsFeedback =>
      match fo_phase f with
      | Held => with_phase FeedbackDropped (with_run (feedback_act (fo_run f) ReaderLeaves) f)
      | _ => f
      end
  | DropsRest =>
      match fo_phase f with
      | FeedbackDropped =>
          let f := with_phase HandleDropped f in
          match fo_task f with
          | TaskWaits => if overflow_raised f then f else with_task TaskAborted f
          | _ => f
          end
      | _ => f
      end
  end.

Definition follow_run (h : ActionGoalHandle) (schedule : list FollowStep) (f : Following) : Following :=
  fold_left (follow_act h) schedule f.

Definition follow_start (bound : positive) (published : list TopicMessage) : Following :=
  mkFollowing (feedback_start bound published) false false NoTask Held 0 [].

(** The two ways to read agree: a read that waits is a read of nothing. *)
Lemma on_next_is_try h runtime f :
  on_next_feedback h runtime f =
  let '(o, f') := try_next_feedback h runtime f in
  (match o with Ok None => None | Ok (Some m) => Some (Ok m) | Err err => Some (Err err) end, f').
Proof.
  unfold on_next_feedback, try_next_feedback. destruct (overflow_raised (follow_feedback h runtime f)); [done|].
  destruct (next_message (follow_feedback h runtime f)) as [[m|] f'] eqn:Hn.
  - by destruct (is_end_sentinel m).
  - assert (Hc : fo_closed f' = fo_closed (follow_feedback h runtime f) ∧
                 fo_gone f' = fo_gone (follow_feedback h runtime f)) by (by injection Hn as _ <-).
    destruct Hc as [-> ->]. by destruct (fo_closed (follow_feedback h runtime f)), (fo_gone (follow_feedback h runtime f)).
Qed.
End follow.

(** *** What the reads give *)

Definition read_messages (reads : list (result ActionError (option TopicMessage))) : list TopicMessage :=
  omap (λ o, match o with Ok m => m | Err _ => None end) reads.

(** The feedback of a stream, without its end and what follows it. *)
Definition before_end (l : list TopicMessage) : list TopicMessage := data (up_to_end l).

Lemma feedback_act_mono `{Flume} r a :
  (fs_overflow (fr_sink r) = true → fs_overflow (fr_sink (feedback_act r a)) = true) ∧
  fr_read r `prefix_of` fr_read (feedback_act r a).
Proof.
  destruct a; unfold feedback_act.
  - destruct (fr_delivery r) as [|m|], (fr_todo r) as [|m' todo]; try done.
    unfold deliver_check. by repeat case_match; simplify_eq.
  - destruct (fr_reader r); [|done]. destruct (try_recv _). cbn. split; [done|by apply prefix_app_r].
  - by destruct (fr_reader r).
Qed.

Lemma data_end m : data [m] = if ends_stream m then [] else [m].
Proof. unfold data. cbn. by destruct (ends_stream m). Qed.

Lemma no_end_prefix l l' : l `prefix_of` l' → no_end l' → no_end l.
Proof. intros [k ->]. by intros [? _]%no_end_app. Qed.

(** Nothing follows the end in what was read. *)
Lemma prefix_past_end l l' : l `prefix_of` up_to_end l' → ¬ no_end l → l = up_to_end l' ∧ ¬ no_end l'.
Proof.
  revert l. induction l' as [|m l' IH]; intros l Hp Hno.
  { apply prefix_nil_inv in Hp as ->. by destruct Hno; constructor. }
  destruct l as [|x l]; [by destruct Hno; constructor|]. cbn in Hp |- *.
  destruct (ends_stream m) eqn:Hm.
  - assert (x = m) as -> by (by apply prefix_cons_inv_1 in Hp). apply prefix_cons_inv_2 in Hp.
    apply prefix_nil_inv in Hp as ->. split; [done|]. intros [Hf _]%Forall_cons. congruence.
  - assert (x = m) as -> by (by apply prefix_cons_inv_1 in Hp). apply prefix_cons_inv_2 in Hp.
    destruct (IH l Hp) as [-> Hno']; [intros ?; apply Hno; by constructor|].
    split; [done|]. by intros [_ ?]%Forall_cons.
Qed.

Ltac follow_simpl :=
  unfold log_read, with_run, with_task, with_phase;
  cbn [fo_run fo_closed fo_gone fo_task fo_phase fo_cancels fo_reads fst snd].

Section follow_inv.
Context `{FlumeLaws} (h : ActionGoalHandle) (bound : nat).

Record follow_inv (f : Following) : Prop := mkFollowInv {
  fv_buffer : feedback_inv bound (fo_run f);
  fv_reader : fr_reader (fo_run f) = true ↔ fo_phase f = Held;
  fv_messages : read_messages (fo_reads f) = data (fr_read (fo_run f));
  fv_closed : Err ActionFeedbackChannelClosed ∈ fo_reads f → fo_closed f = true ∨ ¬ no_end (fr_read (fo_run f));
  fv_gone : Err (producer_gone_error (gh_sender h)) ∈ fo_reads f → fo_gone f = true;
  fv_overflow : Err (overflow_error h) ∈ fo_reads f → overflow_raised f = true;
}.

Lemma follow_inv_start todo bound' :
  bound = Pos.to_nat bound' → follow_inv (follow_start bound' todo).
Proof.
  intros Hb. split; cbn; [rewrite Hb; apply feedback_inv_start|done|done|..]; by intros ?%elem_of_nil.
Qed.

(** A step of the buffer that takes no message. *)
Lemma follow_inv_buffer f a p :
  follow_inv f → fr_read (feedback_act (fo_run f) a) = fr_read (fo_run f) →
  (fr_reader (feedback_act (fo_run f) a) = true ↔ p = Held) →
  follow_inv (with_phase p (with_run (feedback_act (fo_run f) a) f)).
Proof.
  intros Hf Hr Hp. destruct Hf as [Hb Hph Hm Hc Hg Ho]. split; cbn; rewrite ?Hr; try done.
  - by apply (feedback_inv_run bound [a]).
  - intros Hin%Ho. unfold overflow_raised in *. by apply feedback_act_mono.
Qed.

Lemma follow_feedback_same runtime f :
  ∃ t, follow_feedback h runtime f = with_task t f.
Proof.
  unfold follow_feedback. destruct (fo_task f) eqn:E; [destruct (goal_is_accepted (gh_answer h)), runtime; cbn|..];
    first [by exists TaskWaits|exists (fo_task f); by destruct f].
Qed.

Lemma follow_inv_task t f : follow_inv f → follow_inv (with_task t f).
Proof. by intros []. Qed.

Lemma reads_snoc (o e : result ActionError (option TopicMessage)) reads : e ∈ reads ++ [o] ↔ e ∈ reads ∨ e = o.
Proof. by rewrite elem_of_app, list_elem_of_singleton. Qed.

Lemma read_messages_snoc o reads :
  read_messages (reads ++ [o]) = read_messages reads ++ match o with Ok (Some m) => [m] | _ => [] end.
Proof. unfold read_messages. rewrite omap_app. by destruct o as [[]|]. Qed.

Lemma follow_inv_read runtime f :
  follow_inv f → fo_phase f = Held →
  let '(o, f') := try_next_feedback h runtime f in follow_inv (log_read o f').
Proof.
  intros Hf Hheld. unfold try_next_feedback. destruct (follow_feedback_same runtime f) as [t ->].
  apply (follow_inv_task t) in Hf. set (f0 := with_task t f) in *.
  assert (Hheld0 : fo_phase f0 = Held) by done. clearbody f0. clear f Hheld. rename f0 into f.
  destruct Hf as [Hb Hph Hm Hc Hg Ho]. destruct (overflow_raised f) eqn:Hraised.
  { split; follow_simpl; rewrite ?read_messages_snoc, ?app_nil_r; try done;
      intros [Hin|Heq]%reads_snoc; try discriminate; auto. }
  assert (Hb' : feedback_inv bound (feedback_act (fo_run f) ReaderTakes))
    by exact (feedback_inv_run bound [ReaderTakes] _ Hb). unfold next_message.
  assert (Hrd : fr_reader (fo_run f) = true) by tauto.
  destruct (try_recv (fs_chan (fr_sink (fo_run f)))) as [taken c] eqn:Ht. cbn [fst snd].
  assert (Hread : fr_read (feedback_act (fo_run f) ReaderTakes) = fr_read (fo_run f) ++ option_list taken ∧
                  fr_reader (feedback_act (fo_run f) ReaderTakes) = true ∧
                  fs_overflow (fr_sink (feedback_act (fo_run f) ReaderTakes)) = overflow_raised f).
  { unfold feedback_act. rewrite Hrd, Ht. done. }
  destruct Hread as (Hread & Hreader & Hover).
  assert (Hkeep : ¬ no_end (fr_read (fo_run f)) → ¬ no_end (fr_read (feedback_act (fo_run f) ReaderTakes)))
    by (intros Hno; rewrite Hread; by intros [? _]%no_end_app).
  destruct taken as [m|].
  - split; follow_simpl; [done|by rewrite Hreader|..]; rewrite ?read_messages_snoc.
    + rewrite Hm, Hread. cbn [option_list option_rect]. rewrite data_app, data_end. unfold is_end_sentinel. by destruct (ends_stream m).
    + unfold is_end_sentinel. intros [Hin|Heq]%reads_snoc.
      * apply Hc in Hin as [|]; auto.
      * right. rewrite Hread. intros [_ Hno]%no_end_app. apply Forall_cons in Hno as [Hno _].
        rewrite Hno in Heq. discriminate.
    + intros [Hin|Heq]%reads_snoc; [auto|]. by destruct (is_end_sentinel m).
    + unfold overflow_raised in *. follow_simpl. intros [Hin|Heq]%reads_snoc; [by specialize (Ho Hin)|]. by destruct (is_end_sentinel m).
  - cbn [option_list option_rect] in Hread. rewrite app_nil_r in Hread.
    split; follow_simpl; [done|by rewrite Hreader|..]; rewrite ?Hread, ?read_messages_snoc.
    + rewrite Hm. by destruct (fo_closed f), (fo_gone f); rewrite app_nil_r.
    + intros [Hin|Heq]%reads_snoc; [auto|]. by destruct (fo_closed f), (fo_gone f); auto.
    + intros [Hin|Heq]%reads_snoc; [auto|]. by destruct (fo_closed f), (fo_gone f); auto.
    + unfold overflow_raised in *. follow_simpl. intros [Hin|Heq]%reads_snoc; [by specialize (Ho Hin)|].
      by destruct (fo_closed f), (fo_gone f).
Qed.

Lemma follow_inv_act f step : follow_inv f → follow_inv (follow_act h f step).
Proof.
  intros Hf. assert (Hph := fv_reader f Hf). destruct step as [| | |runtime| | |]; cbn.
  - destruct (fo_closed f); [done|].
    replace (with_run _ f) with (with_phase (fo_phase f) (with_run (feedback_act (fo_run f) Transport) f)) by done.
    assert (Hsame : fr_read (feedback_act (fo_run f) Transport) = fr_read (fo_run f) ∧
                    fr_reader (feedback_act (fo_run f) Transport) = fr_reader (fo_run f)).
    { unfold feedback_act. repeat case_match; done. }
    destruct Hsame as [Hr Hrd]. apply follow_inv_buffer; [done..|]. by rewrite Hrd.
  - destruct Hf as [Hb _ Hm Hc Hg Ho]. split; cbn; auto.
  - destruct Hf as [Hb _ Hm Hc Hg Ho]. split; cbn; auto.
  - destruct (fo_phase f) eqn:E; [|done..]. assert (Hr := follow_inv_read runtime f Hf E).
    by destruct (try_next_feedback h runtime f).
  - destruct (fo_task f); try done. destruct (overflow_raised f) eqn:E; [|done]. by destruct Hf.
  - destruct (fo_phase f) eqn:E; [|done..].
    assert (Hrd : fr_reader (fo_run f) = true) by tauto.
    apply (follow_inv_buffer f ReaderLeaves FeedbackDropped); [done|..]; unfold feedback_act; by rewrite Hrd.
  - destruct (fo_phase f) eqn:E; [done| |done].
    assert (Hd : follow_inv (with_phase HandleDropped f)).
    { destruct Hf as [Hb _ Hm Hc Hg Ho]. split; cbn; auto. rewrite Hph. done. }
    cbn. destruct (fo_task f); try done.
    destruct (overflow_raised _); [done|]. by apply follow_inv_task.
Qed.

Lemma follow_inv_run schedule f : follow_inv f → follow_inv (follow_run h schedule f).
Proof. revert f. induction schedule as [|s schedule IH]; intros f Hf; [done|]. cbn. by apply IH, follow_inv_act. Qed.
End follow_inv.

(** C28: What a client reads is the feedback of its goal: whatever the transport,
    the watch and the client do in whatever order, the messages its reads gave
    are the first ones published, in order and without a gap, and none past the
    end. A read that says the stream closed, unless the transport closed the
    channel (which may lose what was not delivered yet), comes when the provider
    ended the stream, and every message before the end was read then. A read that says the producer is gone, or that the
    client fell behind, is right. *)
Theorem feedback_reads_exact `{FlumeLaws} h bound published schedule :
  let f := follow_run h schedule (follow_start bound published) in
  let handed := fr_handed (fo_run f) in
  read_messages (fo_reads f) `prefix_of` before_end handed ∧
  (Err ActionFeedbackChannelClosed ∈ fo_reads f → fo_closed f = false →
     read_messages (fo_reads f) = before_end handed ∧ ¬ no_end handed) ∧
  (Err (producer_gone_error (gh_sender h)) ∈ fo_reads f → fo_gone f = true) ∧
  (Err (overflow_error h) ∈ fo_reads f → overflow_raised f = true).
Proof.
  cbn zeta. assert (Hinv := follow_inv_run h _ schedule _ (follow_inv_start h _ published bound eq_refl)).
  set (f := follow_run _ _ _) in *. destruct Hinv as [Hb _ Hm Hc Hg Ho].
  assert (Hp := feedback_inv_prefix _ _ Hb). rewrite Hm. unfold before_end. split_and!; [..|done|done].
  - destruct Hp as [k ->]. rewrite data_app. by apply prefix_app_r.
  - intros Hin Hopen. apply Hc in Hin as [?|Hno]; [congruence|].
    by destruct (prefix_past_end _ _ Hp Hno) as [-> ?].
Qed.

(** *** The cancel of a goal that overflowed *)

Section overflow.
Context `{Flume} (h : ActionGoalHandle).

Record task_inv (f : Following) : Prop := mkTaskInv {
  tk_spawned : fo_task f ≠ NoTask → goal_is_accepted (gh_answer h) = true ∧ fo_reads f ≠ [];
  tk_sent : fo_task f = TaskSent → overflow_raised f = true ∧ fo_cancels f = 1;
  tk_quiet : fo_task f ≠ TaskSent → fo_cancels f = 0;
  tk_aborted : fo_task f = TaskAborted → fo_phase f = HandleDropped;
}.

(** The task will send its cancel, or did. *)
Definition armed (f : Following) : Prop :=
  overflow_raised f = true ∧ (fo_task f = TaskWaits ∨ fo_task f = TaskSent).

Lemma read_keeps runtime f :
  let '(o, f') := try_next_feedback h runtime f in
  (overflow_raised f = true → overflow_raised f' = true) ∧ fo_task f' = fo_task (follow_feedback h runtime f) ∧
  fo_phase f' = fo_phase f ∧ fo_cancels f' = fo_cancels f.
Proof.
  unfold try_next_feedback. destruct (follow_feedback_same h runtime f) as [t ->].
  destruct (overflow_raised (with_task t f)) eqn:E; [done|]. unfold next_message.
  destruct (try_recv _).1; follow_simpl; split; try done; unfold overflow_raised in *; cbn in E; congruence.
Qed.

Lemma follow_feedback_task runtime f :
  fo_task (follow_feedback h runtime f) = fo_task f ∨
  (fo_task f = NoTask ∧ fo_task (follow_feedback h runtime f) = TaskWaits ∧
   goal_is_accepted (gh_answer h) = true ∧ runtime = true).
Proof.
  unfold follow_feedback. destruct (fo_task f) eqn:E, (goal_is_accepted (gh_answer h)), runtime; cbn;
    rewrite ?E; auto.
Qed.

Lemma raised_act f step : overflow_raised f = true → overflow_raised (follow_act h f step) = true.
Proof.
  intros Ho. destruct step as [| | |runtime| | |]; cbn; try done.
  - destruct (fo_closed f); [done|]. by apply (feedback_act_mono (fo_run f) Transport).
  - destruct (fo_phase f); [|done..]. assert (Hr := read_keeps runtime f).
    destruct (try_next_feedback h runtime f) as [o f']. apply Hr in Ho. done.
  - destruct (fo_task f); try done. by rewrite Ho.
  - destruct (fo_phase f); [|done..]. by apply (feedback_act_mono (fo_run f) ReaderLeaves).
  - destruct (fo_phase f); [done| |done]. unfold overflow_raised in *. cbn.
    destruct (fo_task f); cbn; rewrite ?Ho; done.
Qed.

Lemma task_inv_act f step : task_inv f → task_inv (follow_act h f step).
Proof.
  intros Hf. assert (Hmono := raised_act f step). destruct (Hf) as [Hsp Hs Hq Ha].
  destruct step as [| | |runtime| | |]; cbn in *; try done.
  - destruct (fo_closed f); [done|]. split; cbn; auto. intros Ht. destruct (Hs Ht). auto.
  - destruct (fo_phase f) eqn:Hph; [|done..]. assert (Hr := read_keeps runtime f).
    destruct (try_next_feedback h runtime f) as [o f']. destruct Hr as (_ & Ht & Hp & Hc).
    assert (Hnon : fo_reads f' ++ [o] ≠ []) by (by intros [_ ?]%app_eq_nil).
    destruct (follow_feedback_task runtime f) as [Heq|(Hn & Heq & Hacc & _)].
    + split; cbn; rewrite Ht, Heq, ?Hc, ?Hp; [|..]; auto.
      * intros Hne. by destruct (Hsp Hne).
      * intros Hts. destruct (Hs Hts). auto.
      * rewrite Hph. auto.
    + split; cbn; rewrite Ht, Heq, ?Hc; try done. intros _. apply Hq. by rewrite Hn.
  - destruct (fo_task f) eqn:Ht; try done. destruct (overflow_raised f) eqn:Ho; [|by split; rewrite ?Ht].
    split; cbn; try done; [intros _; by apply Hsp|]. intros _. rewrite Hq by done. auto.
  - destruct (fo_phase f) eqn:Hph; [|done..]. split; cbn; auto.
    + intros Ht. destruct (Hs Ht). auto.
    + intros Ht. specialize (Ha Ht). congruence.
  - destruct (fo_phase f) eqn:Hph; [done| |done]. cbn.
    destruct (fo_task f) eqn:Ht; try (split; cbn; rewrite ?Ht; by auto).
    destruct (overflow_raised _) eqn:Ho; split; cbn; rewrite ?Ht; try done; auto; intros _; by apply Hsp.
Qed.

Lemma armed_act f step : armed f → armed (follow_act h f step).
Proof.
  intros [Ho Ht]. split; [by apply raised_act|]. destruct step as [| | |runtime| | |]; cbn; try done.
  - by destruct (fo_closed f).
  - destruct (fo_phase f); [|done..]. assert (Hr := read_keeps runtime f).
    destruct (try_next_feedback h runtime f) as [o f']. destruct Hr as (_ & Htask & _). cbn. rewrite Htask.
    destruct (follow_feedback_task runtime f) as [->|(_ & -> & _)]; auto.
  - destruct Ht as [Ht|Ht]; rewrite Ht; [|auto]. rewrite Ho. auto.
  - by destruct (fo_phase f).
  - destruct (fo_phase f); [done| |done]. cbn. destruct Ht as [Ht|Ht]; rewrite Ht; [|auto].
    unfold overflow_raised in *. cbn. rewrite Ho. auto.
Qed.

Lemma follow_run_inv (P : Following → Prop) schedule f :
  (∀ f step, P f → P (follow_act h f step)) → P f → P (follow_run h schedule f).
Proof. intros Hact. revert f. induction schedule as [|s schedule IH]; intros f Hf; [done|]. apply IH. by apply Hact. Qed.

Lemma phase_held f step : fo_phase (follow_act h f step) = Held → fo_phase f = Held.
Proof.
  destruct step as [| | |runtime| | |]; cbn; try done.
  - by destruct (fo_closed f).
  - destruct (fo_phase f) eqn:E; [done|by rewrite E..].
  - by destruct (fo_task f), (overflow_raised f).
  - destruct (fo_phase f) eqn:E; [done|by rewrite E..].
  - destruct (fo_phase f) eqn:E; [done| |by rewrite E].
    cbn. destruct (fo_task f); try done. by destruct (overflow_raised _).
Qed.

(** A read in a runtime has spawned the task, of a handle that is still held. *)
Lemma read_spawns schedule f :
  goal_is_accepted (gh_answer h) = true → fo_phase (follow_run h schedule f) = Held →
  Reads true ∈ schedule → fo_task (follow_run h schedule f) ≠ NoTask.
Proof.
  intros Hacc. revert schedule. refine (rev_ind _ _ _); [by intros _ ?%elem_of_nil|].
  intros step schedule IH. unfold follow_run. rewrite fold_left_app. cbn [fold_left].
  set (g := fold_left (follow_act h) schedule f). intros Hph Hin. apply phase_held in Hph as Hheld.
  assert (Hkeep : fo_task g ≠ NoTask → fo_task (follow_act h g step) ≠ NoTask).
  { intros Hne. destruct step as [| | |runtime| | |]; cbn; try done.
    - by destruct (fo_closed g).
    - rewrite Hheld. assert (Hr := read_keeps runtime g).
      destruct (try_next_feedback h runtime g) as [o f']. destruct Hr as (_ & Ht & _). cbn. rewrite Ht.
      by destruct (follow_feedback_task runtime g) as [->|(_ & -> & _)].
    - destruct (fo_task g) eqn:E; rewrite ?E; try done. by destruct (overflow_raised g); rewrite ?E.
    - by rewrite Hheld.
    - by rewrite Hheld. }
  apply elem_of_app in Hin as [Hin|Hin%list_elem_of_singleton]; [by apply Hkeep, IH|]. subst step. cbn.
  rewrite Hheld. assert (Hr := read_keeps true g).
  destruct (try_next_feedback h true g) as [o f']. destruct Hr as (_ & Ht & _). cbn. rewrite Ht.
  unfold follow_feedback. destruct (fo_task g) eqn:E; rewrite ?E; try done. by rewrite Hacc.
Qed.

Lemma armed_sends later f : task_inv f → armed f → TaskPolled ∈ later → fo_cancels (follow_run h later f) = 1.
Proof.
  intros Hinv Ha Hin. apply list_elem_of_split in Hin as (l1 & l2 & ->). unfold follow_run.
  rewrite fold_left_app. cbn [fold_left].
  assert (Ha1 : armed (follow_run h l1 f)) by (apply follow_run_inv; [apply armed_act|done]).
  assert (Hi1 : task_inv (follow_run h l1 f)) by (apply follow_run_inv; [apply task_inv_act|done]).
  unfold follow_run in Ha1, Hi1. set (g := fold_left (follow_act h) l1 f) in *.
  assert (Hsent : fo_task (follow_act h g TaskPolled) = TaskSent)
    by (destruct Ha1 as [Ho [Ht|Ht]]; cbn; rewrite Ht, ?Ho; done).
  apply (task_inv_act g TaskPolled) in Hi1. apply (armed_act g TaskPolled) in Ha1.
  set (g1 := follow_act h g TaskPolled) in *. clearbody g1. clear Ha Hinv g.
  assert (Hend : ∀ k, task_inv k ∧ fo_task k = TaskSent → fo_cancels k = 1) by (intros k [Hk Ht]; by apply Hk).
  apply Hend. apply (follow_run_inv (λ k, task_inv k ∧ fo_task k = TaskSent)); [|done].
  intros k step [Hk Ht]. split; [by apply task_inv_act|].
  destruct step as [| | |runtime| | |]; cbn; try done.
  - by destruct (fo_closed k).
  - destruct (fo_phase k); [|done..]. assert (Hr := read_keeps runtime k).
    destruct (try_next_feedback h runtime k) as [o f']. destruct Hr as (_ & Htask & _). cbn. rewrite Htask.
    unfold follow_feedback. by rewrite Ht.
  - by rewrite Ht.
  - by destruct (fo_phase k).
  - destruct (fo_phase k); [done| |done]. cbn. by rewrite Ht.
Qed.
End overflow.

(** C29: A client that reads the feedback of an accepted goal and falls behind
    cancels the goal, once: the handle never sends more than one cancel, and
    sends it only when the feedback overflowed and was read. Once it was read
    in a runtime and overflowed while the handle is held, the cancel goes out
    when its task runs next, whatever happens before, the drop of the handle
    included. *)
Theorem overflow_cancels_once `{Flume} h bound published schedule :
  let f := follow_run h schedule (follow_start bound published) in
  fo_cancels f ≤ 1 ∧
  (fo_cancels f = 1 → overflow_raised f = true ∧ goal_is_accepted (gh_answer h) = true ∧ fo_reads f ≠ []) ∧
  (Reads true ∈ schedule → goal_is_accepted (gh_answer h) = true → fo_phase f = Held → overflow_raised f = true →
   ∀ later, TaskPolled ∈ later → fo_cancels (follow_run h later f) = 1).
Proof.
  cbn zeta. assert (Hinv : task_inv h (follow_run h schedule (follow_start bound published)))
    by (apply follow_run_inv; [apply task_inv_act|done]).
  assert (Hspawn := read_spawns h schedule (follow_start bound published)).
  set (f := follow_run _ _ _) in *. destruct (Hinv) as [Hsp Hs Hq Ha].
  assert (Hdec : fo_task f = TaskSent ∨ fo_task f ≠ TaskSent) by (destruct (fo_task f); auto). split_and!.
  - destruct Hdec as [Ht|Ht]; [destruct (Hs Ht)|apply Hq in Ht]; lia.
  - intros Hc. destruct Hdec as [Ht|Hn%Hq]; [|lia]. destruct (Hs Ht). split; [done|]. apply Hsp. by rewrite Ht.
  - intros Hr Hacc Hph Ho later Hl. apply armed_sends; [done| |done]. split; [done|].
    specialize (Hspawn Hacc Hph Hr). destruct (fo_task f) eqn:E; auto; [done|]. specialize (Ha eq_refl). congruence.
Qed.

(** ** Asking for the result *)

Record ActionResultReply : Type := mkResultReply {
  rr_outcome : GoalOutcome;
  rr_instance_id : string;
  rr_core_node : string;
}.

Definition abandoned_reply (s : ActionWireSender) : ActionResultReply :=
  mkResultReply Abandoned (default EmptyString (aw_target_instance_id s)) (default EmptyString (aw_target_core_node s)).

Definition map_result_error (err : ServiceError) (action_name : string) : ActionError :=
  match err with
  | ServiceTimeout instance_id _ => ActionResultTimeout instance_id action_name
  | ServiceUnreachable instance_id _ => ActionResultUnreachable instance_id action_name
  | other => ServiceErr other
  end.

Definition is_transport_miss (err : ActionError) : bool :=
  match err with ActionResultTimeout _ _ | ActionResultUnreachable _ _ => true | _ => false end.

(** [probe] is what the liveliness probe gives, when it is asked. *)
Definition resolve_failed_result_poll (s : ActionWireSender) (err : ActionError) (probe : result string bool) :
    result ActionError ActionResultReply :=
  if negb (is_transport_miss err) then Err err
  else if match probe with Ok alive => alive | Err _ => true end then Err err
  else Ok (abandoned_reply s).

(** The queries of a result request, and what it returned; [None] while it runs. *)
Definition request_result_with_sender (s : ActionWireSender) (goal_id : string) (started result_timeout : Z)
    (script : list CallAttempt) (probe : result string bool) :
    list Issue * option (result ActionError ActionResultReply) :=
  match wrap_goal_payload goal_id [] with
  | Err err => ([], Some (Err (EnvelopeErr err)))
  | Ok _ =>
      let '(queries, r) := poll_service (action_service KActionResult s) started (Some result_timeout) script in
      (queries,
       match r with
       | None => None
       | Some (Err err) =>
           Some (resolve_failed_result_poll s (map_result_error err (aw_to_action_name s)) probe)
       | Some (Ok m) =>
           Some (outcome ← map_err EnvelopeErr (unwrap_result_outcome (m_payload m));
                 Ok (mkResultReply outcome (m_instance_id m) (m_core_node m)))
       end)
  end.

(** [gone] is the latch of the handle. *)
Definition request_result (h : ActionGoalHandle) (gone : bool) (started result_timeout : Z)
    (script : list CallAttempt) (probe : result string bool) :
    list Issue * option (result ActionError ActionResultReply) :=
  if gone then ([], Some (Ok (abandoned_reply (gh_sender h))))
  else request_result_with_sender (gh_sender h) (gh_goal_id h) started result_timeout script probe.

Definition result_body (action_name : string) (reply : ActionResultReply) : result ActionError bytes :=
  let instance_id :=
    if bool_decide (rr_instance_id reply = EmptyString) then None else Some (rr_instance_id reply) in
  match rr_outcome reply with
  | Completed result => Ok result
  | Cancelled reason _ => Err (ActionGoalCancelled instance_id action_name reason)
  | OutcomeFailed failure => Err (ActionGoalFailed instance_id action_name failure)
  | Abandoned => Err (ActionGoalAbandoned instance_id action_name)
  | Expired => Err (ActionResultExpired instance_id action_name)
  end.

Definition request_result_body (h : ActionGoalHandle) (gone : bool) (started result_timeout : Z)
    (script : list CallAttempt) (probe : result string bool) : list Issue * option (result ActionError bytes) :=
  let '(queries, r) := request_result h gone started result_timeout script probe in
  (queries, (λ r, reply ← r; result_body (aw_to_action_name (gh_sender h)) reply) <$> r).

(** *** What a result request gives *)

(** What the call read last. *)
Definition result_read (started timeout : Z) (script : list CallAttempt) (replies : list ServiceReply) : Prop :=
  ∃ before a rest, script = before ++ a :: rest ∧ Forall (unreached (Some (started + timeout)%Z)) before ∧
    replies = replies_read (Some (started + timeout)%Z) a.

Lemma request_result_inv h started timeout script probe queries reply :
  request_result h false started timeout script probe = (queries, Some (Ok reply)) →
  ∃ replies, result_read started timeout script replies ∧
    ((∃ m, List.find is_terminal replies = Some (ResponseReply m) ∧
        unwrap_result_outcome (m_payload m) = Ok (rr_outcome reply) ∧
        rr_instance_id reply = m_instance_id m ∧ rr_core_node reply = m_core_node m) ∨
     (List.find is_terminal replies = None ∧ probe = Ok false ∧ reply = abandoned_reply (gh_sender h))).
Proof.
  unfold request_result, request_result_with_sender. destruct (wrap_goal_payload _ _) as [w|]; [|done].
  destruct (poll_service _ _ _ _) as [queries0 r] eqn:Hp. intros [= <- Hr].
  destruct r as [r|]; [|done]. unfold poll_service in Hp.
  destruct (poll_loop_splits _ _ script queries0 _ Hp) as (before & a & rest & issues & -> & Hb & Hl & _).
  destruct (last_gives_answer _ _ a issues _ Hl) as [Ha _]. cbn [fmap option_fmap option_map] in *.
  exists (replies_read (Some (started + timeout)%Z) a). split; [by exists before, a, rest|].
  destruct r as [m|err].
  - left. exists m. split; [done|]. destruct (unwrap_result_outcome (m_payload m)); [|done].
    by injection Hr as <-.
  - right. unfold resolve_failed_result_poll in Hr.
    destruct err as [? ?|? ?|? ? ?|? ?|?|?]; cbn in Hr, Ha; try done; destruct probe as [[]|]; try done;
      injection Hr as <-; split; try done; [by rewrite Ha|by destruct Ha].
Qed.

Lemma completed_wire wire payload :
  unwrap_result_outcome wire = Ok (Completed payload) ↔ wire = wrap_result_outcome (Completed payload).
Proof.
  split; [|by intros ->]. unfold unwrap_result_outcome. destruct wire as [|tag body]; [done|].
  cbn [head ok_or mbind result_bind drop skipn]. rewrite drop_0.
  destruct (ResultStatus_from_tag (u8 tag)) as [s|] eqn:Hs; [|done]. cbn [ok_or mbind result_bind].
  apply ResultStatus_tag_exact in Hs. assert (Ht : tag = as_u8 (ResultStatus_tag s)) by (by rewrite <-Hs, as_u8_u8).
  subst tag. destruct s; try done.
  - by intros [= <-].
  - intros Hb. by repeat (destruct (ok_or _ _); cbn in Hb; try done).
  - by destruct (Failure_decode body).
Qed.

(** C31: A client gets a result only from its goal's provider: a request for the
    result gives a payload only when the last attempt of its call read, as its
    first terminal reply, the very bytes that wrapping a completed outcome with
    that payload gives. And it takes the goal for abandoned with no word from
    the provider only when the watch said that the producer is gone, or when no
    answer was read and a probe found no token: a probe that fails never ends
    the goal. *)
Theorem result_is_the_providers h gone started timeout script probe queries :
  (∀ payload, request_result_body h gone started timeout script probe = (queries, Some (Ok payload)) →
     gone = false ∧ ∃ replies m, result_read started timeout script replies ∧
       List.find is_terminal replies = Some (ResponseReply m) ∧
       m_payload m = wrap_result_outcome (Completed payload)) ∧
  (∀ reply, request_result h gone started timeout script probe = (queries, Some (Ok reply)) →
     rr_outcome reply = Abandoned →
     (gone = true ∧ queries = []) ∨
     ∃ replies, result_read started timeout script replies ∧
       ((∃ m, List.find is_terminal replies = Some (ResponseReply m) ∧
           unwrap_result_outcome (m_payload m) = Ok Abandoned) ∨
        (List.find is_terminal replies = None ∧ probe = Ok false))).
Proof.
  split.
  - intros payload. unfold request_result_body.
    destruct (request_result h gone started timeout script probe) as [q r] eqn:Hr. intros [= -> Hb].
    destruct r as [[reply|err]|]; cbn in Hb; [|done..]. injection Hb as Hb.
    assert (Ho : rr_outcome reply = Completed payload)
      by (unfold result_body in Hb; destruct (rr_outcome reply); congruence).
    destruct gone.
    { unfold request_result in Hr. injection Hr as _ <-. done. }
    split; [done|]. apply request_result_inv in Hr as (replies & Hread & [(m & Hm & Hw & _)|(_ & _ & ->)]); [|done].
    rewrite Ho in Hw. apply completed_wire in Hw. by exists replies, m.
  - intros reply Hr Ho. destruct gone.
    { left. unfold request_result in Hr. by injection Hr as <- _. }
    right. apply request_result_inv in Hr as (replies & Hread & Hcase). exists replies. split; [done|].
    destruct Hcase as [(m & Hm & Hw & _)|(Hf & Hp & _)]; [left|by right]. exists m. by rewrite Hw, Ho.
Qed.

(** ** Example goals *)

Definition example_handle : ActionGoalHandle :=
  mkGoalHandle example_action "00000000000000a1" (Accepted []) "arm" "hub" 1.

(** A client that reads once, falls behind by two messages, and leaves. *)
Definition example_behind : list FollowStep :=
  [Reads true; Delivers; Delivers; Delivers; Delivers].

Lemma overflow_cancels_once_witness :
  let f := @follow_run list_flume example_handle example_behind
             (@follow_start list_flume 1 [example_a; example_b]) in
  overflow_raised f = true ∧
  fo_cancels (@follow_run list_flume example_handle [DropsFeedback; DropsRest; TaskPolled; TaskPolled] f) = 1.
Proof.
  split; [vm_compute; reflexivity|].
  refine (proj2 (proj2 (@overflow_cancels_once list_flume example_handle 1 [example_a; example_b] example_behind))
    _ _ _ _ _ _); [left|reflexivity|vm_compute; reflexivity|vm_compute; reflexivity|].
  right. right. left.
Defined.

(** A client that reads a whole stream. *)
Definition example_reads : list FollowStep :=
  [Delivers; Delivers; Reads true; Delivers; Delivers; Reads true; Delivers; Delivers; GoneLatched; Reads true;
   Reads true].

Lemma feedback_reads_exact_witness :
  let f := @follow_run list_flume example_handle example_reads
             (@follow_start list_flume 1 [example_a; example_b; example_message []; example_c]) in
  fo_reads f = [Ok (Some example_a); Ok (Some example_b); Err ActionFeedbackChannelClosed;
                Err (producer_gone_error example_action)] ∧
  read_messages (fo_reads f) = before_end (fr_handed (fo_run f)) ∧ fo_gone f = true.
Proof.
  intros f.
  assert (Hreads : fo_reads f = [Ok (Some example_a); Ok (Some example_b); Err ActionFeedbackChannelClosed;
                                 Err (producer_gone_error example_action)]) by (vm_compute; reflexivity).
  assert (Hopen : fo_closed f = false) by (vm_compute; reflexivity).
  pose proof (@feedback_reads_exact list_flume list_flume_laws example_handle 1
    [example_a; example_b; example_message []; example_c] example_reads) as H.
  cbv zeta in H. fold f in H. clearbody f. destruct H as (_ & Hclosed & Hgone & _). rewrite Hreads in Hclosed, Hgone |- *.
  split; [reflexivity|]. split; [apply Hclosed; [right; right; left|exact Hopen]|].
  apply Hgone. right. right. right. left.
Defined.
